(** * kobo-tools: the image reconciliation engine

    A shallow embedding of the reconciliation core of the KoBo image
    file-system updater: the dynamic checks of [modules/checks.js], the
    attachment matcher and hash helpers of [modules/utils.js], the action-map
    builder and the action executor of [configs/globals.js]
    ([buildActionMap], [updateImages]), the download cycle of
    [modules/kobo-imgs-fs.js] ([saveImage]) and the orphan sweeper of
    [modules/image-cleaner.js] ([ImageCleaner]).

    Conventions of the embedding.
    - JavaScript numbers are integers of [Z] (record ids, attachment ids, byte
      counts, the 32-bit words of a hash); fractional numbers and NaN are not
      modelled.
    - A thrown exception is the [Throw] constructor of [res]; a [try]/[catch]
      is a [match] on it.
    - The media server, the image decoder, the clock and the digest are the
      fields of an environment [env]; the local disk is a [world].
    - Log lines and progress bars are not modelled. *)

From Stdlib Require Import String Ascii ZArith List Bool Lia DecimalString.
From Stdlib Require DecimalZ DecimalPos.
From stdpp Require Import gmap strings.
Import ListNotations.

Local Open Scope string_scope.
Local Open Scope Z_scope.
Local Set Warnings "-register-all".

(** ** Exceptions and the error monad *)

(** The types named by the second argument of [check] and [isOfType]. *)
Inductive jstype : Type :=
| TArray | TString | TNumber | TBoolean | TObject | TFunction | TBuffer.

(** JavaScript values, as far as JSON and the checks can tell them apart. *)
Inductive jsval : Type :=
| JUndefined
| JNull
| JBool (b : bool)
| JNum (n : Z)
| JStr (s : string)
| JArr (elems : list jsval)
| JObj (props : list (string * jsval)).

(** [CheckError t arg] is the error of [check]: "expected t in @arg: arg".
    [Error msg] is [new Error(msg)]; [TypeError msg] a property read on
    [null] or [undefined]. *)
Inductive exn : Type :=
| CheckError (expected : jstype) (arg : jsval)
| Error (message : string)
| TypeError (message : string).

Inductive res (A : Type) : Type :=
| OK (a : A)
| Throw (e : exn).
Arguments OK {A} a.
Arguments Throw {A} e.

Definition bind {A B : Type} (r : res A) (k : A -> res B) : res B :=
  match r with
  | OK a => k a
  | Throw e => Throw e
  end.

Notation "'do' x <- r ; k" := (bind r (fun x => k))
  (at level 10, x name, r at level 100, k at level 200).
Notation "'do_' r ; k" := (bind r (fun _ => k))
  (at level 10, r at level 100, k at level 200).

Definition string_of_Z (z : Z) : string := NilZero.string_of_int (Z.to_int z).

(** ** modules/checks.js *)

Module Checks.

(** [!!arg] *)
Definition truthy (arg : jsval) : bool :=
  match arg with
  | JUndefined | JNull => false
  | JBool b => b
  | JNum n => negb (n =? 0)
  | JStr s => negb (String.eqb s EmptyString)
  | JArr _ | JObj _ => true
  end.

Definition isOfType (arg : jsval) (type : jstype) : bool :=
  match type with
  | TArray => match arg with JArr _ => true | _ => false end
  | TString => match arg with JStr _ => true | _ => false end
  | TNumber => match arg with JNum _ => true | _ => false end
  | TBoolean => match arg with JBool _ => true | _ => false end
  | TObject => match arg with JNull | JArr _ | JObj _ => true | _ => false end
  | TFunction => false
  | TBuffer => false
  end.

Inductive condition : Type :=
| ifExists | mustExists | ifDefined | defined | type.

Definition is_undefined (arg : jsval) : bool :=
  match arg with JUndefined => true | _ => false end.

Definition is_null (arg : jsval) : bool :=
  match arg with JNull => true | _ => false end.

Definition check (arg : jsval) (c : condition) (expectedType : jstype) : res unit :=
  match c with
  | ifExists =>
      if truthy arg && negb (isOfType arg expectedType)
      then Throw (CheckError expectedType arg) else OK tt
  | mustExists =>
      if negb (truthy arg) || negb (isOfType arg expectedType)
      then Throw (CheckError expectedType arg) else OK tt
  | ifDefined =>
      if negb (is_undefined arg) && negb (isOfType arg expectedType)
      then Throw (CheckError expectedType arg) else OK tt
  | defined =>
      if is_undefined arg || negb (isOfType arg expectedType)
      then Throw (CheckError expectedType arg) else OK tt
  | type =>
      if negb (isOfType arg expectedType)
      then Throw (CheckError expectedType arg) else OK tt
  end.

Inductive confirmation : Type :=
| c_exists | c_notExists | c_null | c_notNull | c_defined | c_notdefined.

Definition confirm (arg : jsval) (c : confirmation) : bool :=
  match c with
  | c_exists => truthy arg
  | c_notExists => negb (truthy arg)
  | c_null => is_null arg
  | c_notNull => negb (is_null arg)
  | c_defined => negb (is_undefined arg)
  | c_notdefined => is_undefined arg
  end.

End Checks.
Import Checks.

(** [o.k] on a value that is neither [null] nor [undefined]: the own property
    of an object, [undefined] on anything else. *)
Fixpoint assoc {A : Type} (k : string) (l : list (string * A)) : option A :=
  match l with
  | [] => None
  | (k', v) :: l' => if String.eqb k k' then Some v else assoc k l'
  end.

Definition get (o : jsval) (k : string) : jsval :=
  match o with
  | JObj props => match assoc k props with Some v => v | None => JUndefined end
  | _ => JUndefined
  end.

Definition js_opt_str (o : option string) : jsval :=
  match o with Some s => JStr s | None => JUndefined end.

(** ** Strings: [String.prototype.lastIndexOf] *)

Fixpoint drop_str (k : nat) (s : string) : string :=
  match k, s with
  | O, _ => s
  | S k', String _ s' => drop_str k' s'
  | S _, EmptyString => EmptyString
  end.

(** The greatest index [i <= k] at which [pat] occurs in [s], or [-1]. *)
Fixpoint lastIndexOf_from (s pat : string) (k : nat) : Z :=
  if String.prefix pat (drop_str k s) then Z.of_nat k
  else match k with
       | O => -1
       | S k' => lastIndexOf_from s pat k'
       end.

Definition lastIndexOf (s pat : string) : Z :=
  if (String.length pat <=? String.length s)%nat
  then lastIndexOf_from s pat (String.length s - String.length pat)
  else -1.

Definition str_len (s : string) : Z := Z.of_nat (String.length s).

(** ** modules/utils.js: the attachment matcher *)

(** An attachment descriptor of a submission's [_attachments] array. *)
Record Attachment : Type := {
  mimetype : string;
  download_url : string;
  filename : string;
  instance : Z;
  id : Z;
  xform : Z
}.

Module Utils.

(** [/^image/.test(mimetype)] *)
Definition image_mimetype (m : string) : bool := String.prefix "image" m.

(** The filename test of the loop: [false] is the "no match" [continue]. *)
Definition filename_matches (name : string) (a : Attachment) : bool :=
  let liofn := lastIndexOf (filename a) name in
  negb ((liofn =? -1) || negb (liofn =? str_len (filename a) - str_len name)).

(** The body of [for(let i=0; i<attachments.length; i++)], with [result] the
    loop-carried variable. *)
Fixpoint findAttachment_loop (name : string) (attachments : list Attachment)
    (result : option Attachment) : res (option Attachment) :=
  match attachments with
  | [] => OK result
  | a :: rest =>
      do_ check (JStr (mimetype a)) mustExists TString;
      do_ check (JStr (download_url a)) mustExists TString;
      do_ check (JStr (filename a)) mustExists TString;
      do_ check (JNum (instance a)) defined TNumber;
      do_ check (JNum (id a)) defined TNumber;
      if negb (image_mimetype (mimetype a)) then findAttachment_loop name rest result
      else if negb (filename_matches name a) then findAttachment_loop name rest result
      else match result with
           | None => findAttachment_loop name rest (Some a)
           | Some r =>
               if id a >? id r then findAttachment_loop name rest (Some a)
               else findAttachment_loop name rest result
           end
  end.

(** [findAttachment(name, attachments, id)]; [OK None] is [null]. *)
Definition findAttachment (name : string) (attachments : list Attachment)
    (id : Z) : res (option Attachment) :=
  do_ check (JStr name) mustExists TString;
  do_ check (JNum id) defined TNumber;
  if String.eqb name EmptyString then OK None
  else match attachments with
       | [] => OK None
       | _ => findAttachment_loop name attachments None
       end.

(** [buildImageName(prefix, name)] *)
Definition buildImageName (prefix name : string) : res string :=
  do_ check (JStr prefix) mustExists TString;
  do_ check (JStr name) mustExists TString;
  OK (prefix +:+ "_" +:+ name).

End Utils.

(** ** configs/globals.js: the action-map builder *)

(** The three values of an entry's [action]. *)
Module Action.
Inductive t : Type := keep | delete | none.
Definition eqb (a b : t) : bool :=
  match a, b with
  | keep, keep | delete, delete | none, none => true
  | _, _ => false
  end.
End Action.

(** An image field of the form: its ["$autoname"]. XLSForm names start with a
    letter or an underscore, so no autoname is an array index and
    [Object.entries] lists the fields in insertion order. *)
Record imgField : Type := { autoname : string }.

(** A submission as [getAssetsSubmissions] hands it on: ["@images_map"] binds
    each image field's autoname to the array of the one-entry objects
    [{key: value}] that the jq filter found for it. The answer of an image
    question is a string (the name of the picture). *)
Record submission : Type := {
  _attachments : list Attachment;
  images_map : list (string * list (list (string * string)));
  _id : Z
}.

Record asset : Type := {
  uid : string;
  name : string;
  imgs : list imgField;
  submissions : list submission
}.

(** [{ value, attachment, action, subm_mapped_key, warning }]; [None] is
    [undefined] for [value], [subm_mapped_key] and [warning], [null] for
    [attachment]. *)
Record entry : Type := {
  value : option string;
  attachment : option Attachment;
  action : Action.t;
  subm_mapped_key : option string;
  warning : option string
}.

(** One element of [asset.map]: the record id and, in [Object.entries] order,
    the entry of each image field. *)
Record emap : Type := {
  emap_id : Z;
  emap_entries : list (string * entry)
}.

(** [o[k] = v] on an object: an existing key keeps its place. *)
Fixpoint set_prop {A : Type} (k : string) (v : A) (o : list (string * A))
    : list (string * A) :=
  match o with
  | [] => [(k, v)]
  | (k', v') :: o' =>
      if String.eqb k k' then (k, v) :: o' else (k', v') :: set_prop k v o'
  end.

Record mapCounters : Type := {
  mc_keeps : Z;
  mc_deletes : Z;
  mc_nones : Z;
  mc_totalActions : Z;
  mc_warnings : option Z
}.

(** [{...asset, map, mapCounters}] *)
Record mapped_asset : Type := {
  ma_asset : asset;
  map : list emap;
  ma_mapCounters : mapCounters
}.

Module Builder.

(** The counters and accumulators that [buildActionMap] mutates. *)
Record state : Type := {
  totalKeeps : Z;
  totalDeletes : Z;
  totalNones : Z;
  totalWarnings : Z;
  totalActions : Z;
  keeps : Z;
  deletes : Z;
  nones : Z;
  _totalActions : Z;
  warnings : list string
}.

Definition init : state :=
  {| totalKeeps := 0; totalDeletes := 0; totalNones := 0; totalWarnings := 0;
     totalActions := 0; keeps := 0; deletes := 0; nones := 0;
     _totalActions := 0; warnings := [] |}.

(** The per-asset counters start again at each asset. *)
Definition reset_asset (st : state) : state :=
  {| totalKeeps := totalKeeps st; totalDeletes := totalDeletes st;
     totalNones := totalNones st; totalWarnings := totalWarnings st;
     totalActions := totalActions st; keeps := 0; deletes := 0; nones := 0;
     _totalActions := 0; warnings := [] |}.

Definition count_none (w : string) (st : state) : state :=
  {| totalKeeps := totalKeeps st; totalDeletes := totalDeletes st;
     totalNones := totalNones st + 1; totalWarnings := totalWarnings st + 1;
     totalActions := totalActions st + 1; keeps := keeps st;
     deletes := deletes st; nones := nones st + 1;
     _totalActions := _totalActions st + 1; warnings := warnings st ++ [w] |}.

Definition count_keep (st : state) : state :=
  {| totalKeeps := totalKeeps st + 1; totalDeletes := totalDeletes st;
     totalNones := totalNones st; totalWarnings := totalWarnings st;
     totalActions := totalActions st + 1; keeps := keeps st + 1;
     deletes := deletes st; nones := nones st;
     _totalActions := _totalActions st + 1; warnings := warnings st |}.

Definition count_delete (st : state) : state :=
  {| totalKeeps := totalKeeps st; totalDeletes := totalDeletes st + 1;
     totalNones := totalNones st; totalWarnings := totalWarnings st;
     totalActions := totalActions st + 1; keeps := keeps st;
     deletes := deletes st + 1; nones := nones st;
     _totalActions := _totalActions st + 1; warnings := warnings st |}.

(** The template string of the 'none' warning. *)
Definition none_warning (rid : Z) (field v : string) : string :=
  "this field has an image name defined, but no attachment exist for it - record: "
  +:+ string_of_Z rid +:+ ", field: " +:+ field +:+ ", value: " +:+ v.

(** [`${imgField_map_a}`]: an array of objects prints as [[object Object]]s. *)
Definition show_objects {A : Type} (a : list A) : string :=
  String.concat "," (List.map (fun _ => "[object Object]") a).

(** [`${imgField_map_a_e_entries}`]: the pairs, flattened and comma-joined. *)
Definition show_entries (es : list (string * string)) : string :=
  String.concat "," (List.map (fun kv => fst kv +:+ "," +:+ snd kv) es).

(** Lines 614-640: the field's [subm_mapped_key] and [value]. *)
Definition field_value (subm : submission) (f : imgField)
    : res (option string * option string) :=
  match assoc (autoname f) (images_map subm) with
  | None => Throw (CheckError TArray JUndefined)
  | Some imgField_map_a =>
      if (1 <? Z.of_nat (length imgField_map_a))
      then Throw (Error ("expected one or zero entries in @@images_map element: "
                         +:+ show_objects imgField_map_a))
      else match imgField_map_a with
           | [imgField_map_a_e] =>
               match imgField_map_a_e with
               | [(k, v)] => OK (Some k, Some v)
               | es => Throw (Error ("expected only one entry in @@images_map element: "
                                     +:+ show_entries es))
               end
           | _ => OK (None, None)
           end
  end.

(** The body of the loop over [asset.imgs] (lines 601-705), up to the
    assignment into [_map]. *)
Definition build_entry (st : state) (subm : submission) (f : imgField)
    : res (state * entry) :=
  do_ check (JStr (autoname f)) mustExists TString;
  do kv <- field_value subm f;
  let subm_mapped_key := fst kv in
  let value := snd kv in
  if truthy (js_opt_str value) then
    let v := match value with Some v => v | None => EmptyString end in
    do attachment <- Utils.findAttachment v (_attachments subm) (_id subm);
    match attachment with
    | None =>
        let warning := none_warning (_id subm) (autoname f) v in
        OK (count_none warning st,
            {| value := value; attachment := None; action := Action.none;
               subm_mapped_key := subm_mapped_key; warning := Some warning |})
    | Some a =>
        OK (count_keep st,
            {| value := value; attachment := Some a; action := Action.keep;
               subm_mapped_key := subm_mapped_key; warning := None |})
    end
  else
    OK (count_delete st,
        {| value := value; attachment := None; action := Action.delete;
           subm_mapped_key := subm_mapped_key; warning := None |}).

(** [for(let j=0; j<asset.imgs.length; j++)]: [_map] grows by one field. *)
Fixpoint build_fields (st : state) (subm : submission) (fields : list imgField)
    (_map : list (string * entry)) : res (state * list (string * entry)) :=
  match fields with
  | [] => OK (st, _map)
  | f :: rest =>
      do r <- build_entry st subm f;
      build_fields (fst r) subm rest (set_prop (autoname f) (snd r) _map)
  end.

(** [for(let s=0; s<asset.submissions.length; s++)] *)
Fixpoint build_submissions (st : state) (fields : list imgField)
    (subms : list submission) (map : list emap) : res (state * list emap) :=
  match subms with
  | [] => OK (st, map)
  | subm :: rest =>
      do_ check (JNum (_id subm)) defined TNumber;
      do r <- build_fields st subm fields [];
      build_submissions (fst r) fields rest
        (map ++ [{| emap_id := _id subm; emap_entries := snd r |}])
  end.

Definition make_mapCounters (st : state) : mapCounters :=
  {| mc_keeps := keeps st; mc_deletes := deletes st; mc_nones := nones st;
     mc_totalActions := _totalActions st;
     mc_warnings := match warnings st with
                    | [] => None
                    | ws => Some (Z.of_nat (length ws))
                    end |}.

(** [for(let i=0; i<assets.length; i++)]: an asset without submissions or
    without image fields is skipped. *)
Fixpoint build_assets (st : state) (assets : list asset)
    (results : list mapped_asset) : res (state * list mapped_asset) :=
  match assets with
  | [] => OK (st, results)
  | a :: rest =>
      do_ check (JStr (uid a)) mustExists TString;
      match submissions a, imgs a with
      | [], _ => build_assets st rest results
      | _, [] => build_assets st rest results
      | _, _ =>
          do r <- build_submissions (reset_asset st) (imgs a) (submissions a) [];
          build_assets (fst r) rest
            (results ++ [{| ma_asset := a; map := snd r;
                            ma_mapCounters := make_mapCounters (fst r) |}])
      end
  end.

(** [buildActionMap(stepId, input)]: the step's result, or the error that
    ends the step. *)
Definition buildActionMap (input : list asset) : res (list mapped_asset) :=
  do r <- build_assets init input [];
  OK (snd r).

End Builder.

(** ** The local file system

    A directory is a finite map from entry names to nodes. The run works on
    four places of the output tree of one asset: the image directory
    [images/{uid}/{name}/], the sweeper's quarantine
    [images_deleted/{uid}/{name}/], the executor's quarantine
    [images_deleted/] and the state store [.attachments_map/{uid}/], whose
    file [{recordId}/{field}.json] is keyed by the record id and the field.
    A state file is known by what [JSON.parse] makes of it. *)

Inductive node : Type :=
| File (data : string)
| Dir.

Inductive json_file : Type :=
| Json (v : jsval)
| NotJson (data : string).

Record world : Type := {
  images : gmap string node;
  images_info : list string;
  cleanedDir : gmap string node;
  imagesDeleted : gmap string node;
  attachmentsMap : gmap (Z * string) json_file;
  requests : nat
}.

Module FS.

Definition fileExists (d : gmap string node) (f : string) : bool :=
  match d !! f with Some (File _) => true | _ => false end.

Definition pathExists (d : gmap string node) (f : string) : bool :=
  match d !! f with Some _ => true | None => false end.

Definition is_file (n : node) : bool :=
  match n with File _ => true | Dir => false end.

(** [getDirEntries(dirPath, {filesOnly: true})] *)
Definition getDirEntries (d : gmap string node) : list string :=
  List.map fst (List.filter (fun kv => is_file (snd kv)) (map_to_list d)).

(** [deletePath]: [false] when nothing is there, else the path is removed. *)
Definition deletePath (d : gmap string node) (f : string)
    : gmap string node * bool :=
  if pathExists d f then (delete f d, true) else (d, false).

(** [mvFile(oldPath, newPath)], a [renameSync] from directory [src] to
    directory [dst]: it fails when the source is missing or the target is a
    directory, and replaces a file at the target. *)
Definition mvFile (src dst : gmap string node) (f f' : string)
    : res (gmap string node * gmap string node) :=
  match src !! f with
  | None => Throw (Error "trying to rename path fails - error: ENOENT")
  | Some n =>
      match dst !! f' with
      | Some Dir => Throw (Error "trying to rename path fails - error: EISDIR")
      | _ => OK (delete f src, <[f' := n]> dst)
      end
  end.

End FS.

(** ** modules/utils.js: hashes, state records, CSV cells *)

(** [`${v}`] *)
Fixpoint show (v : jsval) : string :=
  match v with
  | JUndefined => "undefined"
  | JNull => "null"
  | JBool true => "true"
  | JBool false => "false"
  | JNum n => string_of_Z n
  | JStr s => s
  | JArr l => String.concat "," (List.map show l)
  | JObj _ => "[object Object]"
  end.

Definition type_name (t : jstype) : string :=
  match t with
  | TArray => "array" | TString => "string" | TNumber => "number"
  | TBoolean => "boolean" | TObject => "object" | TFunction => "function"
  | TBuffer => "buffer"
  end.

(** [error.message] *)
Definition message (e : exn) : string :=
  match e with
  | CheckError t arg => "expected " +:+ type_name t +:+ " in @arg: " +:+ show arg
  | Error m => m
  | TypeError m => m
  end.

Module Hash.

(** [fs.readFileSync(file, 'utf8')] followed by [sjcl.hash.sha256.hash]: the
    digest is an array of 32-bit words; it is a parameter [sha256] of the
    development. [getFileHash] throws when the file is missing. *)
Definition getFileHash (sha256 : string -> list Z) (d : gmap string node)
    (file : string) : res (list Z) :=
  match d !! file with
  | Some (File data) => OK (sha256 data)
  | _ => Throw (Error ("getFileHash operation failed: file does not exists: " +:+ file))
  end.

(** [for(let i=0; i<hash.length; i++) if(_hash[i] !== hash[i]) return false] *)
Fixpoint same_words (_hash : list Z) (hash : list jsval) : bool :=
  match _hash, hash with
  | x :: _hash', JNum y :: hash' => (x =? y) && same_words _hash' hash'
  | _, [] => true
  | _, _ => false
  end.

(** [isValidFileHash(file, hash)] *)
Definition isValidFileHash (sha256 : string -> list Z) (d : gmap string node)
    (file : string) (hash : jsval) : res bool :=
  do_ check (JStr file) mustExists TString;
  do_ check hash mustExists TArray;
  match hash with
  | JArr hash =>
      match getFileHash sha256 d file with
      | Throw e => Throw (Error ("isValidFileHash operation failed: " +:+ message e))
      | OK _hash =>
          if negb (Nat.eqb (length _hash) (length hash)) then OK false
          else OK (same_words _hash hash)
      end
  | _ => Throw (CheckError TArray hash)
  end.

End Hash.

Module StateRecord.

(** [isValidAttachmentMap(attachmentMap)] *)
Definition isValidAttachmentMap (attachmentMap : jsval) : res bool :=
  do_ check attachmentMap mustExists TObject;
  let imgInfo := get attachmentMap "imgInfo" in
  OK (true
    && confirm attachmentMap c_exists && isOfType attachmentMap TObject
    && confirm (get attachmentMap "imageName") c_exists && isOfType (get attachmentMap "imageName") TString
    && confirm (get attachmentMap "originalName") c_exists && isOfType (get attachmentMap "originalName") TString
    && confirm (get attachmentMap "attachmentId") c_defined && isOfType (get attachmentMap "attachmentId") TNumber
    && confirm (get attachmentMap "saveTimestamp") c_exists && isOfType (get attachmentMap "saveTimestamp") TString
    && confirm imgInfo c_exists && isOfType imgInfo TObject
    && confirm (get imgInfo "assetUid") c_exists && isOfType (get imgInfo "assetUid") TString
    && confirm (get imgInfo "assetName") c_exists && isOfType (get imgInfo "assetName") TString
    && confirm (get imgInfo "recordId") c_defined && isOfType (get imgInfo "recordId") TNumber
    && confirm (get imgInfo "name") c_exists && isOfType (get imgInfo "name") TString
    && confirm (get imgInfo "size") c_defined && isOfType (get imgInfo "size") TNumber
    && confirm (get imgInfo "sizeMB") c_exists && isOfType (get imgInfo "sizeMB") TString
    && confirm (get imgInfo "type") c_exists && isOfType (get imgInfo "type") TString
    && confirm (get imgInfo "dimensions") c_exists && isOfType (get imgInfo "dimensions") TString
    && confirm (get imgInfo "width") c_defined && isOfType (get imgInfo "width") TNumber
    && confirm (get imgInfo "height") c_defined && isOfType (get imgInfo "height") TNumber
    && confirm (get imgInfo "hash") c_exists && isOfType (get imgInfo "hash") TArray).

(** [parseJSONFile(file)] on a file that exists. *)
Definition parseJSONFile (f : json_file) : res jsval :=
  match f with
  | Json v => OK v
  | NotJson data => Throw (Error ("JSON parse operation failed: " +:+ data))
  end.

End StateRecord.

Module Csv.

Fixpoint contains_char (c : ascii) (s : string) : bool :=
  match s with
  | EmptyString => false
  | String c' s' => Ascii.eqb c c' || contains_char c s'
  end.

(** The [replace] of [getCsvString]: a backslash before every double quote. *)
Fixpoint escape_quotes (s : string) : string :=
  match s with
  | EmptyString => EmptyString
  | String c s' =>
      if Ascii.eqb c "034"%char then String "\"%char (String c (escape_quotes s'))
      else String c (escape_quotes s')
  end.

(** [getCsvString(str)] with the default separator. *)
Definition getCsvString (str : jsval) : res string :=
  do_ check str mustExists TString;
  match str with
  | JStr s =>
      if contains_char ","%char s
      then OK (String "034"%char (escape_quotes s) +:+ String "034"%char EmptyString)
      else OK s
  | _ => Throw (CheckError TString str)
  end.

End Csv.

(** ** The environment of a run *)

(** What the read stream of a download delivers when it is piped to the file:
    it closes after [data], or it fails (an error, or no chunk within the
    download timeout) after [data]. *)
Inductive stream : Type :=
| Closes (data : string)
| Breaks (e : exn) (data : string).

(** One element of the array that [download(url, options)] resolves to. *)
Record d_result : Type := {
  readStream : stream;
  contentLength : jsval;
  contentType : jsval
}.

(** The collaborators that are outside the repository's reconciliation logic:
    the digest of [sjcl], the decoder of [canvas] (width and height of the
    picture stored in a file), the clock of [getCurrentTimestamp], the
    rounding of a byte count to its "MB" label, and the media server:
    [download_ n] is the outcome of the [n]-th call of [download] of the
    run. *)
Record env : Type := {
  sha256 : string -> list Z;
  Canvas_Image : string -> res (Z * Z);
  getCurrentTimestamp : string;
  sizeMB_label : Z -> string;
  download_ : nat -> res (list d_result)
}.

(** The fields of [_configs] that the update step reads. *)
Record configs : Type := {
  deleteImages : bool;
  maxDownloadRetries : Z;
  imagesPath : string;
  imagesDeletedPath : string;
  attachmentsMapPath : string
}.

(** ** modules/kobo-imgs-fs.js *)

(** What [writeStream] resolves to, with the content type that [saveImage]
    adds. *)
Record w_result : Type := {
  w_contentLength : Z;
  w_bytesRead : Z;
  w_file_name : string;
  w_contentType : jsval
}.

Module ImgsFs.

(** [writeStream(dir_path, file_name, readStream, contentLength, options)]:
    the file is created and receives what the stream delivers. *)
Definition writeStream (d : gmap string node) (file_name : string)
    (readStream : stream) (contentLength : Z)
    : gmap string node * res (list w_result) :=
  match d !! file_name with
  | Some Dir => (d, Throw (Error "EISDIR: illegal operation on a directory"))
  | _ =>
      match readStream with
      | Closes data =>
          (<[file_name := File data]> d,
           OK [{| w_contentLength := contentLength; w_bytesRead := str_len data;
                  w_file_name := file_name; w_contentType := JUndefined |}])
      | Breaks e data => (<[file_name := File data]> d, Throw e)
      end
  end.

(** The body of the [try] of one turn of the download-and-write cycle. *)
Definition attempt (E : env) (w : world) (i_url i_name : string)
    : world * res w_result :=
  let w1 := {| images := images w; images_info := images_info w;
               cleanedDir := cleanedDir w; imagesDeleted := imagesDeleted w;
               attachmentsMap := attachmentsMap w; requests := S (requests w) |} in
  match download_ E (requests w) with
  | Throw e => (w1, Throw e)
  | OK [] => (w1, Throw (Error "download operation has no results"))
  | OK (d_result :: _) =>
      match check (contentLength d_result) ifExists TNumber with
      | Throw e => (w1, Throw e)
      | OK _ =>
      match check (contentType d_result) ifExists TString with
      | Throw e => (w1, Throw e)
      | OK _ =>
          match contentLength d_result with
          | JNum len =>
              if len =? 0
              then (w1, Throw (Error ("download has not content-length: " +:+ i_url)))
              else
                let (d, w_results) := writeStream (images w) i_name (readStream d_result) len in
                let w2 := {| images := d; images_info := images_info w;
                             cleanedDir := cleanedDir w; imagesDeleted := imagesDeleted w;
                             attachmentsMap := attachmentsMap w; requests := S (requests w) |} in
                match w_results with
                | Throw e => (w2, Throw e)
                | OK [] => (w2, Throw (Error "writeStream operation has no results"))
                | OK (w_result :: _) =>
                    if negb (w_bytesRead w_result =? w_contentLength w_result)
                    then (w2, Throw (Error "incomplete download"))
                    else (w2, OK {| w_contentLength := w_contentLength w_result;
                                    w_bytesRead := w_bytesRead w_result;
                                    w_file_name := w_file_name w_result;
                                    w_contentType := contentType d_result |})
                end
          | _ => (w1, Throw (Error ("download has not content-length: " +:+ i_url)))
          end
      end end
  end.

(** [while(!done && retries<=options.maxDownloadRetries && !result)]: [fuel]
    is the number of turns left, [maxDownloadRetries - retries + 1]. A failed
    turn is logged and [retries] grows by one. *)
Fixpoint cycle (E : env) (fuel : nat) (w : world) (i_url i_name : string)
    : world * option w_result :=
  match fuel with
  | O => (w, None)
  | S fuel' =>
      match attempt E w i_url i_name with
      | (w', OK result) => (w', Some result)
      | (w', Throw _) => cycle E fuel' w' i_url i_name
      end
  end.

(** [saveImage(i_url, i_path, i_name, options)] *)
Definition saveImage (E : env) (cfg : configs) (w : world) (i_url i_name : string)
    : world * res w_result :=
  match check (JStr i_url) mustExists TString with
  | Throw e => (w, Throw e)
  | OK _ =>
  match check (JStr i_name) mustExists TString with
  | Throw e => (w, Throw e)
  | OK _ =>
      match cycle E (Z.to_nat (maxDownloadRetries cfg)) w i_url i_name with
      | (w', Some result) => (w', OK result)
      | (w', None) =>
          (w', Throw (Error ("saveImage fails after "
                             +:+ string_of_Z (maxDownloadRetries cfg) +:+ " retries")))
      end
  end end.

End ImgsFs.

(** ** modules/utils.js: [renameIfExists] *)

Module Rename.

Fixpoint take_str (k : nat) (s : string) : string :=
  match k, s with
  | S k', String c s' => String c (take_str k' s')
  | _, _ => EmptyString
  end.

(** The split of [filePath] at its last dot. The directory part of the path
    is not empty and has no dot, so the index is positive whenever the file
    name has a dot. *)
Definition split_ext (file : string) : string * string :=
  let ext_i := lastIndexOf file "." in
  if ext_i =? -1 then (file, EmptyString)
  else (take_str (Z.to_nat ext_i) file, drop_str (Z.to_nat ext_i) file).

(** [while(fileExists(_path) && (tries<=max_tries))], with [fuel] the number
    of tries left. *)
Fixpoint rename_loop (d : gmap string node) (noExt ext _path : string)
    (tries : Z) (fuel : nat) : string :=
  match fuel with
  | O => _path
  | S fuel' =>
      if FS.fileExists d _path
      then rename_loop d noExt ext (noExt +:+ "_" +:+ string_of_Z tries +:+ ext)
             (tries + 1) fuel'
      else _path
  end.

Definition max_tries : nat := Z.to_nat 1000.

(** [renameIfExists(filePath)] for a file of directory [d]. *)
Definition renameIfExists (d : gmap string node) (file : string) : res string :=
  do_ check (JStr file) mustExists TString;
  let (noExt, ext) := split_ext file in
  let _path := rename_loop d noExt ext file 1 max_tries in
  if FS.fileExists d _path then Throw (Error ("could not rename file: " +:+ file))
  else OK _path.

End Rename.

(** ** modules/image-cleaner.js *)

(** An element of [#cleaned]: [{op: "clean", status, targetFile, newFilePath,
    detail, error}]. *)
Record clean_op : Type := {
  co_status_ok : bool;
  co_targetFile : string;
  co_newFilePath : option string;
  co_detail : string
}.

Module ImageCleaner.

(** The private fields of the object. [#map] is [None] when it holds the
    empty string that marks "not set". *)
Record t : Type := {
  map_ : option (list emap);
  path_set : bool;
  cleanedPath_set : bool;
  deleteImages_ : bool;
  keeps : list string;
  deletes : list string;
  nones : list string;
  isRunning : bool;
  wasRan : bool;
  totalActions : Z;
  totalActionsExecuted : Z;
  cleaned : list clean_op;
  errors : list string
}.

(** [new ImageCleaner()] *)
Definition new : t :=
  {| map_ := None; path_set := false; cleanedPath_set := false;
     deleteImages_ := false; keeps := []; deletes := []; nones := [];
     isRunning := false; wasRan := false; totalActions := 0;
     totalActionsExecuted := 0; cleaned := []; errors := [] |}.

Definition running_error : exn :=
  Error "ImageCleaner is running: cannot be alterated".

(** [#wasRan = false; #resetCounters()] with new name lists. *)
Definition reset (c : t) (m : option (list emap)) (ks ds ns : list string) : t :=
  {| map_ := m; path_set := path_set c; cleanedPath_set := cleanedPath_set c;
     deleteImages_ := deleteImages_ c; keeps := ks; deletes := ds; nones := ns;
     isRunning := isRunning c; wasRan := false; totalActions := 0;
     totalActionsExecuted := 0; cleaned := []; errors := [] |}.

(** The body of the loop over the entries of one [emap] (lines 234-256). *)
Fixpoint add_names (rid : Z) (entries : list (string * entry))
    (names : list string * list string * list string)
    : res (list string * list string * list string) :=
  match entries with
  | [] => OK names
  | (_, e_value) :: rest =>
      do_ check (js_opt_str (value e_value)) ifExists TString;
      if truthy (js_opt_str (value e_value)) then
        let v := match value e_value with Some v => v | None => EmptyString end in
        do img_name <- Utils.buildImageName (string_of_Z rid) v;
        let '(ks, ds, ns) := names in
        add_names rid rest
          match action e_value with
          | Action.keep => ((ks ++ [img_name])%list, ds, ns)
          | Action.delete => (ks, (ds ++ [img_name])%list, ns)
          | Action.none => (ks, ds, (ns ++ [img_name])%list)
          end
      else add_names rid rest names
  end.

(** The loop over [#map] (lines 222-257). *)
Fixpoint add_map (m : list emap)
    (names : list string * list string * list string)
    : res (list string * list string * list string) :=
  match m with
  | [] => OK names
  | e :: rest =>
      do_ check (JNum (emap_id e)) defined TNumber;
      do names' <- add_names (emap_id e) (emap_entries e) names;
      add_map rest names'
  end.

(** [set map(value)]: only an empty or missing map clears the name lists; a
    map with elements adds its names to the lists the object already has. *)
Definition set_map (c : t) (value : option (list emap)) : res t :=
  if isRunning c then Throw running_error
  else match value with
       | None | Some [] => OK (reset c None [] [] [])
       | Some m =>
           do names <- add_map m (keeps c, deletes c, nones c);
           let '(ks, ds, ns) := names in
           OK (reset c (Some m) ks ds ns)
       end.

(** [set deleteImages(value)] *)
Definition set_deleteImages (c : t) (v : bool) : res t :=
  if isRunning c then Throw running_error
  else OK {| map_ := map_ c; path_set := path_set c;
             cleanedPath_set := cleanedPath_set c; deleteImages_ := v;
             keeps := keeps c; deletes := deletes c; nones := nones c;
             isRunning := isRunning c; wasRan := false; totalActions := 0;
             totalActionsExecuted := 0; cleaned := []; errors := [] |}.

(** [set path(value)] and [set cleanedPath(value)] with the directories of
    the asset, which [updateImages] has made. *)
Definition set_paths (c : t) : res t :=
  if isRunning c then Throw running_error
  else OK {| map_ := map_ c; path_set := true; cleanedPath_set := true;
             deleteImages_ := deleteImages_ c;
             keeps := keeps c; deletes := deletes c; nones := nones c;
             isRunning := isRunning c; wasRan := false; totalActions := 0;
             totalActionsExecuted := 0; cleaned := []; errors := [] |}.

Definition inb (x : string) (l : list string) : bool :=
  existsb (String.eqb x) l.

(** What the sweeper does with one file of the directory. *)
Inductive decision : Type :=
| Remove          (* [Utils.deletePath] *)
| Quarantine      (* [Utils.mvFile] into [#cleanedPath] *)
| Leave.

(** The tests of the loop body (lines 294, 297 and 360). *)
Definition decide_file (c : t) (file : string) : decision :=
  if negb (inb file (keeps c)) && negb (inb file (deletes c)) then
    if deleteImages_ c then Remove else Quarantine
  else
    if inb file (nones c) then Quarantine else Leave.

(** The sweeper's view of the disk: the image directory and [#cleanedPath]. *)
Definition dirs : Type := (gmap string node * gmap string node)%type.

Definition push_op (c : t) (op : clean_op) : t :=
  {| map_ := map_ c; path_set := path_set c;
     cleanedPath_set := cleanedPath_set c; deleteImages_ := deleteImages_ c;
     keeps := keeps c; deletes := deletes c; nones := nones c;
     isRunning := isRunning c; wasRan := wasRan c; totalActions := totalActions c;
     totalActionsExecuted := totalActionsExecuted c + 1;
     cleaned := cleaned c ++ [op]; errors := errors c |}.

(** The "mv" case (lines 326-352 and 361-387). *)
Definition move_file (c : t) (ds : dirs) (file : string) : res (t * dirs) :=
  do _newFile <- Rename.renameIfExists (snd ds) file;
  match FS.mvFile (fst ds) (snd ds) file _newFile with
  | OK ds' =>
      OK (push_op c {| co_status_ok := true; co_targetFile := file;
                       co_newFilePath := Some _newFile;
                       co_detail := "file moved" |}, ds')
  | Throw _error =>
      OK (push_op c {| co_status_ok := false; co_targetFile := file;
                       co_newFilePath := Some _newFile;
                       co_detail := message _error |}, ds)
  end.

(** The body of the loop over the files (lines 290-390). *)
Definition clean_file (c : t) (ds : dirs) (file : string) : res (t * dirs) :=
  match decide_file c file with
  | Remove =>
      OK (push_op c {| co_status_ok := true; co_targetFile := file;
                       co_newFilePath := None; co_detail := "file deleted" |},
          (fst (FS.deletePath (fst ds) file), snd ds))
  | Quarantine => move_file c ds file
  | Leave => OK (c, ds)
  end.

Fixpoint clean_files (c : t) (ds : dirs) (files : list string) : res (t * dirs) :=
  match files with
  | [] => OK (c, ds)
  | file :: rest =>
      do r <- clean_file c ds file;
      clean_files (fst r) (snd r) rest
  end.

Definition set_run (c : t) (running ran : bool) (total : Z) : t :=
  {| map_ := map_ c; path_set := path_set c;
     cleanedPath_set := cleanedPath_set c; deleteImages_ := deleteImages_ c;
     keeps := keeps c; deletes := deletes c; nones := nones c;
     isRunning := running; wasRan := ran; totalActions := total;
     totalActionsExecuted := totalActionsExecuted c;
     cleaned := cleaned c; errors := errors c |}.

(** [run()]. The method has no [await]: called from [updateImages] it runs to
    its end before the loop over the action map starts. *)
Definition run (c : t) (ds : dirs) : res (t * dirs) :=
  match map_ c with
  | None => Throw (Error "map attribute is not set, could not run")
  | Some _ =>
      if negb (path_set c) then Throw (Error "path attribute is not set, could not run")
      else if negb (cleanedPath_set c)
      then Throw (Error "cleanedPath attribute is not set, could not run")
      else
        let files := FS.getDirEntries (fst ds) in
        let total := Z.max 0 (Z.of_nat (length files)
                              - (Z.of_nat (length (keeps c)) + Z.of_nat (length (deletes c)))) in
        let c0 := {| map_ := map_ c; path_set := path_set c;
                     cleanedPath_set := cleanedPath_set c;
                     deleteImages_ := deleteImages_ c;
                     keeps := keeps c; deletes := deletes c; nones := nones c;
                     isRunning := true; wasRan := false; totalActions := total;
                     totalActionsExecuted := 0; cleaned := []; errors := [] |} in
        do r <- clean_files c0 ds files;
        OK (set_run (fst r) false true total, snd r)
  end.

End ImageCleaner.

(** ** configs/globals.js: the action executor *)

(** [_result[e_key]]: the entry of the action map with [status], [op],
    [action_detail] and, for a failed entry, [error]. *)
Record result_entry : Type := {
  r_entry : entry;
  r_status_ok : bool;
  r_op : string;
  r_action_detail : option string;
  r_error : option string
}.

Module Executor.

(** The per-asset variables that the loop over the action map mutates, and
    the disk. *)
Record state : Type := {
  imageNamesToKeep : list string;
  imageNamesToKeepDuplicated : list string;
  imageNamesToDelete : list string;
  imageNamesToDeleteDuplicated : list string;
  downloads : Z;
  upToDate : Z;
  deletes : Z;
  nones : Z;
  warnings : list string;
  errors : list string;
  action_count : Z;
  disk : world
}.

Definition init (w : world) : state :=
  {| imageNamesToKeep := []; imageNamesToKeepDuplicated := [];
     imageNamesToDelete := []; imageNamesToDeleteDuplicated := [];
     downloads := 0; upToDate := 0; deletes := 0; nones := 0;
     warnings := []; errors := []; action_count := 0; disk := w |}.

Definition set_names (st : state) (k kd d dd : list string) : state :=
  {| imageNamesToKeep := k; imageNamesToKeepDuplicated := kd;
     imageNamesToDelete := d; imageNamesToDeleteDuplicated := dd;
     downloads := downloads st; upToDate := upToDate st;
     deletes := deletes st; nones := nones st; warnings := warnings st;
     errors := errors st; action_count := action_count st; disk := disk st |}.

(** The four counters; every report line also does [++action_count]. *)
Definition set_counters (st : state) (dl up de no : Z) : state :=
  {| imageNamesToKeep := imageNamesToKeep st;
     imageNamesToKeepDuplicated := imageNamesToKeepDuplicated st;
     imageNamesToDelete := imageNamesToDelete st;
     imageNamesToDeleteDuplicated := imageNamesToDeleteDuplicated st;
     downloads := dl; upToDate := up; deletes := de; nones := no;
     warnings := warnings st; errors := errors st;
     action_count := action_count st + 1; disk := disk st |}.

Definition push_warning (st : state) (w : string) : state :=
  {| imageNamesToKeep := imageNamesToKeep st;
     imageNamesToKeepDuplicated := imageNamesToKeepDuplicated st;
     imageNamesToDelete := imageNamesToDelete st;
     imageNamesToDeleteDuplicated := imageNamesToDeleteDuplicated st;
     downloads := downloads st; upToDate := upToDate st;
     deletes := deletes st; nones := nones st; warnings := warnings st ++ [w];
     errors := errors st; action_count := action_count st; disk := disk st |}.

Definition push_error (st : state) (e : string) : state :=
  {| imageNamesToKeep := imageNamesToKeep st;
     imageNamesToKeepDuplicated := imageNamesToKeepDuplicated st;
     imageNamesToDelete := imageNamesToDelete st;
     imageNamesToDeleteDuplicated := imageNamesToDeleteDuplicated st;
     downloads := downloads st; upToDate := upToDate st;
     deletes := deletes st; nones := nones st; warnings := warnings st;
     errors := errors st ++ [e]; action_count := action_count st + 1;
     disk := disk st |}.

Definition set_disk (st : state) (w : world) : state :=
  {| imageNamesToKeep := imageNamesToKeep st;
     imageNamesToKeepDuplicated := imageNamesToKeepDuplicated st;
     imageNamesToDelete := imageNamesToDelete st;
     imageNamesToDeleteDuplicated := imageNamesToDeleteDuplicated st;
     downloads := downloads st; upToDate := upToDate st;
     deletes := deletes st; nones := nones st; warnings := warnings st;
     errors := errors st; action_count := action_count st; disk := w |}.

Definition set_images (w : world) (d : gmap string node) : world :=
  {| images := d; images_info := images_info w; cleanedDir := cleanedDir w;
     imagesDeleted := imagesDeleted w; attachmentsMap := attachmentsMap w;
     requests := requests w |}.

Definition set_images_info (w : world) (lines : list string) : world :=
  {| images := images w; images_info := lines; cleanedDir := cleanedDir w;
     imagesDeleted := imagesDeleted w; attachmentsMap := attachmentsMap w;
     requests := requests w |}.

Definition set_imagesDeleted (w : world) (d d' : gmap string node) : world :=
  {| images := d; images_info := images_info w; cleanedDir := cleanedDir w;
     imagesDeleted := d'; attachmentsMap := attachmentsMap w;
     requests := requests w |}.

Definition set_attachmentsMap (w : world) (m : gmap (Z * string) json_file) : world :=
  {| images := images w; images_info := images_info w; cleanedDir := cleanedDir w;
     imagesDeleted := imagesDeleted w; attachmentsMap := m;
     requests := requests w |}.

(** Statements that read and write the state and may throw. *)
Definition M (A : Type) : Type := state -> state * res A.

Definition ret {A : Type} (a : A) : M A := fun st => (st, OK a).
Definition throw {A : Type} (e : exn) : M A := fun st => (st, Throw e).
Definition lift {A : Type} (r : res A) : M A := fun st => (st, r).
Definition gets {A : Type} (f : state -> A) : M A := fun st => (st, OK (f st)).
Definition modify (f : state -> state) : M unit := fun st => (f st, OK tt).

Definition bindM {A B : Type} (m : M A) (k : A -> M B) : M B :=
  fun st =>
    match m st with
    | (st', OK a) => k a st'
    | (st', Throw e) => (st', Throw e)
    end.

(** [try { m } catch(error) { h error }] *)
Definition try_catch {A : Type} (m : M A) (h : exn -> M A) : M A :=
  fun st =>
    match m st with
    | (st', OK a) => (st', OK a)
    | (st', Throw e) => h e st'
    end.

End Executor.

Notation "'let!' x ':=' m 'in' k" := (Executor.bindM m (fun x => k))
  (at level 10, x name, m at level 100, k at level 200).
Notation "'run!' m ; k" := (Executor.bindM m (fun _ => k))
  (at level 10, m at level 100, k at level 200).

(** [a === b] where one side is a string or a number. *)
Definition strict_eq (a b : jsval) : bool :=
  match a, b with
  | JUndefined, JUndefined | JNull, JNull => true
  | JBool x, JBool y => Bool.eqb x y
  | JNum x, JNum y => x =? y
  | JStr x, JStr y => String.eqb x y
  | _, _ => false
  end.

Module Update.
Import Executor.

Section UpdateImages.

Context (E : env) (cfg : configs) (uid assetName : string).

Definition e_img_file_path (f : string) : string :=
  imagesPath cfg +:+ "/" +:+ uid +:+ "/" +:+ assetName +:+ "/" +:+ f.

Definition e_attachment_map_file_path (rid : Z) (e_key : string) : string :=
  attachmentsMapPath cfg +:+ "/" +:+ uid +:+ "/" +:+ string_of_Z rid
  +:+ "/" +:+ e_key +:+ ".json".

(** The internal checks at the head of the loop body (lines 920-927). *)
Definition entry_checks (e_value : entry) : res unit :=
  do_ check (js_opt_str (value e_value)) ifExists TString;
  match attachment e_value with
  | Some a =>
      do_ check (JStr (download_url a)) mustExists TString;
      do_ check (JNum (id a)) defined TNumber;
      check (JStr (mimetype a)) ifExists TString
  | None => OK tt
  end.

(** Lines 939-952: [current_attachment_map_o] and [e_has_attachment_map]. *)
Definition read_attachment_map (rid : Z) (e_key : string) : M (jsval * bool) :=
  let! file := gets (fun st => attachmentsMap (disk st) !! (rid, e_key)) in
  match file with
  | None => ret (JNull, false)
  | Some f =>
      let! current_attachment_map_o := lift (StateRecord.parseJSONFile f) in
      let! isAttachmentMapOk := lift (StateRecord.isValidAttachmentMap current_attachment_map_o) in
      if negb isAttachmentMapOk then
        run! modify (fun st => push_warning st
               ("attachment map wasn't ok: " +:+ e_attachment_map_file_path rid e_key));
        ret (current_attachment_map_o, false)
      else ret (current_attachment_map_o, true)
  end.

(** Lines 1024-1032: the duplicated-name check of 'keep'. *)
Definition claim_keep (img_new_name : string) : M unit :=
  let! taken := gets (fun st => ImageCleaner.inb img_new_name (imageNamesToKeep st)) in
  if taken then
    run! modify (fun st => set_names st (imageNamesToKeep st)
                   (imageNamesToKeepDuplicated st ++ [img_new_name])
                   (imageNamesToDelete st) (imageNamesToDeleteDuplicated st));
    throw (Error ("in action 'keep': image name is duplicated: " +:+ img_new_name))
  else
    modify (fun st => set_names st (imageNamesToKeep st ++ [img_new_name])
              (imageNamesToKeepDuplicated st)
              (imageNamesToDelete st) (imageNamesToDeleteDuplicated st)).

(** Lines 1061-1068: [imgExists], and the error of a path that is taken by
    something that is not a regular file. *)
Definition image_exists (img_new_name : string) : M bool :=
  let! imgExists := gets (fun st => FS.fileExists (images (disk st)) img_new_name) in
  let! occupied := gets (fun st => FS.pathExists (images (disk st)) img_new_name) in
  if negb imgExists && occupied then
    throw (Error ("image name exists but is not a regular file - cannot store the image in: "
                  +:+ e_img_file_path img_new_name))
  else ret imgExists.

(** Lines 1071-1077: [imgIsUpToDate]. *)
Definition imgIsUpToDate (w : world) (imgExists e_has_attachment_map : bool)
    (current_attachment_map_o : jsval) (img_new_name : string)
    (e_attachment_id : Z) : res bool :=
  if imgExists && e_has_attachment_map then
    if negb (strict_eq (get current_attachment_map_o "imageName") (JStr img_new_name))
    then OK false
    else if negb (strict_eq (get current_attachment_map_o "attachmentId") (JNum e_attachment_id))
    then OK false
    else
      do valid <- Hash.isValidFileHash (sha256 E) (images w) img_new_name
                    (get (get current_attachment_map_o "imgInfo") "hash");
      if negb valid then OK false else OK true
  else OK false.

(** The row of [images_info.csv]; the asset uid is quoted on demand only in
    the row of a downloaded image. *)
Definition csv_row (quote_uid : bool) (imgInfo : jsval) : res string :=
  do assetUid <- (if quote_uid then Csv.getCsvString (get imgInfo "assetUid")
                  else OK (show (get imgInfo "assetUid")));
  do assetName <- Csv.getCsvString (get imgInfo "assetName");
  do name <- Csv.getCsvString (get imgInfo "name");
  do sizeMB <- Csv.getCsvString (get imgInfo "sizeMB");
  do type <- Csv.getCsvString (get imgInfo "type");
  do dimensions <- Csv.getCsvString (get imgInfo "dimensions");
  do hash <- Csv.getCsvString (get imgInfo "hash");
  OK (assetUid +:+ "," +:+ assetName +:+ "," +:+ show (get imgInfo "recordId")
      +:+ "," +:+ name +:+ "," +:+ show (get imgInfo "size") +:+ "," +:+ sizeMB
      +:+ "," +:+ type +:+ "," +:+ dimensions +:+ "," +:+ show (get imgInfo "width")
      +:+ "," +:+ show (get imgInfo "height") +:+ ", " +:+ hash).

Definition appendFile_images_info (row : string) : M unit :=
  modify (fun st => set_disk st
            (set_images_info (disk st) (images_info (disk st) ++ [row]))).

(** Lines 1082-1098: "Case: image up to date". *)
Definition keep_up_to_date (e_value : entry) (current_attachment_map_o : jsval)
    : M result_entry :=
  let imgInfo := get current_attachment_map_o "imgInfo" in
  let! row := lift (csv_row false imgInfo) in
  run! appendFile_images_info row;
  run! modify (fun st => set_counters st (downloads st) (upToDate st + 1)
                           (deletes st) (nones st));
  ret {| r_entry := e_value; r_status_ok := true; r_op := "saveImage";
         r_action_detail := Some "image up to date"; r_error := None |}.

(** [Utils.getImgInfo(file)]: the digest of the file and the size of the
    picture. *)
Definition getImgInfo (w : world) (file : string) : res (list Z * (Z * Z)) :=
  match images w !! file with
  | Some (File data) =>
      match Canvas_Image E data with
      | OK dims => OK (sha256 E data, dims)
      | Throw e =>
          Throw (Error ("getImgInfo operation failed: loading image fails - on image file: "
                        +:+ file +:+ " - " +:+ message e))
      end
  | _ => Throw (Error ("getImgInfo operation failed: file does not exists: " +:+ file))
  end.

Definition dimensions_label (width height : Z) : string :=
  "width: " +:+ string_of_Z width +:+ " pixels, height: " +:+ string_of_Z height
  +:+ " pixels".

(** Lines 1099-1152: "Case: download". *)
Definition keep_download (rid : Z) (e_key : string) (e_value : entry)
    (a : Attachment) (img_new_name : string) : M result_entry :=
  let! result := (fun st =>
                    let (w, r) := ImgsFs.saveImage E cfg (disk st) (download_url a) img_new_name in
                    (set_disk st w, r)) in
  run! lift (check (JNum (w_contentLength result)) defined TNumber);
  run! lift (check (w_contentType result) ifDefined TString);
  let! info := (fun st => (st, getImgInfo (disk st) img_new_name)) in
  let hash := JArr (List.map JNum (fst info)) in
  let width := fst (snd info) in
  let height := snd (snd info) in
  let dimensions := dimensions_label width height in
  run! lift (check (JStr dimensions) mustExists TString);
  run! lift (check (JNum width) defined TNumber);
  run! lift (check (JNum height) defined TNumber);
  run! lift (check hash mustExists TString);
  let type := if truthy (w_contentType result) then w_contentType result
              else JStr (mimetype a) in
  let size := w_contentLength result in
  let imgInfo :=
    JObj [("hash", hash); ("width", JNum width); ("height", JNum height);
          ("dimensions", JStr dimensions); ("assetUid", JStr uid);
          ("assetName", JStr assetName); ("recordId", JNum rid);
          ("name", JStr img_new_name); ("type", type); ("size", JNum size);
          ("sizeMB", JStr (sizeMB_label E size))] in
  let! row := lift (csv_row true imgInfo) in
  run! appendFile_images_info row;
  let e_attachment_map_o :=
    JObj [("imageName", JStr img_new_name);
          ("originalName", js_opt_str (value e_value));
          ("attachmentId", JNum (id a));
          ("saveTimestamp", JStr (getCurrentTimestamp E));
          ("imgInfo", imgInfo)] in
  run! modify (fun st => set_disk st
                 (set_attachmentsMap (disk st)
                    (<[(rid, e_key) := Json e_attachment_map_o]> (attachmentsMap (disk st)))));
  run! modify (fun st => set_counters st (downloads st + 1) (upToDate st)
                           (deletes st) (nones st));
  ret {| r_entry := e_value; r_status_ok := true; r_op := "saveImage";
         r_action_detail := Some "image downloaded"; r_error := None |}.

(** [emap["_id"] + '_' + e_value.value] *)
Definition img_new_name (rid : Z) (e_value : entry) : string :=
  string_of_Z rid +:+ "_" +:+ show (js_opt_str (value e_value)).

(** The [try] block of "Case: keep" (lines 958-1152). *)
Definition keep_try (rid : Z) (e_key : string) (e_value : entry)
    (current_attachment_map_o : jsval) (e_has_attachment_map : bool)
    : M result_entry :=
  match attachment e_value with
  | None => throw (TypeError "Cannot read properties of null (reading 'download_url')")
  | Some a =>
      let e_attachment_id := id a in
      let img_new_name := img_new_name rid e_value in
      run! claim_keep img_new_name;
      let! imgExists := image_exists img_new_name in
      let! fresh := (fun st => (st, imgIsUpToDate (disk st) imgExists e_has_attachment_map
                                      current_attachment_map_o img_new_name e_attachment_id)) in
      if imgExists && fresh
      then keep_up_to_date e_value current_attachment_map_o
      else keep_download rid e_key e_value a img_new_name
  end.

(** The [catch] blocks (lines 1153-1168 and 1292-1307). *)
Definition on_error (op : string) (e_value : entry) (error : exn) : M result_entry :=
  run! modify (fun st => push_error st
                 ("an error occurs while proccessing image - error: " +:+ message error));
  ret {| r_entry := e_value; r_status_ok := false; r_op := op;
         r_action_detail := None; r_error := Some (message error) |}.

(** Lines 1187-1203: the duplicated-name check of 'delete'. *)
Definition claim_delete (img_name : string) : M unit :=
  let! kept := gets (fun st => ImageCleaner.inb img_name (imageNamesToKeep st)) in
  let! deleted := gets (fun st => ImageCleaner.inb img_name (imageNamesToDelete st)) in
  if kept then
    run! modify (fun st => set_names st (imageNamesToKeep st)
                   (imageNamesToKeepDuplicated st) (imageNamesToDelete st)
                   (imageNamesToDeleteDuplicated st ++ [img_name]));
    throw (Error ("in action 'delete': image name is duplicated in to-keep list: " +:+ img_name))
  else if deleted then
    run! modify (fun st => set_names st (imageNamesToKeep st)
                   (imageNamesToKeepDuplicated st) (imageNamesToDelete st)
                   (imageNamesToDeleteDuplicated st ++ [img_name]));
    throw (Error ("in action 'delete': image name is duplicated in to-delete list: " +:+ img_name))
  else
    modify (fun st => set_names st (imageNamesToKeep st)
              (imageNamesToKeepDuplicated st) (imageNamesToDelete st ++ [img_name])
              (imageNamesToDeleteDuplicated st)).

Definition delete_result (e_value : entry) (detail : string) : result_entry :=
  {| r_entry := e_value; r_status_ok := true; r_op := "deleteImage";
     r_action_detail := Some detail; r_error := None |}.

(** The [try] block of "Case: delete" (lines 1175-1291). *)
Definition delete_try (e_value : entry) (current_attachment_map_o : jsval)
    (e_has_attachment_map : bool) : M result_entry :=
  if e_has_attachment_map then
    let img_name := show (get current_attachment_map_o "imageName") in
    let img_hash := get current_attachment_map_o "hash" in
    run! claim_delete img_name;
    let! imgExists := gets (fun st => FS.fileExists (images (disk st)) img_name) in
    if imgExists then
      let! valid := (fun st => (st, Hash.isValidFileHash (sha256 E) (images (disk st))
                                      img_name img_hash)) in
      if negb valid then
        throw (Error ("trying to remove an image with a different hash than the image that was stored originally : "
                      +:+ e_img_file_path img_name))
      else if deleteImages cfg then
        run! modify (fun st => set_disk st
                       (set_images (disk st) (fst (FS.deletePath (images (disk st)) img_name))));
        run! modify (fun st => set_counters st (downloads st) (upToDate st)
                                 (deletes st + 1) (nones st));
        ret (delete_result e_value "image deleted")
      else
        let! moved := (fun st => (st, FS.mvFile (images (disk st)) (imagesDeleted (disk st))
                                        img_name img_name)) in
        run! modify (fun st => set_disk st
                       (set_imagesDeleted (disk st) (fst moved) (snd moved)));
        run! modify (fun st => set_counters st (downloads st) (upToDate st)
                                 (deletes st + 1) (nones st));
        ret (delete_result e_value "image moved to 'images_deleted' dir")
    else
      run! modify (fun st => set_counters st (downloads st) (upToDate st)
                               (deletes st) (nones st + 1));
      ret (delete_result e_value "image does not exists")
  else
    run! modify (fun st => set_counters st (downloads st) (upToDate st)
                             (deletes st) (nones st + 1));
    ret (delete_result e_value
           "image cannot be deleted in this phase: has no attachment info").

(** "Case: none" (lines 1313-1326). *)
Definition none_case (e_value : entry) : M result_entry :=
  run! modify (fun st => set_counters st (downloads st) (upToDate st)
                           (deletes st) (nones st + 1));
  ret {| r_entry := e_value; r_status_ok := true; r_op := "none";
         r_action_detail :=
           Some "image field has name but attachment: if exists, will be moved to 'images_deleted' dir";
         r_error := None |}.

(** "Case: keep" and "Case: delete": the [try] with its [catch]. *)
Definition keep_case (rid : Z) (e_key : string) (e_value : entry)
    (current_attachment_map_o : jsval) (e_has_attachment_map : bool)
    : M result_entry :=
  try_catch (keep_try rid e_key e_value current_attachment_map_o e_has_attachment_map)
            (on_error "saveImage" e_value).

Definition delete_case (e_value : entry) (current_attachment_map_o : jsval)
    (e_has_attachment_map : bool) : M result_entry :=
  try_catch (delete_try e_value current_attachment_map_o e_has_attachment_map)
            (on_error "deleteImage" e_value).

(** The body of the loop over the entries of one record (lines 914-1327).
    A [Throw] of [exec_entry] is an error that no [catch] of the loop takes:
    it ends [updateImages]. *)
Definition exec_entry (rid : Z) (kv : string * entry) : M result_entry :=
  let e_key := fst kv in
  let e_value := snd kv in
  run! lift (entry_checks e_value);
  let! current := read_attachment_map rid e_key in
  match action e_value with
  | Action.keep => keep_case rid e_key e_value (fst current) (snd current)
  | Action.delete => delete_case e_value (fst current) (snd current)
  | Action.none => none_case e_value
  end.

(** [for(let j=0; j<_emap_entries.length; j++)] *)
Fixpoint exec_entries (rid : Z) (entries : list (string * entry))
    (_result : list (string * result_entry)) : M (list (string * result_entry)) :=
  match entries with
  | [] => ret _result
  | kv :: rest =>
      let! r := exec_entry rid kv in
      exec_entries rid rest (set_prop (fst kv) r _result)
  end.

(** [for(let m=0; m<asset.map.length; m++)] *)
Fixpoint exec_map (m : list emap)
    (images_update_run : list (Z * list (string * result_entry)))
    : M (list (Z * list (string * result_entry))) :=
  match m with
  | [] => ret images_update_run
  | e :: rest =>
      run! lift (check (JNum (emap_id e)) defined TNumber);
      let! _result := exec_entries (emap_id e) (emap_entries e) [] in
      exec_map rest (images_update_run ++ [(emap_id e, _result)])
  end.

Definition images_info_header : string :=
  "assetUid,assetName,recordId,name,size,sizeMB,type,dimensions,width,height,hash".

(** [Utils.makeDirPath] of the [data] directory of the image directory. *)
Definition make_data_dir (d : gmap string node) : res (gmap string node) :=
  match d !! "data" with
  | None => OK (<["data" := Dir]> d)
  | Some Dir => OK d
  | Some (File _) => Throw (Error "trying to make path fails: data")
  end.

(** The body of the loop over the assets, for an asset with a non-empty map
    (lines 821-1333; an asset with an empty map is skipped before): the
    [data] directory and the CSV file are made, the sweeper is configured
    and run, then the action map is executed. The outer [Throw] is an error
    before the loop over the map starts, the inner one an error that ends
    the loop. After the last asset [updateImages] throws "step completed
    with failed operations" when an entry or a sweep has failed; the loops
    have run to their end by then. Log lines are not modelled. *)
Definition update_asset (imc : ImageCleaner.t) (m : list emap) (w : world)
    : res (ImageCleaner.t * (state * res (list (Z * list (string * result_entry))))) :=
  do d <- make_data_dir (images w);
  let w0 := set_images_info (set_images w d) [images_info_header] in
  do imc1 <- ImageCleaner.set_map imc (Some m);
  do imc2 <- ImageCleaner.set_paths imc1;
  do imc3 <- ImageCleaner.set_deleteImages imc2 (deleteImages cfg);
  do swept <- ImageCleaner.run imc3 (images w0, cleanedDir w0);
  let w1 := {| images := fst (snd swept); images_info := images_info w0;
               cleanedDir := snd (snd swept); imagesDeleted := imagesDeleted w0;
               attachmentsMap := attachmentsMap w0; requests := requests w0 |} in
  OK (fst swept, exec_map m [] (init w1)).

End UpdateImages.

End Update.

(** ** modules/utils.js: jq clauses and regular-expression escapes *)

(** [String(v)] and [`${v}`]: inside an array [null] and [undefined] print
    as nothing. *)
Fixpoint to_string (v : jsval) : string :=
  match v with
  | JUndefined => "undefined"
  | JNull => "null"
  | JBool true => "true"
  | JBool false => "false"
  | JNum n => string_of_Z n
  | JStr s => s
  | JArr l =>
      String.concat ","
        (List.map (fun x => match x with
                            | JUndefined | JNull => EmptyString
                            | _ => to_string x
                            end) l)
  | JObj _ => "[object Object]"
  end.

Module Jq.

(** The statement that one turn of the loop pushes: a string value is put in
    double quotes, any other value is printed as it is. *)
Definition stm (key compOp : string) (v : jsval) : string :=
  match v with
  | JStr s =>
      "." +:+ key +:+ compOp +:+ String "034"%char EmptyString +:+ s
      +:+ String "034"%char EmptyString
  | _ => "." +:+ key +:+ compOp +:+ to_string v
  end.

(** [for(let i=0; i<values.length; i++)], with [stms] the array that grows. *)
Fixpoint toJqSelectBody_loop (key compOp : string) (values : list jsval)
    (stms : list string) : list string :=
  match values with
  | [] => stms
  | v :: rest => toJqSelectBody_loop key compOp rest (stms ++ [stm key compOp v])
  end.

(** [toJqSelectBody(key, values, compOp, logiOp)] *)
Definition toJqSelectBody (key values compOp logiOp : jsval) : res string :=
  do_ check key mustExists TString;
  do_ check values mustExists TArray;
  do_ check compOp mustExists TString;
  do_ check logiOp mustExists TString;
  match key, values, compOp, logiOp with
  | JStr key, JArr values, JStr compOp, JStr logiOp =>
      if (length values =? 0)%nat
      then Throw (Error "expected non empty array on @arg")
      else OK (String.concat logiOp (toJqSelectBody_loop key compOp values []))
  | _, _, _, _ => Throw (CheckError TString key)
  end.

End Jq.

Module RegExp.

(** The character class of [/[.*+\-?^${}()|[\]\\]/g]. *)
Definition special (c : ascii) : bool :=
  existsb (Ascii.eqb c)
    ["."; "*"; "+"; "-"; "?"; "^"; "$"; "{"; "}"; "("; ")"; "|"; "["; "]"; "\"]%char.

(** [string.replace(/[.*+\-?^${}()|[\]\\]/g, '\\$&')]: a backslash before
    every character of the class. *)
Fixpoint replace_special (s : string) : string :=
  match s with
  | EmptyString => EmptyString
  | String c s' =>
      if special c then String "\"%char (String c (replace_special s'))
      else String c (replace_special s')
  end.

(** The loop of the array case, with [strings] the array that grows. *)
Fixpoint escapeRegExp_loop (input : list jsval) (strings : list string)
    : res (list string) :=
  match input with
  | [] => OK strings
  | string :: rest =>
      if negb (truthy string) || negb (isOfType string TString)
      then Throw (Error "expected array of strings in @input")
      else match string with
           | JStr s => escapeRegExp_loop rest (strings ++ [replace_special s])
           | _ => Throw (Error "expected array of strings in @input")
           end
  end.

(** [escapeRegExp(input)] *)
Definition escapeRegExp (input : jsval) : res jsval :=
  if negb (truthy input)
     || (negb (isOfType input TString)
         && (negb (isOfType input TArray)
             || match input with JArr [] => true | _ => false end))
  then Throw (Error "expected non-empty string or array in @input")
  else match input with
       | JStr s => OK (JStr (replace_special s))
       | JArr l =>
           do strings <- escapeRegExp_loop l [];
           OK (JArr (List.map JStr strings))
       | _ => Throw (Error "expected non-empty string or array in @input")
       end.

End RegExp.

(** ** modules/utils.js: the hash of a string *)

Module HashData.

(** [isValidHash(data, hash)] *)
Definition isValidHash (sha256 : string -> list Z) (data hash : jsval) : res bool :=
  do_ check data mustExists TString;
  do_ check hash mustExists TArray;
  match data, hash with
  | JStr data, JArr hash =>
      let _hash := sha256 data in
      match check (JArr (List.map JNum _hash)) mustExists TArray with
      | Throw e => Throw (Error ("isValidHash operation failed: " +:+ message e))
      | OK _ =>
          if negb (Nat.eqb (length _hash) (length hash)) then OK false
          else OK (Hash.same_words _hash hash)
      end
  | _, _ => Throw (CheckError TArray hash)
  end.

End HashData.

(** ** modules/utils.js: [getCurrentTimestamp] *)

Module Clock.

(** What the getters of [new Date(Date.now())] return. *)
Record date : Type := {
  getFullYear : Z;
  getMonth : Z;
  getDate : Z;
  getHours : Z;
  getMinutes : Z;
  getSeconds : Z;
  getMilliseconds : Z
}.

(** [getCurrentTimestamp(options)] at the date [d]. The month is padded with
    the minutes, as the source has it. *)
Definition getCurrentTimestamp (d : date) (options : jsval) : res string :=
  do_ check options ifExists TObject;
  let yyyy := string_of_Z (getFullYear d) in
  let MM := string_of_Z (getMonth d + 1) in
  let dd := string_of_Z (getDate d) in
  let hh := string_of_Z (getHours d) in
  let mm := string_of_Z (getMinutes d) in
  let ss := string_of_Z (getSeconds d) in
  let mmm := string_of_Z (getMilliseconds d) in
  let MM := if str_len MM <? 2 then "0" +:+ mm else MM in
  let dd := if str_len dd <? 2 then "0" +:+ dd else dd in
  let hh := if str_len hh <? 2 then "0" +:+ hh else hh in
  let mm := if str_len mm <? 2 then "0" +:+ mm else mm in
  let ss := if str_len ss <? 2 then "0" +:+ ss else ss in
  let mmm := if str_len mmm <? 2 then "00" +:+ mmm
             else if str_len mmm <? 3 then "0" +:+ mmm else mmm in
  if truthy options && strict_eq (get options "style") (JStr "log")
  then OK (yyyy +:+ "-" +:+ MM +:+ "-" +:+ dd +:+ " " +:+ hh +:+ ":" +:+ mm
           +:+ ":" +:+ ss +:+ "." +:+ mmm)
  else OK (String.concat "-" [yyyy; MM; dd; hh; mm; ss]).

End Clock.

(** ** modules/utils.js: [renameIfExists] on a path *)

Module Paths.

(** [renameIfExists(filePath)] for a resolved path [filePath], on which
    [resolve] changes nothing; [fileExists] is the state of the disk. *)
Fixpoint rename_loop (fileExists : string -> bool) (noExt ext _path : string)
    (tries : Z) (fuel : nat) : string :=
  match fuel with
  | O => _path
  | S fuel' =>
      if fileExists _path
      then rename_loop fileExists noExt ext
             (noExt +:+ "_" +:+ string_of_Z tries +:+ ext) (tries + 1) fuel'
      else _path
  end.

Definition renameIfExists (fileExists : string -> bool) (filePath : string)
    : res string :=
  do_ check (JStr filePath) mustExists TString;
  let ext_i := lastIndexOf filePath "." in
  let ext := if ext_i >? 0 then drop_str (Z.to_nat ext_i) filePath else EmptyString in
  let noExt := if ext_i >? 0 then Rename.take_str (Z.to_nat ext_i) filePath else filePath in
  let _path := rename_loop fileExists noExt ext filePath 1 Rename.max_tries in
  if fileExists _path then Throw (Error ("could not rename file: " +:+ filePath))
  else OK _path.

End Paths.

(** ** modules/configs.js *)

Module Configs.

(** The line feed of the error messages. *)
Definition nl : string := String "010"%char EmptyString.

(** [error.message] of an error of [check], as [`${arg}`] prints the
    argument. *)
Definition error_message (e : exn) : string :=
  match e with
  | CheckError t arg => "expected " +:+ type_name t +:+ " in @arg: " +:+ to_string arg
  | Error m => m
  | TypeError m => m
  end.

(** [Object.keys(o)] of an object or an array. The properties of an object
    that [JSON.parse] has made have different names; they are listed in the
    order the object holds them. *)
Definition keys (o : jsval) : list string :=
  match o with
  | JObj props => List.map fst props
  | JArr l => List.map (fun i => string_of_Z (Z.of_nat i)) (seq 0 (length l))
  | _ => []
  end.

(** [o.k] on a value that may be [null] or [undefined]; the message of the
    TypeError is the one of Node 16. *)
Definition prop (o : jsval) (k : string) : res jsval :=
  match o with
  | JUndefined =>
      Throw (TypeError ("Cannot read properties of undefined (reading '" +:+ k +:+ "')"))
  | JNull =>
      Throw (TypeError ("Cannot read properties of null (reading '" +:+ k +:+ "')"))
  | _ => OK (get o k)
  end.

(** [o.length] *)
Definition length_of (o : jsval) : res jsval :=
  match o with
  | JArr l => OK (JNum (Z.of_nat (length l)))
  | JStr s => OK (JNum (str_len s))
  | _ => prop o "length"
  end.

(** What [Number.parseFloat] makes of a string: not a number, an integer, or
    a number with a fraction. *)
Inductive parsed : Type :=
| NaN
| Int (z : Z)
| Fraction.

Definition valid_keys : list string :=
  ["filters"; "token"; "apiServerUrl"; "mediaServerUrl"; "outputDir";
   "maxRequestRetries"; "maxDownloadRetries"; "requestTimeout";
   "connectionTimeout"; "downloadTimeout"; "deleteImages"].

Definition valid_filters_keys : list string :=
  ["assetId"; "submissionIdsCsv"; "submissionIds"; "submissionIdsCsvIdColumnName";
   "submissionIdsCsvSeparator"].

(** [a || b] *)
Definition js_or (a b : jsval) : jsval := if truthy a then a else b.

(** [s.toLowerCase()] on the letters A to Z; the other characters of the
    words "true" and "false" are their own lower case. *)
Definition lower (c : ascii) : ascii :=
  let n := nat_of_ascii c in
  if (65 <=? n)%nat && (n <=? 90)%nat then ascii_of_nat (n + 32) else c.

Fixpoint toLowerCase (s : string) : string :=
  match s with
  | EmptyString => EmptyString
  | String c s' => String (lower c) (toLowerCase s')
  end.

(** The values of [configs/globals.js]. *)
Definition API_SERVER_URL : jsval := JStr "https://kobo.conabio.gob.mx/".
Definition MEDIA_SERVER_URL : jsval := JStr "https://kcat.conabio.gob.mx/".
Definition REQUEST_TIMEOUT : jsval := JNum 15000.
Definition CONNECTION_TIMEOUT : jsval := JNum 18000.
Definition DOWNLOAD_TIMEOUT : jsval := JNum 21000.
Definition MAX_REQUEST_RETRIES : jsval := JNum 20.
Definition MAX_DOWNLOAD_RETRIES : jsval := JNum 30.
Definition OUTPUT_DIR : jsval := JStr "output".

(** The configurations object that [getConfigs] returns. *)
Record t : Type := {
  apiServerUrl : jsval;
  mediaServerUrl : jsval;
  token : jsval;
  deleteImages : jsval;
  maxRequestRetries : jsval;
  maxDownloadRetries : jsval;
  requestTimeout : jsval;
  connectionTimeout : jsval;
  downloadTimeout : jsval;
  mainDir : jsval;
  outputDir : jsval;
  filters : jsval;
  mode : string
}.

Section Collaborators.

(** [Number.parseFloat] on a string, [JSON.stringify(errors, null, 2)], the
    search for the file of [program.configFile] from [mainDir] with
    [parseJSONFile] of what is found, and [getSubmissionIdsFromCsv(filter,
    mainDir)]. *)
Context (parseFloat : string -> parsed) (stringify : list string -> string)
        (load : jsval -> jsval -> res jsval)
        (getSubmissionIdsFromCsv : jsval -> jsval -> res (list jsval)).

(** The body of the loop of [addSubmissionIds]: [i] is the index, [acc] the
    output array, which is changed in place. A number is an integer here. *)
Definition addSubmissionId (i : Z) (id : jsval) (acc : list Z * list string)
    : list Z * list string :=
  let '(_submissionIds, errors) := acc in
  match id with
  | JNum z =>
      if negb (existsb (Z.eqb z) _submissionIds)
      then ((_submissionIds ++ [z])%list, errors)
      else (_submissionIds, errors)
  | JStr s =>
      match parseFloat s with
      | NaN =>
          (_submissionIds,
           (errors ++ ["id '" +:+ s +:+ "' is not a number - in @submissionIds entry "
                       +:+ string_of_Z i])%list)
      | Fraction =>
          (_submissionIds,
           (errors ++ ["id '" +:+ s +:+ "' is not int - in @submissionIds entry "
                       +:+ string_of_Z i])%list)
      | Int _id =>
          if negb (existsb (Z.eqb _id) _submissionIds)
          then ((_submissionIds ++ [_id])%list, errors)
          else (_submissionIds, errors)
      end
  | _ =>
      (_submissionIds,
       (errors ++ ["int or string parsable to int expected - in @submissionIds entry "
                   +:+ string_of_Z i])%list)
  end.

Fixpoint addSubmissionIds_loop (submissionIds : list jsval) (i : Z)
    (acc : list Z * list string) : list Z * list string :=
  match submissionIds with
  | [] => acc
  | id :: rest => addSubmissionIds_loop rest (i + 1) (addSubmissionId i id acc)
  end.

(** [addSubmissionIds(submissionIds, _submissionIds)]: the output array after
    the call, and what the call returns or throws. *)
Definition addSubmissionIds (submissionIds : jsval) (_submissionIds : list Z)
    : list Z * res bool :=
  match check submissionIds mustExists TArray with
  | Throw e => (_submissionIds, Throw e)
  | OK _ =>
      match submissionIds with
      | JArr l =>
          let '(ids, errors) := addSubmissionIds_loop l 0 (_submissionIds, []) in
          if (0 <? length errors)%nat
          then (ids, Throw (Error ("submissionIds has errors: " +:+ nl
                                   +:+ stringify errors +:+ nl)))
          else (ids, OK true)
      | _ => (_submissionIds, Throw (CheckError TArray submissionIds))
      end
  end.

(** [getSubmissionIds(filter, mainDir)] *)
Definition getSubmissionIds (filter mainDir : jsval) : res (list Z) :=
  do_ check filter mustExists TObject;
  do_ check (get filter "submissionIds") ifExists TArray;
  do_ check (get filter "submissionIdsCsv") ifExists TString;
  do_ check mainDir mustExists TString;
  do ids <- (if truthy (get filter "submissionIds")
             then let (ids, r) := addSubmissionIds (get filter "submissionIds") [] in
                  do_ r; OK ids
             else OK []);
  if truthy (get filter "submissionIdsCsv")
  then do sids <- getSubmissionIdsFromCsv filter mainDir;
       let (ids', r) := addSubmissionIds (JArr sids) ids in
       do_ r; OK ids'
  else OK ids.

(** [try { check(v, c, t) } catch(error) { errors.push(error.message) }] *)
Definition try_check (v : jsval) (c : condition) (t : jstype) (errors : list string)
    : list string :=
  match check v c t with
  | OK _ => errors
  | Throw e => (errors ++ [error_message e])%list
  end.

(** The three checks of a key of a filter that holds a string. *)
Definition check_string_key (key : string) (i : Z) (filter : jsval)
    (errors : list string) : list string :=
  let v := get filter key in
  if negb (is_undefined v) then
    let errors :=
      if is_null v
      then (errors ++ ["string expected in key '" +:+ key
                       +:+ "' but is null - in @filters entry " +:+ string_of_Z i])%list
      else if strict_eq v (JStr EmptyString)
      then (errors ++ ["string expected in key '" +:+ key
                       +:+ "' but is empty - in @filters entry " +:+ string_of_Z i])%list
      else if negb (isOfType v TString)
      then (errors ++ ["string expected in key '" +:+ key
                       +:+ "' but is not a string - in @filters entry "
                       +:+ string_of_Z i])%list
      else errors in
    errors
  else errors.

(** [if(!filter.submissionIdsCsv === undefined)]: the negation is a boolean,
    which is never [undefined]. *)
Definition check_needs_csv (key : string) (i : Z) (filter : jsval)
    (errors : list string) : list string :=
  if negb (is_undefined (get filter key)) then
    if strict_eq (JBool (negb (truthy (get filter "submissionIdsCsv")))) JUndefined
    then (errors ++ ["key '" +:+ key
                     +:+ "' is defined but 'submissionIdsCsv' isn't - in @filters entry "
                     +:+ string_of_Z i])%list
    else errors
  else errors.

(** The loop over [Object.keys(o)] that reports the keys that are not
    valid. *)
Definition check_keys (valid : list string) (place : string) (o : jsval)
    (errors : list string) : list string :=
  fold_left (fun errors k =>
               if negb (existsb (String.eqb k) valid)
               then (errors ++ ["not valid key in " +:+ place +:+ ": '" +:+ k +:+ "'"])%list
               else errors)
            (keys o) errors.

(** The check of [filter.assetId], with the asset ids of the filters
    before. *)
Definition check_assetId (i : Z) (filter : jsval) (acc : list string * list string)
    : list string * list string :=
  let '(assetIds, errors) := acc in
  let assetId := get filter "assetId" in
  if is_undefined assetId
  then (assetIds,
        (errors ++ ["mandatory key 'assetId' is not defined - in @filters entry "
                    +:+ string_of_Z i])%list)
  else if is_null assetId
  then (assetIds,
        (errors ++ ["string expected in key 'assetId' but is null - in @filters entry "
                    +:+ string_of_Z i])%list)
  else if strict_eq assetId (JStr EmptyString)
  then (assetIds,
        (errors ++ ["non-empty string expected in key 'assetId' but is empty - in @filters entry "
                    +:+ string_of_Z i])%list)
  else match assetId with
       | JStr id =>
           if existsb (String.eqb id) assetIds
           then (assetIds,
                 (errors ++ ["repeated 'assetId' found, each assetId should appears only once in filters - in @filters entry "
                             +:+ string_of_Z i])%list)
           else ((assetIds ++ [id])%list, errors)
       | _ =>
           (assetIds,
            (errors ++ ["string expected in key 'assetId' but is not a string - in @filters entry "
                        +:+ string_of_Z i])%list)
       end.

(** The check of [filter.submissionIds]. *)
Definition check_submissionIds (i : Z) (filter : jsval) (errors : list string)
    : list string :=
  let submissionIds := get filter "submissionIds" in
  if negb (is_undefined submissionIds) then
    if is_null submissionIds
    then (errors ++ ["array expected in key 'submissionIds' but is null - in @filters entry "
                     +:+ string_of_Z i])%list
    else if negb (isOfType submissionIds TArray)
    then (errors ++ ["array expected in key 'submissionIds' - in @filters entry "
                     +:+ string_of_Z i])%list
    else errors
  else errors.

(** The body of the loop over [configs.filters]. *)
Definition check_filter (i : Z) (filter : jsval) (acc : list string * list string)
    : list string * list string :=
  let '(assetIds, errors) := acc in
  if negb (truthy filter) || negb (isOfType filter TObject)
  then (assetIds,
        (errors ++ ["expected object - in @filters entry " +:+ string_of_Z i])%list)
  else
    let errors := check_keys valid_filters_keys "configs.filters" filter errors in
    let '(assetIds, errors) := check_assetId i filter (assetIds, errors) in
    let errors := check_submissionIds i filter errors in
    let errors := check_string_key "submissionIdsCsv" i filter errors in
    let errors := check_string_key "submissionIdsCsvIdColumnName" i filter errors in
    let errors := check_needs_csv "submissionIdsCsvIdColumnName" i filter errors in
    let errors := check_string_key "submissionIdsCsvSeparator" i filter errors in
    let errors := check_needs_csv "submissionIdsCsvSeparator" i filter errors in
    (assetIds, errors).

Fixpoint check_filters (filters : list jsval) (i : Z) (acc : list string * list string)
    : list string * list string :=
  match filters with
  | [] => acc
  | filter :: rest => check_filters rest (i + 1) (check_filter i filter acc)
  end.

(** [checkRunConfigs(configs)]. The call returns without a change for a
    value that is not truthy ([None]); otherwise it throws the errors it has
    found, or returns with [configs.filters] set to what [Some] holds. *)
Definition checkRunConfigs (configs : jsval) : res (option jsval) :=
  do_ check configs ifExists TObject;
  if negb (truthy configs) then OK None
  else
    let errors := check_keys valid_keys "configs" configs [] in
    let errors := try_check (get configs "token") ifExists TString errors in
    let errors := try_check (get configs "apiServerUrl") ifExists TString errors in
    let errors := try_check (get configs "mediaServerUrl") ifExists TString errors in
    let errors := try_check (get configs "outputDir") ifExists TString errors in
    let errors := try_check (get configs "maxRequestRetries") ifDefined TNumber errors in
    let errors := try_check (get configs "maxDownloadRetries") ifDefined TNumber errors in
    let errors := try_check (get configs "requestTimeout") ifDefined TNumber errors in
    let errors := try_check (get configs "connectionTimeout") ifDefined TNumber errors in
    let errors := try_check (get configs "downloadTimeout") ifDefined TNumber errors in
    let errors := try_check (get configs "deleteImages") ifDefined TBoolean errors in
    let '(filters, errors) :=
      if negb (truthy (get configs "filters")) then (JArr [], errors)
      else match get configs "filters" with
           | JArr l => (JArr l, snd (check_filters l 0 ([], errors)))
           | f => (f, (errors ++ ["expected array in @filters"])%list)
           end in
    if (0 <? length errors)%nat
    then Throw (Error ("configs file has errors: " +:+ nl +:+ stringify errors +:+ nl))
    else OK (Some filters).

(** The loop of [getConfigs] that sets [filter._submissionIds]. A filter
    that [checkRunConfigs] has accepted has an [assetId], so it is an object
    and not an array. *)
Fixpoint set_submissionIds (filters : list jsval) (mainDir : jsval)
    : res (list jsval) :=
  match filters with
  | [] => OK []
  | filter :: rest =>
      do ids <- getSubmissionIds filter mainDir;
      do rest' <- set_submissionIds rest mainDir;
      OK (match filter with
          | JObj props =>
              JObj (set_prop "_submissionIds" (JArr (List.map JNum ids)) props)
          | _ => filter
          end :: rest')
  end.

(** [getConfigs(program, mainDir)], with [env_] the variables of
    [process.env]. The last alternative of a chain of [||] is left out where
    the value of [globals.js] before it is truthy. *)
Definition getConfigs (program : jsval) (env_ : list (string * string))
    (mainDir : jsval) : res t :=
  do_ check program mustExists TObject;
  do_ check mainDir mustExists TString;
  let getenv k := js_opt_str (assoc k env_) in
  do runConfigs <-
    (if truthy (get program "configFile") then
       do runConfigs <- load (get program "configFile") mainDir;
       do checked <- checkRunConfigs runConfigs;
       do filters <- match checked with
                     | Some filters => OK filters
                     | None => prop runConfigs "filters"
                     end;
       do n <- length_of filters;
       match filters with
       | JArr l =>
           do l' <- set_submissionIds l mainDir;
           OK (runConfigs, JArr l')
       | _ => OK (runConfigs, filters)
       end
     else OK (JObj [], JUndefined));
  let filters := snd runConfigs in
  let runConfigs := fst runConfigs in
  let apiServerUrl :=
    js_or (get program "apiServerUrl")
      (js_or (getenv "KT_API_SERVER_URL")
         (js_or (get runConfigs "apiServerUrl") API_SERVER_URL)) in
  if negb (truthy apiServerUrl)
  then Throw (Error "API_SERVER_URL is required, but is not defined")
  else
  let mediaServerUrl :=
    js_or (get program "mediaServerUrl")
      (js_or (getenv "KT_MEDIA_SERVER_URL")
         (js_or (get runConfigs "mediaServerUrl") MEDIA_SERVER_URL)) in
  if negb (truthy mediaServerUrl)
  then Throw (Error "MEDIA_SERVER_URL is required, but is not defined")
  else
  let token :=
    js_or (get program "token")
      (js_or (getenv "KT_TOKEN")
         (js_or (get runConfigs "token") (js_or JUndefined (JStr EmptyString)))) in
  do deleteImages <-
    (if confirm (get program "deleteImages") c_defined then OK (JBool true)
     else match assoc "KT_DELETE_IMAGES" env_ with
          | Some v =>
              if String.eqb (toLowerCase v) "true" then OK (JBool true)
              else if String.eqb (toLowerCase v) "false" then OK (JBool false)
              else Throw (Error ("KT_DELETE_IMAGES is defined, but has an invalid value: "
                                 +:+ v +:+ ", expected boolean"))
          | None =>
              if confirm (get runConfigs "deleteImages") c_defined
              then OK (get runConfigs "deleteImages")
              else OK (JBool false)
          end);
  let maxRequestRetries :=
    js_or (get program "maxRequestRetries")
      (js_or (getenv "KT_MAX_REQUEST_RETRIES")
         (js_or (get runConfigs "maxRequestRetries") MAX_REQUEST_RETRIES)) in
  let maxDownloadRetries :=
    js_or (get program "maxDownloadRetries")
      (js_or (getenv "KT_MAX_DOWNLOAD_RETRIES")
         (js_or (get runConfigs "maxDownloadRetries") MAX_DOWNLOAD_RETRIES)) in
  let requestTimeout :=
    js_or (get program "requestTimeout")
      (js_or (getenv "KT_REQUEST_TIMEOUT")
         (js_or (get runConfigs "requestTimeout") REQUEST_TIMEOUT)) in
  let connectionTimeout :=
    js_or (get program "connectionTimeout")
      (js_or (getenv "KT_CONNECTION_TIMEOUT")
         (js_or (get runConfigs "connectionTimeout") CONNECTION_TIMEOUT)) in
  let downloadTimeout :=
    js_or (get program "downloadTimeout")
      (js_or (getenv "KT_DOWNLOAD_TIMEOUT")
         (js_or (get runConfigs "downloadTimeout") DOWNLOAD_TIMEOUT)) in
  let outputDir :=
    js_or (get program "outputDir")
      (js_or (getenv "KT_OUTPUT_DIR")
         (js_or (get runConfigs "outputDir") OUTPUT_DIR)) in
  if negb (truthy filters) && negb (truthy token)
  then Throw (Error "either 'filters' or 'token' should be properly configured")
  else
    do n <- length_of filters;
    OK {| apiServerUrl := apiServerUrl; mediaServerUrl := mediaServerUrl;
          token := token; deleteImages := deleteImages;
          maxRequestRetries := maxRequestRetries;
          maxDownloadRetries := maxDownloadRetries;
          requestTimeout := requestTimeout; connectionTimeout := connectionTimeout;
          downloadTimeout := downloadTimeout; mainDir := mainDir;
          outputDir := outputDir; filters := filters;
          mode := if truthy n then "filters" else "token" |}.

End Collaborators.

End Configs.

(** * Specification vocabulary *)

(** [name] is the end of [s]. *)
Definition ends_with (s name : string) : Prop := exists p, s = p +:+ name.

(** The attachment qualifies for [name]: an image mimetype, and a filename
    that ends with [name]. *)
Definition qualifies (name : string) (a : Attachment) : Prop :=
  (exists rest, mimetype a = "image" +:+ rest) /\ ends_with (filename a) name.

(** The attachment passes the internal checks of the matcher: its mimetype,
    download url and filename are not empty. *)
Definition well_formed (a : Attachment) : Prop :=
  mimetype a <> EmptyString /\ download_url a <> EmptyString
  /\ filename a <> EmptyString.

(** ** The scenario of the specification (section 8, item 6)

    One record, 1721, with two image fields: [photo_a] is answered with
    [photo.jpg], which attachment 2395 carries, [photo_b] is not answered. *)

Definition att_2395 : Attachment :=
  {| mimetype := "image/jpeg"; download_url := "https://kc.example/media/2395";
     filename := "user/attachments/photo.jpg"; instance := 1721; id := 2395;
     xform := 177 |}.

(** An older upload of the same picture, a sound file of that name, and a
    file whose name only contains the picture's name. *)
Definition att_2001 : Attachment :=
  {| mimetype := "image/jpeg"; download_url := "https://kc.example/media/2001";
     filename := "user/attachments/photo.jpg"; instance := 1721; id := 2001;
     xform := 177 |}.

Definition att_sound : Attachment :=
  {| mimetype := "audio/mpeg"; download_url := "https://kc.example/media/3000";
     filename := "user/attachments/photo.jpg"; instance := 1721; id := 3000;
     xform := 177 |}.

Definition att_backup : Attachment :=
  {| mimetype := "image/jpeg"; download_url := "https://kc.example/media/3001";
     filename := "user/attachments/photo.jpg.bak"; instance := 1721; id := 3001;
     xform := 177 |}.

Definition example_attachments : list Attachment :=
  [att_2001; att_sound; att_2395; att_backup].

(** The two tests of the matcher's loop, together. *)
Definition qualifiesb (name : string) (a : Attachment) : bool :=
  Utils.image_mimetype (mimetype a) && Utils.filename_matches name a.

(** The matcher resolves the value [v] of a field of [subm] to [a]. *)
Definition resolves (subm : submission) (v : string) (a : Attachment) : Prop :=
  Utils.findAttachment v (_attachments subm) (_id subm) = OK (Some a).

Definition photo_a : imgField := {| autoname := "photo_a" |}.
Definition photo_b : imgField := {| autoname := "photo_b" |}.

Definition scenario_subm : submission :=
  {| _attachments := example_attachments;
     images_map := [("photo_a", [[("group/photo_a", "photo.jpg")]]); ("photo_b", [])];
     _id := 1721 |}.

Definition scenario_asset : asset :=
  {| uid := "aeUTa3g2VzbPP5SGoTx8Rp"; name := "survey";
     imgs := [photo_a; photo_b]; submissions := [scenario_subm] |}.

(** What the builder makes of the scenario. *)
Definition scenario_fields : Builder.state * list (string * entry) :=
  Eval vm_compute in
    match Builder.build_fields Builder.init scenario_subm [photo_a; photo_b] [] with
    | OK r => r
    | Throw _ => (Builder.init, [])
    end.

Definition scenario_mapped : mapped_asset :=
  Eval vm_compute in
    match Builder.buildActionMap [scenario_asset] with
    | OK [ma] => ma
    | _ => {| ma_asset := scenario_asset; map := [];
              ma_mapCounters := Builder.make_mapCounters Builder.init |}
    end.

Definition scenario_map : list mapped_asset := [scenario_mapped].

(** A record whose answer to [photo_a] is the empty string. *)
Definition subm_empty_answer : submission :=
  {| _attachments := example_attachments;
     images_map := [("photo_a", [[("photo_a", EmptyString)]])];
     _id := 1721 |}.

Definition asset_empty_answer : asset :=
  {| uid := "aeUTa3g2VzbPP5SGoTx8Rp"; name := "survey";
     imgs := [photo_a]; submissions := [subm_empty_answer] |}.

(** A record that binds two raw keys to [photo_a]. *)
Definition subm_ambiguous : submission :=
  {| _attachments := example_attachments;
     images_map := [("photo_a", [[("photo_a", "photo.jpg")];
                                 [("group/photo_a", "other.jpg")]])];
     _id := 1722 |}.

Definition asset_ambiguous : asset :=
  {| uid := "aeUTa3g2VzbPP5SGoTx8Rp"; name := "survey";
     imgs := [photo_a]; submissions := [scenario_subm; subm_ambiguous] |}.

(** The correlation between the value, the attachment and the action of the
    entry [e] that the builder makes for the field [f] of [subm]. *)
Definition correlation (subm : submission) (f : imgField) (e : entry) : Prop :=
  (value e = None \/ value e = Some EmptyString ->
     action e = Action.delete /\ attachment e = None /\ warning e = None)
  /\ (forall v a, value e = Some v -> v <> EmptyString -> resolves subm v a ->
        action e = Action.keep /\ attachment e = Some a)
  /\ (forall v, value e = Some v -> v <> EmptyString ->
        (forall a, ~ resolves subm v a) ->
        action e = Action.none /\ attachment e = None
        /\ warning e = Some (Builder.none_warning (_id subm) (autoname f) v)).

(** The shape of every entry the builder makes: a delete entry has no value
    or an empty one, a keep or none entry has a value that is not empty. *)
Definition entry_shape (e : entry) : Prop :=
  match action e with
  | Action.delete => value e = None \/ value e = Some EmptyString
  | Action.keep | Action.none => exists v, value e = Some v /\ v <> EmptyString
  end.

(** The record binds more than one raw key to the field: the field's array
    of ["@images_map"] has more than one element. *)
Definition ambiguous (subm : submission) (f : imgField) : Prop :=
  exists l, assoc (autoname f) (images_map subm) = Some l /\ (1 < length l)%nat.

(** Every entry of the action map [m] has the builder's shape. *)
Definition map_shape (m : list emap) : Prop :=
  forall em k e, In em m -> In (k, e) (emap_entries em) -> entry_shape e.

(** ** A record whose answer has no attachment

    Record 1721 answers [photo_a] with [lost.jpg], which no attachment
    carries; the image directory still holds the picture of an earlier run. *)

Definition subm_lost : submission :=
  {| _attachments := example_attachments;
     images_map := [("photo_a", [[("photo_a", "lost.jpg")]])];
     _id := 1721 |}.

Definition asset_lost : asset :=
  {| uid := "aeUTa3g2VzbPP5SGoTx8Rp"; name := "survey";
     imgs := [photo_a]; submissions := [subm_lost] |}.

Definition map_lost : list emap :=
  Eval vm_compute in
    match Builder.buildActionMap [asset_lost] with
    | OK [ma] => map ma
    | _ => []
    end.

Definition images_lost : gmap string node :=
  <["1721_lost.jpg" := File "JFIF-lost"]> (<["data" := Dir]> ∅).

(** The sweeper as [updateImages] configures it for an asset. *)
Definition configured (imc : ImageCleaner.t) (m : list emap) (deleteImages : bool)
    : res ImageCleaner.t :=
  do imc1 <- ImageCleaner.set_map imc (Some m);
  do imc2 <- ImageCleaner.set_paths imc1;
  ImageCleaner.set_deleteImages imc2 deleteImages.

(** ** Vocabulary of the executor *)

(** The state file of the field is absent, or [JSON.parse] makes an object
    of it: reading it does not throw. *)
Definition state_file_readable (w : world) (rid : Z) (e_key : string) : Prop :=
  match attachmentsMap w !! (rid, e_key) with
  | None => True
  | Some (Json v) => truthy v = true /\ isOfType v TObject = true
  | Some (NotJson _) => False
  end.

(** The field has the state record [v], and it is structurally valid. *)
Definition valid_state_record (w : world) (rid : Z) (e_key : string) (v : jsval) : Prop :=
  attachmentsMap w !! (rid, e_key) = Some (Json v)
  /\ StateRecord.isValidAttachmentMap v = OK true.

(** The four conditions of freshness, for a local file that exists: a valid
    state record, whose image name is [name], whose attachment id is
    [attachmentId], and whose hash is the digest of the file. *)
Definition up_to_date (E : env) (w : world) (rid : Z) (e_key name : string)
    (attachmentId : Z) : Prop :=
  exists v data,
    images w !! name = Some (File data)
    /\ valid_state_record w rid e_key v
    /\ get v "imageName" = JStr name
    /\ get v "attachmentId" = JNum attachmentId
    /\ get (get v "imgInfo") "hash" = JArr (List.map JNum (sha256 E data)).

(** What [download] resolves to lets one turn of the download-and-write
    cycle succeed: a content length that is a number and not zero, a content
    type that is a string or missing, and a stream that closes after as many
    bytes as the content length. *)
Definition delivers (r : res (list d_result)) : bool :=
  match r with
  | OK (d :: _) =>
      match contentLength d, readStream d with
      | JNum len, Closes data =>
          negb (len =? 0) && (str_len data =? len)
          && negb (truthy (contentType d) && negb (isOfType (contentType d) TString))
      | _, _ => false
      end
  | _ => false
  end.

(** The key of the entry collides: its keep name is already in the keep
    names, or the image name of its valid state record is already in the
    keep names or in the delete names. *)
Definition collides (st : Executor.state) (rid : Z) (e_key : string)
    (e_value : entry) (name : string) : Prop :=
  (action e_value = Action.keep /\ attachment e_value <> None
   /\ name = Update.img_new_name rid e_value
   /\ In name (Executor.imageNamesToKeep st))
  \/ (action e_value = Action.delete
      /\ (exists v, valid_state_record (Executor.disk st) rid e_key v
                    /\ get v "imageName" = JStr name)
      /\ (In name (Executor.imageNamesToKeep st)
          \/ In name (Executor.imageNamesToDelete st))).

(** The message of the collision error. *)
Definition collision_message (st : Executor.state) (e_value : entry) (name : string)
    : string :=
  match action e_value with
  | Action.keep => "in action 'keep': image name is duplicated: " +:+ name
  | _ =>
      if ImageCleaner.inb name (Executor.imageNamesToKeep st)
      then "in action 'delete': image name is duplicated in to-keep list: " +:+ name
      else "in action 'delete': image name is duplicated in to-delete list: " +:+ name
  end.

(** ** An environment for the examples

    The digest is the length of the data followed by a constant word; every
    file decodes as a picture of 640 by 480; the media server answers every
    request with the ten bytes of the picture. *)

Definition example_download : res (list d_result) :=
  OK [{| readStream := Closes "JFIF-photo"; contentLength := JNum 10;
         contentType := JStr "image/jpeg" |}].

Definition example_env : env :=
  {| sha256 := fun data => [str_len data; 42];
     Canvas_Image := fun _ => OK (640, 480);
     getCurrentTimestamp := "2020-11-17-19-41-36";
     sizeMB_label := fun _ => "0MB";
     download_ := fun _ => example_download |}.

(** The same, with a media server that never answers. *)
Definition offline_env : env :=
  {| sha256 := fun data => [str_len data; 42];
     Canvas_Image := fun _ => OK (640, 480);
     getCurrentTimestamp := "2020-11-17-19-41-36";
     sizeMB_label := fun _ => "0MB";
     download_ := fun _ => Throw (Error "download fails after 20 retries") |}.

Definition example_configs (deleteImages : bool) : configs :=
  {| deleteImages := deleteImages; maxDownloadRetries := 30;
     imagesPath := "output/images"; imagesDeletedPath := "output/images_deleted";
     attachmentsMapPath := "output/.attachments_map" |}.

Definition empty_world : world :=
  {| images := <["data" := Dir]> ∅; images_info := []; cleanedDir := ∅;
     imagesDeleted := ∅; attachmentsMap := ∅; requests := 0 |}.

(** The state after a keep has claimed its name. *)
Definition claimed (st : Executor.state) (name : string) : Executor.state :=
  Executor.set_names st (Executor.imageNamesToKeep st ++ [name])
    (Executor.imageNamesToKeepDuplicated st)
    (Executor.imageNamesToDelete st) (Executor.imageNamesToDeleteDuplicated st).

(** ** Worlds and entries of the examples *)

Definition entry_keep : entry :=
  {| value := Some "photo.jpg"; attachment := Some att_2395;
     action := Action.keep; subm_mapped_key := Some "group/photo_a";
     warning := None |}.

Definition entry_delete : entry :=
  {| value := None; attachment := None; action := Action.delete;
     subm_mapped_key := None; warning := None |}.

(** The state record of a picture, as the comment of [updateImages] and the
    README describe it. *)
Definition state_record (imageName originalName : string) (attachmentId : Z)
    (hash : list Z) : jsval :=
  JObj [("imageName", JStr imageName); ("originalName", JStr originalName);
        ("attachmentId", JNum attachmentId);
        ("saveTimestamp", JStr "2020-11-17-19-41-36");
        ("imgInfo",
         JObj [("hash", JArr (List.map JNum hash)); ("width", JNum 640);
               ("height", JNum 480);
               ("dimensions", JStr "width: 640 pixels, height: 480 pixels");
               ("assetUid", JStr "aeUTa3g2VzbPP5SGoTx8Rp");
               ("assetName", JStr "survey"); ("recordId", JNum 1721);
               ("name", JStr imageName); ("type", JStr "image/jpeg");
               ("size", JNum 10); ("sizeMB", JStr "0MB")])].

Definition record_2395 : jsval :=
  state_record "1721_photo.jpg" "photo.jpg" 2395 [10; 42].

(** The picture of attachment 2395 is on the disk with its state record,
    filed under [photo_a] and under [photo_copy]. *)
Definition world_kept : world :=
  {| images := <["1721_photo.jpg" := File "JFIF-photo"]> (<["data" := Dir]> ∅);
     images_info := []; cleanedDir := ∅; imagesDeleted := ∅;
     attachmentsMap := <[(1721, "photo_a") := Json record_2395]>
                         (<[(1721, "photo_copy") := Json record_2395]> ∅);
     requests := 0 |}.

(** A directory has the name of the picture. *)
Definition world_dir : world :=
  {| images := <["1721_photo.jpg" := Dir]> (<["data" := Dir]> ∅);
     images_info := []; cleanedDir := ∅; imagesDeleted := ∅;
     attachmentsMap := ∅; requests := 0 |}.

(** The state file of [photo_a] is not JSON. *)
Definition world_garbled : world :=
  {| images := <["1721_photo.jpg" := File "JFIF-photo"]> (<["data" := Dir]> ∅);
     images_info := []; cleanedDir := ∅; imagesDeleted := ∅;
     attachmentsMap := <[(1721, "photo_a") := NotJson "{"]> ∅;
     requests := 0 |}.

(** The field [photo_b] had the picture [old.jpg] in an earlier run: the
    file and its state record are on the disk. *)
Definition record_old : jsval :=
  state_record "1721_old.jpg" "old.jpg" 2001 [8; 42].

Definition world_old : world :=
  {| images := <["1721_old.jpg" := File "JFIF-old"]> (<["data" := Dir]> ∅);
     images_info := []; cleanedDir := ∅; imagesDeleted := ∅;
     attachmentsMap := <[(1721, "photo_b") := Json record_old]> ∅;
     requests := 0 |}.

Definition scenario_emap : list emap := map scenario_mapped.

(** ** The picture that has changed its field

    In an earlier run record 1721 answered [photo_b] with [old.jpg]; now
    [photo_b] is not answered and [photo_c] is answered with [old.jpg], which
    attachment 2001 carries. The disk is [world_old]: the picture and its
    state record, filed under [photo_b]. The media server delivers the eight
    bytes of the picture. *)

Definition photo_c : imgField := {| autoname := "photo_c" |}.

Definition att_old : Attachment :=
  {| mimetype := "image/jpeg"; download_url := "https://kc.example/media/2001";
     filename := "user/attachments/old.jpg"; instance := 1721; id := 2001;
     xform := 177 |}.

Definition subm_moved : submission :=
  {| _attachments := [att_old];
     images_map := [("photo_b", []); ("photo_c", [[("photo_c", "old.jpg")]])];
     _id := 1721 |}.

Definition asset_moved : asset :=
  {| uid := "aeUTa3g2VzbPP5SGoTx8Rp"; name := "survey";
     imgs := [photo_b; photo_c]; submissions := [subm_moved] |}.

Definition map_moved : list emap :=
  Eval vm_compute in
    match Builder.buildActionMap [asset_moved] with
    | OK [ma] => map ma
    | _ => []
    end.

Definition entry_keep_old : entry :=
  {| value := Some "old.jpg"; attachment := Some att_old;
     action := Action.keep; subm_mapped_key := Some "photo_c";
     warning := None |}.

Definition old_env : env :=
  {| sha256 := fun data => [str_len data; 42];
     Canvas_Image := fun _ => OK (640, 480);
     getCurrentTimestamp := "2020-11-17-19-41-36";
     sizeMB_label := fun _ => "0MB";
     download_ := fun _ =>
       OK [{| readStream := Closes "JFIF-old"; contentLength := JNum 8;
              contentType := JStr "image/jpeg" |}] |}.

(** The state record of [old.jpg] with the hash also in a property [hash] of
    the record itself, where the delete case looks for it. *)
Definition record_old_top_hash : jsval :=
  match record_old with
  | JObj props => JObj (props ++ [("hash", JArr [JNum 8; JNum 42])])
  | v => v
  end.

Definition world_old_top_hash : world :=
  {| images := <["1721_old.jpg" := File "JFIF-old"]> (<["data" := Dir]> ∅);
     images_info := []; cleanedDir := ∅; imagesDeleted := ∅;
     attachmentsMap := <[(1721, "photo_b") := Json record_old_top_hash]> ∅;
     requests := 0 |}.

(** The record's map binds the field [f] to an entry that carries the raw
    value of the field and has the correlation. *)
Definition field_classified (subm : submission) (m : list (string * entry))
    (f : imgField) : Prop :=
  exists e, assoc (autoname f) m = Some e
    /\ Builder.field_value subm f = OK (subm_mapped_key e, value e)
    /\ correlation subm f e.

(** [em] is the element of the action map for the record [subm]: it has the
    record's id and an entry for every declared field. *)
Definition record_classified (fields : list imgField) (subm : submission)
    (em : emap) : Prop :=
  emap_id em = _id subm
  /\ forall f, In f fields -> field_classified subm (emap_entries em) f.

(** ** Vocabulary of the further properties *)

(** The five conditions of [check], from the weakest to the strongest. *)
Definition strength (c : condition) : nat :=
  match c with
  | ifExists => 0
  | ifDefined => 1
  | type => 2
  | defined => 3
  | mustExists => 4
  end.

(** The text that a pattern of escaped literals matches: a backslash makes
    the character after it a literal. *)
Fixpoint literal_text (p : string) : string :=
  match p with
  | EmptyString => EmptyString
  | String c p' =>
      if Ascii.eqb c "\"%char
      then match p' with
           | String c' p'' => String c' (literal_text p'')
           | EmptyString => EmptyString
           end
      else String c (literal_text p')
  end.

(** [p] has literals only: no character of the class stands unescaped, and
    no backslash is left alone at the end. *)
Fixpoint literals_only (p : string) : bool :=
  match p with
  | EmptyString => true
  | String c p' =>
      if Ascii.eqb c "\"%char
      then match p' with
           | String _ p'' => literals_only p''
           | EmptyString => false
           end
      else negb (RegExp.special c) && literals_only p'
  end.

(** The name that the entry [kv] of the record [rid] gives to the name list
    of the action [a]: an entry without a non-empty answer gives none. *)
Definition named (a : Action.t) (rid : Z) (kv : string * entry) : option string :=
  match value (snd kv) with
  | Some v =>
      if negb (String.eqb v EmptyString) && Action.eqb (action (snd kv)) a
      then Some (string_of_Z rid +:+ "_" +:+ v)
      else None
  | None => None
  end.

(** The names of the action [a] in the map [m], in the order of the map. *)
Definition names_of (a : Action.t) (m : list emap) : list string :=
  flat_map (fun em => omap (named a (emap_id em)) (emap_entries em)) m.

(** A number of at most two, or three, digits with its leading zeros. *)
Definition pad2 (n : Z) : string :=
  if n <? 10 then "0" +:+ string_of_Z n else string_of_Z n.

Definition pad3 (n : Z) : string :=
  if n <? 10 then "00" +:+ string_of_Z n
  else if n <? 100 then "0" +:+ string_of_Z n else string_of_Z n.

(** The ranges of the getters of a date. *)
Definition date_in_range (d : Clock.date) : Prop :=
  0 <= Clock.getMonth d < 12 /\ 1 <= Clock.getDate d <= 31
  /\ 0 <= Clock.getHours d < 24 /\ 0 <= Clock.getMinutes d < 60
  /\ 0 <= Clock.getSeconds d < 60 /\ 0 <= Clock.getMilliseconds d < 1000.

(** The [k]-th candidate of [renameIfExists] for a path: the number goes
    before the extension, which starts at the last dot when this dot is not
    the first character. *)
Definition candidate (filePath : string) (k : Z) : string :=
  let ext_i := lastIndexOf filePath "." in
  if ext_i >? 0
  then Rename.take_str (Z.to_nat ext_i) filePath +:+ "_" +:+ string_of_Z k
       +:+ drop_str (Z.to_nat ext_i) filePath
  else filePath +:+ "_" +:+ string_of_Z k.

(** The element of the scenario's action map. *)
Definition scenario_record : emap :=
  {| emap_id := 1721;
     emap_entries := [("photo_a", entry_keep); ("photo_b", entry_delete)] |}.

(** A disk on which [/q/a.jpg] and its first candidate are taken. *)
Definition example_taken (p : string) : bool :=
  String.eqb p "/q/a.jpg" || String.eqb p "/q/a_1.jpg".

(** 5 March 2021, 14:07:09.042, seen from the getters of [Date]. *)
Definition example_date : Clock.date :=
  {| Clock.getFullYear := 2021; Clock.getMonth := 2; Clock.getDate := 5;
     Clock.getHours := 14; Clock.getMinutes := 7; Clock.getSeconds := 9;
     Clock.getMilliseconds := 42 |}.

(** 17 November 2020, 19:41:36.005. *)
Definition example_date_november : Clock.date :=
  {| Clock.getFullYear := 2020; Clock.getMonth := 10; Clock.getDate := 17;
     Clock.getHours := 19; Clock.getMinutes := 41; Clock.getSeconds := 36;
     Clock.getMilliseconds := 5 |}.

(** The per-asset counters of the builder after [n] turns of the loop over
    the fields: each turn has counted one action, and one warning for each
    'none'. *)
Definition counters_agree (st : Builder.state) (n : Z) : Prop :=
  0 <= Builder.keeps st /\ 0 <= Builder.deletes st /\ 0 <= Builder.nones st
  /\ Builder.keeps st + Builder.deletes st + Builder.nones st = n
  /\ Builder._totalActions st = n
  /\ Z.of_nat (length (Builder.warnings st)) = Builder.nones st.

(** The report of counters of a mapped asset adds up. *)
Definition counters_add_up (ma : mapped_asset) : Prop :=
  let mc := ma_mapCounters ma in
  0 <= mc_keeps mc /\ 0 <= mc_deletes mc /\ 0 <= mc_nones mc
  /\ mc_keeps mc + mc_deletes mc + mc_nones mc = mc_totalActions mc
  /\ mc_totalActions mc
     = Z.of_nat (length (submissions (ma_asset ma)) * length (imgs (ma_asset ma)))
  /\ mc_warnings mc = if mc_nones mc =? 0 then None else Some (mc_nones mc).

(** The asset has at least one submission and one image field. *)
Definition has_work (a : asset) : bool :=
  match submissions a, imgs a with
  | [], _ | _, [] => false
  | _, _ => true
  end.

(** The sweeper acts on the file: it removes it or moves it. *)
Definition swept (c : ImageCleaner.t) (file : string) : bool :=
  match ImageCleaner.decide_file c file with
  | ImageCleaner.Leave => false
  | _ => true
  end.

(** What has become of a regular file [f] with content [data] of the image
    directory when the sweeper has run: [before] and [after] are the image
    directory and the quarantine at the start and at the end. *)
Definition sweep_outcome (c c' : ImageCleaner.t) (before after : ImageCleaner.dirs)
    (f data : string) : Prop :=
  match ImageCleaner.decide_file c f with
  | ImageCleaner.Leave => fst after !! f = Some (File data)
  | ImageCleaner.Remove => fst after !! f = None
  | ImageCleaner.Quarantine =>
      (fst after !! f = None
       /\ exists g, snd before !! g = None /\ snd after !! g = Some (File data))
      \/ (fst after !! f = Some (File data)
          /\ exists op, In op (ImageCleaner.cleaned c')
                        /\ co_targetFile op = f /\ co_status_ok op = false)
  end.

(** The cleaner of [updateImages] for the scenario, with the toggle off, and
    an image directory with the kept picture, a stray file and [data]. *)
Definition swept_cleaner : ImageCleaner.t :=
  Eval vm_compute in
    match (do c1 <- ImageCleaner.set_map ImageCleaner.new (Some scenario_emap);
           do c2 <- ImageCleaner.set_paths c1;
           ImageCleaner.set_deleteImages c2 false) with
    | OK c => c
    | Throw _ => ImageCleaner.new
    end.

Definition swept_images : gmap string node :=
  <["1721_photo.jpg" := File "JFIF-photo"]>
    (<["stray.jpg" := File "JFIF-stray"]> (<["data" := Dir]> ∅)).
(** The tests of the sweeper read the three name lists and the toggle. *)
Definition same_lists (c c' : ImageCleaner.t) : Prop :=
  ImageCleaner.keeps c' = ImageCleaner.keeps c
  /\ ImageCleaner.deletes c' = ImageCleaner.deletes c
  /\ ImageCleaner.nones c' = ImageCleaner.nones c
  /\ ImageCleaner.deleteImages_ c' = ImageCleaner.deleteImages_ c.


(** ** Vocabulary of the executor's counters *)

(** The entries that the executor has counted: the four counters of the
    report and the errors. *)
Definition tally (st : Executor.state) : Z :=
  Executor.downloads st + Executor.upToDate st + Executor.deletes st
  + Executor.nones st + Z.of_nat (length (Executor.errors st)).

(** The number of entries of an action map. *)
Definition entries_of (m : list emap) : Z :=
  Z.of_nat (length (flat_map emap_entries m)).

(** From [st] to [st'] the name lists have grown at most: each list is as it
    was, or has one more name at its end; the new keep name was not in the
    keep list, the new delete name was in neither list. *)
Definition names_grow (st st' : Executor.state) : Prop :=
  (Executor.imageNamesToKeep st' = Executor.imageNamesToKeep st
   \/ exists n, ~ In n (Executor.imageNamesToKeep st)
        /\ Executor.imageNamesToKeep st' = (Executor.imageNamesToKeep st ++ [n])%list)
  /\ (Executor.imageNamesToDelete st' = Executor.imageNamesToDelete st
      \/ exists n, ~ In n (Executor.imageNamesToKeep st)
           /\ ~ In n (Executor.imageNamesToDelete st)
           /\ Executor.imageNamesToDelete st'
              = (Executor.imageNamesToDelete st ++ [n])%list).

(** The counters, the errors and the name lists of two states are the
    same. *)
Definition same_counts (st st' : Executor.state) : Prop :=
  Executor.downloads st' = Executor.downloads st
  /\ Executor.upToDate st' = Executor.upToDate st
  /\ Executor.deletes st' = Executor.deletes st
  /\ Executor.nones st' = Executor.nones st
  /\ Executor.errors st' = Executor.errors st
  /\ Executor.action_count st' = Executor.action_count st.

(** A media server that breaks the stream of the first request, closes the
    stream of the second too early, and delivers from the third on. *)
Definition retry_env : env :=
  {| sha256 := fun data => [str_len data; 42];
     Canvas_Image := fun _ => OK (640, 480);
     getCurrentTimestamp := "2020-11-17-19-41-36";
     sizeMB_label := fun _ => "0MB";
     download_ := fun n =>
       match n with
       | O => OK [{| readStream := Breaks (Error "socket hang up") "JFIF";
                     contentLength := JNum 10; contentType := JStr "image/jpeg" |}]
       | S O => OK [{| readStream := Closes "JFIF-ph";
                       contentLength := JNum 10; contentType := JStr "image/jpeg" |}]
       | _ => example_download
       end |}.

(** The id that [addSubmissionIds] reads in an entry, if any. *)
Definition id_of (parseFloat : string -> Configs.parsed) (id : jsval) : option Z :=
  match id with
  | JNum z => Some z
  | JStr s => match parseFloat s with Configs.Int z => Some z | _ => None end
  | _ => None
  end.

(** A value that is absent, or a string that is not empty. *)
Definition optional_text (v : jsval) : Prop :=
  v = JUndefined \/ exists s, v = JStr s /\ s <> EmptyString.

(** A value that is absent, or an array. *)
Definition optional_list (v : jsval) : Prop :=
  v = JUndefined \/ exists l, v = JArr l.

(** The [assetId] of a filter. *)
Definition asset_of (filter : jsval) : string :=
  match get filter "assetId" with JStr id => id | _ => EmptyString end.

(** What [checkRunConfigs] asks of an entry of [filters]. *)
Definition filter_ok (filter : jsval) : Prop :=
  (exists props, filter = JObj props)
  /\ List.Forall (fun k => In k Configs.valid_filters_keys) (Configs.keys filter)
  /\ (exists id, get filter "assetId" = JStr id /\ id <> EmptyString)
  /\ optional_list (get filter "submissionIds")
  /\ optional_text (get filter "submissionIdsCsv")
  /\ optional_text (get filter "submissionIdsCsvIdColumnName")
  /\ optional_text (get filter "submissionIdsCsvSeparator").

(** The keys of the configurations with the condition and the type that
    [checkRunConfigs] checks them with. *)
Definition settings_types : list (string * condition * jstype) :=
  [("token", ifExists, TString); ("apiServerUrl", ifExists, TString);
   ("mediaServerUrl", ifExists, TString); ("outputDir", ifExists, TString);
   ("maxRequestRetries", ifDefined, TNumber); ("maxDownloadRetries", ifDefined, TNumber);
   ("requestTimeout", ifDefined, TNumber); ("connectionTimeout", ifDefined, TNumber);
   ("downloadTimeout", ifDefined, TNumber); ("deleteImages", ifDefined, TBoolean)].

(** What [checkRunConfigs] asks of the configurations apart from the
    filters. *)
Definition settings_ok (configs : jsval) : Prop :=
  List.Forall (fun k => In k Configs.valid_keys) (Configs.keys configs)
  /\ List.Forall (fun '(k, c, t) => check (get configs k) c t = OK tt) settings_types.

(** A filter with the ids that [getConfigs] has set in it. *)
Definition carries_ids (filter : jsval) : Prop :=
  exists ids, get filter "_submissionIds" = JArr (List.map JNum ids) /\ List.NoDup ids.
(** A reading of the strings of the examples: "7" and "4931" are integers,
    "2.5" has a fraction, and nothing else is a number. *)
Definition example_parseFloat (s : string) : Configs.parsed :=
  if String.eqb s "7" then Configs.Int 7
  else if String.eqb s "4931" then Configs.Int 4931
  else if String.eqb s "2.5" then Configs.Fraction
  else Configs.NaN.

(** A configurations file with one filter, and the configurations that
    [getConfigs] makes of it. *)
Definition example_runConfigs : jsval :=
  JObj [("token", JStr "0123456789abcdef");
        ("deleteImages", JBool true);
        ("filters",
         JArr [JObj [("assetId", JStr "aXf4k");
                     ("submissionIds", JArr [JNum 12; JStr "7"; JNum 12])]])].

Definition example_run_configuration : Configs.t :=
  {| Configs.apiServerUrl := Configs.API_SERVER_URL;
     Configs.mediaServerUrl := Configs.MEDIA_SERVER_URL;
     Configs.token := JStr "0123456789abcdef";
     Configs.deleteImages := JBool true;
     Configs.maxRequestRetries := Configs.MAX_REQUEST_RETRIES;
     Configs.maxDownloadRetries := Configs.MAX_DOWNLOAD_RETRIES;
     Configs.requestTimeout := Configs.REQUEST_TIMEOUT;
     Configs.connectionTimeout := Configs.CONNECTION_TIMEOUT;
     Configs.downloadTimeout := Configs.DOWNLOAD_TIMEOUT;
     Configs.mainDir := JStr "/opt/kobo-tools";
     Configs.outputDir := Configs.OUTPUT_DIR;
     Configs.filters :=
       JArr [JObj [("assetId", JStr "aXf4k");
                   ("submissionIds", JArr [JNum 12; JStr "7"; JNum 12]);
                   ("_submissionIds", JArr [JNum 12; JNum 7])]];
     Configs.mode := "filters" |}.

(** ** Names claimed in the run over an asset *)

(** Executed on a disk with the state store of [w], the entry [e] of the
    record [rid], filed under [key], claims the name [n]: a keep with an
    attachment claims its target name, a delete with a valid state record
    claims the image name of the record. *)
Definition claims (w : world) (rid : Z) (key : string) (e : entry) (n : string)
    : Prop :=
  (action e = Action.keep /\ attachment e <> None
   /\ n = Update.img_new_name rid e)
  \/ (action e = Action.delete
      /\ exists v, valid_state_record w rid key v /\ get v "imageName" = JStr n).

(** The entry [(key', e')] of the record [rid'] has had its turn when the
    loops are at the record [rid] with the entries [pre] of that record
    done and the records [m1] before it done: it is one of [pre], or an
    entry of a record of [m1]. *)
Definition earlier (m1 : list emap) (rid : Z) (pre : list (string * entry))
    (rid' : Z) (key' : string) (e' : entry) : Prop :=
  (rid' = rid /\ In (key', e') pre)
  \/ exists em, In em m1 /\ emap_id em = rid' /\ In (key', e') (emap_entries em).

(** ** A record whose fields share their pictures

    Record 1721 answers [photo_a] and [photo_copy] with [photo.jpg] and does
    not answer [photo_b], [photo_d] and [photo_e]. The state store files
    [photo.jpg] under [photo_a] and under [photo_b], and [old.jpg] under
    [photo_d] and under [photo_e]; of the two pictures [photo.jpg] is on the
    disk. *)

Definition photo_copy : imgField := {| autoname := "photo_copy" |}.
Definition photo_d : imgField := {| autoname := "photo_d" |}.
Definition photo_e : imgField := {| autoname := "photo_e" |}.

Definition subm_shared : submission :=
  {| _attachments := example_attachments;
     images_map := [("photo_a", [[("group/photo_a", "photo.jpg")]]);
                    ("photo_copy", [[("group/photo_copy", "photo.jpg")]]);
                    ("photo_b", []); ("photo_d", []); ("photo_e", [])];
     _id := 1721 |}.

Definition asset_shared : asset :=
  {| uid := "aeUTa3g2VzbPP5SGoTx8Rp"; name := "survey";
     imgs := [photo_a; photo_copy; photo_b; photo_d; photo_e];
     submissions := [subm_shared] |}.

Definition entry_keep_copy : entry :=
  {| value := Some "photo.jpg"; attachment := Some att_2395;
     action := Action.keep; subm_mapped_key := Some "group/photo_copy";
     warning := None |}.

Definition map_shared : list emap :=
  [{| emap_id := 1721;
      emap_entries := [("photo_a", entry_keep); ("photo_copy", entry_keep_copy);
                       ("photo_b", entry_delete); ("photo_d", entry_delete);
                       ("photo_e", entry_delete)] |}].

Definition world_shared : world :=
  {| images := <["1721_photo.jpg" := File "JFIF-photo"]> (<["data" := Dir]> ∅);
     images_info := []; cleanedDir := ∅; imagesDeleted := ∅;
     attachmentsMap :=
       <[(1721, "photo_a") := Json record_2395]>
         (<[(1721, "photo_b") := Json record_2395]>
            (<[(1721, "photo_d") := Json record_old]>
               (<[(1721, "photo_e") := Json record_old]> ∅)));
     requests := 0 |}.

(** The state of the loop over the fields of the record after the entries
    [pre]. *)
Definition shared_state (pre : list (string * entry)) : Executor.state :=
  fst (Update.exec_entries example_env (example_configs false)
         "aeUTa3g2VzbPP5SGoTx8Rp" "survey" 1721 pre [] (Executor.init world_shared)).

Definition shared_results (pre : list (string * entry))
    : list (string * result_entry) :=
  match snd (Update.exec_entries example_env (example_configs false)
               "aeUTa3g2VzbPP5SGoTx8Rp" "survey" 1721 pre []
               (Executor.init world_shared)) with
  | OK acc => acc
  | Throw _ => []
  end.

(** * Verification *)

(** ** Strings *)

Lemma length_append (s t : string) :
  String.length (s +:+ t) = (String.length s + String.length t)%nat.
Proof. induction s as [|c s IH]; simpl; [reflexivity | now rewrite IH]. Qed.

Lemma drop_str_append (p s : string) : drop_str (String.length p) (p +:+ s) = s.
Proof. induction p as [|c p IH]; simpl; [reflexivity | exact IH]. Qed.

Lemma take_drop (k : nat) (s : string) :
  s = Rename.take_str k s +:+ drop_str k s.
Proof.
  revert s; induction k as [|k IH]; intros [|c s]; simpl; try reflexivity.
  change (String c s = String c (Rename.take_str k s +:+ drop_str k s)).
  f_equal. apply IH.
Qed.

Lemma length_drop_str (k : nat) (s : string) :
  String.length (drop_str k s) = (String.length s - k)%nat.
Proof.
  revert s; induction k as [|k IH]; intros [|c s]; simpl; try reflexivity.
  apply IH.
Qed.

Lemma prefix_refl (s : string) : String.prefix s s = true.
Proof.
  induction s as [|c s IH]; simpl; [reflexivity|].
  destruct (ascii_dec c c); [exact IH | congruence].
Qed.

Lemma prefix_same_length (p s : string) :
  String.prefix p s = true -> String.length s = String.length p -> s = p.
Proof.
  revert s; induction p as [|c p IH]; intros [|d s]; simpl; try discriminate.
  - reflexivity.
  - destruct (ascii_dec c d) as [->|]; [|discriminate].
    intros Hp Hl. f_equal. apply IH; [exact Hp | lia].
Qed.

Lemma prefix_app (p s : string) :
  String.prefix p s = true -> exists r, s = p +:+ r.
Proof.
  revert s; induction p as [|c p IH]; intros [|d s]; simpl; try discriminate.
  - exists EmptyString. reflexivity.
  - exists (String d s). reflexivity.
  - destruct (ascii_dec c d) as [->|]; [|discriminate].
    intros H. destruct (IH s H) as [r ->]. exists r. reflexivity.
Qed.

Lemma app_prefix (p r : string) : String.prefix p (p +:+ r) = true.
Proof.
  induction p as [|c p IH]; simpl.
  - destruct r; reflexivity.
  - destruct (ascii_dec c c); [exact IH | congruence].
Qed.

Lemma lastIndexOf_from_bounds (s pat : string) (k : nat) :
  -1 <= lastIndexOf_from s pat k <= Z.of_nat k.
Proof.
  induction k as [|k IH]; cbn [lastIndexOf_from];
    destruct (String.prefix pat _); lia.
Qed.

(** The index found from [k] is [k] exactly when [pat] occurs at [k]. *)
Lemma lastIndexOf_from_hit (s pat : string) (k : nat) :
  lastIndexOf_from s pat k = Z.of_nat k <-> String.prefix pat (drop_str k s) = true.
Proof.
  destruct k as [|k]; cbn [lastIndexOf_from].
  - destruct (String.prefix pat _); split; intros; try reflexivity; try lia; discriminate.
  - destruct (String.prefix pat _) eqn:Hp.
    + split; intros; [reflexivity | lia].
    + pose proof (lastIndexOf_from_bounds s pat k). split; intros; [lia | discriminate].
Qed.

(** The test of the loop compares the last occurrence with the place where a
    suffix starts: it holds exactly for the names that end the filename. *)
Lemma filename_matches_spec (name : string) (a : Attachment) :
  Utils.filename_matches name a = true <-> ends_with (filename a) name.
Proof.
  unfold Utils.filename_matches, lastIndexOf, ends_with, str_len.
  set (s := filename a).
  destruct (Nat.leb_spec (String.length name) (String.length s)) as [Hle|Hgt].
  - set (k := (String.length s - String.length name)%nat).
    pose proof (lastIndexOf_from_bounds s name k) as Hb.
    pose proof (lastIndexOf_from_hit s name k) as Hh.
    replace (Z.of_nat (String.length s) - Z.of_nat (String.length name))
      with (Z.of_nat k) by (unfold k; lia).
    split.
    + intros H. rewrite negb_true_iff, orb_false_iff, negb_false_iff in H.
      destruct H as [_ H]. apply Z.eqb_eq in H. apply Hh in H.
      exists (Rename.take_str k s).
      rewrite (take_drop k s) at 1. f_equal.
      apply prefix_same_length; [exact H|].
      rewrite length_drop_str. unfold k. lia.
    + intros [p Hp].
      assert (Hk : k = String.length p).
      { unfold k. rewrite Hp, length_append. lia. }
      assert (Hpre : String.prefix name (drop_str k s) = true).
      { rewrite Hk, Hp, drop_str_append. apply prefix_refl. }
      apply Hh in Hpre. rewrite Hpre.
      rewrite Z.eqb_refl. simpl.
      destruct (Z.eqb_spec (Z.of_nat k) (-1)); [lia | reflexivity].
  - split.
    + simpl. discriminate.
    + intros [p Hp]. rewrite Hp, length_append in Hgt. lia.
Qed.

Lemma image_mimetype_spec (m : string) :
  Utils.image_mimetype m = true <-> exists rest, m = "image" +:+ rest.
Proof.
  unfold Utils.image_mimetype. split.
  - apply prefix_app.
  - intros [r ->]. apply app_prefix.
Qed.

(** ** The attachment matcher *)

Lemma OK_inj {A : Type} (a b : A) : OK a = OK b -> a = b.
Proof. intros H. injection H as ->. reflexivity. Qed.

Lemma check_string_ok (s : string) :
  s <> EmptyString -> check (JStr s) mustExists TString = OK tt.
Proof.
  intros H. unfold check. simpl.
  destruct (String.eqb_spec s EmptyString); [contradiction | reflexivity].
Qed.

Lemma check_number_ok (n : Z) : check (JNum n) defined TNumber = OK tt.
Proof. reflexivity. Qed.

Lemma qualifiesb_spec (name : string) (a : Attachment) :
  qualifiesb name a = true <-> qualifies name a.
Proof.
  unfold qualifiesb, qualifies.
  rewrite andb_true_iff, image_mimetype_spec, filename_matches_spec. reflexivity.
Qed.

(** One turn of the loop, for an attachment that passes the checks. *)
Lemma findAttachment_loop_step (name : string) (a : Attachment)
    (rest : list Attachment) (acc : option Attachment) :
  well_formed a ->
  Utils.findAttachment_loop name (a :: rest) acc =
  Utils.findAttachment_loop name rest
    (if qualifiesb name a
     then match acc with
          | None => Some a
          | Some r => if id a >? id r then Some a else acc
          end
     else acc).
Proof.
  intros (Hm & Hu & Hf). cbn [Utils.findAttachment_loop].
  rewrite !check_string_ok by assumption. rewrite !check_number_ok.
  cbn [bind]. unfold qualifiesb.
  destruct (Utils.image_mimetype (mimetype a)); cbn [negb andb]; [|reflexivity].
  destruct (Utils.filename_matches name a); cbn [negb]; [|reflexivity].
  destruct acc as [r|]; [|reflexivity].
  destruct (id a >? id r); reflexivity.
Qed.

(** The loop keeps in [result] a qualifying attachment of greatest id among
    those seen so far. *)
Lemma findAttachment_loop_spec (name : string) (atts : list Attachment) :
  Forall well_formed atts ->
  forall acc : option Attachment,
  exists r, Utils.findAttachment_loop name atts acc = OK r
    /\ (r = None <-> acc = None /\ forall a, In a atts -> qualifiesb name a = false)
    /\ (forall a, r = Some a ->
          (acc = Some a \/ (In a atts /\ qualifiesb name a = true))
          /\ (forall b, In b atts -> qualifiesb name b = true -> id b <= id a)
          /\ (forall c, acc = Some c -> id c <= id a)).
Proof.
  induction 1 as [|x atts Hx Hatts IH]; intros acc.
  - exists acc. split; [reflexivity|]. split.
    + split; [intros ->; split; [reflexivity | intros ? []] | intros [-> _]; reflexivity].
    + intros a ->. split; [now left|]. split; [intros ? [] | intros c [= ->]; lia].
  - rewrite findAttachment_loop_step by assumption.
    destruct (qualifiesb name x) eqn:Hq.
    + set (acc' := match acc with
                   | None => Some x
                   | Some r => if id x >? id r then Some x else acc
                   end).
      destruct (IH acc') as (r & Hr & Hnone & Hsome).
      exists r. split; [exact Hr|]. split.
      * split.
        -- intros Hn. apply Hnone in Hn. destruct Hn as [Hn _].
           unfold acc' in Hn. destruct acc as [c|]; [|discriminate].
           destruct (id x >? id c); discriminate.
        -- intros [_ H0]. specialize (H0 x (or_introl eq_refl)). congruence.
      * intros a Ha. destruct (Hsome a Ha) as (Hin & Hmax & Hacc).
        assert (Hxa : id x <= id a).
        { unfold acc' in Hacc. destruct acc as [c|].
          - destruct (Z.gtb_spec (id x) (id c)).
            + apply Hacc. reflexivity.
            + specialize (Hacc c eq_refl). lia.
          - apply Hacc. reflexivity. }
        split; [|split].
        -- destruct Hin as [Hin|[Hin Hqa]]; [|right; split; [now right | exact Hqa]].
           unfold acc' in Hin. destruct acc as [c|].
           ++ destruct (id x >? id c).
              ** injection Hin as <-. right. split; [now left | exact Hq].
              ** now left.
           ++ injection Hin as <-. right. split; [now left | exact Hq].
        -- intros b [<-|Hb] Hqb; [exact Hxa | now apply Hmax].
        -- intros c ->. unfold acc' in Hacc.
           destruct (Z.gtb_spec (id x) (id c)).
           ++ lia.
           ++ apply Hacc. reflexivity.
    + destruct (IH acc) as (r & Hr & Hnone & Hsome).
      exists r. split; [exact Hr|]. split.
      * rewrite Hnone. split; intros [Ha Hall]; (split; [exact Ha|]).
        -- intros a [<-|Hin]; [exact Hq | now apply Hall].
        -- intros a Hin. apply Hall. now right.
      * intros a Ha. destruct (Hsome a Ha) as (Hin & Hmax & Hacc).
        split; [|split].
        -- destruct Hin as [Hin|[Hin Hqa]]; [now left | right; split; [now right | exact Hqa]].
        -- intros b [<-|Hb] Hqb; [congruence | now apply Hmax].
        -- exact Hacc.
Qed.

Lemma NoDup_map_inj {A B : Type} (f : A -> B) (l : list A) (a b : A) :
  List.NoDup (List.map f l) -> In a l -> In b l -> f a = f b -> a = b.
Proof.
  induction l as [|x l IH]; simpl; [intros _ []|].
  intros Hnd [<-|Ha] [<-|Hb] Hab; try reflexivity.
  - inversion Hnd as [|? ? Hnotin _]. exfalso. apply Hnotin.
    rewrite Hab. apply in_map. exact Hb.
  - inversion Hnd as [|? ? Hnotin _]. exfalso. apply Hnotin.
    rewrite <- Hab. apply in_map. exact Ha.
  - inversion Hnd. now apply IH.
Qed.

(** C6. [findAttachment(name, attachments, id)] returns an attachment or
    [null], and never throws on a non-empty name and attachments that pass
    its checks. It returns [null] exactly when no attachment qualifies,
    where an attachment qualifies when its mimetype starts with "image" and
    its filename ends with [name]. A returned attachment is one of the array
    that qualifies, no qualifying attachment has a greater id, and when the
    ids of the array are unique every other qualifying attachment has a
    strictly smaller id. The function reads its arguments only: it is a
    function of them, with no state. *)
Theorem findAttachment_greatest_image_suffix
    (name : string) (atts : list Attachment) (rid : Z) :
  name <> EmptyString ->
  Forall well_formed atts ->
  exists r, Utils.findAttachment name atts rid = OK r
    /\ (r = None <-> forall a, In a atts -> ~ qualifies name a)
    /\ (forall a, r = Some a ->
          In a atts /\ qualifies name a
          /\ (forall b, In b atts -> qualifies name b -> id b <= id a)
          /\ (List.NoDup (List.map id atts) ->
              forall b, In b atts -> qualifies name b -> b <> a -> id b < id a)).
Proof.
  intros Hname Hwf.
  destruct (findAttachment_loop_spec name atts Hwf None) as (r & Hr & Hnone & Hsome).
  exists r. split.
  - unfold Utils.findAttachment. rewrite check_string_ok by assumption.
    rewrite check_number_ok. cbn [bind].
    destruct (String.eqb_spec name EmptyString); [contradiction|].
    destruct atts as [|x atts]; [|exact Hr].
    simpl in Hr. exact Hr.
  - split.
    + rewrite Hnone. split.
      * intros [_ H] a Hin Hq. apply qualifiesb_spec in Hq.
        rewrite (H a Hin) in Hq. discriminate.
      * intros H. split; [reflexivity|]. intros a Hin.
        destruct (qualifiesb name a) eqn:Hq; [|reflexivity].
        exfalso. apply (H a Hin). now apply qualifiesb_spec.
    + intros a Ha. destruct (Hsome a Ha) as (Hin & Hmax & _).
      destruct Hin as [Hin|[Hin Hq]]; [discriminate|].
      assert (Hle : forall b, In b atts -> qualifies name b -> id b <= id a).
      { intros b Hb Hqb. apply Hmax; [exact Hb | now apply qualifiesb_spec]. }
      split; [exact Hin|]. split; [now apply qualifiesb_spec|].
      split; [exact Hle|].
      intros Hnd b Hb Hqb Hne.
      specialize (Hle b Hb Hqb).
      destruct (Z.eq_dec (id b) (id a)) as [Heq|]; [|lia].
      exfalso. apply Hne. exact (NoDup_map_inj id atts b a Hnd Hb Hin Heq).
Qed.

(** The theorem at the attachments of the scenario: the picture's name is
    not empty and the four attachments pass the checks. *)
Lemma findAttachment_greatest_image_suffix_witness :
  exists r, Utils.findAttachment "photo.jpg" example_attachments 1721 = OK r
    /\ (r = None <-> forall a, In a example_attachments -> ~ qualifies "photo.jpg" a)
    /\ (forall a, r = Some a ->
          In a example_attachments /\ qualifies "photo.jpg" a
          /\ (forall b, In b example_attachments -> qualifies "photo.jpg" b -> id b <= id a)
          /\ (List.NoDup (List.map id example_attachments) ->
              forall b, In b example_attachments -> qualifies "photo.jpg" b ->
                        b <> a -> id b < id a)).
Proof.
  apply (findAttachment_greatest_image_suffix "photo.jpg" example_attachments 1721).
  - discriminate.
  - repeat constructor; discriminate.
Defined.

(** On the scenario the matcher picks attachment 2395: not the older upload,
    not the sound file of the same name, not the file whose name merely
    contains the picture's name. *)
Example findAttachment_scenario :
  Utils.findAttachment "photo.jpg" example_attachments 1721 = OK (Some att_2395).
Proof. vm_compute. reflexivity. Qed.

(** ** The action-map builder *)

Lemma assoc_set_prop_eq {A : Type} (k : string) (v : A) (o : list (string * A)) :
  assoc k (set_prop k v o) = Some v.
Proof.
  induction o as [|[k' v'] o IH]; simpl.
  - now rewrite String.eqb_refl.
  - destruct (String.eqb k k') eqn:Hk; simpl; rewrite ?String.eqb_refl, ?Hk; auto.
Qed.

Lemma assoc_set_prop_ne {A : Type} (k k0 : string) (v : A) (o : list (string * A)) :
  k <> k0 -> assoc k (set_prop k0 v o) = assoc k o.
Proof.
  intros Hne. apply String.eqb_neq in Hne.
  induction o as [|[k' v'] o IH]; simpl.
  - now rewrite Hne.
  - destruct (String.eqb_spec k0 k') as [<-|Hk0]; simpl.
    + now rewrite Hne.
    + destruct (String.eqb k k'); auto.
Qed.

Lemma In_set_prop {A : Type} (k k0 : string) (e v : A) (o : list (string * A)) :
  In (k, e) (set_prop k0 v o) -> (k, e) = (k0, v) \/ In (k, e) o.
Proof.
  induction o as [|[k' v'] o IH]; simpl.
  - intros [H|[]]. now left.
  - destruct (String.eqb k0 k'); simpl; intros [H|H]; auto.
    destruct (IH H); auto.
Qed.

Lemma truthy_opt_str (v : option string) :
  truthy (js_opt_str v) = false <-> v = None \/ v = Some EmptyString.
Proof.
  destruct v as [s|]; simpl.
  - destruct (String.eqb_spec s EmptyString) as [->|Hs]; simpl; split; auto.
    + discriminate.
    + intros [H|[= H]]; [discriminate | contradiction].
  - split; auto.
Qed.

(** The three ways out of the body of the loop over the image fields. *)
Lemma build_entry_cases (st st' : Builder.state) (subm : submission)
    (f : imgField) (e : entry) :
  Builder.build_entry st subm f = OK (st', e) ->
  Builder.field_value subm f = OK (subm_mapped_key e, value e)
  /\ ((truthy (js_opt_str (value e)) = false /\ action e = Action.delete
       /\ attachment e = None /\ warning e = None
       /\ Builder.warnings st' = Builder.warnings st)
      \/ (exists v a, value e = Some v /\ v <> EmptyString /\ resolves subm v a
            /\ action e = Action.keep /\ attachment e = Some a /\ warning e = None
            /\ Builder.warnings st' = Builder.warnings st)
      \/ (exists v, value e = Some v /\ v <> EmptyString
            /\ Utils.findAttachment v (_attachments subm) (_id subm) = OK None
            /\ action e = Action.none /\ attachment e = None
            /\ warning e = Some (Builder.none_warning (_id subm) (autoname f) v)
            /\ Builder.warnings st' =
               (Builder.warnings st ++ [Builder.none_warning (_id subm) (autoname f) v])%list)).
Proof.
  unfold Builder.build_entry.
  destruct (check (JStr (autoname f)) mustExists TString) as [[]|]; [|discriminate].
  cbn [bind].
  destruct (Builder.field_value subm f) as [[k v]|]; [|discriminate].
  cbn [bind fst snd].
  destruct (truthy (js_opt_str v)) eqn:Ht.
  - destruct v as [x|]; [|discriminate].
    assert (Hx : x <> EmptyString).
    { intros ->. discriminate. }
    destruct (Utils.findAttachment x (_attachments subm) (_id subm)) as [[a|]|] eqn:Hfind;
      cbn [bind]; [| |discriminate].
    + intros [= <- <-]. split; [reflexivity|]. right. left.
      exists x, a. repeat split; auto.
    + intros [= <- <-]. split; [reflexivity|]. right. right.
      exists x. repeat split; auto.
  - intros [= <- <-]. split; [reflexivity|]. left. repeat split; auto.
Qed.

(** The entry of a field is a function of the record and the field: the
    counters do not enter it. *)
Lemma build_entry_entry (st st' st2 : Builder.state) (subm : submission)
    (f : imgField) (e : entry) :
  Builder.build_entry st subm f = OK (st', e) ->
  exists st2', Builder.build_entry st2 subm f = OK (st2', e).
Proof.
  unfold Builder.build_entry.
  destruct (check (JStr (autoname f)) mustExists TString) as [[]|]; [|discriminate].
  cbn [bind].
  destruct (Builder.field_value subm f) as [[k v]|]; [|discriminate].
  cbn [bind fst snd].
  destruct (truthy (js_opt_str v)).
  - destruct (Utils.findAttachment _ _ _) as [[a|]|]; cbn [bind]; [| |discriminate];
      intros [= <- <-]; eexists; reflexivity.
  - intros [= <- <-]. eexists; reflexivity.
Qed.

Lemma build_entry_correlation (st st' : Builder.state) (subm : submission)
    (f : imgField) (e : entry) :
  Builder.build_entry st subm f = OK (st', e) -> correlation subm f e.
Proof.
  intros H. apply build_entry_cases in H. destruct H as [_ H].
  unfold correlation, resolves in *.
  destruct H as [(Ht & Ha & Hatt & Hw & _)
                |[(x & a & Hv & Hx & Hr & Ha & Hatt & Hw & _)
                 |(x & Hv & Hx & Hr & Ha & Hatt & Hw & _)]].
  - apply truthy_opt_str in Ht. split; [auto|]. split.
    + intros v a Hv Hne. destruct Ht as [Ht|Ht]; congruence.
    + intros v Hv Hne. destruct Ht as [Ht|Ht]; congruence.
  - split; [intros [H|H]; congruence|]. split.
    + intros v b Hv' Hne Hb. assert (v = x) by congruence. subst v.
      split; [exact Ha|]. congruence.
    + intros v Hv' Hne Hno. assert (v = x) by congruence. subst v.
      exfalso. exact (Hno a Hr).
  - split; [intros [H|H]; congruence|]. split.
    + intros v b Hv' Hne Hb. assert (v = x) by congruence. subst v. congruence.
    + intros v Hv' Hne _. assert (v = x) by congruence. subst v. auto.
Qed.

Lemma build_entry_shape (st st' : Builder.state) (subm : submission)
    (f : imgField) (e : entry) :
  Builder.build_entry st subm f = OK (st', e) -> entry_shape e.
Proof.
  intros H. apply build_entry_cases in H. destruct H as [_ H].
  unfold entry_shape.
  destruct H as [(Ht & Ha & _)|[(x & b & Hv & Hx & _ & Ha & _)|(x & Hv & Hx & _ & Ha & _)]];
    rewrite Ha.
  - now apply truthy_opt_str.
  - eauto.
  - eauto.
Qed.

Lemma build_entry_warnings (st st' : Builder.state) (subm : submission)
    (f : imgField) (e : entry) :
  Builder.build_entry st subm f = OK (st', e) ->
  (forall w, In w (Builder.warnings st) -> In w (Builder.warnings st'))
  /\ (forall w, warning e = Some w -> In w (Builder.warnings st')).
Proof.
  intros H. apply build_entry_cases in H. destruct H as [_ H].
  destruct H as [(_ & _ & _ & Hw & ->)
                |[(x & a & _ & _ & _ & _ & _ & Hw & ->)
                 |(x & _ & _ & _ & _ & _ & Hw & ->)]].
  - split; [auto | congruence].
  - split; [auto | congruence].
  - split.
    + intros w Hin. apply in_or_app. now left.
    + intros w Hw'. rewrite Hw in Hw'. injection Hw' as <-.
      apply in_or_app. right. now left.
Qed.

Lemma build_fields_warnings (subm : submission) (fields : list imgField) :
  forall st acc st' m,
  Builder.build_fields st subm fields acc = OK (st', m) ->
  forall w, In w (Builder.warnings st) -> In w (Builder.warnings st').
Proof.
  induction fields as [|f fields IH]; intros st acc st' m; cbn [Builder.build_fields].
  - intros [= <- <-]. auto.
  - destruct (Builder.build_entry st subm f) as [[st1 e]|] eqn:He; [|discriminate].
    cbn [bind fst snd]. intros H w Hw.
    apply (IH _ _ _ _ H). exact (proj1 (build_entry_warnings _ _ _ _ _ He) w Hw).
Qed.

(** A key that no later field writes keeps its binding. *)
Lemma build_fields_other (subm : submission) (fields : list imgField) (k : string) :
  (forall f, In f fields -> autoname f <> k) ->
  forall st acc st' m,
  Builder.build_fields st subm fields acc = OK (st', m) ->
  assoc k m = assoc k acc.
Proof.
  induction fields as [|f fields IH]; intros Hk st acc st' m; cbn [Builder.build_fields].
  - intros [= <- <-]. reflexivity.
  - destruct (Builder.build_entry st subm f) as [[st1 e]|]; [|discriminate].
    cbn [bind fst snd]. intros H.
    rewrite (IH (fun g Hg => Hk g (or_intror Hg)) _ _ _ _ H).
    apply assoc_set_prop_ne. intros ->. exact (Hk f (or_introl eq_refl) eq_refl).
Qed.

Lemma imgField_eq (f g : imgField) : autoname f = autoname g -> f = g.
Proof. destruct f, g; simpl; intros ->; reflexivity. Qed.

Lemma In_autoname_dec (k : string) (fields : list imgField) :
  (exists f, In f fields /\ autoname f = k) \/ (forall f, In f fields -> autoname f <> k).
Proof.
  induction fields as [|g fields [(f & Hf & Hk)|IH]].
  - right. intros f [].
  - left. exists f. split; [now right | exact Hk].
  - destruct (String.eqb_spec (autoname g) k) as [Hg|Hg].
    + left. exists g. split; [now left | exact Hg].
    + right. intros f [<-|Hf]; auto.
Qed.

(** Every declared field has its entry in the record's map, and the entry is
    the one the loop body makes for that field. *)
Lemma build_fields_entries (subm : submission) (fields : list imgField) :
  forall st acc st' m,
  Builder.build_fields st subm fields acc = OK (st', m) ->
  forall f, In f fields ->
  exists e st1 st1', assoc (autoname f) m = Some e
    /\ Builder.build_entry st1 subm f = OK (st1', e)
    /\ (forall w, In w (Builder.warnings st1') -> In w (Builder.warnings st')).
Proof.
  induction fields as [|g fields IH]; intros st acc st' m; cbn [Builder.build_fields].
  - intros _ f [].
  - destruct (Builder.build_entry st subm g) as [[st1 e]|] eqn:He; [|discriminate].
    cbn [bind fst snd]. intros H f Hf.
    destruct (In_autoname_dec (autoname f) fields) as [(f' & Hf' & Hk)|Hnone].
    + apply imgField_eq in Hk. subst f'. exact (IH _ _ _ _ H f Hf').
    + destruct Hf as [<-|Hf]; [|exfalso; exact (Hnone f Hf eq_refl)].
      exists e, st, st1. split; [|split].
      * rewrite (build_fields_other subm fields _ Hnone _ _ _ _ H).
        apply assoc_set_prop_eq.
      * exact He.
      * intros w. apply (build_fields_warnings _ _ _ _ _ _ H).
Qed.

Lemma build_fields_classified
    (st st' : Builder.state) (subm : submission) (fields : list imgField)
    (m : list (string * entry)) :
  Builder.build_fields st subm fields [] = OK (st', m) ->
  forall f, In f fields ->
    field_classified subm m f
    /\ (forall e w, assoc (autoname f) m = Some e -> warning e = Some w ->
                    In w (Builder.warnings st')).
Proof.
  intros H f Hf.
  destruct (build_fields_entries _ _ _ _ _ _ H f Hf) as (e & st1 & st1' & Hm & He & Hw).
  split.
  - exists e. split; [exact Hm|]. split.
    + exact (proj1 (build_entry_cases _ _ _ _ _ He)).
    + exact (build_entry_correlation _ _ _ _ _ He).
  - intros e' w Hm' Hwe. assert (e' = e) by congruence. subst e'.
    apply Hw. exact (proj2 (build_entry_warnings _ _ _ _ _ He) w Hwe).
Qed.

(** The loop over the records appends one element per record, in order. *)
Lemma build_submissions_records (fields : list imgField) (subms : list submission) :
  forall st acc st' m,
  Builder.build_submissions st fields subms acc = OK (st', m) ->
  exists ms, m = (acc ++ ms)%list
    /\ Forall2 (record_classified fields) subms ms.
Proof.
  induction subms as [|s subms IH]; intros st acc st' m;
    cbn [Builder.build_submissions].
  - intros [= <- <-]. exists []. split; [now rewrite app_nil_r | constructor].
  - rewrite check_number_ok. cbn [bind].
    destruct (Builder.build_fields st s fields []) as [[st1 m1]|] eqn:Hf; [|discriminate].
    cbn [bind fst snd]. intros H.
    destruct (IH _ _ _ _ H) as (ms & -> & Hms).
    exists ({| emap_id := _id s; emap_entries := m1 |} :: ms).
    split; [now rewrite <- app_assoc|].
    constructor; [|exact Hms].
    split; [reflexivity|]. intros f Hin.
    exact (proj1 (build_fields_classified _ _ _ _ _ Hf f Hin)).
Qed.

Lemma build_assets_records (assets : list asset) :
  forall st acc st' r,
  Builder.build_assets st assets acc = OK (st', r) ->
  exists rs, r = (acc ++ rs)%list
    /\ forall ma, In ma rs ->
         In (ma_asset ma) assets
         /\ Forall2 (record_classified (imgs (ma_asset ma)))
              (submissions (ma_asset ma)) (map ma).
Proof.
  induction assets as [|a assets IH]; intros st acc st' r; cbn [Builder.build_assets].
  - intros [= <- <-]. exists []. split; [now rewrite app_nil_r | intros ma []].
  - destruct (check (JStr (uid a)) mustExists TString) as [[]|]; [|discriminate].
    cbn [bind].
    assert (Hskip : forall st0,
              Builder.build_assets st0 assets acc = OK (st', r) ->
              exists rs, r = (acc ++ rs)%list
                /\ forall ma, In ma rs ->
                     In (ma_asset ma) (a :: assets)
                     /\ Forall2 (record_classified (imgs (ma_asset ma)))
                          (submissions (ma_asset ma)) (map ma)).
    { intros st0 H. destruct (IH _ _ _ _ H) as (rs & -> & Hrs).
      exists rs. split; [reflexivity|]. intros ma Hma.
      destruct (Hrs ma Hma) as [Hin Hrec]. split; [now right | exact Hrec]. }
    destruct (submissions a) as [|s0 ss] eqn:Hss; [apply Hskip|].
    destruct (imgs a) as [|f0 fs] eqn:Hfs; [apply Hskip|].
    destruct (Builder.build_submissions _ _ _ _) as [[st1 m]|] eqn:Hs; [|discriminate].
    cbn [bind fst snd]. intros H.
    destruct (IH _ _ _ _ H) as (rs & -> & Hrs).
    destruct (build_submissions_records _ _ _ _ _ _ Hs) as (ms & Hm & Hms).
    cbn [app] in Hm. subst m.
    eexists (_ :: rs). split; [now rewrite <- app_assoc|].
    intros ma [<-|Hma].
    + cbn [ma_asset map]. split; [now left|]. rewrite Hss, Hfs. exact Hms.
    + destruct (Hrs ma Hma) as [Hin Hrec]. split; [now right | exact Hrec].
Qed.

(** C1 (amended). For every record and every declared image field the
    builder assigns one entry with one action of keep, delete and none. If
    the raw value of the field is absent or is the empty string, the action
    is delete and the attachment is null. If the value is a non-empty string
    and the matcher resolves an attachment, the action is keep with that
    attachment. If the value is a non-empty string and the matcher resolves
    none, the action is none, the attachment is null, and the warning that
    names the record id, the field and the value is in the entry and in the
    warnings of the step. This holds of the loop over the fields of a
    record, and so of the step: every asset of the result is an asset of the
    input, and its map has, record by record and in order, an entry of that
    kind for every declared field. *)
Theorem action_classification
    (st st' : Builder.state) (subm : submission) (fields : list imgField)
    (m : list (string * entry)) :
  Builder.build_fields st subm fields [] = OK (st', m) ->
  (forall f, In f fields ->
     field_classified subm m f
     /\ (forall e w, assoc (autoname f) m = Some e -> warning e = Some w ->
                     In w (Builder.warnings st')))
  /\ (forall assets r,
        Builder.buildActionMap assets = OK r ->
        forall ma, In ma r ->
          In (ma_asset ma) assets
          /\ Forall2 (record_classified (imgs (ma_asset ma)))
               (submissions (ma_asset ma)) (map ma)).
Proof.
  intros H. split.
  - exact (build_fields_classified st st' subm fields m H).
  - intros assets r Hr ma Hma. unfold Builder.buildActionMap in Hr.
    destruct (Builder.build_assets Builder.init assets []) as [[st2 r2]|] eqn:Ha;
      [|discriminate].
    cbn [bind snd] in Hr. apply OK_inj in Hr. subst r2.
    destruct (build_assets_records _ _ _ _ _ Ha) as (rs & Hrs & Hall).
    cbn [app] in Hrs. subst rs. exact (Hall ma Hma).
Qed.

(** The theorem on the record of the scenario: [photo_a] is kept, [photo_b]
    is deleted. *)
Lemma action_classification_witness :
  (exists e, assoc (autoname photo_a) (snd scenario_fields) = Some e
     /\ action e = Action.keep /\ attachment e = Some att_2395
     /\ correlation scenario_subm photo_a e)
  /\ (exists e, assoc (autoname photo_b) (snd scenario_fields) = Some e
        /\ action e = Action.delete /\ attachment e = None
        /\ correlation scenario_subm photo_b e)
  /\ Forall2 (record_classified [photo_a; photo_b]) [scenario_subm] scenario_emap.
Proof.
  assert (Hbuilt : Builder.build_fields Builder.init scenario_subm [photo_a; photo_b] []
                   = OK (fst scenario_fields, snd scenario_fields)).
  { vm_compute. reflexivity. }
  destruct (action_classification Builder.init (fst scenario_fields) scenario_subm
              [photo_a; photo_b] (snd scenario_fields) Hbuilt) as [H Hstep].
  split; [|split].
  - destruct (H photo_a) as [(e & He & _ & Hc) _]; [left; reflexivity|].
    exists e. split; [exact He|].
    vm_compute in He. injection He as He. rewrite <- He in *.
    split; [reflexivity|]. split; [reflexivity | exact Hc].
  - destruct (H photo_b) as [(e & He & _ & Hc) _]; [right; left; reflexivity|].
    exists e. split; [exact He|].
    vm_compute in He. injection He as He. rewrite <- He in *.
    split; [reflexivity|]. split; [reflexivity | exact Hc].
  - assert (Hmap : Builder.buildActionMap [scenario_asset] = OK scenario_map).
    { vm_compute. reflexivity. }
    destruct (Hstep [scenario_asset] scenario_map Hmap scenario_mapped) as [_ Hrec];
      [left; reflexivity|].
    exact Hrec.
Defined.

(** C1, as stated, fails on an answer that is the empty string: the value is
    present in the record and no attachment resolves for it, yet the entry
    is a delete without warning, not a none. *)
Lemma action_classification_counterexample :
  ~ (forall (st st' : Builder.state) (subm : submission) (f : imgField)
            (e : entry) (v : string),
       Builder.build_entry st subm f = OK (st', e) ->
       value e = Some v ->
       (forall a, ~ resolves subm v a) ->
       action e = Action.none).
Proof.
  intros H.
  specialize (H Builder.init (Builder.count_delete Builder.init) subm_empty_answer photo_a
                {| value := Some EmptyString; attachment := None;
                   action := Action.delete; subm_mapped_key := Some "photo_a";
                   warning := None |} EmptyString).
  assert (Hn : Action.delete = Action.none); [|discriminate Hn].
  apply H.
  - vm_compute. reflexivity.
  - reflexivity.
  - intros a Ha. vm_compute in Ha. discriminate Ha.
Qed.

(** *** An ambiguous binding ends the step *)

Lemma build_entry_ambiguous (st : Builder.state) (subm : submission) (f : imgField) :
  ambiguous subm f -> exists e, Builder.build_entry st subm f = Throw e.
Proof.
  intros (l & Hl & Hlen). unfold Builder.build_entry.
  destruct (check (JStr (autoname f)) mustExists TString) as [[]|e]; [|eauto].
  cbn [bind]. unfold Builder.field_value. rewrite Hl.
  destruct (Z.ltb_spec 1 (Z.of_nat (length l))); [|lia].
  cbn [bind]. eauto.
Qed.

Lemma build_fields_ambiguous (subm : submission) (f : imgField)
    (fields : list imgField) :
  In f fields -> ambiguous subm f ->
  forall st acc, exists e, Builder.build_fields st subm fields acc = Throw e.
Proof.
  intros Hin Hamb. induction fields as [|g fields IH]; [destruct Hin|].
  intros st acc. cbn [Builder.build_fields].
  destruct (Builder.build_entry st subm g) as [[st1 e1]|e] eqn:He; [|cbn [bind]; eauto].
  cbn [bind fst snd]. destruct Hin as [->|Hin].
  - destruct (build_entry_ambiguous st subm f Hamb) as (e & He'). congruence.
  - apply IH. exact Hin.
Qed.

Lemma build_submissions_ambiguous (subm : submission) (f : imgField)
    (fields : list imgField) (subms : list submission) :
  In subm subms -> In f fields -> ambiguous subm f ->
  forall st acc, exists e, Builder.build_submissions st fields subms acc = Throw e.
Proof.
  intros Hin Hf Hamb. induction subms as [|s subms IH]; [destruct Hin|].
  intros st acc. cbn [Builder.build_submissions].
  rewrite check_number_ok. cbn [bind].
  destruct Hin as [->|Hin].
  - destruct (build_fields_ambiguous subm f fields Hf Hamb st []) as (e & ->).
    cbn [bind]. eauto.
  - destruct (Builder.build_fields st s fields []) as [[st1 m]|e]; [|cbn [bind]; eauto].
    cbn [bind fst snd]. apply IH. exact Hin.
Qed.

Lemma build_assets_ambiguous (a : asset) (subm : submission) (f : imgField)
    (assets : list asset) :
  In a assets -> In subm (submissions a) -> In f (imgs a) -> ambiguous subm f ->
  forall st acc, exists e, Builder.build_assets st assets acc = Throw e.
Proof.
  intros Hin Hs Hf Hamb. induction assets as [|b assets IH]; [destruct Hin|].
  intros st acc. cbn [Builder.build_assets].
  destruct (check (JStr (uid b)) mustExists TString) as [[]|e]; [|cbn [bind]; eauto].
  cbn [bind]. destruct Hin as [->|Hin].
  - destruct (submissions a) as [|s0 ss] eqn:Hss; [destruct Hs|].
    destruct (imgs a) as [|f0 fs] eqn:Hfs; [destruct Hf|].
    destruct (build_submissions_ambiguous subm f (f0 :: fs) (s0 :: ss) Hs Hf Hamb
                (Builder.reset_asset st) []) as (e & ->).
    cbn [bind]. eauto.
  - destruct (submissions b) as [|s0 ss]; [apply IH; exact Hin|].
    destruct (imgs b) as [|f0 fs]; [apply IH; exact Hin|].
    destruct (Builder.build_submissions _ _ _ _) as [[st1 m]|e]; [|cbn [bind]; eauto].
    cbn [bind fst snd]. apply IH. exact Hin.
Qed.

(** C9. If some record of some asset binds more than one raw key to one of
    the asset's image fields, [buildActionMap] throws: the step yields no
    action map, for no asset. *)
Theorem ambiguous_binding_aborts
    (assets : list asset) (a : asset) (subm : submission) (f : imgField) :
  In a assets -> In subm (submissions a) -> In f (imgs a) -> ambiguous subm f ->
  exists e, Builder.buildActionMap assets = Throw e.
Proof.
  intros Ha Hs Hf Hamb. unfold Builder.buildActionMap.
  destruct (build_assets_ambiguous a subm f assets Ha Hs Hf Hamb Builder.init [])
    as (e & ->).
  cbn [bind]. eauto.
Qed.

(** The theorem on an asset whose second record binds two keys to
    [photo_a]. *)
Lemma ambiguous_binding_aborts_witness :
  exists e, Builder.buildActionMap [asset_ambiguous] = Throw e.
Proof.
  apply (ambiguous_binding_aborts [asset_ambiguous] asset_ambiguous subm_ambiguous photo_a).
  - left. reflexivity.
  - right. left. reflexivity.
  - left. reflexivity.
  - eexists. split; [reflexivity | simpl; lia].
Defined.

(** The error of that run is the one of line 619; the map of the first
    record, which was built before it, is lost with the step. *)
Example ambiguous_binding_error :
  Builder.buildActionMap [asset_ambiguous] =
  Throw (Error "expected one or zero entries in @@images_map element: [object Object],[object Object]").
Proof. vm_compute. reflexivity. Qed.

(** *** The shape of the builder's entries *)

Lemma build_fields_shape (subm : submission) (fields : list imgField) :
  forall st acc st' m,
  (forall k e, In (k, e) acc -> entry_shape e) ->
  Builder.build_fields st subm fields acc = OK (st', m) ->
  forall k e, In (k, e) m -> entry_shape e.
Proof.
  induction fields as [|f fields IH]; intros st acc st' m Hacc; cbn [Builder.build_fields].
  - intros [= <- <-]. exact Hacc.
  - destruct (Builder.build_entry st subm f) as [[st1 e1]|] eqn:He; [|discriminate].
    cbn [bind fst snd]. apply IH.
    intros k e Hin. apply In_set_prop in Hin. destruct Hin as [[= -> ->]|Hin].
    + exact (build_entry_shape _ _ _ _ _ He).
    + exact (Hacc k e Hin).
Qed.

Lemma build_submissions_shape (fields : list imgField) (subms : list submission) :
  forall st acc st' m,
  map_shape acc ->
  Builder.build_submissions st fields subms acc = OK (st', m) ->
  map_shape m.
Proof.
  induction subms as [|s subms IH]; intros st acc st' m Hacc;
    cbn [Builder.build_submissions].
  - intros [= <- <-]. exact Hacc.
  - rewrite check_number_ok. cbn [bind].
    destruct (Builder.build_fields st s fields []) as [[st1 m1]|] eqn:Hf; [|discriminate].
    cbn [bind fst snd]. apply IH.
    intros em k e Hem Hin. apply in_app_or in Hem. destruct Hem as [Hem|[<-|[]]].
    + exact (Hacc em k e Hem Hin).
    + exact (build_fields_shape s fields st [] st1 m1 (fun _ _ H => False_ind _ H) Hf k e Hin).
Qed.

Lemma build_assets_shape (assets : list asset) :
  forall st acc st' r,
  (forall ma, In ma acc -> map_shape (map ma)) ->
  Builder.build_assets st assets acc = OK (st', r) ->
  forall ma, In ma r -> map_shape (map ma).
Proof.
  induction assets as [|a assets IH]; intros st acc st' r Hacc; cbn [Builder.build_assets].
  - intros [= <- <-]. exact Hacc.
  - destruct (check (JStr (uid a)) mustExists TString) as [[]|]; [|discriminate].
    cbn [bind].
    destruct (submissions a) as [|s0 ss]; [apply IH; exact Hacc|].
    destruct (imgs a) as [|f0 fs]; [apply IH; exact Hacc|].
    destruct (Builder.build_submissions _ _ _ _) as [[st1 m]|] eqn:Hs; [|discriminate].
    cbn [bind fst snd]. apply IH.
    intros ma Hma. apply in_app_or in Hma. destruct Hma as [Hma|[<-|[]]].
    + exact (Hacc ma Hma).
    + cbn [map]. apply (build_submissions_shape _ _ _ [] _ _ (fun _ _ _ H => False_ind _ H) Hs).
Qed.

Lemma buildActionMap_shape (assets : list asset) (r : list mapped_asset) :
  Builder.buildActionMap assets = OK r ->
  forall ma, In ma r -> map_shape (map ma).
Proof.
  unfold Builder.buildActionMap.
  destruct (Builder.build_assets Builder.init assets []) as [[st' r']|] eqn:H; [|discriminate].
  cbn [bind snd]. intros [= <-].
  exact (build_assets_shape _ _ [] _ _ (fun _ H => False_ind _ H) H).
Qed.

(** ** The sweeper's name lists *)

Lemma string_of_Z_not_empty (z : Z) : string_of_Z z <> EmptyString.
Proof.
  unfold string_of_Z. destruct (Z.to_int z) as [d|d]; [|discriminate].
  destruct d; discriminate.
Qed.

Lemma buildImageName_ok (pre v : string) :
  pre <> EmptyString -> v <> EmptyString ->
  Utils.buildImageName pre v = OK (pre +:+ "_" +:+ v).
Proof.
  intros Hp Hv. unfold Utils.buildImageName.
  rewrite !check_string_ok by assumption. reflexivity.
Qed.

Lemma check_opt_str_ok (v : option string) :
  check (js_opt_str v) ifExists TString = OK tt.
Proof. destruct v as [s|]; simpl; [|reflexivity]. now rewrite andb_false_r. Qed.

(** A map of the builder's shape adds no name to [#deletes]. *)
Lemma add_names_shape (rid : Z) (entries : list (string * entry)) :
  (forall k e, In (k, e) entries -> entry_shape e) ->
  forall ks ds ns, exists ks' ns',
    ImageCleaner.add_names rid entries (ks, ds, ns) = OK (ks', ds, ns').
Proof.
  induction entries as [|[k e] entries IH]; intros Hshape ks ds ns;
    cbn [ImageCleaner.add_names].
  - eauto.
  - rewrite check_opt_str_ok. cbn [bind].
    assert (IH' := IH (fun k' e' H => Hshape k' e' (or_intror H))).
    pose proof (Hshape k e (or_introl eq_refl)) as He. unfold entry_shape in He.
    destruct (truthy (js_opt_str (value e))) eqn:Ht.
    + destruct (value e) as [v|] eqn:Hv; [|discriminate].
      assert (Hne : v <> EmptyString) by (intros ->; discriminate).
      rewrite (buildImageName_ok _ _ (string_of_Z_not_empty rid) Hne). cbn [bind].
      destruct (action e).
      * apply IH'.
      * destruct He as [He|He]; [discriminate | congruence].
      * apply IH'.
    + apply IH'.
Qed.

Lemma add_map_shape (m : list emap) :
  map_shape m ->
  forall ks ds ns, exists ks' ns',
    ImageCleaner.add_map m (ks, ds, ns) = OK (ks', ds, ns').
Proof.
  induction m as [|em m IH]; intros Hshape ks ds ns; cbn [ImageCleaner.add_map].
  - eauto.
  - rewrite check_number_ok. cbn [bind].
    destruct (add_names_shape (emap_id em) (emap_entries em)
                (fun k e H => Hshape em k e (or_introl eq_refl) H) ks ds ns)
      as (ks1 & ns1 & ->).
    cbn [bind]. apply IH. intros em' k e Hem. apply Hshape. now right.
Qed.

Lemma set_map_shape (c : ImageCleaner.t) (m : list emap) :
  map_shape m -> ImageCleaner.isRunning c = false ->
  exists c', ImageCleaner.set_map c (Some m) = OK c'
    /\ ImageCleaner.deletes c' = match m with
                                 | [] => []
                                 | _ => ImageCleaner.deletes c
                                 end
    /\ ImageCleaner.deleteImages_ c' = ImageCleaner.deleteImages_ c.
Proof.
  intros Hshape Hrun. unfold ImageCleaner.set_map. rewrite Hrun.
  destruct m as [|em m]; [eexists; repeat split|].
  destruct (add_map_shape (em :: m) Hshape (ImageCleaner.keeps c)
              (ImageCleaner.deletes c) (ImageCleaner.nones c)) as (ks & ns & ->).
  cbn [bind]. eexists; repeat split.
Qed.

(** With no delete name, the first test of the sweeper is the keep test. *)
Lemma decide_file_no_deletes (c : ImageCleaner.t) (file : string) :
  ImageCleaner.deletes c = [] ->
  ImageCleaner.decide_file c file =
  if ImageCleaner.inb file (ImageCleaner.keeps c)
  then (if ImageCleaner.inb file (ImageCleaner.nones c)
        then ImageCleaner.Quarantine else ImageCleaner.Leave)
  else (if ImageCleaner.deleteImages_ c
        then ImageCleaner.Remove else ImageCleaner.Quarantine).
Proof.
  intros Hd. unfold ImageCleaner.decide_file. rewrite Hd. cbn [ImageCleaner.inb existsb].
  destruct (ImageCleaner.inb file (ImageCleaner.keeps c)); reflexivity.
Qed.

(** C10 (amended). In every action map the builder makes, a delete entry has
    an undefined or empty value, and an entry has a non-empty value exactly
    when its action is keep or none. So a sweeper whose delete-name list is
    empty still has it empty after it is given such a map, its test "in the
    keep names or in the delete names" is the test "in the keep names", and
    a file that is not a keep name is removed or quarantined by the sweeper,
    whether or not a delete entry stands for it. *)
Theorem builder_maps_have_no_delete_names
    (assets : list asset) (r : list mapped_asset) :
  Builder.buildActionMap assets = OK r ->
  forall ma, In ma r ->
    (forall em k e, In em (map ma) -> In (k, e) (emap_entries em) ->
       (action e = Action.delete -> value e = None \/ value e = Some EmptyString)
       /\ ((exists v, value e = Some v /\ v <> EmptyString)
           <-> action e = Action.keep \/ action e = Action.none))
    /\ (forall c, ImageCleaner.isRunning c = false -> ImageCleaner.deletes c = [] ->
          exists c', ImageCleaner.set_map c (Some (map ma)) = OK c'
            /\ ImageCleaner.deletes c' = []
            /\ forall file,
                 ImageCleaner.decide_file c' file =
                 if ImageCleaner.inb file (ImageCleaner.keeps c')
                 then (if ImageCleaner.inb file (ImageCleaner.nones c')
                       then ImageCleaner.Quarantine else ImageCleaner.Leave)
                 else (if ImageCleaner.deleteImages_ c'
                       then ImageCleaner.Remove else ImageCleaner.Quarantine)).
Proof.
  intros Hr ma Hma. pose proof (buildActionMap_shape assets r Hr ma Hma) as Hshape.
  split.
  - intros em k e Hem Hin. specialize (Hshape em k e Hem Hin).
    unfold entry_shape in Hshape. destruct (action e); split.
    + discriminate.
    + split; [auto | intros _; exact Hshape].
    + intros _. exact Hshape.
    + split; [|intros [H|H]; discriminate].
      intros (v & Hv & Hne). destruct Hshape as [H|H]; congruence.
    + discriminate.
    + split; [auto | intros _; exact Hshape].
  - intros c Hrun Hd.
    destruct (set_map_shape c (map ma) Hshape Hrun) as (c' & Hc' & Hd' & _).
    assert (Hnil : ImageCleaner.deletes c' = []).
    { rewrite Hd'. destruct (map ma); [reflexivity | exact Hd]. }
    exists c'. split; [exact Hc'|]. split; [exact Hnil|].
    intros file. apply decide_file_no_deletes. exact Hnil.
Qed.

(** The theorem on the action map of the scenario, given to a new sweeper. *)
Lemma builder_maps_have_no_delete_names_witness :
  exists c', ImageCleaner.set_map ImageCleaner.new (Some scenario_emap) = OK c'
    /\ ImageCleaner.deletes c' = []
    /\ ImageCleaner.decide_file c' "1721_old.jpg" = ImageCleaner.Quarantine.
Proof.
  assert (Hbuilt : Builder.buildActionMap [scenario_asset] = OK scenario_map).
  { vm_compute. reflexivity. }
  destruct (builder_maps_have_no_delete_names [scenario_asset] scenario_map Hbuilt
              scenario_mapped) as [_ H]; [left; reflexivity|].
  destruct (H ImageCleaner.new) as (c' & Hc' & Hd & Hdecide); [reflexivity | reflexivity |].
  exists c'. split; [exact Hc'|]. split; [exact Hd|].
  rewrite Hdecide. vm_compute in Hc'. injection Hc' as Hc'. rewrite <- Hc'.
  reflexivity.
Defined.

(** C10, as stated, fails on an answer that is the empty string: the delete
    entry of the builder's map holds that string, not [undefined]. *)
Lemma builder_maps_have_no_delete_names_counterexample :
  ~ (forall (assets : list asset) (r : list mapped_asset) (ma : mapped_asset)
            (em : emap) (k : string) (e : entry),
       Builder.buildActionMap assets = OK r ->
       In ma r -> In em (map ma) -> In (k, e) (emap_entries em) ->
       action e = Action.delete -> value e = None).
Proof.
  intros H.
  assert (Hv : Some EmptyString = @None string); [|discriminate Hv].
  refine (H [asset_empty_answer] _ _ _ "photo_a"
            {| value := Some EmptyString; attachment := None;
               action := Action.delete; subm_mapped_key := Some "photo_a";
               warning := None |} _ _ _ _ eq_refl).
  - vm_compute. reflexivity.
  - left. reflexivity.
  - left. reflexivity.
  - left. reflexivity.
Qed.

(** ** The orphan sweeper *)

(** The test for the none names is in the [else] of the test for the keep
    and delete names: a file that is only a none name never reaches it. *)
Lemma decide_file_none_only (c : ImageCleaner.t) (file : string) :
  ImageCleaner.inb file (ImageCleaner.nones c) = true ->
  ImageCleaner.inb file (ImageCleaner.keeps c) = false ->
  ImageCleaner.inb file (ImageCleaner.deletes c) = false ->
  ImageCleaner.decide_file c file =
  if ImageCleaner.deleteImages_ c then ImageCleaner.Remove else ImageCleaner.Quarantine.
Proof.
  intros _ Hk Hd. unfold ImageCleaner.decide_file. rewrite Hk, Hd. reflexivity.
Qed.

(** Files that are neither keep names nor delete names follow the
    [deleteImages] toggle. *)
Lemma decide_file_orphan (c : ImageCleaner.t) (file : string) :
  ImageCleaner.inb file (ImageCleaner.keeps c) = false ->
  ImageCleaner.inb file (ImageCleaner.deletes c) = false ->
  ImageCleaner.decide_file c file =
  if ImageCleaner.deleteImages_ c then ImageCleaner.Remove else ImageCleaner.Quarantine.
Proof.
  intros Hk Hd. unfold ImageCleaner.decide_file. rewrite Hk, Hd. reflexivity.
Qed.

(** C4 (the code departs from the claim). With [deleteImages] on, the
    sweeper removes the file of a none entry for good: [1721_lost.jpg] is in
    the none names, and after the sweep it is neither in the image directory
    nor in the quarantine. *)
Theorem sweeper_removes_none_file :
  exists c c' ds',
    configured ImageCleaner.new map_lost true = OK c
    /\ ImageCleaner.nones c = ["1721_lost.jpg"]
    /\ ImageCleaner.keeps c = [] /\ ImageCleaner.deletes c = []
    /\ ImageCleaner.run c (images_lost, ∅) = OK (c', ds')
    /\ fst ds' !! "1721_lost.jpg" = None
    /\ snd ds' = ∅
    /\ ImageCleaner.cleaned c' =
       [{| co_status_ok := true; co_targetFile := "1721_lost.jpg";
           co_newFilePath := None; co_detail := "file deleted" |}].
Proof.
  eexists; eexists; eexists.
  split; [vm_compute; reflexivity|].
  split; [reflexivity|]. split; [reflexivity|]. split; [reflexivity|].
  split; [vm_compute; reflexivity|].
  split; [reflexivity|]. split; reflexivity.
Qed.

(** With [deleteImages] off the same file is moved to the quarantine. *)
Example sweeper_quarantines_none_file :
  exists c c' ds',
    configured ImageCleaner.new map_lost false = OK c
    /\ ImageCleaner.run c (images_lost, ∅) = OK (c', ds')
    /\ fst ds' !! "1721_lost.jpg" = None
    /\ snd ds' !! "1721_lost.jpg" = Some (File "JFIF-lost").
Proof.
  eexists; eexists; eexists.
  split; [vm_compute; reflexivity|].
  split; [vm_compute; reflexivity|].
  split; reflexivity.
Qed.

(** ** The action executor *)

Import Executor.

Ltac mred :=
  cbv beta iota delta
    [Executor.bindM Executor.gets Executor.ret Executor.lift Executor.modify
     Executor.throw Executor.try_catch].

Tactic Notation "mred" "in" hyp(H) :=
  cbv beta iota delta
    [Executor.bindM Executor.gets Executor.ret Executor.lift Executor.modify
     Executor.throw Executor.try_catch] in H.

Lemma inb_In (x : string) (l : list string) :
  ImageCleaner.inb x l = true <-> In x l.
Proof.
  unfold ImageCleaner.inb. rewrite existsb_exists. split.
  - intros (y & Hy & Heq). apply String.eqb_eq in Heq. now subst.
  - intros H. exists x. split; [exact H | apply String.eqb_refl].
Qed.

Lemma inb_not_In (x : string) (l : list string) :
  ImageCleaner.inb x l = false <-> ~ In x l.
Proof.
  rewrite <- inb_In. destruct (ImageCleaner.inb x l); split; intros; congruence.
Qed.

Lemma isValidAttachmentMap_total (v : jsval) :
  truthy v = true -> isOfType v TObject = true ->
  exists b, StateRecord.isValidAttachmentMap v = OK b.
Proof.
  intros Ht Ho. unfold StateRecord.isValidAttachmentMap, check.
  rewrite Ht, Ho. cbn [negb orb bind]. eexists. reflexivity.
Qed.

Section ExecutorProofs.

Context (E : env) (cfg : configs) (uid assetName : string).

(** Reading the state file of a field changes the warnings at most. *)
Lemma read_attachment_map_readable (rid : Z) (e_key : string) (st : state) :
  state_file_readable (disk st) rid e_key ->
  exists cur has st1,
    Update.read_attachment_map cfg uid rid e_key st = (st1, OK (cur, has))
    /\ (st1 = st \/ exists w, st1 = push_warning st w)
    /\ (has = true -> valid_state_record (disk st) rid e_key cur)
    /\ (has = false -> forall v, ~ valid_state_record (disk st) rid e_key v).
Proof.
  unfold state_file_readable, valid_state_record, Update.read_attachment_map. mred.
  destruct (attachmentsMap (disk st) !! (rid, e_key)) as [[v|data]|] eqn:Hfile.
  - intros [Ht Ho]. destruct (isValidAttachmentMap_total v Ht Ho) as [b Hb].
    cbn [StateRecord.parseJSONFile]. rewrite Hb. destruct b; cbn [negb].
    + exists v, true, st. split; [reflexivity|]. split; [now left|].
      split; [auto | discriminate].
    + eexists v, false, _. split; [reflexivity|]. split; [right; eauto|].
      split; [discriminate|]. intros _ v' [[= <-] Hv']. congruence.
  - intros [].
  - intros _. exists JNull, false, st. split; [reflexivity|]. split; [now left|].
    split; [discriminate|]. intros _ v' [Hv' _]. discriminate.
Qed.

Lemma exec_entry_reads (rid : Z) (e_key : string) (e_value : entry)
    (st st1 : state) (cur : jsval) (has : bool) :
  Update.entry_checks e_value = OK tt ->
  Update.read_attachment_map cfg uid rid e_key st = (st1, OK (cur, has)) ->
  Update.exec_entry E cfg uid assetName rid (e_key, e_value) st =
  match action e_value with
  | Action.keep => Update.keep_case E cfg uid assetName rid e_key e_value cur has st1
  | Action.delete => Update.delete_case E cfg uid assetName e_value cur has st1
  | Action.none => Update.none_case e_value st1
  end.
Proof.
  intros Hc Hr. unfold Update.exec_entry. mred. cbn [fst snd].
  rewrite Hc, Hr. cbn [fst snd]. destruct (action e_value); reflexivity.
Qed.

(** An entry that ends without an uncaught error lets the loop go on with
    the next entry of the record. *)
Lemma exec_entries_continue (rid : Z) (kv : string * entry)
    (rest : list (string * entry)) (acc : list (string * result_entry))
    (st st' : state) (r : result_entry) :
  Update.exec_entry E cfg uid assetName rid kv st = (st', OK r) ->
  Update.exec_entries E cfg uid assetName rid (kv :: rest) acc st =
  Update.exec_entries E cfg uid assetName rid rest (set_prop (fst kv) r acc) st'.
Proof.
  intros H. cbn [Update.exec_entries]. unfold bindM at 1. rewrite H. reflexivity.
Qed.

Lemma keep_case_duplicate (rid : Z) (e_key : string) (e_value : entry)
    (a : Attachment) (cur : jsval) (has : bool) (st : state) :
  attachment e_value = Some a ->
  In (Update.img_new_name rid e_value) (imageNamesToKeep st) ->
  Update.keep_case E cfg uid assetName rid e_key e_value cur has st =
  let msg := "in action 'keep': image name is duplicated: "
             +:+ Update.img_new_name rid e_value in
  (push_error
     (set_names st (imageNamesToKeep st)
        (imageNamesToKeepDuplicated st ++ [Update.img_new_name rid e_value])
        (imageNamesToDelete st) (imageNamesToDeleteDuplicated st))
     ("an error occurs while proccessing image - error: " +:+ msg),
   OK {| r_entry := e_value; r_status_ok := false; r_op := "saveImage";
         r_action_detail := None; r_error := Some msg |}).
Proof.
  intros Ha Hin. apply inb_In in Hin.
  unfold Update.keep_case, Update.keep_try, Update.claim_keep, Update.on_error.
  rewrite Ha. mred. rewrite Hin. reflexivity.
Qed.

Lemma delete_case_duplicate (e_value : entry) (cur : jsval) (name : string)
    (st : state) :
  get cur "imageName" = JStr name ->
  In name (imageNamesToKeep st) \/ In name (imageNamesToDelete st) ->
  Update.delete_case E cfg uid assetName e_value cur true st =
  let msg := if ImageCleaner.inb name (imageNamesToKeep st)
             then "in action 'delete': image name is duplicated in to-keep list: " +:+ name
             else "in action 'delete': image name is duplicated in to-delete list: " +:+ name in
  (push_error
     (set_names st (imageNamesToKeep st) (imageNamesToKeepDuplicated st)
        (imageNamesToDelete st) (imageNamesToDeleteDuplicated st ++ [name]))
     ("an error occurs while proccessing image - error: " +:+ msg),
   OK {| r_entry := e_value; r_status_ok := false; r_op := "deleteImage";
         r_action_detail := None; r_error := Some msg |}).
Proof.
  intros Hname Hin.
  unfold Update.delete_case, Update.delete_try, Update.claim_delete, Update.on_error.
  rewrite Hname. cbn [show]. mred.
  destruct (ImageCleaner.inb name (imageNamesToKeep st)) eqn:Hk; [reflexivity|].
  destruct Hin as [Hin|Hin].
  - apply inb_In in Hin. congruence.
  - apply inb_In in Hin. rewrite Hin. reflexivity.
Qed.

(** An entry whose name is taken ends as an error of that entry: a keep
    whose target name is already among the names kept in this asset's run,
    or a delete whose stored image name is already among the names kept or
    among the names deleted. The entry's result has status error with the
    message of the collision, the message is counted in the errors, the disk
    is as it was (no file is overwritten, moved or removed), the name lists
    do not take the name a second time, and the loop goes on with the next
    entry. *)
Lemma collision_is_entry_error
    (rid : Z) (e_key : string) (e_value : entry) (name : string) (st : state) :
  Update.entry_checks e_value = OK tt ->
  state_file_readable (disk st) rid e_key ->
  collides st rid e_key e_value name ->
  exists st' r,
    Update.exec_entry E cfg uid assetName rid (e_key, e_value) st = (st', OK r)
    /\ r_status_ok r = false
    /\ r_error r = Some (collision_message st e_value name)
    /\ disk st' = disk st
    /\ errors st' = (errors st ++ ["an error occurs while proccessing image - error: "
                                   +:+ collision_message st e_value name])%list
    /\ imageNamesToKeep st' = imageNamesToKeep st
    /\ imageNamesToDelete st' = imageNamesToDelete st
    /\ forall rest acc,
         Update.exec_entries E cfg uid assetName rid ((e_key, e_value) :: rest) acc st =
         Update.exec_entries E cfg uid assetName rid rest (set_prop e_key r acc) st'.
Proof.
  intros Hchecks Hread Hcol.
  destruct (read_attachment_map_readable rid e_key st Hread)
    as (cur & has & st1 & Hr & Hst1 & Hvalid & Hinvalid).
  pose proof (exec_entry_reads rid e_key e_value st st1 cur has Hchecks Hr) as Hexec.
  assert (Hsame : disk st1 = disk st /\ errors st1 = errors st
                  /\ imageNamesToKeep st1 = imageNamesToKeep st
                  /\ imageNamesToDelete st1 = imageNamesToDelete st).
  { destruct Hst1 as [->|[w ->]]; repeat split. }
  destruct Hsame as (Hd & He & Hk & Hdel).
  destruct Hcol as [(Hact & Hatt & -> & Hin)|(Hact & (v & Hv & Hname) & Hin)].
  - destruct (attachment e_value) as [a|] eqn:Ha; [|congruence].
    rewrite <- Hk in Hin.
    rewrite Hact, (keep_case_duplicate rid e_key e_value a cur has st1 Ha Hin) in Hexec.
    cbv zeta in Hexec. unfold collision_message. rewrite Hact.
    eexists _, _. split; [exact Hexec|].
    split; [reflexivity|]. split; [reflexivity|]. split; [exact Hd|].
    split; [cbn; now rewrite He|]. split; [exact Hk|]. split; [exact Hdel|].
    intros rest acc. exact (exec_entries_continue rid _ rest acc st _ _ Hexec).
  - destruct has.
    2:{ exfalso. exact (Hinvalid eq_refl v Hv). }
    assert (cur = v).
    { destruct (Hvalid eq_refl) as [Hc _]. destruct Hv as [Hv _]. congruence. }
    subst v. rewrite <- Hk, <- Hdel in Hin.
    rewrite Hact, (delete_case_duplicate e_value cur name st1 Hname Hin) in Hexec.
    cbv zeta in Hexec. unfold collision_message. rewrite Hact. rewrite Hk in Hexec.
    eexists _, _. split; [exact Hexec|].
    split; [reflexivity|]. split; [reflexivity|]. split; [exact Hd|].
    split; [cbn; now rewrite He|]. split; [reflexivity|]. split; [exact Hdel|].
    intros rest acc. exact (exec_entries_continue rid _ rest acc st _ _ Hexec).
Qed.

(** *** Freshness *)

Lemma same_words_spec (h : list Z) (l : list jsval) :
  length h = length l ->
  (Hash.same_words h l = true <-> l = List.map JNum h).
Proof.
  revert l; induction h as [|x h IH]; intros [|y l]; simpl; try discriminate.
  - intros _. split; reflexivity.
  - intros [= Hlen]. specialize (IH l Hlen).
    destruct y; try (split; [discriminate | intros [= ? ?]; discriminate]).
    rewrite andb_true_iff, Z.eqb_eq, IH. split.
    + intros [-> ->]. reflexivity.
    + intros [= -> ->]. auto.
Qed.

Lemma isValidFileHash_existing (d : gmap string node) (file data : string)
    (l : list jsval) :
  file <> EmptyString ->
  d !! file = Some (File data) ->
  exists b, Hash.isValidFileHash (sha256 E) d file (JArr l) = OK b
    /\ (b = true <-> l = List.map JNum (sha256 E data)).
Proof.
  intros Hne Hfile. unfold Hash.isValidFileHash, Hash.getFileHash.
  rewrite (check_string_ok file Hne), Hfile. cbn [check truthy isOfType negb orb bind].
  destruct (Nat.eqb_spec (length (sha256 E data)) (length l)) as [Hlen|Hlen]; cbn [negb].
  - eexists. split; [reflexivity|]. now apply same_words_spec.
  - exists false. split; [reflexivity|]. split; [discriminate|].
    intros ->. rewrite length_map in Hlen. congruence.
Qed.

Lemma valid_record_fields (v : jsval) :
  StateRecord.isValidAttachmentMap v = OK true ->
  (exists l, get (get v "imgInfo") "hash" = JArr l)
  /\ (exists s, get v "imageName" = JStr s /\ s <> EmptyString)
  /\ truthy v = true /\ isOfType v TObject = true.
Proof.
  unfold StateRecord.isValidAttachmentMap.
  destruct (check v mustExists TObject) as [[]|] eqn:Hc; [|discriminate].
  cbn [bind]. intros H. apply OK_inj in H.
  repeat (apply andb_true_iff in H; let H' := fresh "H" in destruct H as [H H']).
  split; [|split].
  - destruct (get (get v "imgInfo") "hash"); try discriminate. eauto.
  - destruct (get v "imageName") as [| | | |s| |]; try discriminate.
    exists s. split; [reflexivity|]. intros ->. discriminate.
  - unfold check in Hc. destruct (truthy v), (isOfType v TObject); try discriminate.
    auto.
Qed.

Lemma img_new_name_not_empty (rid : Z) (e_value : entry) :
  Update.img_new_name rid e_value <> EmptyString.
Proof.
  unfold Update.img_new_name. pose proof (string_of_Z_not_empty rid) as H.
  destruct (string_of_Z rid); [contradiction | discriminate].
Qed.

Lemma strict_eq_str (v : jsval) (s : string) :
  strict_eq v (JStr s) = true <-> v = JStr s.
Proof.
  destruct v; simpl; try (split; [discriminate | intros [=]]).
  rewrite String.eqb_eq. split; [intros -> | intros [= ->]]; reflexivity.
Qed.

Lemma strict_eq_num (v : jsval) (n : Z) :
  strict_eq v (JNum n) = true <-> v = JNum n.
Proof.
  destruct v; simpl; try (split; [discriminate | intros [=]]).
  rewrite Z.eqb_eq. split; [intros -> | intros [= ->]]; reflexivity.
Qed.

(** The decision of the keep case: with a name that is free and a path that
    is a file or nothing, the up-to-date case is taken exactly when the file
    exists and the state record, valid, has the name, the attachment id and
    the digest of the file; the download case is taken otherwise. *)
Lemma keep_try_decides (rid : Z) (e_key : string) (e_value : entry)
    (a : Attachment) (cur : jsval) (has : bool) (st : state) :
  attachment e_value = Some a ->
  ~ In (Update.img_new_name rid e_value) (imageNamesToKeep st) ->
  images (disk st) !! Update.img_new_name rid e_value <> Some Dir ->
  (has = true -> StateRecord.isValidAttachmentMap cur = OK true) ->
  exists fresh : bool,
    (fresh = true <->
       exists data,
         images (disk st) !! Update.img_new_name rid e_value = Some (File data)
         /\ has = true
         /\ get cur "imageName" = JStr (Update.img_new_name rid e_value)
         /\ get cur "attachmentId" = JNum (id a)
         /\ get (get cur "imgInfo") "hash" = JArr (List.map JNum (sha256 E data)))
    /\ Update.keep_try E cfg uid assetName rid e_key e_value cur has st =
       (if fresh then Update.keep_up_to_date e_value cur
        else Update.keep_download E cfg uid assetName rid e_key e_value a
               (Update.img_new_name rid e_value))
         (claimed st (Update.img_new_name rid e_value)).
Proof.
  intros Ha Hfree Hpath Hvalid.
  set (name := Update.img_new_name rid e_value) in *.
  apply inb_not_In in Hfree.
  unfold Update.keep_try, Update.claim_keep, Update.image_exists. rewrite Ha.
  fold name. mred. rewrite Hfree. fold (claimed st name).
  change (disk (claimed st name)) with (disk st).
  unfold FS.fileExists, FS.pathExists, Update.imgIsUpToDate.
  destruct (images (disk st) !! name) as [[data|]|] eqn:Hfile.
  - cbn [negb andb].
    destruct has.
    + destruct (valid_record_fields cur (Hvalid eq_refl)) as ((l & Hl) & _).
      destruct (strict_eq (get cur "imageName") (JStr name)) eqn:Hn; cbn [negb].
      * destruct (strict_eq (get cur "attachmentId") (JNum (id a))) eqn:Hi; cbn [negb].
        -- rewrite Hl. change (disk (claimed st name)) with (disk st).
           destruct (isValidFileHash_existing (images (disk st)) name data l
                       (img_new_name_not_empty rid e_value) Hfile) as (b & -> & Hb).
           cbn [bind]. exists b. split.
           ++ rewrite Hb. apply strict_eq_str in Hn. apply strict_eq_num in Hi.
              split.
              ** intros ->. exists data. repeat split; auto.
              ** intros (data' & [= <-] & _ & _ & _ & [= Hh]). exact Hh.
           ++ destruct b; reflexivity.
        -- exists false. split; [|reflexivity]. split; [discriminate|].
           intros (data' & _ & _ & _ & Hid & _). apply strict_eq_num in Hid. congruence.
      * exists false. split; [|reflexivity]. split; [discriminate|].
        intros (data' & _ & _ & Hnm & _). apply strict_eq_str in Hnm. congruence.
    + exists false. split; [|reflexivity]. split; [discriminate|].
      intros (data' & _ & [=] & _).
  - contradiction.
  - cbn [negb andb]. exists false. split; [|reflexivity]. split; [discriminate|].
    intros (data' & [=] & _).
Qed.

(** The download case never gets past the check of line 1119: the digest is
    an array of words, the check wants a string. The image has been written
    by then; the row of the CSV file and the state record have not. *)
Lemma keep_download_throws (rid : Z) (e_key : string) (e_value : entry)
    (a : Attachment) (name : string) (st : state) :
  exists e,
    Update.keep_download E cfg uid assetName rid e_key e_value a name st =
    (set_disk st (fst (ImgsFs.saveImage E cfg (disk st) (download_url a) name)),
     Throw e)
    /\ (forall e', snd (ImgsFs.saveImage E cfg (disk st) (download_url a) name) = Throw e' ->
        e = e').
Proof.
  unfold Update.keep_download. mred.
  destruct (ImgsFs.saveImage E cfg (disk st) (download_url a) name) as [w [result|e]];
    cbn [fst snd].
  2:{ exists e. split; [reflexivity|]. intros e' [= <-]. reflexivity. }
  rewrite check_number_ok.
  destruct (check (w_contentType result) ifDefined TString) as [[]|e];
    [|exists e; split; [reflexivity | discriminate]].
  destruct (Update.getImgInfo E (disk (set_disk st w)) name) as [[h [wd ht]]|e];
    [|exists e; split; [reflexivity | discriminate]].
  cbn [fst snd].
  destruct (check (JStr (Update.dimensions_label wd ht)) mustExists TString) as [[]|e];
    [|exists e; split; [reflexivity | discriminate]].
  rewrite !check_number_ok.
  change (check (JArr (List.map JNum h)) mustExists TString)
    with (@Throw unit (CheckError TString (JArr (List.map JNum h)))).
  eexists. split; [reflexivity | discriminate].
Qed.

(** Nor does the up-to-date case get past its row of the CSV file: the cell
    of the digest is made by [getCsvString], which wants a string. *)
Lemma keep_up_to_date_throws (e_value : entry) (cur : jsval) (l : list jsval)
    (st : state) :
  get (get cur "imgInfo") "hash" = JArr l ->
  exists e, Update.keep_up_to_date e_value cur st = (st, Throw e).
Proof.
  intros Hl. unfold Update.keep_up_to_date, Update.csv_row. mred. rewrite Hl.
  repeat (destruct (Csv.getCsvString (get _ _)) as [?|?]; cbn [bind]; [|eauto]).
  cbn [Csv.getCsvString check truthy isOfType negb orb bind]. eauto.
Qed.

(** *** The download cycle *)

Lemma attempt_requests (w : world) (url name : string) :
  requests (fst (ImgsFs.attempt E w url name)) = S (requests w).
Proof.
  unfold ImgsFs.attempt.
  destruct (download_ E (requests w)) as [[|d ds]|e]; try reflexivity.
  destruct (check (contentLength d) ifExists TNumber); [|reflexivity].
  destruct (check (contentType d) ifExists TString); [|reflexivity].
  destruct (contentLength d); try reflexivity.
  destruct (n =? 0); [reflexivity|].
  destruct (ImgsFs.writeStream (images w) name (readStream d) n) as [d' [[|r rs]|e]];
    try reflexivity.
  destruct (negb (w_bytesRead r =? w_contentLength r)); reflexivity.
Qed.

(** A turn of the cycle fails when the download does not deliver: it throws,
    has no result, no content length, a stream that breaks, or a stream that
    closes with another number of bytes than the content length. *)
Lemma attempt_not_delivered (w : world) (url name : string) :
  delivers (download_ E (requests w)) = false ->
  exists e, snd (ImgsFs.attempt E w url name) = Throw e.
Proof.
  unfold ImgsFs.attempt, delivers.
  destruct (download_ E (requests w)) as [[|d ds]|e]; try (intros _; eexists; reflexivity).
  destruct (check (contentLength d) ifExists TNumber); [|intros _; eexists; reflexivity].
  unfold check at 1.
  destruct (truthy (contentType d) && negb (isOfType (contentType d) TString));
    [intros _; eexists; reflexivity|].
  destruct (contentLength d) as [| | |len| | |]; try (intros _; eexists; reflexivity).
  destruct (len =? 0); [intros _; eexists; reflexivity|].
  unfold ImgsFs.writeStream.
  destruct (images w !! name) as [[data'|]|];
    try (intros _; eexists; reflexivity);
    (destruct (readStream d) as [data|e data]; [|intros _; eexists; reflexivity]);
    cbn [negb andb w_bytesRead w_contentLength fst snd];
    rewrite andb_true_r;
    (destruct (str_len data =? len); [discriminate | intros _; eexists; reflexivity]).
Qed.

Lemma cycle_requests (url name : string) (fuel : nat) :
  forall w,
    (requests w <= requests (fst (ImgsFs.cycle E fuel w url name)) <= requests w + fuel)%nat
    /\ (0 < fuel -> requests w < requests (fst (ImgsFs.cycle E fuel w url name)))%nat.
Proof.
  induction fuel as [|fuel IH]; intros w; cbn [ImgsFs.cycle].
  - cbn [fst]. lia.
  - pose proof (attempt_requests w url name) as Ha.
    destruct (ImgsFs.attempt E w url name) as [w' [result|e]]; cbn [fst] in *.
    + lia.
    + specialize (IH w'). lia.
Qed.

Lemma cycle_exhausted (url name : string) (fuel : nat) :
  forall w,
    (forall n, (requests w <= n < requests w + fuel)%nat ->
               delivers (download_ E n) = false) ->
    exists w', ImgsFs.cycle E fuel w url name = (w', None)
               /\ requests w' = (requests w + fuel)%nat.
Proof.
  induction fuel as [|fuel IH]; intros w Hfail; cbn [ImgsFs.cycle].
  - exists w. split; [reflexivity | lia].
  - pose proof (attempt_requests w url name) as Ha.
    destruct (attempt_not_delivered w url name (Hfail (requests w) ltac:(lia))) as [e He].
    destruct (ImgsFs.attempt E w url name) as [w1 r]; cbn [fst snd] in *. subst r.
    destruct (IH w1) as (w' & Hc & Hr).
    { intros n Hn. apply Hfail. lia. }
    exists w'. split; [exact Hc | lia].
Qed.

Lemma saveImage_requests (w : world) (url name : string) :
  (requests w <= requests (fst (ImgsFs.saveImage E cfg w url name))
   <= requests w + Z.to_nat (maxDownloadRetries cfg))%nat.
Proof.
  unfold ImgsFs.saveImage.
  destruct (check (JStr url) mustExists TString); [|cbn [fst]; lia].
  destruct (check (JStr name) mustExists TString); [|cbn [fst]; lia].
  pose proof (proj1 (cycle_requests url name (Z.to_nat (maxDownloadRetries cfg)) w)) as H.
  destruct (ImgsFs.cycle E _ w url name) as [w' [result|]]; exact H.
Qed.

Lemma saveImage_exhausted (w : world) (url name : string) :
  url <> EmptyString -> name <> EmptyString ->
  (forall n, (requests w <= n < requests w + Z.to_nat (maxDownloadRetries cfg))%nat ->
             delivers (download_ E n) = false) ->
  exists w',
    ImgsFs.saveImage E cfg w url name =
    (w', Throw (Error ("saveImage fails after "
                       +:+ string_of_Z (maxDownloadRetries cfg) +:+ " retries")))
    /\ requests w' = (requests w + Z.to_nat (maxDownloadRetries cfg))%nat.
Proof.
  intros Hu Hn Hfail. unfold ImgsFs.saveImage.
  rewrite (check_string_ok url Hu), (check_string_ok name Hn).
  destruct (cycle_exhausted url name _ w Hfail) as (w' & -> & Hr).
  exists w'. split; [reflexivity | exact Hr].
Qed.

Lemma entry_checks_url (e_value : entry) (a : Attachment) :
  Update.entry_checks e_value = OK tt -> attachment e_value = Some a ->
  download_url a <> EmptyString.
Proof.
  unfold Update.entry_checks. intros H Ha. rewrite Ha, check_opt_str_ok in H.
  cbn [bind] in H. intros Hu. rewrite Hu in H. discriminate H.
Qed.

(** The keep case of an entry, from the loop body down to the decision. *)
Lemma exec_entry_keep (rid : Z) (e_key : string) (e_value : entry)
    (a : Attachment) (st : state) :
  action e_value = Action.keep ->
  attachment e_value = Some a ->
  Update.entry_checks e_value = OK tt ->
  state_file_readable (disk st) rid e_key ->
  ~ In (Update.img_new_name rid e_value) (imageNamesToKeep st) ->
  images (disk st) !! Update.img_new_name rid e_value <> Some Dir ->
  exists cur st1 fresh,
    (st1 = st \/ exists w, st1 = push_warning st w)
    /\ (fresh = true -> valid_state_record (disk st) rid e_key cur)
    /\ (fresh = true <->
          up_to_date E (disk st) rid e_key (Update.img_new_name rid e_value) (id a))
    /\ Update.exec_entry E cfg uid assetName rid (e_key, e_value) st =
       try_catch
         (if fresh then Update.keep_up_to_date e_value cur
          else Update.keep_download E cfg uid assetName rid e_key e_value a
                 (Update.img_new_name rid e_value))
         (Update.on_error "saveImage" e_value)
         (claimed st1 (Update.img_new_name rid e_value)).
Proof.
  intros Hact Ha Hchecks Hread Hfree Hpath.
  set (name := Update.img_new_name rid e_value) in *.
  destruct (read_attachment_map_readable rid e_key st Hread)
    as (cur & has & st1 & Hr & Hst1 & Hvalid & Hinvalid).
  assert (Hsame : disk st1 = disk st /\ imageNamesToKeep st1 = imageNamesToKeep st).
  { destruct Hst1 as [->|[w ->]]; split; reflexivity. }
  destruct Hsame as [Hd Hk].
  destruct (keep_try_decides rid e_key e_value a cur has st1 Ha) as (fresh & Hfresh & Htry).
  { fold name. now rewrite Hk. }
  { fold name. now rewrite Hd. }
  { intros ->. exact (proj2 (Hvalid eq_refl)). }
  fold name in Hfresh, Htry. rewrite Hd in Hfresh.
  exists cur, st1, fresh. split; [exact Hst1|]. split; [|split].
  - intros Hf. apply Hfresh in Hf. destruct Hf as (data & _ & -> & _). now apply Hvalid.
  - rewrite Hfresh. unfold up_to_date. split.
    + intros (data & Hfile & -> & Hn & Hi & Hh).
      exists cur, data. repeat split; auto; apply (Hvalid eq_refl).
    + intros (v & data & Hfile & Hv & Hn & Hi & Hh).
      destruct has; [|exfalso; exact (Hinvalid eq_refl v Hv)].
      assert (cur = v).
      { destruct (Hvalid eq_refl) as [Hc _]. destruct Hv as [Hv _]. congruence. }
      subst v. exists data. repeat split; auto.
  - rewrite (exec_entry_reads rid e_key e_value st st1 cur has Hchecks Hr), Hact.
    unfold Update.keep_case, try_catch. rewrite Htry. reflexivity.
Qed.

(** The test of the keep case. For a keep entry that passes the loop's
    checks, whose state file is absent or holds a JSON object, whose name is
    not yet among the names kept and whose path holds a regular file or
    nothing: the executor enters the up-to-date case, which leaves the disk
    as it is, if and only if the local file exists, the state record is
    structurally valid, its image name is the record-id-prefixed name, its
    attachment id is the id of the entry's attachment and its hash is the
    digest of the file; in every other case, and so whenever the file does
    not exist, it enters the download case, which runs [saveImage] on the
    disk. How the two cases end is another matter: see
    [keep_up_to_date_throws] and [keep_download_throws]. *)
Lemma freshness_selects_the_case
    (rid : Z) (e_key : string) (e_value : entry) (a : Attachment) (st : state) :
  action e_value = Action.keep ->
  attachment e_value = Some a ->
  Update.entry_checks e_value = OK tt ->
  state_file_readable (disk st) rid e_key ->
  ~ In (Update.img_new_name rid e_value) (imageNamesToKeep st) ->
  images (disk st) !! Update.img_new_name rid e_value <> Some Dir ->
  (up_to_date E (disk st) rid e_key (Update.img_new_name rid e_value) (id a) ->
     exists v st1,
       valid_state_record (disk st) rid e_key v
       /\ Update.exec_entry E cfg uid assetName rid (e_key, e_value) st =
          try_catch (Update.keep_up_to_date e_value v)
            (Update.on_error "saveImage" e_value) st1
       /\ disk st1 = disk st
       /\ disk (fst (Update.exec_entry E cfg uid assetName rid (e_key, e_value) st))
          = disk st)
  /\ (~ up_to_date E (disk st) rid e_key (Update.img_new_name rid e_value) (id a) ->
        exists st1,
          Update.exec_entry E cfg uid assetName rid (e_key, e_value) st =
          try_catch
            (Update.keep_download E cfg uid assetName rid e_key e_value a
               (Update.img_new_name rid e_value))
            (Update.on_error "saveImage" e_value) st1
          /\ disk st1 = disk st
          /\ disk (fst (Update.exec_entry E cfg uid assetName rid (e_key, e_value) st))
             = fst (ImgsFs.saveImage E cfg (disk st) (download_url a)
                      (Update.img_new_name rid e_value))).
Proof.
  intros Hact Ha Hchecks Hread Hfree Hpath.
  destruct (exec_entry_keep rid e_key e_value a st Hact Ha Hchecks Hread Hfree Hpath)
    as (cur & st1 & fresh & Hst1 & Hvalid & Hfresh & Hexec).
  set (name := Update.img_new_name rid e_value) in *.
  assert (Hd : disk (claimed st1 name) = disk st).
  { destruct Hst1 as [->|[w ->]]; reflexivity. }
  split.
  - intros Hup. apply Hfresh in Hup. subst fresh.
    exists cur, (claimed st1 name). split; [now apply Hvalid|].
    split; [exact Hexec|]. split; [exact Hd|].
    rewrite Hexec. unfold try_catch.
    destruct (valid_record_fields cur (proj2 (Hvalid eq_refl))) as ((l & Hl) & _).
    destruct (keep_up_to_date_throws e_value cur l (claimed st1 name) Hl) as (e & ->).
    exact Hd.
  - intros Hup. destruct fresh; [exfalso; apply Hup, Hfresh; reflexivity|].
    exists (claimed st1 name). split; [exact Hexec|]. split; [exact Hd|].
    rewrite Hexec. unfold try_catch.
    destruct (keep_download_throws rid e_key e_value a name (claimed st1 name))
      as (e & Hthrow & _).
    rewrite Hd in Hthrow. rewrite Hthrow. reflexivity.
Qed.

(** C8. [saveImage] makes at most [maxDownloadRetries] turns of its
    download-and-write cycle. When none of these turns delivers (the
    download throws, or the stream breaks, or it closes with a number of
    bytes that differs from the content length), [saveImage] has made
    exactly [maxDownloadRetries] turns and throws "saveImage fails after ..
    retries". For a keep entry that has to be downloaded, the executor
    catches this error: the entry's result has status error with that
    message, the message is counted in the errors, no download is counted,
    and the loop goes on with the next entry. *)
Theorem download_failure_is_entry_error
    (rid : Z) (e_key : string) (e_value : entry) (a : Attachment) (st : state) :
  action e_value = Action.keep ->
  attachment e_value = Some a ->
  Update.entry_checks e_value = OK tt ->
  state_file_readable (disk st) rid e_key ->
  ~ In (Update.img_new_name rid e_value) (imageNamesToKeep st) ->
  images (disk st) !! Update.img_new_name rid e_value <> Some Dir ->
  ~ up_to_date E (disk st) rid e_key (Update.img_new_name rid e_value) (id a) ->
  (forall n,
     (requests (disk st) <= n < requests (disk st) + Z.to_nat (maxDownloadRetries cfg))%nat ->
     delivers (download_ E n) = false) ->
  let msg := "saveImage fails after " +:+ string_of_Z (maxDownloadRetries cfg)
             +:+ " retries" in
  (forall w url name,
     (requests (fst (ImgsFs.saveImage E cfg w url name))
      <= requests w + Z.to_nat (maxDownloadRetries cfg))%nat)
  /\ exists w',
       ImgsFs.saveImage E cfg (disk st) (download_url a) (Update.img_new_name rid e_value)
       = (w', Throw (Error msg))
       /\ requests w' = (requests (disk st) + Z.to_nat (maxDownloadRetries cfg))%nat
       /\ exists st' r,
            Update.exec_entry E cfg uid assetName rid (e_key, e_value) st = (st', OK r)
            /\ r_status_ok r = false /\ r_op r = "saveImage" /\ r_error r = Some msg
            /\ disk st' = w'
            /\ errors st' =
               (errors st ++ ["an error occurs while proccessing image - error: " +:+ msg])%list
            /\ downloads st' = downloads st
            /\ forall rest acc,
                 Update.exec_entries E cfg uid assetName rid ((e_key, e_value) :: rest) acc st =
                 Update.exec_entries E cfg uid assetName rid rest (set_prop e_key r acc) st'.
Proof.
  intros Hact Ha Hchecks Hread Hfree Hpath Hstale Hfail msg.
  split; [intros w url name; apply saveImage_requests|].
  set (name := Update.img_new_name rid e_value) in *.
  destruct (saveImage_exhausted (disk st) (download_url a) name
              (entry_checks_url e_value a Hchecks Ha)
              (img_new_name_not_empty rid e_value) Hfail) as (w' & Hsave & Hreq).
  exists w'. split; [exact Hsave|]. split; [exact Hreq|].
  destruct (exec_entry_keep rid e_key e_value a st Hact Ha Hchecks Hread Hfree Hpath)
    as (cur & st1 & fresh & Hst1 & _ & Hfresh & Hexec).
  fold name in Hfresh, Hexec.
  destruct fresh; [exfalso; apply Hstale, Hfresh; reflexivity|].
  assert (Hsame : disk (claimed st1 name) = disk st
                  /\ errors (claimed st1 name) = errors st
                  /\ downloads (claimed st1 name) = downloads st).
  { destruct Hst1 as [->|[w ->]]; repeat split. }
  destruct Hsame as (Hd & He & Hdl).
  destruct (keep_download_throws rid e_key e_value a name (claimed st1 name))
    as (e & Hthrow & Hsame).
  rewrite Hd, Hsave in Hthrow, Hsame. cbn [fst snd] in Hthrow, Hsame.
  specialize (Hsame _ eq_refl). subst e.
  unfold try_catch in Hexec. rewrite Hthrow in Hexec.
  unfold Update.on_error in Hexec. mred in Hexec. cbn [message] in Hexec.
  eexists _, _. split; [exact Hexec|].
  split; [reflexivity|]. split; [reflexivity|]. split; [reflexivity|].
  split; [reflexivity|]. split; [rewrite <- He; reflexivity|]. split; [exact Hdl|].
  intros rest acc. exact (exec_entries_continue rid _ rest acc st _ _ Hexec).
Qed.

End ExecutorProofs.

(** *** The theorems on the examples *)

(** C8 on the picture of the scenario with a media server that never
    answers: the thirty turns of the budget are spent, and the entry is an
    error. *)
Lemma download_failure_is_entry_error_witness :
  exists st' r,
    Update.exec_entry offline_env (example_configs false) "aeUTa3g2VzbPP5SGoTx8Rp"
      "survey" 1721 ("photo_a", entry_keep) (Executor.init empty_world) = (st', OK r)
    /\ r_status_ok r = false
    /\ r_error r = Some "saveImage fails after 30 retries"
    /\ requests (disk st') = 30%nat.
Proof.
  destruct (download_failure_is_entry_error offline_env (example_configs false)
              "aeUTa3g2VzbPP5SGoTx8Rp" "survey" 1721 "photo_a" entry_keep att_2395
              (Executor.init empty_world))
    as (_ & w' & _ & Hreq & st' & r & H1 & H2 & _ & H3 & H4 & _).
  - reflexivity.
  - reflexivity.
  - reflexivity.
  - vm_compute. exact I.
  - simpl. intros H. exact H.
  - vm_compute. discriminate.
  - intros (v & data & Hfile & _). vm_compute in Hfile. discriminate Hfile.
  - intros n _. reflexivity.
  - exists st', r. split; [exact H1|]. split; [exact H2|]. split; [exact H3|].
    rewrite H4. exact Hreq.
Defined.

(** A stream that closes early does not deliver: the turn throws
    "incomplete download" and the cycle takes its next turn. *)
Example incomplete_download_is_retried :
  let short := {| sha256 := sha256 example_env;
                  Canvas_Image := Canvas_Image example_env;
                  getCurrentTimestamp := getCurrentTimestamp example_env;
                  sizeMB_label := sizeMB_label example_env;
                  download_ := fun n =>
                    match n with
                    | O => OK [{| readStream := Closes "JFIF";
                                  contentLength := JNum 10;
                                  contentType := JStr "image/jpeg" |}]
                    | _ => example_download
                    end |} in
  delivers (download_ short 0) = false
  /\ snd (ImgsFs.attempt short empty_world "https://kc.example/media/2395" "1721_photo.jpg")
     = Throw (Error "incomplete download")
  /\ exists w result,
       ImgsFs.saveImage short (example_configs false) empty_world
         "https://kc.example/media/2395" "1721_photo.jpg" = (w, OK result)
       /\ requests w = 2%nat
       /\ images w !! "1721_photo.jpg" = Some (File "JFIF-photo").
Proof.
  cbv zeta. split; [reflexivity|]. split; [vm_compute; reflexivity|].
  eexists _, _. split; [vm_compute; reflexivity|]. split; reflexivity.
Qed.

(** C3 (the code departs from the claim). The picture [old.jpg] of record
    1721 has changed its field: [photo_b], which had it, is now to be
    deleted, and [photo_c] keeps it. The state record of [photo_b] is valid,
    the file it names exists (the sweeper leaves it, since its name is a name
    to keep) and the digest of the file is the hash of the record: the file
    should be removed, or moved to the quarantine, by the [deleteImages]
    toggle. The executor reads the hash from the property [hash] of the
    record, which the record does not have (its hash is in [imgInfo]), so
    [isValidFileHash] throws on [undefined]. With either setting of the
    toggle the entry of [photo_b] is an error, nothing is counted as deleted
    and nothing is in the quarantine. *)
Theorem delete_with_valid_record_is_refused :
  valid_state_record world_old 1721 "photo_b" record_old
  /\ get record_old "imageName" = JStr "1721_old.jpg"
  /\ images world_old !! "1721_old.jpg" = Some (File "JFIF-old")
  /\ get (get record_old "imgInfo") "hash"
     = JArr (List.map JNum (sha256 old_env "JFIF-old"))
  /\ get record_old "hash" = JUndefined
  /\ forall del : bool,
       exists imc st,
         Update.update_asset old_env (example_configs del) "aeUTa3g2VzbPP5SGoTx8Rp"
           "survey" ImageCleaner.new map_moved world_old
         = OK (imc,
               (st,
                OK [(1721,
                     [("photo_b",
                       {| r_entry := entry_delete; r_status_ok := false;
                          r_op := "deleteImage"; r_action_detail := None;
                          r_error := Some "expected array in @arg: undefined" |});
                      ("photo_c",
                       {| r_entry := entry_keep_old; r_status_ok := false;
                          r_op := "saveImage"; r_action_detail := None;
                          r_error := Some "expected string in @arg: 8,42" |})])]))
         /\ ImageCleaner.cleaned imc = []
         /\ deletes st = 0
         /\ imagesDeleted (disk st) = ∅
         /\ cleanedDir (disk st) = ∅
         /\ images (disk st) !! "1721_old.jpg" = Some (File "JFIF-old").
Proof.
  split; [split; reflexivity|]. split; [reflexivity|]. split; [reflexivity|].
  split; [reflexivity|]. split; [reflexivity|].
  intros []; eexists _, _; (split; [vm_compute; reflexivity|]);
    (split; [reflexivity|]); (split; [reflexivity|]); (split; [reflexivity|]);
    split; reflexivity.
Qed.

(** *** No run writes a state record *)

Section NoStateRecord.

Context (E : env) (cfg : configs) (uid assetName : string).

Lemma attempt_attachmentsMap (w : world) (url name : string) :
  attachmentsMap (fst (ImgsFs.attempt E w url name)) = attachmentsMap w.
Proof.
  unfold ImgsFs.attempt.
  destruct (download_ E (requests w)) as [[|d ds]|e]; try reflexivity.
  destruct (check (contentLength d) ifExists TNumber); [|reflexivity].
  destruct (check (contentType d) ifExists TString); [|reflexivity].
  destruct (contentLength d); try reflexivity.
  destruct (n =? 0); [reflexivity|].
  destruct (ImgsFs.writeStream (images w) name (readStream d) n) as [d' [[|r rs]|e]];
    try reflexivity.
  destruct (negb (w_bytesRead r =? w_contentLength r)); reflexivity.
Qed.

Lemma cycle_attachmentsMap (url name : string) (fuel : nat) :
  forall w, attachmentsMap (fst (ImgsFs.cycle E fuel w url name)) = attachmentsMap w.
Proof.
  induction fuel as [|fuel IH]; intros w; cbn [ImgsFs.cycle]; [reflexivity|].
  pose proof (attempt_attachmentsMap w url name) as Ha.
  destruct (ImgsFs.attempt E w url name) as [w' [result|e]]; cbn [fst] in *.
  - exact Ha.
  - now rewrite IH.
Qed.

Lemma saveImage_attachmentsMap (w : world) (url name : string) :
  attachmentsMap (fst (ImgsFs.saveImage E cfg w url name)) = attachmentsMap w.
Proof.
  unfold ImgsFs.saveImage.
  destruct (check (JStr url) mustExists TString); [|reflexivity].
  destruct (check (JStr name) mustExists TString); [|reflexivity].
  pose proof (cycle_attachmentsMap url name (Z.to_nat (maxDownloadRetries cfg)) w) as H.
  destruct (ImgsFs.cycle E _ w url name) as [w' [result|]]; exact H.
Qed.

(** Every keep entry ends as an error: a duplicate, a path that is taken, a
    download that fails, or else the check of the digest's type after the
    download, or the CSV cell of the digest in the up-to-date case. No keep
    entry is counted as downloaded or up to date, and none writes a state
    record. *)
Lemma keep_case_never_ok (rid : Z) (e_key : string) (e_value : entry)
    (cur : jsval) (has : bool) (st : state) :
  (has = true -> StateRecord.isValidAttachmentMap cur = OK true) ->
  exists st' r,
    Update.keep_case E cfg uid assetName rid e_key e_value cur has st = (st', OK r)
    /\ r_status_ok r = false
    /\ attachmentsMap (disk st') = attachmentsMap (disk st)
    /\ upToDate st' = upToDate st
    /\ downloads st' = downloads st.
Proof.
  intros Hvalid.
  set (name := Update.img_new_name rid e_value).
  destruct (attachment e_value) as [a|] eqn:Ha.
  2:{ unfold Update.keep_case, Update.keep_try, Update.on_error. rewrite Ha. mred.
      eexists _, _. repeat split. }
  destruct (ImageCleaner.inb name (imageNamesToKeep st)) eqn:Hdup.
  { apply inb_In in Hdup.
    rewrite (keep_case_duplicate E cfg uid assetName rid e_key e_value a cur has st Ha Hdup).
    eexists _, _. repeat split. }
  apply inb_not_In in Hdup.
  destruct (images (disk st) !! name) as [[data|]|] eqn:Hfile.
  2:{ apply inb_not_In in Hdup.
      unfold Update.keep_case, Update.keep_try, Update.claim_keep, Update.image_exists,
        Update.on_error.
      rewrite Ha. fold name. mred. rewrite Hdup.
      unfold FS.fileExists, FS.pathExists. cbn [disk set_names]. rewrite Hfile.
      cbn [negb andb]. eexists _, _. repeat split. }
  all: destruct (keep_try_decides E cfg uid assetName rid e_key e_value a cur has st Ha Hdup)
         as (fresh & Hfresh & Htry);
       [fold name; rewrite Hfile; discriminate | exact Hvalid |];
       fold name in Hfresh, Htry;
       unfold Update.keep_case, try_catch; rewrite Htry;
       destruct fresh.
  - assert (Hhas : has = true).
    { destruct (proj1 Hfresh eq_refl) as (d & _ & H & _). exact H. }
    destruct (valid_record_fields cur (Hvalid Hhas)) as ((l & Hl) & _).
    destruct (keep_up_to_date_throws e_value cur l (claimed st name) Hl) as (e & ->).
    unfold Update.on_error. mred. eexists _, _. repeat split.
  - destruct (keep_download_throws E cfg uid assetName rid e_key e_value a name
                (claimed st name)) as (e & -> & _).
    unfold Update.on_error. mred. eexists _, _. split; [reflexivity|].
    split; [reflexivity|]. split; [|split; reflexivity].
    apply saveImage_attachmentsMap.
  - destruct (proj1 Hfresh eq_refl) as (d & Hd & _). rewrite Hfile in Hd. discriminate Hd.
  - destruct (keep_download_throws E cfg uid assetName rid e_key e_value a name
                (claimed st name)) as (e & -> & _).
    unfold Update.on_error. mred. eexists _, _. split; [reflexivity|].
    split; [reflexivity|]. split; [|split; reflexivity].
    apply saveImage_attachmentsMap.
Qed.

Lemma delete_case_attachmentsMap (e_value : entry) (cur : jsval) (has : bool)
    (st : state) :
  attachmentsMap (disk (fst (Update.delete_case E cfg uid assetName e_value cur has st)))
  = attachmentsMap (disk st).
Proof.
  unfold Update.delete_case, Update.delete_try, Update.claim_delete, Update.on_error.
  destruct has; mred; [|reflexivity].
  destruct (ImageCleaner.inb _ (imageNamesToKeep st)); [reflexivity|].
  destruct (ImageCleaner.inb _ (imageNamesToDelete st)); [reflexivity|].
  cbn [disk set_names].
  destruct (FS.fileExists (images (disk st)) _); [|reflexivity].
  destruct (Hash.isValidFileHash _ _ _ _) as [[|]|e]; cbn [negb]; try reflexivity.
  destruct (deleteImages cfg); [reflexivity|].
  cbn [disk set_names].
  destruct (FS.mvFile _ _ _ _) as [[d d']|e]; reflexivity.
Qed.

(** Reading a state file leaves the disk as it is, and says "has a valid
    record" only of a record that is valid. *)
Lemma read_attachment_map_disk (rid : Z) (e_key : string) (st : state) :
  disk (fst (Update.read_attachment_map cfg uid rid e_key st)) = disk st
  /\ forall cur, snd (Update.read_attachment_map cfg uid rid e_key st) = OK (cur, true) ->
       StateRecord.isValidAttachmentMap cur = OK true.
Proof.
  unfold Update.read_attachment_map. mred.
  destruct (attachmentsMap (disk st) !! (rid, e_key)) as [f|]; cbn [fst snd].
  2:{ split; [reflexivity | discriminate]. }
  destruct (StateRecord.parseJSONFile f) as [v|e]; cbn [fst snd].
  2:{ split; [reflexivity | discriminate]. }
  destruct (StateRecord.isValidAttachmentMap v) as [[|]|e] eqn:Hv; cbn [negb fst snd].
  - split; [reflexivity|]. intros cur [= <-]. exact Hv.
  - split; [reflexivity | discriminate].
  - split; [reflexivity | discriminate].
Qed.

Lemma exec_entry_attachmentsMap (rid : Z) (kv : string * entry) (st : state) :
  attachmentsMap (disk (fst (Update.exec_entry E cfg uid assetName rid kv st)))
  = attachmentsMap (disk st).
Proof.
  destruct kv as [e_key e_value]. unfold Update.exec_entry. cbn [fst snd].
  unfold bindM at 1. unfold lift.
  destruct (Update.entry_checks e_value); [|reflexivity].
  unfold bindM.
  destruct (read_attachment_map_disk rid e_key st) as [Hd Hv].
  destruct (Update.read_attachment_map cfg uid rid e_key st) as [st1 [[cur has]|e]];
    cbn [fst snd] in *; [|now rewrite Hd].
  rewrite <- Hd. destruct (action e_value).
  - destruct (keep_case_never_ok rid e_key e_value cur has st1) as (st' & r & -> & _ & H & _).
    { intros ->. now apply Hv. }
    exact H.
  - apply delete_case_attachmentsMap.
  - reflexivity.
Qed.

Lemma exec_entries_attachmentsMap (rid : Z) (entries : list (string * entry)) :
  forall acc st,
    attachmentsMap (disk (fst (Update.exec_entries E cfg uid assetName rid entries acc st)))
    = attachmentsMap (disk st).
Proof.
  induction entries as [|kv entries IH]; intros acc st; cbn [Update.exec_entries].
  - reflexivity.
  - unfold bindM at 1.
    pose proof (exec_entry_attachmentsMap rid kv st) as H.
    destruct (Update.exec_entry E cfg uid assetName rid kv st) as [st1 [r|e]];
      cbn [fst] in *.
    + now rewrite IH.
    + exact H.
Qed.

Lemma exec_map_attachmentsMap (m : list emap) :
  forall acc st,
    attachmentsMap (disk (fst (Update.exec_map E cfg uid assetName m acc st)))
    = attachmentsMap (disk st).
Proof.
  induction m as [|em m IH]; intros acc st; cbn [Update.exec_map].
  - reflexivity.
  - unfold bindM at 1. unfold lift. rewrite check_number_ok.
    unfold bindM at 1.
    pose proof (exec_entries_attachmentsMap (emap_id em) (emap_entries em) [] st) as H.
    destruct (Update.exec_entries _ _ _ _ _ _ _ _) as [st1 [r|e]]; cbn [fst] in *.
    + now rewrite IH.
    + exact H.
Qed.

(** The state store after the update of an asset is the state store before
    it: a picture that is downloaded in one run has no state record in the
    next. *)
Lemma update_asset_attachmentsMap (imc imc' : ImageCleaner.t) (m : list emap)
    (w : world) (st' : state) (out : res (list (Z * list (string * result_entry)))) :
  Update.update_asset E cfg uid assetName imc m w = OK (imc', (st', out)) ->
  attachmentsMap (disk st') = attachmentsMap w.
Proof.
  unfold Update.update_asset.
  destruct (Update.make_data_dir (images w)) as [d|]; [|discriminate].
  cbn [bind].
  destruct (ImageCleaner.set_map imc (Some m)) as [imc1|]; [|discriminate].
  cbn [bind].
  destruct (ImageCleaner.set_paths imc1) as [imc2|]; [|discriminate].
  cbn [bind].
  destruct (ImageCleaner.set_deleteImages imc2 (deleteImages cfg)) as [imc3|];
    [|discriminate].
  cbn [bind].
  destruct (ImageCleaner.run imc3 _) as [swept|]; [|discriminate].
  cbn [bind]. intros H. apply OK_inj in H. injection H as _ Hm.
  match type of Hm with
  | Update.exec_map _ _ _ _ _ _ ?s = _ =>
      pose proof (exec_map_attachmentsMap m [] s) as Hmap
  end.
  rewrite Hm in Hmap. exact Hmap.
Qed.

End NoStateRecord.

(** *** Deleting with a state record *)

(** Whatever the file holds, a delete entry whose valid state record has its
    hash where the executor writes it, in [imgInfo] and not in a property
    [hash] of the record, ends as an error when the file exists: the file is
    neither removed nor moved. *)
Lemma delete_case_missing_hash (E : env) (cfg : configs) (uid assetName : string)
    (e_value : entry) (cur : jsval) (name data : string) (st : state) :
  get cur "imageName" = JStr name ->
  name <> EmptyString ->
  get cur "hash" = JUndefined ->
  ~ In name (imageNamesToKeep st) ->
  ~ In name (imageNamesToDelete st) ->
  images (disk st) !! name = Some (File data) ->
  exists st',
    Update.delete_case E cfg uid assetName e_value cur true st =
    (st', OK {| r_entry := e_value; r_status_ok := false; r_op := "deleteImage";
                r_action_detail := None;
                r_error := Some "expected array in @arg: undefined" |})
    /\ disk st' = disk st /\ deletes st' = deletes st.
Proof.
  intros Hname Hne Hhash Hk Hd Hfile.
  apply inb_not_In in Hk. apply inb_not_In in Hd.
  unfold Update.delete_case, Update.delete_try, Update.claim_delete, Update.on_error.
  rewrite Hname, Hhash. cbn [show]. mred. rewrite Hk, Hd.
  cbn [disk set_names]. unfold FS.fileExists. rewrite Hfile.
  unfold Hash.isValidFileHash. rewrite (check_string_ok name Hne).
  cbn [bind check truthy isOfType negb orb].
  eexists. split; [reflexivity|]. split; reflexivity.
Qed.

(** Had the record its hash in a property [hash] of its own, the delete case
    would compare it with the digest of the file and then remove the file, or
    move it to the quarantine, by the [deleteImages] toggle. *)
Example delete_with_top_level_hash :
  (exists st' r,
     Update.exec_entry example_env (example_configs true) "aeUTa3g2VzbPP5SGoTx8Rp"
       "survey" 1721 ("photo_b", entry_delete) (Executor.init world_old_top_hash)
     = (st', OK r)
     /\ r_status_ok r = true /\ r_action_detail r = Some "image deleted"
     /\ images (disk st') !! "1721_old.jpg" = None
     /\ imagesDeleted (disk st') !! "1721_old.jpg" = None
     /\ deletes st' = 1)
  /\ (exists st' r,
        Update.exec_entry example_env (example_configs false) "aeUTa3g2VzbPP5SGoTx8Rp"
          "survey" 1721 ("photo_b", entry_delete) (Executor.init world_old_top_hash)
        = (st', OK r)
        /\ r_status_ok r = true
        /\ r_action_detail r = Some "image moved to 'images_deleted' dir"
        /\ images (disk st') !! "1721_old.jpg" = None
        /\ imagesDeleted (disk st') !! "1721_old.jpg" = Some (File "JFIF-old")
        /\ deletes st' = 1).
Proof.
  split; eexists _, _; (split; [vm_compute; reflexivity|]);
    (split; [reflexivity|]); (split; [reflexivity|]); (split; [reflexivity|]);
    split; reflexivity.
Qed.

(** *** Two runs of the scenario *)

(** C7 (the code departs from the claim). The first run of the scenario
    downloads the picture of [photo_a] and then ends the entry as an error,
    at the check that wants the digest to be a string: the picture is on the
    disk, no state record is written, nothing is counted as downloaded. The
    second run, on the disk the first run left and with the same remote data,
    finds the picture without a state record, downloads it again (a second
    request is made) and ends the entry as an error again; nothing is up to
    date. *)
Theorem second_run_downloads_again :
  exists imc1 st1 out1 imc2 st2 out2,
    Update.update_asset example_env (example_configs false) "aeUTa3g2VzbPP5SGoTx8Rp"
      "survey" ImageCleaner.new scenario_emap empty_world = OK (imc1, (st1, OK out1))
    /\ images (disk st1) !! "1721_photo.jpg" = Some (File "JFIF-photo")
    /\ attachmentsMap (disk st1) = ∅
    /\ requests (disk st1) = 1%nat
    /\ downloads st1 = 0
    /\ Update.update_asset example_env (example_configs false) "aeUTa3g2VzbPP5SGoTx8Rp"
         "survey" ImageCleaner.new scenario_emap (disk st1) = OK (imc2, (st2, OK out2))
    /\ requests (disk st2) = 2%nat
    /\ downloads st2 = 0 /\ upToDate st2 = 0
    /\ errors st2 =
       ["an error occurs while proccessing image - error: expected string in @arg: 10,42"]
    /\ out2 =
       [(1721,
         [("photo_a",
           {| r_entry := entry_keep; r_status_ok := false; r_op := "saveImage";
              r_action_detail := None;
              r_error := Some "expected string in @arg: 10,42" |});
          ("photo_b",
           {| r_entry := entry_delete; r_status_ok := true; r_op := "deleteImage";
              r_action_detail :=
                Some "image cannot be deleted in this phase: has no attachment info";
              r_error := None |})])].
Proof.
  eexists _, _, _, _, _, _.
  split; [vm_compute; reflexivity|].
  split; [reflexivity|]. split; [reflexivity|]. split; [reflexivity|].
  split; [reflexivity|].
  split; [vm_compute; reflexivity|].
  split; [reflexivity|]. split; [reflexivity|]. split; [reflexivity|].
  split; reflexivity.
Qed.

(** C2 (the code departs from the claim). The picture of [photo_a] is on
    the disk with a valid state record that has its name, the id of the
    attachment of the action map and the digest of the file: the four
    conditions of freshness hold. The run over the asset does not report the
    picture up to date: the up-to-date case is entered and fails on the CSV
    cell of the digest, which [getCsvString] wants as a string, so the entry
    is an error, nothing is counted as up to date and no row is written;
    nothing is downloaded either. And a state file that is not JSON is not
    taken as an absent record: reading it throws outside every [try], so the
    loop over the action map ends on the first entry, before anything is
    downloaded or reported. *)
Theorem fresh_picture_is_not_up_to_date :
  up_to_date example_env world_kept 1721 "photo_a" "1721_photo.jpg" 2395
  /\ (exists imc st,
        Update.update_asset example_env (example_configs false)
          "aeUTa3g2VzbPP5SGoTx8Rp" "survey" ImageCleaner.new scenario_emap world_kept
        = OK (imc,
              (st,
               OK [(1721,
                    [("photo_a",
                      {| r_entry := entry_keep; r_status_ok := false;
                         r_op := "saveImage"; r_action_detail := None;
                         r_error := Some "expected string in @arg: 10,42" |});
                     ("photo_b",
                      {| r_entry := entry_delete; r_status_ok := true;
                         r_op := "deleteImage";
                         r_action_detail :=
                           Some "image cannot be deleted in this phase: has no attachment info";
                         r_error := None |})])]))
        /\ upToDate st = 0 /\ downloads st = 0
        /\ requests (disk st) = 0%nat
        /\ images (disk st) = images world_kept
        /\ images_info (disk st) = [Update.images_info_header])
  /\ FS.fileExists (images world_garbled) "1721_photo.jpg" = true
  /\ attachmentsMap world_garbled !! (1721, "photo_a") = Some (NotJson "{")
  /\ exists imc st e,
       Update.update_asset example_env (example_configs false)
         "aeUTa3g2VzbPP5SGoTx8Rp" "survey" ImageCleaner.new scenario_emap world_garbled
       = OK (imc, (st, Throw e))
       /\ requests (disk st) = 0%nat
       /\ action_count st = 0
       /\ errors st = [].
Proof.
  split.
  { exists record_2395, "JFIF-photo".
    split; [reflexivity|]. split; [split; reflexivity|].
    split; [reflexivity|]. split; reflexivity. }
  split.
  { eexists _, _. split; [vm_compute; reflexivity|].
    split; [reflexivity|]. split; [reflexivity|]. split; [reflexivity|].
    split; reflexivity. }
  split; [reflexivity|]. split; [reflexivity|].
  eexists _, _, _. split; [vm_compute; reflexivity|].
  split; [reflexivity|]. split; reflexivity.
Qed.

(** * Further properties of the code *)

(** ** modules/checks.js *)

(** X1. The five conditions of [check] form a chain: an argument that passes
    a condition passes every weaker one, in the order mustExists, defined,
    type, ifDefined, ifExists. *)
Theorem check_conditions_chain (arg : jsval) (t : jstype) (c c' : condition) :
  (strength c' <= strength c)%nat ->
  check arg c t = OK tt -> check arg c' t = OK tt.
Proof.
  intros Hs H.
  assert (Hu : truthy arg = true -> is_undefined arg = false)
    by (destruct arg; simpl; congruence).
  destruct c, c'; cbn [strength] in Hs; try lia; try exact H;
    unfold check in *;
    destruct (truthy arg) eqn:Ht, (isOfType arg t) eqn:Hi,
             (is_undefined arg) eqn:Hd;
    cbn [negb andb orb] in *; try reflexivity; try discriminate;
    try (specialize (Hu eq_refl); discriminate);
    destruct arg; discriminate.
Qed.

Lemma check_conditions_chain_witness :
  check (JNum 5) mustExists TNumber = OK tt
  /\ check (JNum 5) ifDefined TNumber = OK tt.
Proof.
  split; [reflexivity|].
  apply (check_conditions_chain (JNum 5) TNumber mustExists ifDefined);
    [cbn [strength]; lia | reflexivity].
Defined.

(** ** modules/utils.js: [escapeRegExp] and [toJqSelectBody] *)

Lemma special_backslash : RegExp.special "\"%char = true.
Proof. reflexivity. Qed.

Lemma not_special_not_backslash (c : ascii) :
  RegExp.special c = false -> Ascii.eqb c "\"%char = false.
Proof.
  intros H. destruct (Ascii.eqb_spec c "\"%char) as [->|]; [|reflexivity].
  rewrite special_backslash in H. discriminate.
Qed.

Lemma replace_special_literal (s : string) :
  literals_only (RegExp.replace_special s) = true
  /\ literal_text (RegExp.replace_special s) = s.
Proof.
  induction s as [|c s [IH1 IH2]]; [split; reflexivity|].
  cbn [RegExp.replace_special].
  destruct (RegExp.special c) eqn:Hc.
  - cbn [literals_only literal_text]. rewrite Ascii.eqb_refl.
    split; [exact IH1 | now rewrite IH2].
  - cbn [literals_only literal_text].
    rewrite (not_special_not_backslash c Hc), Hc. cbn [negb andb].
    split; [exact IH1 | now rewrite IH2].
Qed.

(** X2. [escapeRegExp] of a non-empty string gives a pattern of literals
    only, and the text this pattern matches is the string itself. *)
Theorem escapeRegExp_string_is_literal_pattern (s : string) :
  s <> EmptyString ->
  exists p, RegExp.escapeRegExp (JStr s) = OK (JStr p)
            /\ literals_only p = true /\ literal_text p = s.
Proof.
  intros Hs. exists (RegExp.replace_special s).
  split; [|apply replace_special_literal].
  unfold RegExp.escapeRegExp. destruct s; [congruence | reflexivity].
Qed.

Lemma escapeRegExp_string_is_literal_pattern_witness :
  exists p, RegExp.escapeRegExp (JStr "formhub/uuid.v1") = OK (JStr p)
            /\ literals_only p = true /\ literal_text p = "formhub/uuid.v1".
Proof.
  apply (escapeRegExp_string_is_literal_pattern "formhub/uuid.v1"). discriminate.
Defined.

Lemma escapeRegExp_loop_spec (l : list jsval) :
  forall strings r,
    RegExp.escapeRegExp_loop l strings = OK r <->
    exists ss, l = List.map JStr ss
               /\ Forall (fun s => s <> EmptyString) ss
               /\ r = (strings ++ List.map RegExp.replace_special ss)%list.
Proof.
  induction l as [|v l IH]; intros strings r; cbn [RegExp.escapeRegExp_loop].
  - split.
    + intros [= <-]. exists []. repeat split; [constructor | now rewrite app_nil_r].
    + intros (ss & Hl & _ & ->). destruct ss; [|discriminate].
      now rewrite app_nil_r.
  - destruct v as [| |b|n|s|a|o]; cbn [isOfType negb]; rewrite ?orb_true_r;
      try (split; [discriminate | intros ([|? ?] & Hl & _); discriminate]).
    cbn [truthy orb]. rewrite orb_false_r.
    destruct (String.eqb_spec s EmptyString) as [->|Hs]; cbn [negb].
    + split; [discriminate|].
      intros ([|s' ss] & Hl & Hall & _); [discriminate|].
      injection Hl as <- _. inversion Hall; congruence.
    + rewrite IH. split.
      * intros (ss & -> & Hall & ->). exists (s :: ss).
        split; [reflexivity|]. split; [now constructor|].
        cbn [List.map]. now rewrite <- app_assoc.
      * intros ([|s' ss] & Hl & Hall & ->); [discriminate|].
        injection Hl as <- ->. exists ss. split; [reflexivity|].
        split; [now inversion Hall|]. cbn [List.map]. now rewrite <- app_assoc.
Qed.

(** X3. [escapeRegExp] of an array succeeds exactly when the array is not
    empty and all its elements are non-empty strings; the result then has the
    escaped strings, one for one and in order. Any other array makes it
    throw. *)
Theorem escapeRegExp_array (l : list jsval) (r : jsval) :
  RegExp.escapeRegExp (JArr l) = OK r <->
  l <> []
  /\ exists ss, l = List.map JStr ss
                /\ Forall (fun s => s <> EmptyString) ss
                /\ r = JArr (List.map (fun s => JStr (RegExp.replace_special s)) ss).
Proof.
  unfold RegExp.escapeRegExp. cbn [truthy isOfType negb orb andb].
  destruct l as [|v l].
  - split; [discriminate | intros [H _]; congruence].
  - destruct (RegExp.escapeRegExp_loop (v :: l) []) as [strings|e] eqn:Hloop; cbn [bind].
    + apply escapeRegExp_loop_spec in Hloop. destruct Hloop as (ss & Hl & Hall & ->).
      cbn [app]. rewrite List.map_map. split.
      * intros [= <-]. split; [discriminate|]. exists ss. auto.
      * intros (_ & ss' & Hl' & _ & ->). rewrite Hl in Hl'.
        assert (ss = ss') as <-; [|reflexivity].
        clear -Hl'. revert ss' Hl'.
        induction ss as [|s ss IH]; intros [|s' ss'] H; try discriminate; [reflexivity|].
        injection H as -> H. f_equal. now apply IH.
    + split; [discriminate|]. intros (_ & ss & Hl & Hall & _). exfalso.
      assert (H : RegExp.escapeRegExp_loop (v :: l) [] =
                  OK ([] ++ List.map RegExp.replace_special ss)%list).
      { apply escapeRegExp_loop_spec. exists ss. auto. }
      congruence.
Qed.

Lemma toJqSelectBody_loop_map (key compOp : string) (values : list jsval) :
  forall stms,
    Jq.toJqSelectBody_loop key compOp values stms
    = (stms ++ List.map (Jq.stm key compOp) values)%list.
Proof.
  induction values as [|v values IH]; intros stms; cbn [Jq.toJqSelectBody_loop List.map].
  - now rewrite app_nil_r.
  - rewrite IH, <- app_assoc. reflexivity.
Qed.

(** X4. With a non-empty key and non-empty operators, [toJqSelectBody]
    throws "expected non empty array" on an empty array of values, and on any
    other array gives one statement per value, in order, joined by the
    logical operator as it is given (no blank is added around it). *)
Theorem toJqSelectBody_one_stm_per_value (key compOp logiOp : string)
    (values : list jsval) :
  key <> EmptyString -> compOp <> EmptyString -> logiOp <> EmptyString ->
  Jq.toJqSelectBody (JStr key) (JArr values) (JStr compOp) (JStr logiOp) =
  match values with
  | [] => Throw (Error "expected non empty array on @arg")
  | _ => OK (String.concat logiOp (List.map (Jq.stm key compOp) values))
  end.
Proof.
  intros Hk Hc Hl. unfold Jq.toJqSelectBody.
  rewrite !check_string_ok by assumption. cbn [check truthy isOfType negb orb bind].
  destruct values as [|v values]; [reflexivity|].
  cbn [length Nat.eqb]. now rewrite toJqSelectBody_loop_map.
Qed.

Lemma toJqSelectBody_one_stm_per_value_witness :
  Jq.toJqSelectBody (JStr "_id") (JArr [JNum 4931; JStr "1723"]) (JStr "==") (JStr "or")
  = OK ("._id==4931or._id==" +:+ String "034"%char "1723"
        +:+ String "034"%char EmptyString).
Proof.
  rewrite (toJqSelectBody_one_stm_per_value "_id" "==" "or" [JNum 4931; JStr "1723"]);
    [reflexivity | discriminate | discriminate | discriminate].
Defined.

(** ** modules/utils.js: [getCsvString] *)

Lemma escape_quotes_head (s : string) (r : string) :
  Csv.escape_quotes s <> String "034"%char r.
Proof.
  destruct s as [|c s]; cbn [Csv.escape_quotes]; [discriminate|].
  destruct (Ascii.eqb_spec c "034"%char) as [->|Hc]; [discriminate|].
  intros [= H _]. contradiction.
Qed.

Lemma escape_quotes_inj (s1 : string) :
  forall s2, Csv.escape_quotes s1 = Csv.escape_quotes s2 -> s1 = s2.
Proof.
  induction s1 as [|c1 s1 IH]; intros [|c2 s2]; cbn [Csv.escape_quotes].
  - reflexivity.
  - destruct (Ascii.eqb c2 "034"%char); discriminate.
  - destruct (Ascii.eqb c1 "034"%char); discriminate.
  - destruct (Ascii.eqb_spec c1 "034"%char) as [->|H1],
             (Ascii.eqb_spec c2 "034"%char) as [->|H2].
    + intros [= H]. f_equal. now apply IH.
    + intros [= <- H]. symmetry in H. now apply escape_quotes_head in H.
    + intros [= -> H]. now apply escape_quotes_head in H.
    + intros [= -> H]. f_equal. now apply IH.
Qed.

Lemma contains_char_escape_quotes (s : string) :
  Csv.contains_char ","%char (Csv.escape_quotes s) = Csv.contains_char ","%char s.
Proof.
  induction s as [|c s IH]; [reflexivity|]. cbn [Csv.escape_quotes].
  destruct (Ascii.eqb_spec c "034"%char) as [->|Hc]; cbn [Csv.contains_char].
  - rewrite IH. reflexivity.
  - now rewrite IH.
Qed.

Lemma contains_char_app (c : ascii) (s t : string) :
  Csv.contains_char c (s +:+ t) = Csv.contains_char c s || Csv.contains_char c t.
Proof.
  induction s as [|a s IH]; [reflexivity|].
  change (String a s +:+ t) with (String a (s +:+ t)). cbn [Csv.contains_char].
  now rewrite IH, orb_assoc.
Qed.

Lemma app_last_inj (s1 : string) (c : ascii) :
  forall s2, s1 +:+ String c EmptyString = s2 +:+ String c EmptyString -> s1 = s2.
Proof.
  induction s1 as [|a s1 IH]; intros [|b s2] H.
  - reflexivity.
  - change (String c EmptyString = String b (s2 +:+ String c EmptyString)) in H.
    injection H as _ H. destruct s2; discriminate.
  - change (String a (s1 +:+ String c EmptyString) = String c EmptyString) in H.
    injection H as _ H. destruct s1; discriminate.
  - change (String a (s1 +:+ String c EmptyString)
            = String b (s2 +:+ String c EmptyString)) in H.
    injection H as -> H. f_equal. now apply IH.
Qed.

Lemma getCsvString_value (s : string) :
  s <> EmptyString ->
  Csv.getCsvString (JStr s) =
  OK (if Csv.contains_char ","%char s
      then String "034"%char (Csv.escape_quotes s) +:+ String "034"%char EmptyString
      else s).
Proof.
  intros Hs. unfold Csv.getCsvString. rewrite (check_string_ok s Hs). cbn [bind].
  destruct (Csv.contains_char ","%char s); reflexivity.
Qed.

Lemma getCsvString_empty : forall c, Csv.getCsvString (JStr EmptyString) <> OK c.
Proof. intros c. discriminate. Qed.

(** X5. [getCsvString] never gives two different strings the same CSV
    text: the quoting and the escape of the double quotes lose nothing. *)
Theorem getCsvString_injective (s1 s2 c : string) :
  Csv.getCsvString (JStr s1) = OK c -> Csv.getCsvString (JStr s2) = OK c ->
  s1 = s2.
Proof.
  intros H1 H2.
  assert (N1 : s1 <> EmptyString) by (intros ->; now apply getCsvString_empty in H1).
  assert (N2 : s2 <> EmptyString) by (intros ->; now apply getCsvString_empty in H2).
  rewrite (getCsvString_value s1 N1) in H1. rewrite (getCsvString_value s2 N2) in H2.
  apply OK_inj in H1. apply OK_inj in H2.
  assert (Hq : forall s, Csv.contains_char ","%char
                 (String "034"%char (Csv.escape_quotes s) +:+ String "034"%char EmptyString)
               = Csv.contains_char ","%char s).
  { intros s.
    change (String "034"%char (Csv.escape_quotes s) +:+ String "034"%char EmptyString)
      with (String "034"%char (Csv.escape_quotes s +:+ String "034"%char EmptyString)).
    cbn [Csv.contains_char]. rewrite contains_char_app, contains_char_escape_quotes.
    cbn [Csv.contains_char]. cbn. now rewrite orb_false_r. }
  destruct (Csv.contains_char ","%char s1) eqn:C1,
           (Csv.contains_char ","%char s2) eqn:C2.
  - subst c.
    change (String "034"%char (Csv.escape_quotes s2 +:+ String "034"%char EmptyString)
            = String "034"%char (Csv.escape_quotes s1 +:+ String "034"%char EmptyString)) in H2.
    injection H2 as H2. apply app_last_inj in H2. symmetry. now apply escape_quotes_inj.
  - rewrite <- H1 in H2. rewrite H2, Hq in C2. congruence.
  - rewrite <- H2 in H1. rewrite H1, Hq in C1. congruence.
  - congruence.
Qed.

Lemma getCsvString_injective_witness :
  Csv.getCsvString (JStr "4.13MB") = OK "4.13MB" /\ "4.13MB" = "4.13MB".
Proof.
  split; [reflexivity|].
  apply (getCsvString_injective "4.13MB" "4.13MB" "4.13MB"); reflexivity.
Defined.

(** X6. [getCsvString] has a result exactly for the non-empty strings: the
    empty string, a number, an array or any other value makes it throw. *)
Theorem getCsvString_defined_iff (v : jsval) :
  (exists c, Csv.getCsvString v = OK c)
  <-> exists s, v = JStr s /\ s <> EmptyString.
Proof.
  split.
  - intros [c H]. destruct v as [| |b|n|s|a|o]; try discriminate.
    + destruct b; discriminate.
    + unfold Csv.getCsvString in H. cbn in H. destruct (n =? 0); discriminate.
    + exists s. split; [reflexivity|]. intros ->. discriminate.
  - intros (s & -> & Hs). rewrite (getCsvString_value s Hs). eauto.
Qed.

(** ** modules/utils.js: the hash checks *)

(** X7. [isValidFileHash] answers [true] exactly when the file is a regular
    file and the given array is, number for number and with the same length,
    the digest of its content: a prefix of the digest does not pass. *)
Theorem isValidFileHash_true_iff (sha : string -> list Z) (d : gmap string node)
    (file : string) (hash : jsval) :
  Hash.isValidFileHash sha d file hash = OK true <->
  file <> EmptyString
  /\ exists data, d !! file = Some (File data)
                  /\ hash = JArr (List.map JNum (sha data)).
Proof.
  unfold Hash.isValidFileHash, Hash.getFileHash.
  destruct (String.eqb_spec file EmptyString) as [->|Hf].
  - split; [discriminate | intros [H _]; congruence].
  - rewrite (check_string_ok file Hf). cbn [bind].
    destruct (check hash mustExists TArray) as [[]|e] eqn:Hc; cbn [bind].
    2: { split; [discriminate|]. intros (_ & data & _ & ->). discriminate. }
    unfold check in Hc.
    destruct hash as [| |b|n|s|l|o]; cbn [isOfType negb] in Hc;
      rewrite ?orb_true_r in Hc; try discriminate Hc.
    destruct (d !! file) as [[data|]|] eqn:Hd;
      try (split; [discriminate | intros (_ & data' & [=] & _)]).
    destruct (Nat.eqb_spec (length (sha data)) (length l)) as [Hlen|Hlen]; cbn [negb].
    + split.
      * intros Hw. apply OK_inj in Hw.
        pose proof (proj1 (same_words_spec _ _ Hlen) Hw) as Hl.
        split; [exact Hf|]. exists data. split; congruence.
      * intros (_ & data' & [= <-] & [= ->]). f_equal.
        apply same_words_spec; [now rewrite length_map | reflexivity].
    + split; [discriminate|].
      intros (_ & data' & [= <-] & [= ->]). rewrite length_map in Hlen. congruence.
Qed.

(** X8. On a regular file with a non-empty content [isValidFileHash] is
    [isValidHash] of the content: the same answer and, for a hash that is
    not an array, the same error. (On an empty file only [isValidHash]
    throws: it wants a non-empty string.) *)
Theorem isValidFileHash_is_isValidHash (sha : string -> list Z)
    (d : gmap string node) (file data : string) (hash : jsval) :
  file <> EmptyString -> data <> EmptyString ->
  d !! file = Some (File data) ->
  Hash.isValidFileHash sha d file hash = HashData.isValidHash sha (JStr data) hash.
Proof.
  intros Hf Hd Hfile. unfold Hash.isValidFileHash, HashData.isValidHash, Hash.getFileHash.
  rewrite (check_string_ok file Hf), (check_string_ok data Hd), Hfile. cbn [bind].
  destruct (check hash mustExists TArray) as [[]|e]; [|reflexivity]. cbn [bind].
  destruct hash; reflexivity.
Qed.

Lemma isValidFileHash_is_isValidHash_witness :
  Hash.isValidFileHash (fun _ => [1; 2]) {["a.jpg" := File "abc"]} "a.jpg"
    (JArr [JNum 1; JNum 2])
  = OK true
  /\ HashData.isValidHash (fun _ => [1; 2]) (JStr "abc") (JArr [JNum 1; JNum 2])
     = OK true.
Proof.
  split; [|reflexivity].
  rewrite (isValidFileHash_is_isValidHash (fun _ => [1; 2]) {["a.jpg" := File "abc"]}
             "a.jpg" "abc" (JArr [JNum 1; JNum 2]));
    [reflexivity | discriminate | discriminate | reflexivity].
Defined.

(** ** The names of the image files *)

Lemma string_of_Z_inj (a b : Z) : string_of_Z a = string_of_Z b -> a = b.
Proof.
  unfold string_of_Z. intros H. apply DecimalZ.to_int_inj.
  assert (Hn : forall z, Z.to_int z <> Decimal.Pos Decimal.Nil
                         /\ Z.to_int z <> Decimal.Neg Decimal.Nil).
  { intros [|p|p]; cbn [Z.to_int]; split; try discriminate;
      intros [= Hp]; now apply DecimalPos.Unsigned.to_uint_nonnil in Hp. }
  destruct (Hn a) as [Ha1 Ha2], (Hn b) as [Hb1 Hb2].
  pose proof (NilZero.isi _ Ha1 Ha2) as Ia. pose proof (NilZero.isi _ Hb1 Hb2) as Ib.
  rewrite H in Ia. congruence.
Qed.

Lemma string_of_uint_no_underscore (d : Decimal.uint) :
  Csv.contains_char "_"%char (NilEmpty.string_of_uint d) = false.
Proof. induction d; cbn [NilEmpty.string_of_uint Csv.contains_char]; auto. Qed.

Lemma string_of_Z_no_underscore (z : Z) :
  Csv.contains_char "_"%char (string_of_Z z) = false.
Proof.
  unfold string_of_Z, NilZero.string_of_int, NilZero.string_of_uint.
  destruct (Z.to_int z) as [d|d]; cbn [Csv.contains_char];
    (destruct d; [reflexivity | apply string_of_uint_no_underscore ..]).
Qed.

Lemma split_at_underscore (a : string) :
  forall b x y,
    Csv.contains_char "_"%char a = false -> Csv.contains_char "_"%char b = false ->
    a +:+ "_" +:+ x = b +:+ "_" +:+ y -> a = b /\ x = y.
Proof.
  induction a as [|c a IH]; intros [|c' b] x y Ha Hb H.
  - change (String "_"%char x = String "_"%char y) in H. injection H as ->. auto.
  - change (String "_"%char x = String c' (b +:+ "_" +:+ y)) in H.
    injection H as <- _. cbn in Hb. discriminate.
  - change (String c (a +:+ "_" +:+ x) = String "_"%char y) in H.
    injection H as -> _. cbn in Ha. discriminate.
  - change (String c (a +:+ "_" +:+ x) = String c' (b +:+ "_" +:+ y)) in H.
    injection H as -> H. cbn [Csv.contains_char] in Ha, Hb.
    apply orb_false_iff in Ha as [_ Ha]. apply orb_false_iff in Hb as [_ Hb].
    destruct (IH b x y Ha Hb H) as [-> ->]. auto.
Qed.

(** X9. The name of an image file tells the record and the answer apart:
    two entries get the same name from [buildImageName] only when they are
    of the same record and have the same answer. *)
Theorem image_name_injective (rid1 rid2 : Z) (v1 v2 n : string) :
  Utils.buildImageName (string_of_Z rid1) v1 = OK n ->
  Utils.buildImageName (string_of_Z rid2) v2 = OK n ->
  rid1 = rid2 /\ v1 = v2.
Proof.
  unfold Utils.buildImageName. intros H1 H2.
  destruct (check (JStr (string_of_Z rid1)) mustExists TString); [|discriminate].
  destruct (check (JStr v1) mustExists TString); [|discriminate].
  destruct (check (JStr (string_of_Z rid2)) mustExists TString); [|discriminate].
  destruct (check (JStr v2) mustExists TString); [|discriminate].
  cbn [bind] in H1, H2. apply OK_inj in H1. apply OK_inj in H2.
  rewrite <- H2 in H1.
  destruct (split_at_underscore _ _ _ _ (string_of_Z_no_underscore rid1)
              (string_of_Z_no_underscore rid2) H1) as [Hr Hv].
  split; [now apply string_of_Z_inj | exact Hv].
Qed.

Lemma image_name_injective_witness :
  Utils.buildImageName (string_of_Z 1721) "photo.jpg" = OK "1721_photo.jpg"
  /\ (1721 = 1721 /\ "photo.jpg" = "photo.jpg").
Proof.
  split; [reflexivity|].
  apply (image_name_injective 1721 1721 "photo.jpg" "photo.jpg" "1721_photo.jpg");
    reflexivity.
Defined.

(** ** modules/image-cleaner.js: the name lists *)

Lemma add_names_names (rid : Z) (entries : list (string * entry)) :
  forall ks ds ns,
    ImageCleaner.add_names rid entries (ks, ds, ns) =
    OK ((ks ++ omap (named Action.keep rid) entries)%list,
        (ds ++ omap (named Action.delete rid) entries)%list,
        (ns ++ omap (named Action.none rid) entries)%list).
Proof.
  induction entries as [|[k e] entries IH]; intros ks ds ns;
    cbn [ImageCleaner.add_names omap list_omap].
  - now rewrite !app_nil_r.
  - rewrite check_opt_str_ok. cbn [bind].
    assert (Hn : forall a, named a rid (k, e) =
              match value e with
              | Some v =>
                  if negb (String.eqb v EmptyString) && Action.eqb (action e) a
                  then Some (string_of_Z rid +:+ "_" +:+ v) else None
              | None => None
              end) by reflexivity.
    rewrite !Hn. clear Hn.
    destruct (value e) as [v|] eqn:Hv; cbn [js_opt_str truthy]; [|apply IH].
    destruct (String.eqb_spec v EmptyString) as [->|Hne]; cbn [negb andb]; [apply IH|].
    rewrite (buildImageName_ok _ _ (string_of_Z_not_empty rid) Hne). cbn [bind].
    destruct (action e); cbn [Action.eqb]; rewrite IH; now rewrite <- ?app_assoc.
Qed.

Lemma add_map_names (m : list emap) :
  forall ks ds ns,
    ImageCleaner.add_map m (ks, ds, ns) =
    OK ((ks ++ names_of Action.keep m)%list,
        (ds ++ names_of Action.delete m)%list,
        (ns ++ names_of Action.none m)%list).
Proof.
  induction m as [|em m IH]; intros ks ds ns;
    cbn [ImageCleaner.add_map names_of flat_map].
  - now rewrite !app_nil_r.
  - rewrite check_number_ok. cbn [bind]. rewrite add_names_names. cbn [bind].
    rewrite IH. unfold names_of. now rewrite !app_assoc.
Qed.

(** X10. Giving the cleaner a map with elements does not start its name
    lists again: the names of the map are added, by action and in the order
    of the map, behind the names the object already has (the object of
    [updateImages] is the same for all assets). Only an empty or missing map
    clears the lists. *)
Theorem set_map_adds_to_the_name_lists (c : ImageCleaner.t) (m : list emap) :
  ImageCleaner.isRunning c = false -> m <> [] ->
  exists c', ImageCleaner.set_map c (Some m) = OK c'
    /\ ImageCleaner.keeps c'
       = (ImageCleaner.keeps c ++ names_of Action.keep m)%list
    /\ ImageCleaner.deletes c'
       = (ImageCleaner.deletes c ++ names_of Action.delete m)%list
    /\ ImageCleaner.nones c'
       = (ImageCleaner.nones c ++ names_of Action.none m)%list.
Proof.
  intros Hrun Hm. unfold ImageCleaner.set_map. rewrite Hrun.
  destruct m as [|em m]; [congruence|].
  rewrite add_map_names. cbn [bind]. eexists. repeat split.
Qed.

Lemma set_map_adds_to_the_name_lists_witness :
  exists c1 c2,
    ImageCleaner.set_map ImageCleaner.new (Some scenario_emap) = OK c1
    /\ ImageCleaner.set_map c1 (Some scenario_emap) = OK c2
    /\ ImageCleaner.keeps c2 = ["1721_photo.jpg"; "1721_photo.jpg"].
Proof.
  destruct (set_map_adds_to_the_name_lists ImageCleaner.new scenario_emap)
    as (c1 & H1 & K1 & _); [reflexivity | discriminate |].
  assert (R1 : ImageCleaner.isRunning c1 = false).
  { vm_compute in H1. injection H1 as <-. reflexivity. }
  destruct (set_map_adds_to_the_name_lists c1 scenario_emap R1)
    as (c2 & H2 & K2 & _); [discriminate|].
  exists c1, c2. split; [exact H1|]. split; [exact H2|].
  rewrite K2, K1. vm_compute. reflexivity.
Defined.

(** X11. The sweeper and the executor agree on the name of a kept image:
    after the cleaner is given the map, the name under which the executor
    stores the image of a keep entry with an answer is a keep name, so the
    sweeper leaves that file where it is, unless the name is a none name as
    well, when it moves it to the quarantine; it never removes it. *)
Theorem sweeper_leaves_kept_images (c c' : ImageCleaner.t) (m : list emap)
    (em : emap) (k : string) (e : entry) :
  ImageCleaner.set_map c (Some m) = OK c' ->
  In em m -> In (k, e) (emap_entries em) ->
  action e = Action.keep -> truthy (js_opt_str (value e)) = true ->
  ImageCleaner.inb (Update.img_new_name (emap_id em) e) (ImageCleaner.keeps c') = true
  /\ ImageCleaner.decide_file c' (Update.img_new_name (emap_id em) e)
     = if ImageCleaner.inb (Update.img_new_name (emap_id em) e) (ImageCleaner.nones c')
       then ImageCleaner.Quarantine else ImageCleaner.Leave.
Proof.
  intros Hset Hem He Ha Hv.
  assert (Hin : ImageCleaner.inb (Update.img_new_name (emap_id em) e)
                  (ImageCleaner.keeps c') = true).
  { unfold ImageCleaner.set_map in Hset.
    destruct (ImageCleaner.isRunning c); [discriminate|].
    destruct m as [|em0 m0]; [destruct Hem|].
    rewrite add_map_names in Hset. cbn [bind] in Hset. apply OK_inj in Hset.
    subst c'. cbn [ImageCleaner.reset ImageCleaner.keeps].
    apply inb_In, in_or_app. right. unfold names_of. apply in_flat_map.
    exists em. split; [exact Hem|]. apply list_elem_of_In, list_elem_of_omap.
    exists (k, e). split; [now apply list_elem_of_In|].
    unfold named, Update.img_new_name. cbn [snd]. rewrite Ha.
    destruct (value e) as [v|]; [|discriminate]. cbn [js_opt_str truthy] in Hv.
    rewrite Hv. reflexivity. }
  split; [exact Hin|]. unfold ImageCleaner.decide_file. rewrite Hin. reflexivity.
Qed.

Lemma sweeper_leaves_kept_images_witness :
  exists c',
    ImageCleaner.set_map ImageCleaner.new (Some scenario_emap) = OK c'
    /\ ImageCleaner.decide_file c' "1721_photo.jpg" = ImageCleaner.Leave.
Proof.
  destruct (ImageCleaner.set_map ImageCleaner.new (Some scenario_emap)) as [c'|] eqn:Hc;
    [|discriminate].
  exists c'. split; [reflexivity|].
  destruct (sweeper_leaves_kept_images ImageCleaner.new c' scenario_emap
              scenario_record "photo_a" entry_keep Hc) as [_ H].
  - left. reflexivity.
  - left. reflexivity.
  - reflexivity.
  - reflexivity.
  - vm_compute in Hc. injection Hc as <-. exact H.
Defined.

(** ** modules/utils.js: [renameIfExists] *)

Lemma append_empty_r (s : string) : s +:+ EmptyString = s.
Proof.
  induction s as [|c s IH]; [reflexivity|].
  change (String c (s +:+ EmptyString) = String c s). now rewrite IH.
Qed.

Section RenameLoop.

Context (fileExists : string -> bool) (noExt ext : string).

Let cand (k : Z) : string := noExt +:+ "_" +:+ string_of_Z k +:+ ext.

(** The loop stops at the path it was given when that path is free;
    otherwise at the first free candidate, or at the last one when the
    tries are used up. *)
Lemma rename_loop_first_free (fuel : nat) :
  forall (t : Z) (p : string),
    let r := Paths.rename_loop fileExists noExt ext p t fuel in
    (fileExists p = false /\ r = p)
    \/ (fileExists p = true /\ fuel = O /\ r = p)
    \/ (fileExists p = true
        /\ exists k : nat, (k < fuel)%nat /\ r = cand (t + Z.of_nat k)
           /\ (forall j : nat, (j < k)%nat -> fileExists (cand (t + Z.of_nat j)) = true)
           /\ (fileExists r = true -> k = (fuel - 1)%nat)).
Proof.
  induction fuel as [|fuel IH]; intros t p; cbv zeta; cbn [Paths.rename_loop].
  - destruct (fileExists p) eqn:Hp; [right; left | left]; repeat split.
  - destruct (fileExists p) eqn:Hp; [|left; auto].
    right; right. split; [reflexivity|].
    specialize (IH (t + 1) (cand t)). cbv zeta in IH. fold (cand t).
    destruct IH as [[Hc ->]|[(Hc & -> & ->)|(Hc & k & Hk & -> & Hpre & Hlast)]].
    + exists O. rewrite Z.add_0_r. repeat split; [lia | intros j Hj; lia | congruence].
    + exists O. rewrite Z.add_0_r. repeat split; [lia | intros j Hj; lia].
    + exists (S k). replace (t + Z.of_nat (S k)) with (t + 1 + Z.of_nat k) by lia.
      repeat split; [lia | | intros H; specialize (Hlast H); lia].
      intros [|j] Hj; [now rewrite Z.add_0_r|].
      replace (t + Z.of_nat (S j)) with (t + 1 + Z.of_nat j) by lia.
      apply Hpre. lia.
Qed.

End RenameLoop.

Lemma renameIfExists_parts (fileExists : string -> bool) (filePath : string) :
  filePath <> EmptyString ->
  exists noExt ext,
    (forall k, candidate filePath k = noExt +:+ "_" +:+ string_of_Z k +:+ ext)
    /\ Paths.renameIfExists fileExists filePath =
       let _path := Paths.rename_loop fileExists noExt ext filePath 1 Rename.max_tries in
       if fileExists _path then Throw (Error ("could not rename file: " +:+ filePath))
       else OK _path.
Proof.
  intros Hf. unfold Paths.renameIfExists, candidate.
  rewrite (check_string_ok filePath Hf). cbn [bind].
  destruct (lastIndexOf filePath "." >? 0).
  - eexists _, _. split; [intros k; reflexivity | reflexivity].
  - exists filePath, EmptyString. split; [|reflexivity].
    intros k. now rewrite append_empty_r.
Qed.

(** X12. When [renameIfExists] returns a path, no regular file is at that
    path. It is the given path when that one is free; otherwise it is the
    candidate with the least number, from 1 to 1000, that is free: the
    number stands before the extension, and all candidates with a smaller
    number are taken. *)
Theorem renameIfExists_first_free (fileExists : string -> bool)
    (filePath p : string) :
  Paths.renameIfExists fileExists filePath = OK p ->
  fileExists p = false
  /\ ((fileExists filePath = false /\ p = filePath)
      \/ (fileExists filePath = true
          /\ exists k, 1 <= k <= 1000 /\ p = candidate filePath k
                       /\ forall j, 1 <= j < k ->
                                    fileExists (candidate filePath j) = true)).
Proof.
  intros H.
  assert (Hf : filePath <> EmptyString) by (intros ->; discriminate).
  destruct (renameIfExists_parts fileExists filePath Hf) as (noExt & ext & Hcand & Hr).
  rewrite Hr in H. cbv zeta in H.
  pose proof (rename_loop_first_free fileExists noExt ext Rename.max_tries 1 filePath) as L.
  cbv zeta in L.
  destruct (fileExists (Paths.rename_loop fileExists noExt ext filePath 1 Rename.max_tries))
    eqn:Hex; [discriminate|].
  apply OK_inj in H. subst p. split; [exact Hex|].
  destruct L as [[Hp Hl]|[(Hp & Hfuel & _)|(Hp & k & Hk & Hl & Hpre & _)]].
  - left. split; [exact Hp | exact Hl].
  - discriminate Hfuel.
  - right. split; [exact Hp|]. exists (1 + Z.of_nat k).
    assert (Hmax : Rename.max_tries = 1000%nat) by reflexivity.
    split; [lia|]. split; [now rewrite Hcand|].
    intros j Hj. rewrite Hcand.
    replace j with (1 + Z.of_nat (Z.to_nat (j - 1))) by lia. apply Hpre. lia.
Qed.

Lemma renameIfExists_first_free_witness :
  Paths.renameIfExists example_taken "/q/a.jpg" = OK "/q/a_2.jpg"
  /\ example_taken "/q/a_2.jpg" = false.
Proof.
  assert (H : Paths.renameIfExists example_taken "/q/a.jpg" = OK "/q/a_2.jpg")
    by (vm_compute; reflexivity).
  split; [exact H|].
  exact (proj1 (renameIfExists_first_free example_taken "/q/a.jpg" "/q/a_2.jpg" H)).
Defined.

(** X13. [renameIfExists] gives up on a non-empty path exactly when the path
    and all its thousand candidates are regular files; it then throws "could
    not rename file". *)
Theorem renameIfExists_gives_up_iff (fileExists : string -> bool)
    (filePath : string) :
  filePath <> EmptyString ->
  (Paths.renameIfExists fileExists filePath
   = Throw (Error ("could not rename file: " +:+ filePath))
   <-> fileExists filePath = true
       /\ forall j, 1 <= j <= 1000 -> fileExists (candidate filePath j) = true).
Proof.
  intros Hf.
  destruct (renameIfExists_parts fileExists filePath Hf) as (noExt & ext & Hcand & Hr).
  rewrite Hr. cbv zeta.
  pose proof (rename_loop_first_free fileExists noExt ext Rename.max_tries 1 filePath) as L.
  cbv zeta in L.
  assert (Hmax : Rename.max_tries = 1000%nat) by reflexivity.
  destruct (fileExists (Paths.rename_loop fileExists noExt ext filePath 1 Rename.max_tries))
    eqn:Hex.
  - split; [intros _ | reflexivity].
    destruct L as [[Hp Hl]|[(Hp & Hfuel & _)|(Hp & k & Hk & Hl & Hpre & Hlast)]].
    + rewrite Hl in Hex. congruence.
    + discriminate Hfuel.
    + split; [exact Hp|]. intros j Hj. rewrite Hcand.
      specialize (Hlast eq_refl).
      destruct (Z.eq_dec j 1000) as [->|Hne].
      * rewrite Hl in Hex. replace 1000 with (1 + Z.of_nat k) by lia. exact Hex.
      * replace j with (1 + Z.of_nat (Z.to_nat (j - 1))) by lia. apply Hpre. lia.
  - split; [discriminate|]. intros [Hp Hall]. exfalso.
    destruct L as [[Hp' _]|[(_ & Hfuel & _)|(_ & k & Hk & Hl & _ & _)]].
    + congruence.
    + discriminate Hfuel.
    + rewrite Hl, <- Hcand, Hall in Hex; [discriminate | lia].
Qed.

Lemma renameIfExists_gives_up_iff_witness :
  Paths.renameIfExists (fun _ => true) "/q/a.jpg"
  = Throw (Error "could not rename file: /q/a.jpg").
Proof.
  apply (renameIfExists_gives_up_iff (fun _ => true) "/q/a.jpg"); [discriminate|].
  split; [reflexivity | intros j _; reflexivity].
Defined.

(** ** modules/utils.js: [getCurrentTimestamp] *)

Lemma small_numbers_digits :
  forallb (fun k : nat =>
             let n := Z.of_nat k in
             Bool.eqb (str_len (string_of_Z n) <? 2) (n <? 10)
             && Bool.eqb (str_len (string_of_Z n) <? 3) (n <? 100))
          (seq 0 1000) = true.
Proof. vm_compute. reflexivity. Qed.

Lemma digits_lt (n : Z) :
  0 <= n < 1000 ->
  (str_len (string_of_Z n) <? 2) = (n <? 10)
  /\ (str_len (string_of_Z n) <? 3) = (n <? 100).
Proof.
  intros Hn. pose proof small_numbers_digits as H.
  rewrite forallb_forall in H. specialize (H (Z.to_nat n)).
  cbv zeta in H. rewrite Z2Nat.id in H by lia.
  assert (Hin : In (Z.to_nat n) (seq 0 1000)) by (apply in_seq; lia).
  apply H, andb_true_iff in Hin. destruct Hin as [H2 H3].
  apply Bool.eqb_prop in H2, H3. auto.
Qed.

Lemma pad2_digits (n : Z) :
  0 <= n < 1000 ->
  (if str_len (string_of_Z n) <? 2 then "0" +:+ string_of_Z n else string_of_Z n)
  = pad2 n.
Proof. intros Hn. unfold pad2. now rewrite (proj1 (digits_lt n Hn)). Qed.

Lemma pad3_digits (n : Z) :
  0 <= n < 1000 ->
  (if str_len (string_of_Z n) <? 2 then "00" +:+ string_of_Z n
   else if str_len (string_of_Z n) <? 3 then "0" +:+ string_of_Z n
        else string_of_Z n)
  = pad3 n.
Proof.
  intros Hn. unfold pad3. destruct (digits_lt n Hn) as [-> ->].
  destruct (n <? 10) eqn:H10; [|reflexivity]. reflexivity.
Qed.

(** X14. From January to September the timestamp does not show the month:
    the field of the month is a zero followed by the minutes, without their
    own leading zero. It is so in the timestamp of a state record and of a
    run directory and in the timestamp of a log line; the other fields have
    their two (the milliseconds three) digits. *)
Theorem timestamp_month_is_the_minutes (d : Clock.date) :
  date_in_range d -> Clock.getMonth d < 9 ->
  Clock.getCurrentTimestamp d JUndefined =
  OK (String.concat "-"
        [string_of_Z (Clock.getFullYear d);
         "0" +:+ string_of_Z (Clock.getMinutes d);
         pad2 (Clock.getDate d); pad2 (Clock.getHours d);
         pad2 (Clock.getMinutes d); pad2 (Clock.getSeconds d)])
  /\ Clock.getCurrentTimestamp d (JObj [("style", JStr "log")]) =
     OK (string_of_Z (Clock.getFullYear d) +:+ "-"
         +:+ ("0" +:+ string_of_Z (Clock.getMinutes d)) +:+ "-"
         +:+ pad2 (Clock.getDate d) +:+ " " +:+ pad2 (Clock.getHours d) +:+ ":"
         +:+ pad2 (Clock.getMinutes d) +:+ ":" +:+ pad2 (Clock.getSeconds d)
         +:+ "." +:+ pad3 (Clock.getMilliseconds d)).
Proof.
  intros (Hmo & Hda & Hho & Hmi & Hse & Hms) Hm9.
  unfold Clock.getCurrentTimestamp.
  cbn [check truthy isOfType negb andb orb bind get assoc strict_eq String.eqb
       Ascii.eqb Bool.eqb].
  rewrite (proj1 (digits_lt (Clock.getMonth d + 1) ltac:(lia))).
  replace (Clock.getMonth d + 1 <? 10) with true by (symmetry; apply Z.ltb_lt; lia).
  rewrite !pad2_digits, pad3_digits by lia.
  split; reflexivity.
Qed.

Lemma timestamp_month_is_the_minutes_witness :
  Clock.getCurrentTimestamp example_date JUndefined = OK "2021-07-05-14-07-09".
Proof.
  rewrite (proj1 (timestamp_month_is_the_minutes example_date
                    ltac:(unfold date_in_range; cbn; lia) ltac:(cbn; lia))).
  reflexivity.
Defined.

(** X15. From October to December the timestamp has the format of the
    documentation: year-month-day-hours-minutes-seconds with two digits for
    each field after the year, and for a log line
    [year-month-day hours:minutes:seconds.milliseconds] with three digits for
    the milliseconds. *)
Theorem timestamp_format_from_october (d : Clock.date) :
  date_in_range d -> 9 <= Clock.getMonth d ->
  Clock.getCurrentTimestamp d JUndefined =
  OK (String.concat "-"
        [string_of_Z (Clock.getFullYear d); pad2 (Clock.getMonth d + 1);
         pad2 (Clock.getDate d); pad2 (Clock.getHours d);
         pad2 (Clock.getMinutes d); pad2 (Clock.getSeconds d)])
  /\ Clock.getCurrentTimestamp d (JObj [("style", JStr "log")]) =
     OK (string_of_Z (Clock.getFullYear d) +:+ "-"
         +:+ pad2 (Clock.getMonth d + 1) +:+ "-"
         +:+ pad2 (Clock.getDate d) +:+ " " +:+ pad2 (Clock.getHours d) +:+ ":"
         +:+ pad2 (Clock.getMinutes d) +:+ ":" +:+ pad2 (Clock.getSeconds d)
         +:+ "." +:+ pad3 (Clock.getMilliseconds d)).
Proof.
  intros (Hmo & Hda & Hho & Hmi & Hse & Hms) Hm9.
  unfold Clock.getCurrentTimestamp.
  cbn [check truthy isOfType negb andb orb bind get assoc strict_eq String.eqb
       Ascii.eqb Bool.eqb].
  rewrite (proj1 (digits_lt (Clock.getMonth d + 1) ltac:(lia))).
  unfold pad2 at 1 6.
  replace (Clock.getMonth d + 1 <? 10) with false by (symmetry; apply Z.ltb_ge; lia).
  rewrite !pad2_digits, pad3_digits by lia.
  split; reflexivity.
Qed.

Lemma timestamp_format_from_october_witness :
  Clock.getCurrentTimestamp example_date_november JUndefined
  = OK "2020-11-17-19-41-36"
  /\ Clock.getCurrentTimestamp example_date_november (JObj [("style", JStr "log")])
     = OK "2020-11-17 19:41:36.005".
Proof.
  destruct (timestamp_format_from_october example_date_november
              ltac:(unfold date_in_range; cbn; lia) ltac:(cbn; lia)) as [H1 H2].
  rewrite H1, H2. split; reflexivity.
Defined.

(** ** configs/globals.js: the counters and the assets of [buildActionMap] *)

Lemma build_entry_counts (st st' : Builder.state) (subm : submission)
    (f : imgField) (e : entry) (n : Z) :
  counters_agree st n ->
  Builder.build_entry st subm f = OK (st', e) ->
  counters_agree st' (n + 1).
Proof.
  unfold counters_agree, Builder.build_entry.
  intros (Hk & Hd & Hn & Hsum & Htot & Hw).
  destruct (check (JStr (autoname f)) mustExists TString) as [[]|]; [|discriminate].
  cbn [bind]. destruct (Builder.field_value subm f) as [[key v]|]; [|discriminate].
  cbn [bind fst snd].
  destruct (truthy (js_opt_str v)).
  - destruct (Utils.findAttachment _ _ _) as [[a|]|]; [| |discriminate]; cbn [bind];
      intros [= <- _];
      cbn [Builder.count_keep Builder.count_none Builder.keeps Builder.deletes
           Builder.nones Builder._totalActions Builder.warnings];
      rewrite ?length_app; cbn [length]; repeat split; lia.
  - intros [= <- _].
    cbn [Builder.count_delete Builder.keeps Builder.deletes Builder.nones
         Builder._totalActions Builder.warnings].
    repeat split; lia.
Qed.

Lemma build_fields_counts (subm : submission) (fields : list imgField) :
  forall st st' m0 m n,
    counters_agree st n ->
    Builder.build_fields st subm fields m0 = OK (st', m) ->
    counters_agree st' (n + Z.of_nat (length fields)).
Proof.
  induction fields as [|f fields IH]; intros st st' m0 m n Hc;
    cbn [Builder.build_fields length].
  - intros [= <- _]. now rewrite Z.add_0_r.
  - destruct (Builder.build_entry st subm f) as [[st1 e]|] eqn:He; [|discriminate].
    cbn [bind fst snd]. intros H.
    pose proof (build_entry_counts _ _ _ _ _ _ Hc He) as Hc1.
    pose proof (IH _ _ _ _ _ Hc1 H) as Hc2.
    replace (n + Z.of_nat (S (length fields))) with (n + 1 + Z.of_nat (length fields))
      by lia.
    exact Hc2.
Qed.

Lemma build_submissions_counts (fields : list imgField) (subms : list submission) :
  forall st st' m0 m n,
    counters_agree st n ->
    Builder.build_submissions st fields subms m0 = OK (st', m) ->
    counters_agree st' (n + Z.of_nat (length subms * length fields)).
Proof.
  induction subms as [|s subms IH]; intros st st' m0 m n Hc;
    cbn [Builder.build_submissions length].
  - intros [= <- _]. cbn. now rewrite Z.add_0_r.
  - rewrite check_number_ok. cbn [bind].
    destruct (Builder.build_fields st s fields []) as [[st1 m1]|] eqn:Hf; [|discriminate].
    cbn [bind fst snd]. intros H.
    pose proof (build_fields_counts _ _ _ _ _ _ _ Hc Hf) as Hc1.
    pose proof (IH _ _ _ _ _ Hc1 H) as Hc2.
    replace (n + Z.of_nat (S (length subms) * length fields))
      with (n + Z.of_nat (length fields) + Z.of_nat (length subms * length fields))
      by lia.
    exact Hc2.
Qed.

Lemma make_mapCounters_add_up (a : asset) (st : Builder.state) (m : list emap) :
  counters_agree st (Z.of_nat (length (submissions a) * length (imgs a))) ->
  counters_add_up {| ma_asset := a; map := m;
                     ma_mapCounters := Builder.make_mapCounters st |}.
Proof.
  unfold counters_agree, counters_add_up, Builder.make_mapCounters.
  cbn [ma_mapCounters ma_asset mc_keeps mc_deletes mc_nones mc_totalActions mc_warnings].
  intros (Hk & Hd & Hn & Hsum & Htot & Hw). repeat split; try lia.
  destruct (Builder.warnings st) as [|w ws] eqn:Hws; cbn [length] in Hw.
  - rewrite <- Hw. reflexivity.
  - destruct (Z.eqb_spec (Builder.nones st) 0); [lia|]. f_equal. exact Hw.
Qed.

Lemma build_assets_counters (assets : list asset) :
  forall st acc st' r,
    Forall counters_add_up acc ->
    Builder.build_assets st assets acc = OK (st', r) ->
    Forall counters_add_up r.
Proof.
  induction assets as [|a assets IH]; intros st acc st' r Hacc;
    cbn [Builder.build_assets].
  - now intros [= _ <-].
  - destruct (check (JStr (uid a)) mustExists TString) as [[]|]; [|discriminate].
    cbn [bind].
    destruct (submissions a) as [|s0 ss] eqn:Hss; [apply IH, Hacc|].
    destruct (imgs a) as [|f0 fs] eqn:Hfs; [apply IH, Hacc|].
    destruct (Builder.build_submissions _ _ _ _) as [[st1 m]|] eqn:Hs; [|discriminate].
    cbn [bind fst snd]. apply IH. apply Forall_app. split; [exact Hacc|].
    constructor; [|constructor].
    apply make_mapCounters_add_up. rewrite Hss, Hfs.
    assert (H0 : counters_agree (Builder.reset_asset st) 0).
    { unfold counters_agree. cbn. lia. }
    pose proof (build_submissions_counts _ _ _ _ _ _ _ H0 Hs) as H. exact H.
Qed.

(** X16. In the result of [buildActionMap] the counters of every asset add
    up: keeps, deletes and nones are not negative and their sum is
    [totalActions], which is the number of submissions times the number of
    image fields of the asset; [warnings] is the number of nones, and is
    absent exactly when there is none. *)
Theorem map_counters_add_up (assets : list asset) (r : list mapped_asset) :
  Builder.buildActionMap assets = OK r ->
  forall ma, In ma r -> counters_add_up ma.
Proof.
  unfold Builder.buildActionMap. intros H.
  destruct (Builder.build_assets Builder.init assets []) as [[st' r']|] eqn:Ha;
    [|discriminate].
  cbn [bind snd] in H. apply OK_inj in H. subst r'.
  pose proof (build_assets_counters assets _ _ _ _ (List.Forall_nil _) Ha) as Hall.
  intros ma Hma. rewrite List.Forall_forall in Hall. now apply Hall.
Qed.

Lemma map_counters_add_up_witness : counters_add_up scenario_mapped.
Proof.
  apply (map_counters_add_up [scenario_asset] scenario_map);
    [vm_compute; reflexivity | left; reflexivity].
Defined.

Lemma build_assets_assets (assets : list asset) :
  forall st acc st' r,
    Builder.build_assets st assets acc = OK (st', r) ->
    List.map ma_asset r = (List.map ma_asset acc ++ List.filter has_work assets)%list.
Proof.
  induction assets as [|a assets IH]; intros st acc st' r;
    cbn [Builder.build_assets List.filter].
  - intros [= _ <-]. now rewrite app_nil_r.
  - destruct (check (JStr (uid a)) mustExists TString) as [[]|]; [|discriminate].
    cbn [bind]. unfold has_work at 1.
    destruct (submissions a) as [|s0 ss] eqn:Hss; [apply IH|].
    destruct (imgs a) as [|f0 fs] eqn:Hfs; [apply IH|].
    destruct (Builder.build_submissions _ _ _ _) as [[st1 m]|] eqn:Hs; [|discriminate].
    cbn [bind fst snd]. intros H. apply IH in H.
    rewrite H, List.map_app, <- app_assoc. reflexivity.
Qed.

(** X17. The result of [buildActionMap] has, in the order of the input,
    exactly the assets that have at least one submission and at least one
    image field; the other assets are skipped without an error. *)
Theorem buildActionMap_keeps_assets_with_work (assets : list asset)
    (r : list mapped_asset) :
  Builder.buildActionMap assets = OK r ->
  List.map ma_asset r = List.filter has_work assets.
Proof.
  unfold Builder.buildActionMap. intros H.
  destruct (Builder.build_assets Builder.init assets []) as [[st' r']|] eqn:Ha;
    [|discriminate].
  cbn [bind snd] in H. apply OK_inj in H. subst r'.
  exact (build_assets_assets assets _ _ _ _ Ha).
Qed.

Lemma buildActionMap_keeps_assets_with_work_witness :
  List.map ma_asset scenario_map = [scenario_asset].
Proof.
  apply (buildActionMap_keeps_assets_with_work [scenario_asset] scenario_map).
  vm_compute. reflexivity.
Defined.

(** ** modules/utils.js: the errors of [findAttachment] *)

Lemma well_formed_dec (a : Attachment) : {well_formed a} + {~ well_formed a}.
Proof.
  unfold well_formed.
  destruct (string_dec (mimetype a) EmptyString) as [H1|H1];
    [right; tauto|].
  destruct (string_dec (download_url a) EmptyString) as [H2|H2];
    [right; tauto|].
  destruct (string_dec (filename a) EmptyString) as [H3|H3];
    [right; tauto|].
  left. tauto.
Qed.

Lemma findAttachment_loop_throws (name : string) (atts : list Attachment) :
  forall acc e,
    Utils.findAttachment_loop name atts acc = Throw e <->
    Exists (fun a => ~ well_formed a) atts /\ e = CheckError TString (JStr EmptyString).
Proof.
  induction atts as [|a atts IH]; intros acc e.
  - cbn [Utils.findAttachment_loop]. split; [discriminate|].
    intros [H _]. inversion H.
  - destruct (well_formed_dec a) as [Hwf|Hwf].
    + rewrite (findAttachment_loop_step name a atts acc Hwf), IH.
      split; intros [Hex ->]; (split; [|reflexivity]).
      * now right.
      * inversion Hex; [contradiction | assumption].
    + assert (Ht : Utils.findAttachment_loop name (a :: atts) acc
                   = Throw (CheckError TString (JStr EmptyString))).
      { cbn [Utils.findAttachment_loop]. unfold well_formed in Hwf.
        destruct (string_dec (mimetype a) EmptyString) as [->|H1]; [reflexivity|].
        rewrite (check_string_ok _ H1). cbn [bind].
        destruct (string_dec (download_url a) EmptyString) as [->|H2]; [reflexivity|].
        rewrite (check_string_ok _ H2). cbn [bind].
        destruct (string_dec (filename a) EmptyString) as [->|H3]; [reflexivity|].
        tauto. }
      rewrite Ht. split.
      * intros [= <-]. split; [now left | reflexivity].
      * intros [_ ->]. reflexivity.
Qed.

(** X18. [findAttachment] throws exactly when the name is empty or some
    attachment of the list, of an image or not, has an empty mimetype,
    download url or filename; the error is always that of the check for a
    non-empty string. (The branch that returns null for an empty name is
    never reached.) *)
Theorem findAttachment_throws_iff (name : string) (atts : list Attachment)
    (rid : Z) (e : exn) :
  Utils.findAttachment name atts rid = Throw e <->
  (name = EmptyString \/ Exists (fun a => ~ well_formed a) atts)
  /\ e = CheckError TString (JStr EmptyString).
Proof.
  unfold Utils.findAttachment.
  destruct (string_dec name EmptyString) as [->|Hn].
  - cbn. split; [intros [= <-]; auto | intros [_ ->]; reflexivity].
  - rewrite (check_string_ok name Hn), check_number_ok. cbn [bind].
    destruct (String.eqb_spec name EmptyString) as [|_]; [contradiction|].
    destruct atts as [|a atts].
    + split; [discriminate|]. intros [[H|H] _]; [contradiction | inversion H].
    + rewrite findAttachment_loop_throws. split.
      * intros [H ->]. auto.
      * intros [[H|H] ->]; [contradiction | auto].
Qed.

(** ** modules/image-cleaner.js: what [run] does to the two directories *)

Lemma NoDup_map_fst_filter {A B : Type} (p : A * B -> bool) (l : list (A * B)) :
  List.NoDup (List.map fst l) -> List.NoDup (List.map fst (List.filter p l)).
Proof.
  induction l as [|x l IH]; cbn [List.map List.filter]; [auto|].
  intros H. inversion H as [|? ? Hx Hl]; subst.
  destruct (p x); [|now apply IH].
  cbn [List.map]. constructor; [|now apply IH].
  intros Hin. apply Hx. apply in_map_iff in Hin. destruct Hin as (y & Hy & Hin).
  apply filter_In in Hin. apply in_map_iff. exists y. tauto.
Qed.

Lemma getDirEntries_In (d : gmap string node) (f : string) :
  In f (FS.getDirEntries d) <-> exists data, d !! f = Some (File data).
Proof.
  unfold FS.getDirEntries. rewrite in_map_iff. split.
  - intros ([g n] & <- & Hin). apply filter_In in Hin. destruct Hin as [Hin Hfile].
    apply list_elem_of_In, elem_of_map_to_list in Hin. cbn [fst snd] in *.
    destruct n as [data|]; [eauto | discriminate].
  - intros [data Hd]. exists (f, File data). split; [reflexivity|].
    apply filter_In. split; [|reflexivity].
    now apply list_elem_of_In, elem_of_map_to_list.
Qed.

Lemma getDirEntries_NoDup (d : gmap string node) : List.NoDup (FS.getDirEntries d).
Proof.
  unfold FS.getDirEntries. apply NoDup_map_fst_filter.
  apply NoDup_ListNoDup. exact (NoDup_fst_map_to_list d).
Qed.

Lemma same_lists_decide (c c' : ImageCleaner.t) (f : string) :
  same_lists c c' -> ImageCleaner.decide_file c' f = ImageCleaner.decide_file c f.
Proof.
  intros (Hk & Hd & Hn & Hdi). unfold ImageCleaner.decide_file.
  now rewrite Hk, Hd, Hn, Hdi.
Qed.

Lemma renameIfExists_free (d : gmap string node) (file p : string) :
  Rename.renameIfExists d file = OK p -> FS.fileExists d p = false.
Proof.
  unfold Rename.renameIfExists.
  destruct (check (JStr file) mustExists TString) as [[]|]; [|discriminate].
  cbn [bind]. destruct (Rename.split_ext file) as [noExt ext].
  destruct (FS.fileExists d _) eqn:H; [discriminate|].
  intros [= <-]. exact H.
Qed.

(** One turn of the loop over the files. *)
Lemma clean_file_step (c c' : ImageCleaner.t) (ds ds' : ImageCleaner.dirs)
    (f : string) :
  ImageCleaner.clean_file c ds f = OK (c', ds') ->
  same_lists c c'
  /\ ImageCleaner.errors c' = ImageCleaner.errors c
  /\ (forall g, g <> f -> fst ds' !! g = fst ds !! g)
  /\ (forall g n, snd ds !! g = Some n -> snd ds' !! g = Some n)
  /\ match ImageCleaner.decide_file c f with
     | ImageCleaner.Leave => c' = c /\ ds' = ds
     | ImageCleaner.Remove =>
         fst ds' !! f = None /\ snd ds' = snd ds
         /\ exists op, c' = ImageCleaner.push_op c op /\ co_targetFile op = f
     | ImageCleaner.Quarantine =>
         exists op, c' = ImageCleaner.push_op c op /\ co_targetFile op = f
           /\ ((co_status_ok op = true /\ fst ds' !! f = None
                /\ exists g n, fst ds !! f = Some n /\ snd ds !! g = None
                               /\ snd ds' !! g = Some n)
               \/ (co_status_ok op = false /\ ds' = ds))
     end.
Proof.
  unfold ImageCleaner.clean_file. destruct ds as [src dst].
  destruct (ImageCleaner.decide_file c f).
  - intros [= <- <-]. cbn [fst snd]. unfold FS.deletePath.
    split; [repeat split|]. split; [reflexivity|]. split.
    { intros g Hg. destruct (FS.pathExists src f); cbn [fst]; [|reflexivity].
      now apply lookup_delete_ne. }
    split; [auto|]. split.
    { unfold FS.pathExists. destruct (src !! f) eqn:Hf; cbn [fst];
        [apply lookup_delete_eq | exact Hf]. }
    split; [reflexivity|]. eexists. split; reflexivity.
  - unfold ImageCleaner.move_file. cbn [fst snd].
    destruct (Rename.renameIfExists dst f) as [new|] eqn:Hnew; [|discriminate].
    cbn [bind]. apply renameIfExists_free in Hnew.
    unfold FS.mvFile. destruct (src !! f) as [n|] eqn:Hf.
    + destruct (dst !! new) as [[data|]|] eqn:Hd.
      * unfold FS.fileExists in Hnew. rewrite Hd in Hnew. discriminate.
      * intros [= <- <-]. cbn [fst snd].
        split; [repeat split|]. split; [reflexivity|]. split; [reflexivity|].
        split; [auto|]. eexists. split; [reflexivity|]. split; [reflexivity|].
        right. split; reflexivity.
      * intros [= <- <-]. cbn [fst snd].
        split; [repeat split|]. split; [reflexivity|]. split.
        { intros g Hg. now apply lookup_delete_ne. }
        split.
        { intros g m Hg. rewrite lookup_insert_ne; [exact Hg | congruence]. }
        eexists. split; [reflexivity|]. split; [reflexivity|].
        left. split; [reflexivity|]. split; [apply lookup_delete_eq|].
        exists new, n. split; [reflexivity|]. split; [exact Hd|].
        apply lookup_insert_eq.
    + intros [= <- <-]. cbn [fst snd].
      split; [repeat split|]. split; [reflexivity|]. split; [reflexivity|].
      split; [auto|]. eexists. split; [reflexivity|]. split; [reflexivity|].
      right. split; reflexivity.
  - intros [= <- <-]. split; [repeat split|]. split; [reflexivity|].
    split; [reflexivity|]. split; [auto|]. split; reflexivity.
Qed.

(** The loop over the files: the lists, the errors, the names outside the
    files and the quarantine stay; the operations are noted in order. *)
Lemma clean_files_frame (files : list string) :
  forall c ds c' ds',
    ImageCleaner.clean_files c ds files = OK (c', ds') ->
    same_lists c c'
    /\ ImageCleaner.errors c' = ImageCleaner.errors c
    /\ (forall g, ~ In g files -> fst ds' !! g = fst ds !! g)
    /\ (forall g n, snd ds !! g = Some n -> snd ds' !! g = Some n)
    /\ exists ops,
         ImageCleaner.cleaned c' = (ImageCleaner.cleaned c ++ ops)%list
         /\ List.map co_targetFile ops = List.filter (swept c) files
         /\ ImageCleaner.totalActionsExecuted c'
            = ImageCleaner.totalActionsExecuted c + Z.of_nat (length ops).
Proof.
  induction files as [|f files IH]; intros c ds c' ds';
    cbn [ImageCleaner.clean_files].
  - intros [= <- <-]. split; [repeat split|]. split; [reflexivity|].
    split; [reflexivity|]. split; [auto|]. exists []. rewrite app_nil_r.
    repeat split. cbn. lia.
  - destruct (ImageCleaner.clean_file c ds f) as [[c1 ds1]|] eqn:Hstep; [|discriminate].
    cbn [bind fst snd]. intros Hrest.
    destruct (clean_file_step _ _ _ _ _ Hstep) as (Hl1 & He1 & Hs1 & Hd1 & Hout).
    destruct (IH _ _ _ _ Hrest) as (Hl2 & He2 & Hs2 & Hd2 & ops & Hops & Hnames & Hcount).
    split.
    { destruct Hl1 as (? & ? & ? & ?), Hl2 as (? & ? & ? & ?).
      repeat split; congruence. }
    split; [congruence|]. split.
    { intros g Hg. rewrite Hs2, Hs1; [reflexivity | |]; intros Hin; apply Hg;
        [left; congruence | now right]. }
    split; [auto|].
    assert (Hsw : List.filter (swept c1) files = List.filter (swept c) files).
    { apply filter_ext. intros g. unfold swept.
      now rewrite (same_lists_decide c c1 g Hl1). }
    cbn [List.filter]. unfold swept at 1.
    destruct (ImageCleaner.decide_file c f).
    + destruct Hout as (_ & _ & op & -> & Hop).
      exists (op :: ops). cbn [ImageCleaner.push_op ImageCleaner.cleaned
                               ImageCleaner.totalActionsExecuted] in *.
      rewrite Hops, <- app_assoc. split; [reflexivity|].
      cbn [List.map length]. rewrite Hop, Hnames, Hsw. split; [reflexivity | lia].
    + destruct Hout as (op & -> & Hop & _).
      exists (op :: ops). cbn [ImageCleaner.push_op ImageCleaner.cleaned
                               ImageCleaner.totalActionsExecuted] in *.
      rewrite Hops, <- app_assoc. split; [reflexivity|].
      cbn [List.map length]. rewrite Hop, Hnames, Hsw. split; [reflexivity | lia].
    + destruct Hout as [-> ->]. exists ops. rewrite Hops, Hnames.
      repeat split. exact Hcount.
Qed.

(** What the loop does to a file that is in the list once. *)
Lemma clean_files_outcome (files : list string) :
  forall c ds c' ds' f data,
    ImageCleaner.clean_files c ds files = OK (c', ds') ->
    List.NoDup files -> In f files ->
    fst ds !! f = Some (File data) ->
    sweep_outcome c c' ds ds' f data.
Proof.
  induction files as [|x files IH]; intros c ds c' ds' f data Hrun Hnd Hin Hf;
    [destruct Hin|].
  cbn [ImageCleaner.clean_files] in Hrun.
  destruct (ImageCleaner.clean_file c ds x) as [[c1 ds1]|] eqn:Hstep; [|discriminate].
  cbn [bind fst snd] in Hrun.
  destruct (clean_file_step _ _ _ _ _ Hstep) as (Hl1 & He1 & Hs1 & Hd1 & Hout).
  destruct (clean_files_frame _ _ _ _ _ Hrun) as (Hl2 & He2 & Hs2 & Hd2 & ops & Hops & _).
  inversion Hnd as [|? ? Hx Hnd']; subst.
  destruct (string_dec x f) as [->|Hne].
  - unfold sweep_outcome. rewrite (Hs2 f Hx).
    destruct (ImageCleaner.decide_file c f).
    + tauto.
    + destruct Hout as (op & -> & Hop & [(Hok & Hgone & g & n & Hn & Hfree & Hg)|[Hbad ->]]).
      * left. split; [exact Hgone|]. exists g. split; [exact Hfree|].
        rewrite Hf in Hn. injection Hn as <-. now apply Hd2.
      * right. split; [exact Hf|]. exists op. split; [|auto].
        rewrite Hops. apply in_or_app. left.
        cbn [ImageCleaner.push_op ImageCleaner.cleaned]. apply in_or_app.
        right. now left.
    + destruct Hout as [_ ->]. exact Hf.
  - destruct Hin as [Hin|Hin]; [congruence|].
    assert (Hf1 : fst ds1 !! f = Some (File data)).
    { rewrite Hs1; [exact Hf | congruence]. }
    pose proof (IH _ _ _ _ _ _ Hrun Hnd' Hin Hf1) as Hrec.
    unfold sweep_outcome in *. rewrite (same_lists_decide c c1 f Hl1) in Hrec.
    destruct (ImageCleaner.decide_file c f); try exact Hrec.
    destruct Hrec as [[Hgone (g & Hfree & Hg)]|Hkept]; [left | right; exact Hkept].
    split; [exact Hgone|]. exists g. split; [|exact Hg].
    destruct (snd ds !! g) as [n|] eqn:Hn; [|reflexivity].
    rewrite (Hd1 g n Hn) in Hfree. discriminate.
Qed.

Lemma run_loop (c c' : ImageCleaner.t) (ds ds' : ImageCleaner.dirs) :
  ImageCleaner.run c ds = OK (c', ds') ->
  exists c0 c1 total,
    same_lists c c0
    /\ ImageCleaner.cleaned c0 = [] /\ ImageCleaner.errors c0 = []
    /\ ImageCleaner.totalActionsExecuted c0 = 0
    /\ ImageCleaner.clean_files c0 ds (FS.getDirEntries (fst ds)) = OK (c1, ds')
    /\ c' = ImageCleaner.set_run c1 false true total.
Proof.
  unfold ImageCleaner.run. destruct (ImageCleaner.map_ c); [|discriminate].
  destruct (negb (ImageCleaner.path_set c)); [discriminate|].
  destruct (negb (ImageCleaner.cleanedPath_set c)); [discriminate|].
  destruct (ImageCleaner.clean_files _ ds _) as [[c1 ds1]|] eqn:Hloop; [|discriminate].
  cbn [bind fst snd]. intros [= <- <-].
  eexists _, c1, _. split; [|split; [|split; [|split; [|split; [exact Hloop | reflexivity]]]]];
    try reflexivity.
  repeat split.
Qed.

(** X19. What the sweeper does to each regular file of the image directory
    follows its test of the name: a file it leaves is there as before, a file
    it removes is gone, and a file it moves is gone from the image directory
    and its content is in the quarantine under a name that was free before
    the run, or else it is still in the image directory and the failed move
    is noted as an operation with status error. *)
Theorem sweeper_outcome_per_file (c c' : ImageCleaner.t)
    (ds ds' : ImageCleaner.dirs) (f data : string) :
  ImageCleaner.run c ds = OK (c', ds') ->
  fst ds !! f = Some (File data) ->
  sweep_outcome c c' ds ds' f data.
Proof.
  intros Hrun Hf.
  destruct (run_loop c c' ds ds' Hrun) as (c0 & c1 & total & Hl & _ & _ & _ & Hloop & ->).
  assert (Hin : In f (FS.getDirEntries (fst ds))) by (apply getDirEntries_In; eauto).
  pose proof (clean_files_outcome _ _ _ _ _ f data Hloop
                (getDirEntries_NoDup (fst ds)) Hin Hf) as H.
  unfold sweep_outcome in *. rewrite (same_lists_decide c c0 f Hl) in H. exact H.
Qed.

Lemma sweeper_outcome_per_file_witness :
  exists c' ds',
    ImageCleaner.run swept_cleaner (swept_images, ∅) = OK (c', ds')
    /\ fst ds' !! "1721_photo.jpg" = Some (File "JFIF-photo")
    /\ fst ds' !! "stray.jpg" = None
    /\ exists g, snd ds' !! g = Some (File "JFIF-stray").
Proof.
  destruct (ImageCleaner.run swept_cleaner (swept_images, ∅)) as [[c' ds']|] eqn:Hrun;
    [|vm_compute in Hrun; discriminate].
  exists c', ds'. split; [reflexivity|].
  pose proof (sweeper_outcome_per_file _ _ _ _ "1721_photo.jpg" "JFIF-photo" Hrun
                ltac:(vm_compute; reflexivity)) as H1.
  pose proof (sweeper_outcome_per_file _ _ _ _ "stray.jpg" "JFIF-stray" Hrun
                ltac:(vm_compute; reflexivity)) as H2.
  unfold sweep_outcome in H1, H2.
  change (ImageCleaner.decide_file swept_cleaner "1721_photo.jpg")
    with ImageCleaner.Leave in H1.
  change (ImageCleaner.decide_file swept_cleaner "stray.jpg")
    with ImageCleaner.Quarantine in H2.
  split; [exact H1|].
  destruct H2 as [[Hgone (g & _ & Hg)]|[Hkept (op & Hop & _ & Hbad)]].
  - split; [exact Hgone | eauto].
  - exfalso. vm_compute in Hrun. injection Hrun as <- <-.
    cbn in Hop. destruct Hop as [<-|[]]. discriminate Hbad.
Defined.

(** X20. The sweeper never overwrites and never touches what is not a
    regular file of the image directory: every entry of the quarantine is
    after the run what it was before, and so is every name of the image
    directory that is a directory (as [data]) or that is not there. *)
Theorem sweeper_never_overwrites (c c' : ImageCleaner.t)
    (ds ds' : ImageCleaner.dirs) :
  ImageCleaner.run c ds = OK (c', ds') ->
  (forall g n, snd ds !! g = Some n -> snd ds' !! g = Some n)
  /\ (forall g, FS.fileExists (fst ds) g = false -> fst ds' !! g = fst ds !! g).
Proof.
  intros Hrun.
  destruct (run_loop c c' ds ds' Hrun) as (c0 & c1 & total & _ & _ & _ & _ & Hloop & _).
  destruct (clean_files_frame _ _ _ _ _ Hloop) as (_ & _ & Hs & Hd & _).
  split; [exact Hd|]. intros g Hg. apply Hs. rewrite getDirEntries_In.
  intros [data Hdata]. unfold FS.fileExists in Hg. rewrite Hdata in Hg. discriminate.
Qed.

Lemma sweeper_never_overwrites_witness :
  exists c' ds',
    ImageCleaner.run swept_cleaner (swept_images, ∅) = OK (c', ds')
    /\ fst ds' !! "data" = Some Dir.
Proof.
  destruct (ImageCleaner.run swept_cleaner (swept_images, ∅)) as [[c' ds']|] eqn:Hrun;
    [|vm_compute in Hrun; discriminate].
  exists c', ds'. split; [reflexivity|].
  destruct (sweeper_never_overwrites _ _ _ _ Hrun) as [_ H].
  rewrite (H "data"); vm_compute; reflexivity.
Defined.

(** X21. The report of a run of the sweeper: one operation is noted, in the
    order of the directory listing, for each file that the sweeper removes
    or moves, and none for the files it leaves; the count of executed
    actions is the number of noted operations; and the list of errors is
    empty, also when a move has failed (a failed move is an operation with
    status error), so that the cleaner never raises [totalCleanErrors]. *)
Theorem sweeper_report (c c' : ImageCleaner.t) (ds ds' : ImageCleaner.dirs) :
  ImageCleaner.run c ds = OK (c', ds') ->
  List.map co_targetFile (ImageCleaner.cleaned c')
  = List.filter (swept c) (FS.getDirEntries (fst ds))
  /\ ImageCleaner.totalActionsExecuted c'
     = Z.of_nat (length (ImageCleaner.cleaned c'))
  /\ ImageCleaner.errors c' = []
  /\ ImageCleaner.isRunning c' = false /\ ImageCleaner.wasRan c' = true.
Proof.
  intros Hrun.
  destruct (run_loop c c' ds ds' Hrun)
    as (c0 & c1 & total & Hl & Hc0 & He0 & Ht0 & Hloop & ->).
  destruct (clean_files_frame _ _ _ _ _ Hloop) as (_ & He & _ & _ & ops & Hops & Hn & Hcount).
  cbn [ImageCleaner.set_run ImageCleaner.cleaned ImageCleaner.totalActionsExecuted
       ImageCleaner.errors ImageCleaner.isRunning ImageCleaner.wasRan].
  rewrite Hc0 in Hops. cbn [app] in Hops. rewrite Hops, Hn, Hcount, Ht0, He, He0.
  split; [|repeat split; lia].
  apply filter_ext. intros g. unfold swept. now rewrite (same_lists_decide c c0 g Hl).
Qed.

Lemma sweeper_report_witness :
  exists c' ds',
    ImageCleaner.run swept_cleaner (swept_images, ∅) = OK (c', ds')
    /\ List.map co_targetFile (ImageCleaner.cleaned c') = ["stray.jpg"]
    /\ ImageCleaner.errors c' = [].
Proof.
  destruct (ImageCleaner.run swept_cleaner (swept_images, ∅)) as [[c' ds']|] eqn:Hrun;
    [|vm_compute in Hrun; discriminate].
  exists c', ds'. split; [reflexivity|].
  destruct (sweeper_report _ _ _ _ Hrun) as (Hops & _ & Herr & _).
  split; [|exact Herr]. rewrite Hops. vm_compute. reflexivity.
Defined.

(** X22. With the toggle [deleteImages] off the sweeper loses no content:
    whatever a regular file of the image directory holds before the run is
    held after the run by the same file or by a file of the quarantine. *)
Theorem sweeper_loses_nothing_when_moving (c c' : ImageCleaner.t)
    (ds ds' : ImageCleaner.dirs) (f data : string) :
  ImageCleaner.run c ds = OK (c', ds') ->
  ImageCleaner.deleteImages_ c = false ->
  fst ds !! f = Some (File data) ->
  fst ds' !! f = Some (File data) \/ exists g, snd ds' !! g = Some (File data).
Proof.
  intros Hrun Hoff Hf.
  destruct (run_loop c c' ds ds' Hrun) as (c0 & c1 & total & Hl & _ & _ & _ & Hloop & ->).
  assert (Hin : In f (FS.getDirEntries (fst ds))) by (apply getDirEntries_In; eauto).
  pose proof (clean_files_outcome _ _ _ _ _ f data Hloop
                (getDirEntries_NoDup (fst ds)) Hin Hf) as H.
  unfold sweep_outcome in H. rewrite (same_lists_decide c c0 f Hl) in H.
  unfold ImageCleaner.decide_file in H. rewrite Hoff in H.
  destruct (negb (ImageCleaner.inb f (ImageCleaner.keeps c))
            && negb (ImageCleaner.inb f (ImageCleaner.deletes c)));
    [|destruct (ImageCleaner.inb f (ImageCleaner.nones c))].
  - destruct H as [[_ (g & _ & Hg)]|[Hk _]]; eauto.
  - destruct H as [[_ (g & _ & Hg)]|[Hk _]]; eauto.
  - now left.
Qed.

Lemma sweeper_loses_nothing_when_moving_witness :
  exists c' ds',
    ImageCleaner.run swept_cleaner (swept_images, ∅) = OK (c', ds')
    /\ (fst ds' !! "stray.jpg" = Some (File "JFIF-stray")
        \/ exists g, snd ds' !! g = Some (File "JFIF-stray")).
Proof.
  destruct (ImageCleaner.run swept_cleaner (swept_images, ∅)) as [[c' ds']|] eqn:Hrun;
    [|vm_compute in Hrun; discriminate].
  exists c', ds'. split; [reflexivity|].
  apply (sweeper_loses_nothing_when_moving _ _ _ _ "stray.jpg" "JFIF-stray" Hrun);
    vm_compute; reflexivity.
Defined.

(** ** configs/globals.js: the counters and the name lists of [updateImages] *)

Section ExecutorCounters.

Context (E : env) (cfg : configs) (uid assetName : string).

Lemma names_grow_refl (st st' : state) :
  imageNamesToKeep st' = imageNamesToKeep st ->
  imageNamesToDelete st' = imageNamesToDelete st ->
  names_grow st st'.
Proof. intros Hk Hd. split; now left. Qed.

Lemma read_attachment_map_counts (rid : Z) (e_key : string) (st : state) :
  same_counts st (fst (Update.read_attachment_map cfg uid rid e_key st))
  /\ imageNamesToKeep (fst (Update.read_attachment_map cfg uid rid e_key st))
     = imageNamesToKeep st
  /\ imageNamesToDelete (fst (Update.read_attachment_map cfg uid rid e_key st))
     = imageNamesToDelete st.
Proof.
  unfold Update.read_attachment_map, same_counts. mred.
  destruct (attachmentsMap (disk st) !! (rid, e_key)) as [f|]; cbn [fst];
    [|repeat split].
  destruct (StateRecord.parseJSONFile f) as [v|e]; cbn [fst]; [|repeat split].
  destruct (StateRecord.isValidAttachmentMap v) as [[|]|e]; cbn [negb fst];
    repeat split.
Qed.

(** A keep entry: an error is noted, and the name is claimed at most. *)
Lemma keep_case_summary (rid : Z) (e_key : string) (e_value : entry)
    (cur : jsval) (has : bool) (st : state) :
  (has = true -> StateRecord.isValidAttachmentMap cur = OK true) ->
  exists stx msg r,
    Update.keep_case E cfg uid assetName rid e_key e_value cur has st
    = (push_error stx msg, OK r)
    /\ r_status_ok r = false
    /\ same_counts st stx
    /\ imageNamesToDelete stx = imageNamesToDelete st
    /\ (imageNamesToKeep stx = imageNamesToKeep st
        \/ (~ In (Update.img_new_name rid e_value) (imageNamesToKeep st)
            /\ imageNamesToKeep stx
               = (imageNamesToKeep st ++ [Update.img_new_name rid e_value])%list)).
Proof.
  intros Hvalid.
  set (name := Update.img_new_name rid e_value).
  destruct (attachment e_value) as [a|] eqn:Ha.
  2:{ unfold Update.keep_case, Update.keep_try, Update.on_error. rewrite Ha. mred.
      eexists st, _, _. split; [reflexivity|]. split; [reflexivity|].
      split; [repeat split|]. split; [reflexivity | now left]. }
  destruct (ImageCleaner.inb name (imageNamesToKeep st)) eqn:Hdup.
  { apply inb_In in Hdup.
    rewrite (keep_case_duplicate E cfg uid assetName rid e_key e_value a cur has st Ha Hdup).
    cbv zeta. eexists _, _, _. split; [reflexivity|]. split; [reflexivity|].
    split; [repeat split|]. split; [reflexivity | now left]. }
  apply inb_not_In in Hdup.
  destruct (images (disk st) !! name) as [[data|]|] eqn:Hfile.
  2:{ pose proof Hdup as Hdup'. apply inb_not_In in Hdup'.
      unfold Update.keep_case, Update.keep_try, Update.claim_keep, Update.image_exists,
        Update.on_error.
      rewrite Ha. fold name. mred. rewrite Hdup'.
      unfold FS.fileExists, FS.pathExists. cbn [disk set_names]. rewrite Hfile.
      cbn [negb andb]. eexists (claimed st name), _, _.
      split; [reflexivity|]. split; [reflexivity|]. split; [repeat split|].
      split; [reflexivity|]. right. split; [exact Hdup | reflexivity]. }
  all: destruct (keep_try_decides E cfg uid assetName rid e_key e_value a cur has st Ha Hdup)
         as (fresh & Hfresh & Htry);
       [fold name; rewrite Hfile; discriminate | exact Hvalid |];
       fold name in Hfresh, Htry;
       unfold Update.keep_case, try_catch; rewrite Htry;
       destruct fresh.
  - assert (Hhas : has = true).
    { destruct (proj1 Hfresh eq_refl) as (d & _ & H & _). exact H. }
    destruct (valid_record_fields cur (Hvalid Hhas)) as ((l & Hl) & _).
    destruct (keep_up_to_date_throws e_value cur l (claimed st name) Hl) as (e & ->).
    unfold Update.on_error. mred. eexists (claimed st name), _, _.
    split; [reflexivity|]. split; [reflexivity|]. split; [repeat split|].
    split; [reflexivity|]. right. split; [exact Hdup | reflexivity].
  - destruct (keep_download_throws E cfg uid assetName rid e_key e_value a name
                (claimed st name)) as (e & -> & _).
    unfold Update.on_error. mred. eexists (set_disk (claimed st name) _), _, _.
    split; [reflexivity|]. split; [reflexivity|]. split; [repeat split|].
    split; [reflexivity|]. right. split; [exact Hdup | reflexivity].
  - destruct (proj1 Hfresh eq_refl) as (d & Hd & _). rewrite Hfile in Hd. discriminate Hd.
  - destruct (keep_download_throws E cfg uid assetName rid e_key e_value a name
                (claimed st name)) as (e & -> & _).
    unfold Update.on_error. mred. eexists (set_disk (claimed st name) _), _, _.
    split; [reflexivity|]. split; [reflexivity|]. split; [repeat split|].
    split; [reflexivity|]. right. split; [exact Hdup | reflexivity].
Qed.

(** A delete entry: it is counted once, as a delete, a none or an error, and
    the name of its state record is claimed at most. *)
Lemma delete_case_summary (e_value : entry) (cur : jsval) (has : bool) (st : state) :
  exists st' r,
    Update.delete_case E cfg uid assetName e_value cur has st = (st', OK r)
    /\ tally st' = tally st + 1
    /\ action_count st' = action_count st + 1
    /\ downloads st' = downloads st /\ upToDate st' = upToDate st
    /\ names_grow st st'.
Proof.
  unfold Update.delete_case, Update.delete_try, Update.claim_delete, Update.on_error.
  destruct has; mred.
  2:{ eexists _, _. split; [reflexivity|]. unfold tally. cbn. repeat split; try lia.
      all: now left. }
  set (name := show (get cur "imageName")).
  destruct (ImageCleaner.inb name (imageNamesToKeep st)) eqn:Hk.
  { eexists _, _. split; [reflexivity|]. unfold tally. cbn.
    rewrite length_app. cbn. repeat split; try lia. all: now left. }
  destruct (ImageCleaner.inb name (imageNamesToDelete st)) eqn:Hd.
  { eexists _, _. split; [reflexivity|]. unfold tally. cbn.
    rewrite length_app. cbn. repeat split; try lia. all: now left. }
  apply inb_not_In in Hk, Hd.
  assert (Hgrow : forall st', imageNamesToKeep st' = imageNamesToKeep st ->
                    imageNamesToDelete st' = (imageNamesToDelete st ++ [name])%list ->
                    names_grow st st').
  { intros st' H1 H2. split; [now left|]. right. exists name. auto. }
  cbn [disk set_names].
  destruct (FS.fileExists (images (disk st)) name).
  2:{ eexists _, _. split; [reflexivity|]. unfold tally. cbn.
      repeat split; try lia. all: apply Hgrow; reflexivity. }
  destruct (Hash.isValidFileHash _ _ _ _) as [[|]|e]; cbn [negb].
  - destruct (deleteImages cfg).
    + eexists _, _. split; [reflexivity|]. unfold tally. cbn.
      repeat split; try lia. all: apply Hgrow; reflexivity.
    + cbn [disk set_names].
      destruct (FS.mvFile _ _ _ _) as [[d d']|e].
      * eexists _, _. split; [reflexivity|]. unfold tally. cbn.
        repeat split; try lia. all: apply Hgrow; reflexivity.
      * eexists _, _. split; [reflexivity|]. unfold tally. cbn.
        rewrite length_app. cbn. repeat split; try lia. all: apply Hgrow; reflexivity.
  - eexists _, _. split; [reflexivity|]. unfold tally. cbn.
    rewrite length_app. cbn. repeat split; try lia. all: apply Hgrow; reflexivity.
  - eexists _, _. split; [reflexivity|]. unfold tally. cbn.
    rewrite length_app. cbn. repeat split; try lia. all: apply Hgrow; reflexivity.
Qed.

(** One entry: the name lists grow at most; when the entry ends without an
    uncaught error it is counted once. *)
Lemma exec_entry_summary (rid : Z) (kv : string * entry) (st : state) :
  names_grow st (fst (Update.exec_entry E cfg uid assetName rid kv st))
  /\ forall r, snd (Update.exec_entry E cfg uid assetName rid kv st) = OK r ->
       tally (fst (Update.exec_entry E cfg uid assetName rid kv st)) = tally st + 1
       /\ action_count (fst (Update.exec_entry E cfg uid assetName rid kv st))
          = action_count st + 1
       /\ downloads (fst (Update.exec_entry E cfg uid assetName rid kv st)) = downloads st
       /\ upToDate (fst (Update.exec_entry E cfg uid assetName rid kv st)) = upToDate st.
Proof.
  destruct kv as [e_key e_value]. unfold Update.exec_entry. cbn [fst snd].
  unfold bindM at 1. unfold lift.
  destruct (Update.entry_checks e_value); cbn [fst snd];
    [|split; [now apply names_grow_refl | discriminate]].
  unfold bindM.
  destruct (read_attachment_map_counts rid e_key st) as (Hc & Hk & Hd).
  destruct (read_attachment_map_disk cfg uid rid e_key st) as [_ Hv].
  destruct (Update.read_attachment_map cfg uid rid e_key st) as [st1 [[cur has]|e]];
    cbn [fst snd] in *; [|split; [now apply names_grow_refl | discriminate]].
  destruct Hc as (H1 & H2 & H3 & H4 & H5 & H6).
  assert (Ht : tally st1 = tally st) by (unfold tally; congruence).
  destruct (action e_value).
  - destruct (keep_case_summary rid e_key e_value cur has st1)
      as (stx & msg & r & -> & _ & (X1 & X2 & X3 & X4 & X5 & X6) & Xd & Xk).
    { intros ->. now apply Hv. }
    cbn [fst snd]. split.
    + split.
      * cbn [push_error imageNamesToKeep]. rewrite <- Hk.
        destruct Xk as [->|[Hn ->]]; [now left|]. right. eexists. split; [exact Hn|].
        reflexivity.
      * left. cbn [push_error imageNamesToDelete]. congruence.
    + intros _ _. unfold tally in *.
      cbn [push_error downloads upToDate deletes nones errors action_count].
      rewrite length_app. cbn [length].
      rewrite X1, X2, X3, X4, X5, X6, H1, H2, H3, H4, H5, H6.
      repeat split; lia.
  - destruct (delete_case_summary e_value cur has st1) as (st' & r & -> & T & A & D & U & G).
    cbn [fst snd]. split.
    + destruct G as [Gk Gd]. rewrite Hk, Hd in *. split; assumption.
    + intros _ _. repeat split; congruence.
  - unfold Update.none_case. mred. cbn [fst snd]. split.
    + apply names_grow_refl; cbn; assumption.
    + intros _ _. unfold tally in *.
      cbn [set_counters downloads upToDate deletes nones errors action_count].
      rewrite H1, H2, H3, H4, H5, H6. repeat split; lia.
Qed.

Lemma NoDup_snoc {A : Type} (l : list A) (n : A) :
  List.NoDup l -> ~ In n l -> List.NoDup (l ++ [n]).
Proof.
  induction l as [|x l IH]; cbn [app]; intros Hnd Hn.
  - constructor; [intros [] | constructor].
  - inversion Hnd as [|? ? Hx Hl]; subst. constructor.
    + intros Hin. apply in_app_or in Hin. destruct Hin as [Hin|[<-|[]]];
        [contradiction | apply Hn; now left].
    + apply IH; [exact Hl | intros Hin; apply Hn; now right].
Qed.

Lemma names_grow_NoDup (st st' : state) :
  names_grow st st' ->
  List.NoDup (imageNamesToKeep st) /\ List.NoDup (imageNamesToDelete st) ->
  List.NoDup (imageNamesToKeep st') /\ List.NoDup (imageNamesToDelete st').
Proof.
  intros [Hk Hd] [Nk Nd]. split.
  - destruct Hk as [->|(n & Hn & ->)]; [exact Nk|].
    apply NoDup_snoc; auto.
  - destruct Hd as [->|(n & _ & Hn & ->)]; [exact Nd|].
    apply NoDup_snoc; auto.
Qed.

Lemma exec_entries_summary (rid : Z) (entries : list (string * entry)) :
  forall acc st,
    (List.NoDup (imageNamesToKeep st) /\ List.NoDup (imageNamesToDelete st) ->
     List.NoDup (imageNamesToKeep
                   (fst (Update.exec_entries E cfg uid assetName rid entries acc st)))
     /\ List.NoDup (imageNamesToDelete
                      (fst (Update.exec_entries E cfg uid assetName rid entries acc st))))
    /\ forall out,
         snd (Update.exec_entries E cfg uid assetName rid entries acc st) = OK out ->
         tally (fst (Update.exec_entries E cfg uid assetName rid entries acc st))
         = tally st + Z.of_nat (length entries)
         /\ action_count (fst (Update.exec_entries E cfg uid assetName rid entries acc st))
            = action_count st + Z.of_nat (length entries).
Proof.
  induction entries as [|kv entries IH]; intros acc st; cbn [Update.exec_entries].
  - cbn [ret fst snd length]. split; [auto|]. intros _ _. lia.
  - unfold bindM at 1 2 3 4 5.
    destruct (exec_entry_summary rid kv st) as [Hg Hc].
    destruct (Update.exec_entry E cfg uid assetName rid kv st) as [st1 [r|e]];
      cbn [fst snd] in *.
    + destruct (IH (set_prop (fst kv) r acc) st1) as [Hn Ht].
      destruct (Hc r eq_refl) as (T & A & _ & _). split.
      * intros H. apply Hn. exact (names_grow_NoDup st st1 Hg H).
      * intros out Hout. destruct (Ht out Hout) as [T' A']. cbn [length]. lia.
    + split; [exact (names_grow_NoDup st st1 Hg) | discriminate].
Qed.

Lemma exec_map_summary (m : list emap) :
  forall acc st,
    (List.NoDup (imageNamesToKeep st) /\ List.NoDup (imageNamesToDelete st) ->
     List.NoDup (imageNamesToKeep (fst (Update.exec_map E cfg uid assetName m acc st)))
     /\ List.NoDup (imageNamesToDelete
                      (fst (Update.exec_map E cfg uid assetName m acc st))))
    /\ forall out,
         snd (Update.exec_map E cfg uid assetName m acc st) = OK out ->
         tally (fst (Update.exec_map E cfg uid assetName m acc st))
         = tally st + entries_of m
         /\ action_count (fst (Update.exec_map E cfg uid assetName m acc st))
            = action_count st + entries_of m.
Proof.
  induction m as [|em m IH]; intros acc st; cbn [Update.exec_map].
  - cbn [ret fst snd]. unfold entries_of. cbn. split; [auto|]. intros _ _. lia.
  - unfold bindM at 1 2 3 4 5. unfold lift. rewrite check_number_ok.
    unfold bindM at 1 2 3 4 5.
    destruct (exec_entries_summary (emap_id em) (emap_entries em) [] st) as [Hn Ht].
    destruct (Update.exec_entries E cfg uid assetName (emap_id em) (emap_entries em) [] st)
      as [st1 [r|e]]; cbn [fst snd] in *.
    + destruct (IH (acc ++ [(emap_id em, r)])%list st1) as [Hn' Ht']. split.
      * intros H. apply Hn', Hn, H.
      * intros out Hout. destruct (Ht r eq_refl) as [T A].
        destruct (Ht' out Hout) as [T' A'].
        unfold entries_of in *. cbn [flat_map]. rewrite length_app. lia.
    + split; [exact Hn | discriminate].
Qed.

(** X23. When the loop over the action map of an asset ends without an
    uncaught error, every entry of the map has been counted exactly once:
    the actions of the report (downloads, up to date, deletes and nones)
    and the errors add up to the number of entries, and so does the running
    number of the report lines. *)
Theorem every_entry_is_counted_once (m : list emap) (w : world) (st' : state)
    (out : list (Z * list (string * result_entry))) :
  Update.exec_map E cfg uid assetName m [] (init w) = (st', OK out) ->
  downloads st' + upToDate st' + deletes st' + nones st'
  + Z.of_nat (length (errors st')) = entries_of m
  /\ action_count st' = entries_of m.
Proof.
  intros H. destruct (exec_map_summary m [] (init w)) as [_ Ht].
  rewrite H in Ht. cbn [fst snd] in Ht. destruct (Ht out eq_refl) as [T A].
  unfold tally in T. cbn [init downloads upToDate deletes nones errors action_count
                          length] in T, A.
  split; lia.
Qed.

(** X24. No name is claimed twice in the run over an asset: at the end of
    the loop over the action map, also when an uncaught error has ended it,
    the list of the names to keep has no name twice, and neither has the
    list of the names to delete. *)
Theorem claimed_names_are_distinct (m : list emap) (w : world) (st' : state)
    (out : res (list (Z * list (string * result_entry)))) :
  Update.exec_map E cfg uid assetName m [] (init w) = (st', out) ->
  List.NoDup (imageNamesToKeep st') /\ List.NoDup (imageNamesToDelete st').
Proof.
  intros H. destruct (exec_map_summary m [] (init w)) as [Hn _].
  rewrite H in Hn. cbn [fst] in Hn. apply Hn. split; constructor.
Qed.

End ExecutorCounters.

Lemma every_entry_is_counted_once_witness :
  exists st' out,
    Update.exec_map example_env (example_configs false) "aeUTa3g2VzbPP5SGoTx8Rp"
      "survey" scenario_emap [] (init empty_world) = (st', OK out)
    /\ downloads st' + upToDate st' + deletes st' + nones st'
       + Z.of_nat (length (errors st')) = 2.
Proof.
  destruct (Update.exec_map example_env (example_configs false) "aeUTa3g2VzbPP5SGoTx8Rp"
              "survey" scenario_emap [] (init empty_world)) as [st' [out|e]] eqn:H;
    [|vm_compute in H; discriminate].
  exists st', out. split; [reflexivity|].
  exact (proj1 (every_entry_is_counted_once _ _ _ _ _ _ _ _ H)).
Defined.

Lemma claimed_names_are_distinct_witness :
  exists st' out,
    Update.exec_map example_env (example_configs false) "aeUTa3g2VzbPP5SGoTx8Rp"
      "survey" scenario_emap [] (init empty_world) = (st', out)
    /\ List.NoDup (imageNamesToKeep st').
Proof.
  destruct (Update.exec_map example_env (example_configs false) "aeUTa3g2VzbPP5SGoTx8Rp"
              "survey" scenario_emap [] (init empty_world)) as [st' out] eqn:H.
  exists st', out. split; [reflexivity|].
  exact (proj1 (claimed_names_are_distinct _ _ _ _ _ _ _ _ H)).
Defined.

(** ** modules/kobo-imgs-fs.js: a download that succeeds *)

Section SaveImage.

Context (E : env) (cfg : configs).

(** A turn of the cycle writes at most the target file, and never turns it
    into a directory. *)
Lemma attempt_images (w : world) (url name : string) :
  (forall g, g <> name ->
     images (fst (ImgsFs.attempt E w url name)) !! g = images w !! g)
  /\ (images w !! name <> Some Dir ->
      images (fst (ImgsFs.attempt E w url name)) !! name <> Some Dir).
Proof.
  assert (Hsame : (forall g, g <> name -> images w !! g = images w !! g)
                  /\ (images w !! name <> Some Dir -> images w !! name <> Some Dir))
    by (split; [reflexivity | auto]).
  assert (Hins : forall data,
            (forall g, g <> name ->
               <[name := File data]> (images w) !! g = images w !! g)
            /\ (images w !! name <> Some Dir ->
                <[name := File data]> (images w) !! name <> Some Dir)).
  { intros data. split.
    - intros g Hg. apply lookup_insert_ne. congruence.
    - intros _. rewrite lookup_insert_eq. discriminate. }
  unfold ImgsFs.attempt.
  destruct (download_ E (requests w)) as [[|d ds]|e]; cbn [fst images];
    [exact Hsame | | exact Hsame].
  destruct (check (contentLength d) ifExists TNumber) as [[]|]; cbn [fst images];
    [|exact Hsame].
  destruct (check (contentType d) ifExists TString) as [[]|]; cbn [fst images];
    [|exact Hsame].
  destruct (contentLength d) as [| | |len| | |]; cbn [fst images]; try exact Hsame.
  destruct (len =? 0); cbn [fst images]; [exact Hsame|].
  unfold ImgsFs.writeStream.
  destruct (images w !! name) as [[old|]|] eqn:Hold.
  - destruct (readStream d) as [data|e data];
      cbn [negb w_bytesRead w_contentLength];
      try (destruct (negb (str_len data =? len))); cbn [fst images]; apply Hins.
  - cbn [fst images]. rewrite Hold. exact Hsame.
  - destruct (readStream d) as [data|e data];
      cbn [negb w_bytesRead w_contentLength];
      try (destruct (negb (str_len data =? len))); cbn [fst images]; apply Hins.
Qed.

(** A turn of the cycle succeeds when the download delivers and the target
    is not a directory: the file then holds what the stream delivered, as
    many bytes as the content length. *)
Lemma attempt_delivered (w : world) (url name : string) :
  delivers (download_ E (requests w)) = true ->
  images w !! name <> Some Dir ->
  exists r data,
    snd (ImgsFs.attempt E w url name) = OK r
    /\ images (fst (ImgsFs.attempt E w url name)) !! name = Some (File data)
    /\ str_len data = w_contentLength r
    /\ w_bytesRead r = w_contentLength r
    /\ w_file_name r = name.
Proof.
  unfold ImgsFs.attempt, delivers.
  destruct (download_ E (requests w)) as [[|d ds]|e]; try discriminate.
  destruct (contentLength d) as [| | |len| | |] eqn:Hlen; try discriminate.
  destruct (readStream d) as [data|e data] eqn:Hs; try discriminate.
  intros H Hdir. apply andb_true_iff in H. destruct H as [H Htype].
  apply andb_true_iff in H. destruct H as [Hnz Hbytes].
  apply negb_true_iff in Hnz, Htype. apply Z.eqb_eq in Hbytes.
  assert (Hnum : check (JNum len) ifExists TNumber = OK tt).
  { unfold check. cbn [isOfType negb]. now rewrite andb_false_r. }
  rewrite Hnum. unfold check. rewrite Htype, Hnz.
  unfold ImgsFs.writeStream.
  destruct (images w !! name) as [[old|]|] eqn:Hold; [|congruence|];
    cbn [w_bytesRead w_contentLength];
    rewrite Hbytes, Z.eqb_refl; cbn [negb fst snd images];
    (exists {| w_contentLength := len; w_bytesRead := len; w_file_name := name;
               w_contentType := contentType d |}, data);
    (split; [reflexivity|]); (split; [apply lookup_insert_eq|]);
    cbn [w_contentLength w_bytesRead w_file_name]; auto.
Qed.

Lemma cycle_first_delivery (url name : string) (k : nat) :
  forall (fuel : nat) (w : world),
    (k < fuel)%nat ->
    images w !! name <> Some Dir ->
    delivers (download_ E (requests w + k)%nat) = true ->
    (forall j, (j < k)%nat -> delivers (download_ E (requests w + j)%nat) = false) ->
    exists w' r data,
      ImgsFs.cycle E fuel w url name = (w', Some r)
      /\ requests w' = (requests w + k + 1)%nat
      /\ images w' !! name = Some (File data)
      /\ str_len data = w_contentLength r
      /\ w_bytesRead r = w_contentLength r
      /\ (forall g, g <> name -> images w' !! g = images w !! g).
Proof.
  induction k as [|k IH]; intros fuel w Hk Hdir Hdel Hfail;
    (destruct fuel as [|fuel]; [lia|]); cbn [ImgsFs.cycle].
  - rewrite Nat.add_0_r in Hdel.
    destruct (attempt_delivered w url name Hdel Hdir) as (r & data & Hr & Hfile & Hlen & Hb & _).
    pose proof (attempt_requests E w url name) as Hreq.
    destruct (attempt_images w url name) as [Hframe _].
    destruct (ImgsFs.attempt E w url name) as [w1 res1]; cbn [fst snd] in *. subst res1.
    exists w1, r, data. repeat split; auto. lia.
  - pose proof (Hfail O ltac:(lia)) as H0. rewrite Nat.add_0_r in H0.
    destruct (attempt_not_delivered E w url name H0) as [e He].
    pose proof (attempt_requests E w url name) as Hreq.
    destruct (attempt_images w url name) as [Hframe Hkeep].
    destruct (ImgsFs.attempt E w url name) as [w1 res1]; cbn [fst snd] in *. subst res1.
    destruct (IH fuel w1) as (w' & r & data & Hc & Hr & Hfile & Hlen & Hb & Hfr).
    + lia.
    + auto.
    + rewrite Hreq. replace (S (requests w) + k)%nat with (requests w + S k)%nat by lia.
      exact Hdel.
    + intros j Hj. rewrite Hreq.
      replace (S (requests w) + j)%nat with (requests w + S j)%nat by lia.
      apply Hfail. lia.
    + exists w', r, data. split; [exact Hc|]. split; [lia|].
      split; [exact Hfile|]. split; [exact Hlen|]. split; [exact Hb|].
      intros g Hg. rewrite Hfr, Hframe; auto.
Qed.

(** X25. [saveImage] stops at the first download that delivers. If the
    target is not a directory and, of the downloads that the retries allow,
    the one after [k] failed turns is the first that delivers (a content
    length that is not zero, and a stream that closes after that many
    bytes), then [saveImage] returns after [k + 1] requests; the file then
    holds a complete picture, as many bytes as the content length of the
    result, and no other entry of the image directory has changed. *)
Theorem saveImage_stops_at_first_delivery (w : world) (url name : string) (k : nat) :
  url <> EmptyString -> name <> EmptyString ->
  images w !! name <> Some Dir ->
  (k < Z.to_nat (maxDownloadRetries cfg))%nat ->
  delivers (download_ E (requests w + k)%nat) = true ->
  (forall j, (j < k)%nat -> delivers (download_ E (requests w + j)%nat) = false) ->
  exists w' r data,
    ImgsFs.saveImage E cfg w url name = (w', OK r)
    /\ requests w' = (requests w + k + 1)%nat
    /\ images w' !! name = Some (File data)
    /\ str_len data = w_contentLength r
    /\ w_bytesRead r = w_contentLength r
    /\ (forall g, g <> name -> images w' !! g = images w !! g).
Proof.
  intros Hu Hn Hdir Hk Hdel Hfail. unfold ImgsFs.saveImage.
  rewrite (check_string_ok url Hu), (check_string_ok name Hn).
  destruct (cycle_first_delivery url name k _ w Hk Hdir Hdel Hfail)
    as (w' & r & data & -> & H).
  exists w', r, data. split; [reflexivity | exact H].
Qed.

End SaveImage.

Lemma saveImage_stops_at_first_delivery_witness :
  exists w' r,
    ImgsFs.saveImage retry_env (example_configs false) empty_world
      "https://kc.example/media/2395" "1721_photo.jpg" = (w', OK r)
    /\ requests w' = 3%nat
    /\ images w' !! "1721_photo.jpg" = Some (File "JFIF-photo").
Proof.
  destruct (saveImage_stops_at_first_delivery retry_env (example_configs false)
              empty_world "https://kc.example/media/2395" "1721_photo.jpg" 2)
    as (w' & r & data & Hs & Hr & Hf & _);
    [discriminate | discriminate | discriminate | cbn; lia | reflexivity | |].
  - intros [|[|j]] Hj; [reflexivity | reflexivity | lia].
  - exists w', r. split; [exact Hs|]. split; [exact Hr|].
    vm_compute in Hs. injection Hs as <- _. reflexivity.
Defined.
(** ** The configurations *)

Lemma snoc_not_nil {A : Type} (l : list A) (x : A) : (l ++ [x])%list <> [].
Proof. destruct l; discriminate. Qed.

Lemma js_or_truthy_r (a b : jsval) : truthy b = true -> truthy (Configs.js_or a b) = true.
Proof. unfold Configs.js_or. destruct (truthy a) eqn:E; auto. Qed.

(** X26. Without a configurations file [getConfigs] never returns: it throws
    for every program, environment and directory. When its checks pass and
    no KT_DELETE_IMAGES is set, a call with a token stops with a TypeError on
    the length of the filters, which are undefined, and a call without one on
    the message that filters or token are needed. *)
Theorem getConfigs_throws_without_config_file
    (parseFloat : string -> Configs.parsed) (stringify : list string -> string)
    (load : jsval -> jsval -> res jsval)
    (csv : jsval -> jsval -> res (list jsval))
    (program : jsval) (env_ : list (string * string)) (mainDir : jsval) :
  truthy (get program "configFile") = false ->
  (exists e, Configs.getConfigs parseFloat stringify load csv program env_ mainDir
             = Throw e)
  /\ (check program mustExists TObject = OK tt ->
      check mainDir mustExists TString = OK tt ->
      assoc "KT_DELETE_IMAGES" env_ = None ->
      if truthy (Configs.js_or (get program "token")
                   (js_opt_str (assoc "KT_TOKEN" env_)))
      then exists m,
          Configs.getConfigs parseFloat stringify load csv program env_ mainDir
          = Throw (TypeError m)
      else Configs.getConfigs parseFloat stringify load csv program env_ mainDir
           = Throw (Error "either 'filters' or 'token' should be properly configured")).
Proof.
  intros Hc.
  assert (Hapi : forall a b, truthy (Configs.js_or a (Configs.js_or b
                   (Configs.js_or JUndefined Configs.API_SERVER_URL))) = true).
  { intros. repeat apply js_or_truthy_r. reflexivity. }
  assert (Hmedia : forall a b, truthy (Configs.js_or a (Configs.js_or b
                   (Configs.js_or JUndefined Configs.MEDIA_SERVER_URL))) = true).
  { intros. repeat apply js_or_truthy_r. reflexivity. }
  assert (Htok : forall a b,
             truthy (Configs.js_or a (Configs.js_or b
               (Configs.js_or JUndefined (Configs.js_or JUndefined (JStr EmptyString)))))
             = truthy (Configs.js_or a b)).
  { intros a b. unfold Configs.js_or. destruct (truthy a) eqn:Ea; [now rewrite Ea|].
    destruct (truthy b) eqn:Eb; [now rewrite Eb|]. reflexivity. }
  unfold Configs.getConfigs. rewrite Hc.
  destruct (check program mustExists TObject) as [[]|e1]; cbn [bind].
  2:{ split; [eauto | discriminate]. }
  destruct (check mainDir mustExists TString) as [[]|e2]; cbn [bind].
  2:{ split; [eauto | discriminate]. }
  cbn [fst snd]. change (get (JObj []) ?k) with JUndefined.
  rewrite Hapi, Hmedia. cbn [negb]. rewrite Htok.
  change (truthy JUndefined) with false. cbn [negb andb].
  clear Hc Hapi Hmedia Htok.
  destruct (confirm (get program "deleteImages") c_defined).
  - cbn [bind].
    split.
    + destruct (truthy _); cbn; eauto.
    + intros _ _ _. destruct (truthy _); cbn; eauto.
  - destruct (assoc "KT_DELETE_IMAGES" env_) as [v|] eqn:Ev.
    + split; [|discriminate].
      destruct (String.eqb (Configs.toLowerCase v) "true"); cbn [bind].
      { destruct (truthy _); cbn; eauto. }
      destruct (String.eqb (Configs.toLowerCase v) "false"); cbn [bind].
      { destruct (truthy _); cbn; eauto. }
      eauto.
    + change (confirm (get (JObj []) "deleteImages") c_defined) with false.
      cbn [bind]. split.
      * destruct (truthy _); cbn; eauto.
      * intros _ _ _. destruct (truthy _); cbn; eauto.
Qed.

Lemma getConfigs_throws_without_config_file_witness :
  exists m,
    Configs.getConfigs (fun _ => Configs.NaN) (fun _ => EmptyString)
      (fun _ _ => OK JNull) (fun _ _ => OK [])
      (JObj [("token", JStr "0123456789abcdef")]) [] (JStr "/opt/kobo-tools")
    = Throw (TypeError m).
Proof.
  exact (proj2 (getConfigs_throws_without_config_file
                  (fun _ => Configs.NaN) (fun _ => EmptyString)
                  (fun _ _ => OK JNull) (fun _ _ => OK [])
                  (JObj [("token", JStr "0123456789abcdef")]) [] (JStr "/opt/kobo-tools")
                  eq_refl)
           eq_refl eq_refl eq_refl).
Defined.

Lemma existsb_Zeqb (z : Z) (l : list Z) : existsb (Z.eqb z) l = true <-> In z l.
Proof.
  rewrite existsb_exists. split.
  - intros (y & Hy & Heq). apply Z.eqb_eq in Heq. now subst.
  - intros H. exists z. split; [exact H | apply Z.eqb_refl].
Qed.

Section SubmissionIds.

Context (parseFloat : string -> Configs.parsed) (stringify : list string -> string).

(** An entry adds its id at the end of the output array unless the array
    has it, and an error when it has no id. *)
Lemma addSubmissionId_step (i : Z) (id : jsval) (ids : list Z) (errs : list string) :
  exists more errs',
    Configs.addSubmissionId parseFloat i id (ids, errs)
    = ((ids ++ more)%list, (errs ++ errs')%list)
    /\ (List.NoDup ids -> List.NoDup (ids ++ more))
    /\ (forall z, In z (ids ++ more) <-> In z ids \/ id_of parseFloat id = Some z)
    /\ (errs' = [] <-> id_of parseFloat id <> None).
Proof.
  assert (Hnew : forall z,
             (if negb (existsb (Z.eqb z) ids) then ((ids ++ [z])%list, errs) else (ids, errs))
             = ((ids ++ (if existsb (Z.eqb z) ids then [] else [z]))%list,
                (errs ++ [])%list)
             /\ (List.NoDup ids
                 -> List.NoDup (ids ++ (if existsb (Z.eqb z) ids then [] else [z])))
             /\ (forall z', In z' (ids ++ (if existsb (Z.eqb z) ids then [] else [z]))
                            <-> In z' ids \/ Some z = Some z')).
  { intros z. destruct (existsb (Z.eqb z) ids) eqn:E; cbn [negb].
    - apply existsb_Zeqb in E. rewrite !app_nil_r. repeat split; auto.
      intros [H|[= <-]]; auto.
    - assert (Hn : ~ In z ids) by (rewrite <- existsb_Zeqb, E; discriminate).
      rewrite app_nil_r. repeat split.
      + intros Hd. apply NoDup_snoc; assumption.
      + rewrite in_app_iff. cbn. intros [H|[->|[]]]; auto.
      + rewrite in_app_iff. cbn. intros [H|[= ->]]; auto. }
  assert (Hbad : forall m : string,
             id_of parseFloat id = None ->
             exists more errs',
               (ids, (errs ++ [m])%list) = ((ids ++ more)%list, (errs ++ errs')%list)
               /\ (List.NoDup ids -> List.NoDup (ids ++ more))
               /\ (forall z, In z (ids ++ more)
                             <-> In z ids \/ id_of parseFloat id = Some z)
               /\ (errs' = [] <-> id_of parseFloat id <> None)).
  { intros m Hid. exists [], [m]. rewrite app_nil_r, Hid.
    split; [reflexivity|]. split; [auto|]. split.
    - intros z. split; [auto | intros [H|H]; [exact H | discriminate H]].
    - split; [discriminate | intros H; now elim H]. }
  unfold Configs.addSubmissionId.
  destruct id as [| |b|z|s|l|o]; try (apply Hbad; reflexivity).
  - destruct (Hnew z) as (H1 & H2 & H3).
    eexists _, []. cbn [id_of]. split; [exact H1|]. repeat split; auto; try apply H3;
      try discriminate.
  - cbn [id_of] in Hbad |- *. destruct (parseFloat s) as [|z|] eqn:Ep.
    + apply Hbad. reflexivity.
    + destruct (Hnew z) as (H1 & H2 & H3).
      eexists _, []. split; [exact H1|]. repeat split; auto; try apply H3;
        try discriminate.
    + apply Hbad. reflexivity.
Qed.

Lemma addSubmissionIds_loop_spec (l : list jsval) :
  forall (i : Z) (ids : list Z) (errs : list string),
  exists more errs',
    Configs.addSubmissionIds_loop parseFloat l i (ids, errs)
    = ((ids ++ more)%list, (errs ++ errs')%list)
    /\ (List.NoDup ids -> List.NoDup (ids ++ more))
    /\ (forall z, In z (ids ++ more)
                  <-> In z ids \/ exists id, In id l /\ id_of parseFloat id = Some z)
    /\ (errs' = [] <-> List.Forall (fun id => id_of parseFloat id <> None) l).
Proof.
  induction l as [|id l IH]; intros i ids errs.
  - exists [], []. cbn. rewrite !app_nil_r. repeat split; auto.
    intros [H|(id & [] & _)]. exact H.
  - cbn [Configs.addSubmissionIds_loop].
    destruct (addSubmissionId_step i id ids errs) as (m1 & e1 & -> & Hd1 & Hin1 & He1).
    destruct (IH (i + 1) (ids ++ m1)%list (errs ++ e1)%list)
      as (m2 & e2 & -> & Hd2 & Hin2 & He2).
    exists (m1 ++ m2)%list, (e1 ++ e2)%list. rewrite !app_assoc.
    split; [reflexivity|]. split; [auto|]. split.
    + intros z. rewrite Hin2, Hin1. split.
      * intros [[H|H]|(x & Hx & Hz)]; auto.
        -- right. exists id. split; [now left | exact H].
        -- right. exists x. split; [now right | exact Hz].
      * intros [H|(x & [<-|Hx] & Hz)]; auto.
        right. exists x. auto.
    + split.
      * intros H. apply app_eq_nil in H as [H1 H2].
        constructor; [now apply He1 | now apply He2].
      * intros H. inversion H as [|? ? Ha Hb]; subst.
        apply He1 in Ha. apply He2 in Hb. now subst.
Qed.

Lemma addSubmissionIds_spec (l : list jsval) (acc : list Z) :
  exists more,
    fst (Configs.addSubmissionIds parseFloat stringify (JArr l) acc) = (acc ++ more)%list
    /\ (List.NoDup acc -> List.NoDup (acc ++ more))
    /\ (forall z, In z (acc ++ more)
                  <-> In z acc \/ exists id, In id l /\ id_of parseFloat id = Some z)
    /\ (snd (Configs.addSubmissionIds parseFloat stringify (JArr l) acc) = OK true
        <-> List.Forall (fun id => id_of parseFloat id <> None) l)
    /\ (snd (Configs.addSubmissionIds parseFloat stringify (JArr l) acc) = OK true
        \/ exists m, snd (Configs.addSubmissionIds parseFloat stringify (JArr l) acc)
                     = Throw (Error m)).
Proof.
  unfold Configs.addSubmissionIds. cbn [check truthy isOfType negb orb].
  destruct (addSubmissionIds_loop_spec l 0 acc []) as (more & errs' & -> & Hd & Hin & He).
  exists more. cbn [app]. destruct errs' as [|m errs']; cbn [length Nat.ltb Nat.leb fst snd].
  - repeat split; auto; try apply Hin. intros _. now apply He.
  - repeat split; auto; try apply Hin; try discriminate.
    + intros H. apply He in H. discriminate.
    + right. eauto.
Qed.

End SubmissionIds.

(** X28. [addSubmissionIds] makes the output array the union of what it
    held and of the ids of the input array: the ids it held stay in front, in
    their order, no id is written twice, and an id is in the array after the
    call exactly when it was there or an entry of the input is that integer
    or a string that parses to it. The ids are added also when the call
    throws, which it does exactly when an entry has no id. *)
Theorem addSubmissionIds_is_a_union
    (parseFloat : string -> Configs.parsed) (stringify : list string -> string)
    (submissionIds : list jsval) (_submissionIds ids : list Z) (r : res bool) :
  List.NoDup _submissionIds ->
  Configs.addSubmissionIds parseFloat stringify (JArr submissionIds) _submissionIds
  = (ids, r) ->
  List.NoDup ids
  /\ (exists more, ids = (_submissionIds ++ more)%list)
  /\ (forall z, In z ids
                <-> In z _submissionIds
                    \/ exists id, In id submissionIds /\ id_of parseFloat id = Some z)
  /\ (r = OK true
      <-> List.Forall (fun id => id_of parseFloat id <> None) submissionIds)
  /\ (r = OK true \/ exists m, r = Throw (Error m)).
Proof.
  intros Hd H.
  destruct (addSubmissionIds_spec parseFloat stringify submissionIds _submissionIds)
    as (more & H1 & H2 & H3 & H4 & H5).
  rewrite H in H1, H4, H5. cbn [fst snd] in H1, H4, H5. subst ids.
  repeat split; eauto; try apply H3; try apply H4.
Qed.

Lemma addSubmissionIds_is_a_union_witness :
  List.NoDup [4931; 12; 7]
  /\ (exists more, [4931; 12; 7] = ([4931; 12] ++ more)%list)
  /\ (forall z, In z [4931; 12; 7]
                <-> In z [4931; 12]
                    \/ exists id, In id [JNum 12; JStr "7"; JStr "x"; JNum 7]
                                  /\ id_of example_parseFloat id = Some z)
  /\ (@Throw bool (Error ("submissionIds has errors: " +:+ Configs.nl +:+ "[..]" +:+ Configs.nl))
      = OK true
      <-> List.Forall (fun id => id_of example_parseFloat id <> None)
            [JNum 12; JStr "7"; JStr "x"; JNum 7])
  /\ (@Throw bool (Error ("submissionIds has errors: " +:+ Configs.nl +:+ "[..]" +:+ Configs.nl))
      = OK true
      \/ exists m,
          @Throw bool (Error ("submissionIds has errors: " +:+ Configs.nl +:+ "[..]"
                              +:+ Configs.nl))
          = Throw (Error m)).
Proof.
  apply (addSubmissionIds_is_a_union example_parseFloat (fun _ => "[..]")
           [JNum 12; JStr "7"; JStr "x"; JNum 7] [4931; 12]).
  - repeat constructor; cbn; intuition discriminate.
  - reflexivity.
Defined.

Lemma existsb_String_eqb (k : string) (l : list string) :
  existsb (String.eqb k) l = true <-> In k l.
Proof.
  rewrite existsb_exists. split.
  - intros (y & Hy & Heq). apply String.eqb_eq in Heq. now subst.
  - intros H. exists k. split; [exact H | apply String.eqb_refl].
Qed.

Lemma ok_if_nil {A : Type} (errs : list string) (e : exn) (a b : A) :
  (if (0 <? length errs)%nat then Throw e else OK a) = OK b <-> errs = [] /\ a = b.
Proof.
  destruct errs; cbn.
  - split; [intros [= ->]; auto | intros [_ ->]; reflexivity].
  - split; [discriminate | intros [[=] _]].
Qed.

Lemma get_string_object (o : jsval) (k id : string) :
  get o k = JStr id -> exists props, o = JObj props.
Proof. destruct o; try discriminate. eauto. Qed.

(** The errors of [checkRunConfigs] only grow, so the list is empty after a
    check exactly when it was empty before it and the check has found
    nothing. *)
Lemma check_keys_nil (valid : list string) (place : string) (o : jsval)
    (errs : list string) :
  Configs.check_keys valid place o errs = []
  <-> errs = [] /\ List.Forall (fun k => In k valid) (Configs.keys o).
Proof.
  unfold Configs.check_keys. generalize (Configs.keys o) as ks. intros ks. revert errs.
  induction ks as [|k ks IH]; intros errs; cbn [fold_left].
  - split; [intros ->; split; [reflexivity | constructor] | intros [-> _]; reflexivity].
  - rewrite IH. destruct (existsb (String.eqb k) valid) eqn:E; cbn [negb].
    + apply existsb_String_eqb in E. split.
      * intros [-> H]. split; [reflexivity | constructor; assumption].
      * intros [-> H]. inversion H; subst. split; auto.
    + split.
      * intros [H _]. now apply snoc_not_nil in H.
      * intros [-> H]. inversion H as [|? ? Hk ?]; subst.
        apply existsb_String_eqb in Hk. congruence.
Qed.

Lemma try_check_nil (v : jsval) (c : condition) (t : jstype) (errs : list string) :
  Configs.try_check v c t errs = [] <-> errs = [] /\ check v c t = OK tt.
Proof.
  unfold Configs.try_check. destruct (check v c t) as [[]|e].
  - split; [intros ->; auto | intros [-> _]; reflexivity].
  - split; [intros H; now apply snoc_not_nil in H | intros [_ [=]]].
Qed.

Lemma check_string_key_nil (key : string) (i : Z) (f : jsval) (errs : list string) :
  Configs.check_string_key key i f errs = []
  <-> errs = [] /\ optional_text (get f key).
Proof.
  unfold Configs.check_string_key, optional_text.
  destruct (get f key) as [| |b|z|s|l|o];
    cbn [is_undefined is_null negb strict_eq isOfType];
    try (split; [intros H; now apply snoc_not_nil in H
                | intros [_ [[=]|(s' & [=] & _)]]]).
  - split; [intros ->; auto | intros [-> _]; reflexivity].
  - destruct (String.eqb s EmptyString) eqn:E.
    + apply String.eqb_eq in E. subst s.
      split; [intros H; now apply snoc_not_nil in H
             | intros [_ [[=]|(s' & [= <-] & Hs)]]; now elim Hs].
    + apply String.eqb_neq in E.
      split; [intros ->; split; [reflexivity | right; eauto]
             | intros [-> _]; reflexivity].
Qed.

Lemma check_needs_csv_id (key : string) (i : Z) (f : jsval) (errs : list string) :
  Configs.check_needs_csv key i f errs = errs.
Proof. unfold Configs.check_needs_csv. destruct (negb _); reflexivity. Qed.

Lemma check_submissionIds_nil (i : Z) (f : jsval) (errs : list string) :
  Configs.check_submissionIds i f errs = []
  <-> errs = [] /\ optional_list (get f "submissionIds").
Proof.
  unfold Configs.check_submissionIds, optional_list.
  destruct (get f "submissionIds") as [| |b|z|s|l|o];
    cbn [is_undefined is_null negb isOfType];
    try (split; [intros H; now apply snoc_not_nil in H
                | intros [_ [[=]|(l' & [=])]]]).
  - split; [intros ->; auto | intros [-> _]; reflexivity].
  - split; [intros ->; split; [reflexivity | right; eauto]
           | intros [-> _]; reflexivity].
Qed.

Lemma check_assetId_nil (i : Z) (f : jsval) (ids errs : list string) :
  snd (Configs.check_assetId i f (ids, errs)) = []
  <-> errs = []
      /\ (exists id, get f "assetId" = JStr id /\ id <> EmptyString)
      /\ ~ In (asset_of f) ids.
Proof.
  unfold Configs.check_assetId, asset_of.
  destruct (get f "assetId") as [| |b|z|s|l|o];
    cbn [is_undefined is_null negb strict_eq isOfType snd];
    try (split; [intros H; now apply snoc_not_nil in H
                | intros (_ & (s' & [=] & _) & _)]).
  destruct (String.eqb s EmptyString) eqn:E.
  - apply String.eqb_eq in E. subst s. cbn [snd].
    split; [intros H; now apply snoc_not_nil in H
           | intros (_ & (s' & [= <-] & Hs) & _); now elim Hs].
  - apply String.eqb_neq in E.
    destruct (existsb (String.eqb s) ids) eqn:Ei; cbn [snd].
    + apply existsb_String_eqb in Ei.
      split; [intros H; now apply snoc_not_nil in H | intros (_ & _ & H); now elim H].
    + split.
      * intros ->. split; [reflexivity|]. split; [eauto|].
        rewrite <- existsb_String_eqb, Ei. discriminate.
      * intros (-> & _). reflexivity.
Qed.

Lemma check_assetId_ids (i : Z) (f : jsval) (ids errs : list string) :
  snd (Configs.check_assetId i f (ids, errs)) = [] ->
  fst (Configs.check_assetId i f (ids, errs)) = (ids ++ [asset_of f])%list.
Proof.
  unfold Configs.check_assetId, asset_of.
  destruct (get f "assetId") as [| |b|z|s|l|o];
    cbn [is_undefined is_null negb strict_eq isOfType snd fst];
    try (intros H; now apply snoc_not_nil in H).
  destruct (String.eqb s EmptyString); cbn [snd fst];
    [intros H; now apply snoc_not_nil in H|].
  destruct (existsb (String.eqb s) ids); cbn [snd fst];
    [intros H; now apply snoc_not_nil in H|].
  reflexivity.
Qed.

(** The part of the body of the loop over the filters after the check that
    the entry is an object. *)
Lemma check_filter_object (i : Z) (f : jsval) (ids errs : list string) :
  negb (truthy f) || negb (isOfType f TObject) = false ->
  (snd (Configs.check_filter i f (ids, errs)) = []
   <-> errs = [] /\ filter_ok f /\ ~ In (asset_of f) ids)
  /\ (snd (Configs.check_filter i f (ids, errs)) = []
      -> fst (Configs.check_filter i f (ids, errs)) = (ids ++ [asset_of f])%list).
Proof.
  intros Ef. unfold Configs.check_filter. rewrite Ef.
  pose proof (check_assetId_nil i f ids
                (Configs.check_keys Configs.valid_filters_keys "configs.filters" f errs))
    as Hnil.
  pose proof (check_assetId_ids i f ids
                (Configs.check_keys Configs.valid_filters_keys "configs.filters" f errs))
    as Hids.
  destruct (Configs.check_assetId i f
              (ids, Configs.check_keys Configs.valid_filters_keys "configs.filters" f errs))
    as [ids' e2].
  cbn [fst snd] in *.
  rewrite !check_needs_csv_id, !check_string_key_nil, check_submissionIds_nil.
  split.
  - rewrite Hnil, check_keys_nil. unfold filter_ok. split.
    + intros ((((((-> & Hk) & Ha & Hn) & Hs) & Hc) & Hcol) & Hsep).
      split; [reflexivity|]. split; [|exact Hn].
      destruct Ha as (id & Ha & Hid).
      split; [exact (get_string_object _ _ _ Ha)|]. repeat split; eauto.
    + intros (-> & (_ & Hk & Ha & Hs & Hc & Hcol & Hsep) & Hn). repeat split; auto.
  - intros ((((He2 & _) & _) & _) & _). auto.
Qed.

Lemma check_filter_nil (i : Z) (f : jsval) (ids errs : list string) :
  snd (Configs.check_filter i f (ids, errs)) = []
  <-> errs = [] /\ filter_ok f /\ ~ In (asset_of f) ids.
Proof.
  destruct (negb (truthy f) || negb (isOfType f TObject)) eqn:Ef.
  - unfold Configs.check_filter. rewrite Ef. cbn [snd]. split.
    + intros H. now apply snoc_not_nil in H.
    + intros (_ & ((props & ->) & _) & _). discriminate Ef.
  - now apply check_filter_object.
Qed.

Lemma check_filter_ids (i : Z) (f : jsval) (ids errs : list string) :
  snd (Configs.check_filter i f (ids, errs)) = [] ->
  fst (Configs.check_filter i f (ids, errs)) = (ids ++ [asset_of f])%list.
Proof.
  destruct (negb (truthy f) || negb (isOfType f TObject)) eqn:Ef.
  - unfold Configs.check_filter. rewrite Ef. cbn [snd].
    intros H. now apply snoc_not_nil in H.
  - now apply check_filter_object.
Qed.

Lemma check_filters_nil (l : list jsval) :
  forall (i : Z) (ids errs : list string),
    snd (Configs.check_filters l i (ids, errs)) = []
    <-> errs = [] /\ List.Forall filter_ok l
        /\ List.NoDup (List.map asset_of l)
        /\ (forall x, In x (List.map asset_of l) -> ~ In x ids).
Proof.
  induction l as [|f l IH]; intros i ids errs; cbn [Configs.check_filters List.map].
  - cbn [snd]. split.
    + intros ->. repeat split; try constructor. intros x [].
    + now intros [-> _].
  - pose proof (check_filter_nil i f ids errs) as Hnil.
    pose proof (check_filter_ids i f ids errs) as Hids.
    destruct (Configs.check_filter i f (ids, errs)) as [ids1 e1].
    cbn [fst snd] in *. rewrite IH. split.
    + intros (He & Hl & Hd & Hx). specialize (Hids He). subst ids1.
      apply Hnil in He as (-> & Hf & Hn).
      split; [reflexivity|]. split; [now constructor|]. split.
      * constructor; [|exact Hd]. intros Hin. apply (Hx _ Hin).
        apply in_or_app. right. now left.
      * intros x [<-|Hin]; [exact Hn|]. intros Hi. apply (Hx _ Hin).
        apply in_or_app. now left.
    + intros (-> & Hl & Hd & Hx). inversion Hl as [|? ? Hf Hl']; subst.
      inversion Hd as [|? ? Hn Hd']; subst.
      assert (He : e1 = []).
      { apply Hnil. split; [reflexivity|]. split; [exact Hf|].
        apply Hx. now left. }
      specialize (Hids He). subst ids1.
      split; [exact He|]. split; [exact Hl'|]. split; [exact Hd'|].
      intros x Hin Hi. apply in_app_or in Hi as [Hi|[<-|[]]].
      * apply (Hx x); [now right | exact Hi].
      * exact (Hn Hin).
Qed.

Lemma settings_nil (configs : jsval) :
  Configs.try_check (get configs "deleteImages") ifDefined TBoolean
    (Configs.try_check (get configs "downloadTimeout") ifDefined TNumber
    (Configs.try_check (get configs "connectionTimeout") ifDefined TNumber
    (Configs.try_check (get configs "requestTimeout") ifDefined TNumber
    (Configs.try_check (get configs "maxDownloadRetries") ifDefined TNumber
    (Configs.try_check (get configs "maxRequestRetries") ifDefined TNumber
    (Configs.try_check (get configs "outputDir") ifExists TString
    (Configs.try_check (get configs "mediaServerUrl") ifExists TString
    (Configs.try_check (get configs "apiServerUrl") ifExists TString
    (Configs.try_check (get configs "token") ifExists TString
    (Configs.check_keys Configs.valid_keys "configs" configs [])))))))))) = []
  <-> settings_ok configs.
Proof.
  rewrite !try_check_nil, check_keys_nil. unfold settings_ok, settings_types.
  rewrite !Forall_cons, Forall_nil. tauto.
Qed.

(** What [checkRunConfigs] accepts, and what it lets through. *)
Lemma checkRunConfigs_spec (stringify : list string -> string)
    (configs filters : jsval) :
  (Configs.checkRunConfigs stringify configs = OK (Some filters)
   <-> truthy configs = true /\ isOfType configs TObject = true
       /\ settings_ok configs
       /\ ((truthy (get configs "filters") = false /\ filters = JArr [])
           \/ exists l, get configs "filters" = JArr l /\ filters = JArr l
                        /\ List.Forall filter_ok l
                        /\ List.NoDup (List.map asset_of l)))
  /\ (Configs.checkRunConfigs stringify configs = OK None
      <-> truthy configs = false).
Proof.
  unfold Configs.checkRunConfigs, check.
  destruct (truthy configs) eqn:Et; cbn [andb negb].
  2:{ cbn [bind]. split; [|tauto].
      split; [discriminate | intros ([=] & _)]. }
  destruct (isOfType configs TObject) eqn:Eo; cbn [negb bind].
  2:{ split; split; try discriminate. intros (_ & [=] & _). }
  split.
  2:{ split; [|discriminate].
      destruct (negb (truthy (get configs "filters")));
        [|destruct (get configs "filters")];
        destruct (0 <? length _)%nat; discriminate. }
  destruct (truthy (get configs "filters")) eqn:Etf; cbn [negb].
  - destruct (get configs "filters") as [| |b|z|s|l|o] eqn:Ef;
      try (split;
           [ intros H; apply ok_if_nil in H as [H _]; now apply snoc_not_nil in H
           | intros (_ & _ & _ & [[[=] _]|(l' & [=] & _)]) ]).
    rewrite ok_if_nil.
    rewrite (check_filters_nil l 0 []), settings_nil. split.
    + intros ((Hs & Hl & Hd & _) & [= <-]).
      split; [reflexivity|]. split; [reflexivity|]. split; [exact Hs|].
      right. exists l. auto.
    + intros (_ & _ & Hs & [[[=] _]|(l' & [= <-] & -> & Hl & Hd)]).
      split; [|reflexivity]. split; [exact Hs|]. split; [exact Hl|].
      split; [exact Hd|]. intros x _ [].
  - rewrite ok_if_nil, settings_nil. split.
    + intros (Hs & [= <-]).
      split; [reflexivity|]. split; [reflexivity|]. split; [exact Hs|]. now left.
    + intros (_ & _ & Hs & [[_ ->]|(l' & Hl' & _)]); [auto|].
      rewrite Hl' in Etf. discriminate.
Qed.

(** X27. [checkRunConfigs] accepts the configurations of a file exactly when
    they are of type object, their keys are known and their values have the
    types checked, and [filters] is not truthy (it is then set to the empty
    array) or an array of objects with known keys, each with an [assetId] that is a
    string, not empty and not the one of another filter, a [submissionIds]
    that is absent or an array, and strings that are absent or not empty for
    the file of ids, its id column and its separator. Nothing asks that a
    column or a separator comes with a file. A value that is not truthy is
    let through without any check. *)
Theorem checkRunConfigs_accepts_iff (stringify : list string -> string)
    (configs filters : jsval) :
  (Configs.checkRunConfigs stringify configs = OK (Some filters)
   <-> truthy configs = true /\ isOfType configs TObject = true
       /\ settings_ok configs
       /\ ((truthy (get configs "filters") = false /\ filters = JArr [])
           \/ exists l, get configs "filters" = JArr l /\ filters = JArr l
                        /\ List.Forall filter_ok l
                        /\ List.NoDup (List.map asset_of l)))
  /\ (Configs.checkRunConfigs stringify configs = OK None
      <-> truthy configs = false).
Proof. apply checkRunConfigs_spec. Qed.

Section FilterIds.

Context (parseFloat : string -> Configs.parsed) (stringify : list string -> string)
        (csv : jsval -> jsval -> res (list jsval)).

(** The ids of a filter are those of its array and of its file, each once. *)
Lemma getSubmissionIds_spec (filter mainDir : jsval) (ids : list Z) :
  Configs.getSubmissionIds parseFloat stringify csv filter mainDir = OK ids ->
  List.NoDup ids
  /\ (forall z, In z ids
                <-> (exists l id, get filter "submissionIds" = JArr l /\ In id l
                                  /\ id_of parseFloat id = Some z)
                    \/ (exists sids id, truthy (get filter "submissionIdsCsv") = true
                                        /\ csv filter mainDir = OK sids /\ In id sids
                                        /\ id_of parseFloat id = Some z)).
Proof.
  unfold Configs.getSubmissionIds.
  destruct (check filter mustExists TObject) as [[]|]; [|discriminate]. cbn [bind].
  destruct (check (get filter "submissionIds") ifExists TArray) as [[]|] eqn:C1;
    [|discriminate]. cbn [bind].
  destruct (check (get filter "submissionIdsCsv") ifExists TString) as [[]|];
    [|discriminate]. cbn [bind].
  destruct (check mainDir mustExists TString) as [[]|]; [|discriminate]. cbn [bind].
  assert (H1 : forall ids1,
             (if truthy (get filter "submissionIds")
              then let (ids, r) := Configs.addSubmissionIds parseFloat stringify
                                     (get filter "submissionIds") [] in
                   do_ r; OK ids
              else OK []) = OK ids1 ->
             List.NoDup ids1
             /\ forall z, In z ids1
                          <-> exists l id, get filter "submissionIds" = JArr l /\ In id l
                                           /\ id_of parseFloat id = Some z).
  { intros ids1. destruct (truthy (get filter "submissionIds")) eqn:Et.
    - unfold check in C1. rewrite Et in C1.
      destruct (get filter "submissionIds") as [| |b|z|s|l|o]; try discriminate C1.
      destruct (addSubmissionIds_spec parseFloat stringify l [])
        as (more & Hf & Hd & Hin & _).
      destruct (Configs.addSubmissionIds parseFloat stringify (JArr l) []) as [ids' r].
      cbn [fst snd] in Hf. subst ids'.
      destruct r as [?|?]; cbn [bind]; [|discriminate]. intros H. apply OK_inj in H.
      subst ids1. split; [apply Hd; constructor|]. intros z. rewrite Hin. split.
      + intros [[]|(id & Hi & Hz)]. exists l, id. auto.
      + intros (l' & id & Hl & Hi & Hz). injection Hl as <-. right. eauto.
    - intros H. apply OK_inj in H. subst ids1. split; [constructor|].
      intros z. split; [intros [] | intros (l & id & Hl & _)].
      rewrite Hl in Et. discriminate. }
  match goal with
  | |- bind ?X _ = _ -> _ => destruct X as [ids1|] eqn:E1; [|discriminate]
  end.
  destruct (H1 ids1 eq_refl) as [Hd1 Hin1]. cbn [bind].
  destruct (truthy (get filter "submissionIdsCsv")) eqn:Etc.
  - destruct (csv filter mainDir) as [sids|]; cbn [bind]; [|discriminate].
    destruct (addSubmissionIds_spec parseFloat stringify sids ids1)
      as (more & Hf & Hd & Hin & _).
    destruct (Configs.addSubmissionIds parseFloat stringify (JArr sids) ids1) as [ids' r].
    cbn [fst snd] in Hf. subst ids'.
    destruct r as [?|?]; cbn [bind]; [|discriminate]. intros H. apply OK_inj in H.
    subst ids. split; [auto|]. intros z. rewrite Hin, Hin1. split.
    + intros [H|(id & Hi & Hz)]; [now left|]. right. exists sids, id. auto.
    + intros [H|(sids' & id & _ & Hs & Hi & Hz)]; [now left|].
      apply OK_inj in Hs. subst sids'. right. eauto.
  - intros H. apply OK_inj in H. subst ids1. split; [exact Hd1|].
    intros z. rewrite Hin1. split; [now left|].
    intros [H|(sids & id & [=] & _)]. exact H.
Qed.

(** The loop of [getConfigs] over the filters that [checkRunConfigs] has
    accepted leaves the asset ids as they are and gives every filter its
    ids. *)
Lemma set_submissionIds_spec (mainDir : jsval) (l : list jsval) :
  forall l',
    Configs.set_submissionIds parseFloat stringify csv l mainDir = OK l' ->
    List.Forall filter_ok l ->
    List.Forall (fun f => (exists id, get f "assetId" = JStr id /\ id <> EmptyString)
                          /\ carries_ids f) l'
    /\ List.map asset_of l' = List.map asset_of l.
Proof.
  induction l as [|f l IH]; intros l'; cbn [Configs.set_submissionIds].
  - intros H _. apply OK_inj in H. subst l'. split; [constructor | reflexivity].
  - destruct (Configs.getSubmissionIds parseFloat stringify csv f mainDir)
      as [ids|] eqn:Eids; cbn [bind]; [|discriminate].
    destruct (Configs.set_submissionIds parseFloat stringify csv l mainDir)
      as [rest'|]; cbn [bind]; [|discriminate].
    intros H Hok. apply OK_inj in H. subst l'.
    inversion Hok as [|? ? Hf Hl]; subst.
    destruct (IH rest' eq_refl Hl) as [IH1 IH2].
    destruct Hf as ((props & ->) & _ & (id & Ha & Hid) & _).
    apply getSubmissionIds_spec in Eids as [Hd _].
    assert (Hasset : get (JObj (set_prop "_submissionIds" (JArr (List.map JNum ids)) props))
                       "assetId" = JStr id).
    { cbn [get] in Ha |- *. rewrite assoc_set_prop_ne; [exact Ha | discriminate]. }
    split.
    + constructor; [|exact IH1]. split; [eauto|].
      exists ids. split; [|exact Hd]. cbn [get]. now rewrite assoc_set_prop_eq.
    + cbn [List.map]. rewrite IH2. f_equal. unfold asset_of. now rewrite Hasset, Ha.
Qed.

End FilterIds.

(** X29. The ids that [getSubmissionIds] returns for a filter hold no id
    twice, and they are exactly the ids of the entries of
    [filter.submissionIds] and, when the filter names a file, of the ids read
    from the file. *)
Theorem getSubmissionIds_collects_both_sources
    (parseFloat : string -> Configs.parsed) (stringify : list string -> string)
    (csv : jsval -> jsval -> res (list jsval)) (filter mainDir : jsval) (ids : list Z) :
  Configs.getSubmissionIds parseFloat stringify csv filter mainDir = OK ids ->
  List.NoDup ids
  /\ (forall z, In z ids
                <-> (exists l id, get filter "submissionIds" = JArr l /\ In id l
                                  /\ id_of parseFloat id = Some z)
                    \/ (exists sids id, truthy (get filter "submissionIdsCsv") = true
                                        /\ csv filter mainDir = OK sids /\ In id sids
                                        /\ id_of parseFloat id = Some z)).
Proof. apply getSubmissionIds_spec. Qed.

Lemma getSubmissionIds_collects_both_sources_witness :
  List.NoDup [12; 7; 4931]
  /\ (forall z, In z [12; 7; 4931]
                <-> (exists l id,
                        get (JObj [("assetId", JStr "aXf4k");
                                   ("submissionIds", JArr [JNum 12; JStr "7"; JNum 12]);
                                   ("submissionIdsCsv", JStr "ids.csv")])
                          "submissionIds" = JArr l
                        /\ In id l /\ id_of example_parseFloat id = Some z)
                    \/ (exists sids id,
                           truthy (get (JObj [("assetId", JStr "aXf4k");
                                              ("submissionIds",
                                               JArr [JNum 12; JStr "7"; JNum 12]);
                                              ("submissionIdsCsv", JStr "ids.csv")])
                                     "submissionIdsCsv") = true
                           /\ OK [JStr "7"; JStr "4931"] = OK sids /\ In id sids
                           /\ id_of example_parseFloat id = Some z)).
Proof.
  apply (getSubmissionIds_collects_both_sources example_parseFloat (fun _ => EmptyString)
           (fun _ _ => OK [JStr "7"; JStr "4931"])
           (JObj [("assetId", JStr "aXf4k");
                  ("submissionIds", JArr [JNum 12; JStr "7"; JNum 12]);
                  ("submissionIdsCsv", JStr "ids.csv")])
           (JStr "/opt/kobo-tools")).
  reflexivity.
Defined.

(** X30. With a configurations file, what [getConfigs] returns has the
    filters as an array, each filter with the [assetId] that was checked, a
    string that is not empty and not the one of another filter, and with its
    ids in [_submissionIds], no id twice. The mode is "filters" when the array
    has a filter and "token" when it has none, whatever the token is. The two
    server addresses are truthy and [deleteImages] is a boolean. *)
Theorem getConfigs_with_config_file
    (parseFloat : string -> Configs.parsed) (stringify : list string -> string)
    (load : jsval -> jsval -> res jsval)
    (csv : jsval -> jsval -> res (list jsval))
    (program : jsval) (env_ : list (string * string)) (mainDir : jsval)
    (c : Configs.t) :
  truthy (get program "configFile") = true ->
  Configs.getConfigs parseFloat stringify load csv program env_ mainDir = OK c ->
  (exists l,
      Configs.filters c = JArr l
      /\ List.Forall (fun f => (exists id, get f "assetId" = JStr id /\ id <> EmptyString)
                               /\ carries_ids f) l
      /\ List.NoDup (List.map asset_of l)
      /\ Configs.mode c = match l with [] => "token" | _ :: _ => "filters" end)
  /\ (exists b, Configs.deleteImages c = JBool b)
  /\ truthy (Configs.apiServerUrl c) = true
  /\ truthy (Configs.mediaServerUrl c) = true
  /\ Configs.mainDir c = mainDir.
Proof.
  intros Hfile. unfold Configs.getConfigs. rewrite Hfile.
  destruct (check program mustExists TObject) as [[]|]; [|discriminate]. cbn [bind].
  destruct (check mainDir mustExists TString) as [[]|]; [|discriminate]. cbn [bind].
  destruct (load (get program "configFile") mainDir) as [rc|]; [|discriminate].
  cbn [bind].
  destruct (Configs.checkRunConfigs stringify rc) as [[fs|]|] eqn:Ech;
    [| |discriminate]; cbn [bind].
  2:{ apply (checkRunConfigs_spec stringify rc JNull) in Ech.
      destruct rc; try discriminate Ech; cbn; discriminate. }
  apply checkRunConfigs_spec in Ech as (_ & _ & [_ Hset] & Hfs).
  assert (Hl : exists l, fs = JArr l /\ List.Forall filter_ok l
                         /\ List.NoDup (List.map asset_of l)).
  { destruct Hfs as [[_ ->]|(l & _ & -> & Hl & Hd)].
    - exists []. repeat split; constructor.
    - exists l. auto. }
  clear Hfs. destruct Hl as (l & -> & Hl & Hd). cbn [Configs.length_of bind].
  destruct (Configs.set_submissionIds parseFloat stringify csv l mainDir)
    as [l'|] eqn:Eset; [|discriminate]. cbn [bind fst snd].
  destruct (set_submissionIds_spec parseFloat stringify csv mainDir l l' Eset Hl)
    as [Hl' Hmap].
  destruct (truthy (Configs.js_or (get program "apiServerUrl") _)) eqn:Hapi;
    cbn [negb]; [|discriminate].
  destruct (truthy (Configs.js_or (get program "mediaServerUrl") _)) eqn:Hmedia;
    cbn [negb]; [|discriminate].
  assert (Hdel : forall d,
             (if confirm (get program "deleteImages") c_defined then OK (JBool true)
              else match assoc "KT_DELETE_IMAGES" env_ with
                   | Some v =>
                       if String.eqb (Configs.toLowerCase v) "true" then OK (JBool true)
                       else if String.eqb (Configs.toLowerCase v) "false"
                            then OK (JBool false)
                            else Throw (Error ("KT_DELETE_IMAGES is defined, but has an invalid value: "
                                               +:+ v +:+ ", expected boolean"))
                   | None =>
                       if confirm (get rc "deleteImages") c_defined
                       then OK (get rc "deleteImages")
                       else OK (JBool false)
                   end) = OK d ->
             exists b, d = JBool b).
  { intros d. destruct (confirm (get program "deleteImages") c_defined).
    - intros H. apply OK_inj in H. eauto.
    - destruct (assoc "KT_DELETE_IMAGES" env_) as [v|].
      + destruct (String.eqb (Configs.toLowerCase v) "true");
          [intros H; apply OK_inj in H; eauto|].
        destruct (String.eqb (Configs.toLowerCase v) "false");
          [intros H; apply OK_inj in H; eauto | discriminate].
      + unfold settings_types in Hset. rewrite !Forall_cons in Hset.
        destruct Hset as (_ & _ & _ & _ & _ & _ & _ & _ & _ & Hb & _).
        unfold check in Hb.
        destruct (get rc "deleteImages") as [| |b|z|s|a|o];
          cbn [confirm is_undefined negb]; try discriminate Hb;
          intros H; apply OK_inj in H; eauto. }
  match goal with
  | |- bind ?X _ = _ -> _ => destruct X as [d|] eqn:Ed; [|discriminate]
  end.
  destruct (Hdel d eq_refl) as [b ->]. cbn [bind truthy negb andb].
  intros H. apply OK_inj in H. subst c.
  cbn [Configs.filters Configs.mode Configs.deleteImages Configs.apiServerUrl
       Configs.mediaServerUrl Configs.mainDir].
  split.
  - exists l'. split; [reflexivity|]. split; [exact Hl'|]. split; [now rewrite Hmap|].
    destruct l'; [reflexivity|]. cbn [length truthy].
    destruct (Z.of_nat (S (length l')) =? 0) eqn:E; [|reflexivity].
    apply Z.eqb_eq in E. lia.
  - split; [eauto|]. split; [exact Hapi|]. split; [exact Hmedia | reflexivity].
Qed.

Lemma getConfigs_with_config_file_witness :
  (exists l,
      Configs.filters example_run_configuration = JArr l
      /\ List.Forall (fun f => (exists id, get f "assetId" = JStr id /\ id <> EmptyString)
                               /\ carries_ids f) l
      /\ List.NoDup (List.map asset_of l)
      /\ Configs.mode example_run_configuration
         = match l with [] => "token" | _ :: _ => "filters" end)
  /\ (exists b, Configs.deleteImages example_run_configuration = JBool b)
  /\ truthy (Configs.apiServerUrl example_run_configuration) = true
  /\ truthy (Configs.mediaServerUrl example_run_configuration) = true
  /\ Configs.mainDir example_run_configuration = JStr "/opt/kobo-tools".
Proof.
  apply (getConfigs_with_config_file example_parseFloat (fun _ => EmptyString)
           (fun _ _ => OK example_runConfigs) (fun _ _ => OK [])
           (JObj [("configFile", JStr "run-configs.json")]) [] (JStr "/opt/kobo-tools"));
    reflexivity.
Defined.
(** ** A name that is claimed twice *)

Section Collisions.

Context (E : env) (cfg : configs) (uid assetName : string).

(** The state store is all that the claim of a name reads of the disk. *)
Lemma valid_state_record_ext (w w' : world) (rid : Z) (key : string) (v : jsval) :
  attachmentsMap w' = attachmentsMap w ->
  valid_state_record w rid key v -> valid_state_record w' rid key v.
Proof. unfold valid_state_record. intros ->. auto. Qed.

Lemma state_file_readable_ext (w w' : world) (rid : Z) (key : string) :
  attachmentsMap w' = attachmentsMap w ->
  state_file_readable w rid key -> state_file_readable w' rid key.
Proof. unfold state_file_readable. intros ->. auto. Qed.

Lemma claims_ext (w w' : world) (rid : Z) (key : string) (e : entry) (n : string) :
  attachmentsMap w' = attachmentsMap w ->
  claims w rid key e n -> claims w' rid key e n.
Proof.
  intros Hw [H|(Ha & v & Hv & Hn)]; [now left|].
  right. split; [exact Ha|]. exists v. split; [|exact Hn].
  exact (valid_state_record_ext w w' rid key v Hw Hv).
Qed.

Lemma valid_state_record_readable (w : world) (rid : Z) (key : string) (v : jsval) :
  valid_state_record w rid key v -> state_file_readable w rid key.
Proof.
  intros [Hf Hv]. unfold state_file_readable. rewrite Hf.
  destruct (valid_record_fields v Hv) as (_ & _ & Ht & Ho). auto.
Qed.

(** A name that is in a list stays in it. *)
Lemma names_grow_In (st st' : state) :
  names_grow st st' ->
  (forall n, In n (imageNamesToKeep st) -> In n (imageNamesToKeep st'))
  /\ (forall n, In n (imageNamesToDelete st) -> In n (imageNamesToDelete st')).
Proof.
  intros [Hk Hd]. split; intros n Hn.
  - destruct Hk as [->|(x & _ & ->)]; [exact Hn | apply in_or_app; now left].
  - destruct Hd as [->|(x & _ & _ & ->)]; [exact Hn | apply in_or_app; now left].
Qed.

Lemma exec_entry_names (rid : Z) (kv : string * entry) (st : state) :
  (forall n, In n (imageNamesToKeep st) ->
             In n (imageNamesToKeep (fst (Update.exec_entry E cfg uid assetName rid kv st))))
  /\ (forall n, In n (imageNamesToDelete st) ->
                In n (imageNamesToDelete
                        (fst (Update.exec_entry E cfg uid assetName rid kv st)))).
Proof.
  apply names_grow_In. apply (exec_entry_summary E cfg uid assetName rid kv st).
Qed.

Lemma exec_entries_names (rid : Z) (entries : list (string * entry)) :
  forall acc st,
    (forall n, In n (imageNamesToKeep st) ->
               In n (imageNamesToKeep
                       (fst (Update.exec_entries E cfg uid assetName rid entries acc st))))
    /\ (forall n, In n (imageNamesToDelete st) ->
                  In n (imageNamesToDelete
                          (fst (Update.exec_entries E cfg uid assetName rid entries acc st)))).
Proof.
  induction entries as [|kv entries IH]; intros acc st; cbn [Update.exec_entries].
  - cbn [ret fst]. auto.
  - unfold bindM at 1 2.
    destruct (exec_entry_names rid kv st) as [Hk Hd].
    destruct (Update.exec_entry E cfg uid assetName rid kv st) as [st1 [r|e]];
      cbn [fst] in *.
    + destruct (IH (set_prop (fst kv) r acc) st1) as [Hk' Hd']. split; auto.
    + split; assumption.
Qed.

(** A keep with an attachment has its name among the names kept when its
    turn is over, however the turn ends. *)
Lemma keep_case_claims (rid : Z) (e_key : string) (e_value : entry)
    (a : Attachment) (cur : jsval) (has : bool) (st : state) :
  attachment e_value = Some a ->
  (has = true -> StateRecord.isValidAttachmentMap cur = OK true) ->
  In (Update.img_new_name rid e_value)
     (imageNamesToKeep
        (fst (Update.keep_case E cfg uid assetName rid e_key e_value cur has st))).
Proof.
  intros Ha Hvalid.
  set (name := Update.img_new_name rid e_value).
  assert (Hclaimed : In name (imageNamesToKeep (claimed st name))).
  { cbn. apply in_or_app. right. now left. }
  destruct (ImageCleaner.inb name (imageNamesToKeep st)) eqn:Hdup.
  { apply inb_In in Hdup.
    rewrite (keep_case_duplicate E cfg uid assetName rid e_key e_value a cur has st Ha Hdup).
    cbv zeta. cbn. exact Hdup. }
  apply inb_not_In in Hdup.
  destruct (images (disk st) !! name) as [[data|]|] eqn:Hfile.
  2:{ pose proof Hdup as Hdup'. apply inb_not_In in Hdup'.
      unfold Update.keep_case, Update.keep_try, Update.claim_keep, Update.image_exists,
        Update.on_error.
      rewrite Ha. fold name. mred. rewrite Hdup'.
      unfold FS.fileExists, FS.pathExists. cbn [disk set_names]. rewrite Hfile.
      cbn [negb andb fst]. exact Hclaimed. }
  all: destruct (keep_try_decides E cfg uid assetName rid e_key e_value a cur has st Ha Hdup)
         as (fresh & Hfresh & Htry);
       [fold name; rewrite Hfile; discriminate | exact Hvalid |];
       fold name in Hfresh, Htry;
       unfold Update.keep_case, try_catch; rewrite Htry;
       destruct fresh.
  - assert (Hhas : has = true).
    { destruct (proj1 Hfresh eq_refl) as (d & _ & H & _). exact H. }
    destruct (valid_record_fields cur (Hvalid Hhas)) as ((l & Hl) & _).
    destruct (keep_up_to_date_throws e_value cur l (claimed st name) Hl) as (e & ->).
    unfold Update.on_error. mred. cbn [fst]. exact Hclaimed.
  - destruct (keep_download_throws E cfg uid assetName rid e_key e_value a name
                (claimed st name)) as (e & -> & _).
    unfold Update.on_error. mred. cbn [fst]. exact Hclaimed.
  - destruct (proj1 Hfresh eq_refl) as (d & Hd & _). rewrite Hfile in Hd. discriminate Hd.
  - destruct (keep_download_throws E cfg uid assetName rid e_key e_value a name
                (claimed st name)) as (e & -> & _).
    unfold Update.on_error. mred. cbn [fst]. exact Hclaimed.
Qed.

(** A delete with a state record has the image name of the record among the
    names kept or among the names deleted when its turn is over. *)
Lemma delete_case_claims (e_value : entry) (cur : jsval) (name : string) (st : state) :
  get cur "imageName" = JStr name ->
  In name (imageNamesToKeep
             (fst (Update.delete_case E cfg uid assetName e_value cur true st)))
  \/ In name (imageNamesToDelete
                (fst (Update.delete_case E cfg uid assetName e_value cur true st))).
Proof.
  intros Hname.
  unfold Update.delete_case, Update.delete_try, Update.claim_delete, Update.on_error.
  rewrite Hname. cbn [show]. mred.
  destruct (ImageCleaner.inb name (imageNamesToKeep st)) eqn:Hk.
  { apply inb_In in Hk. left. exact Hk. }
  destruct (ImageCleaner.inb name (imageNamesToDelete st)) eqn:Hd.
  { apply inb_In in Hd. right. exact Hd. }
  assert (Hpushed : In name (imageNamesToDelete st ++ [name])%list).
  { apply in_or_app. right. now left. }
  right. cbn [disk set_names].
  destruct (FS.fileExists (images (disk st)) name); [|exact Hpushed].
  destruct (Hash.isValidFileHash _ _ _ _) as [[|]|e]; cbn [negb]; try exact Hpushed.
  destruct (deleteImages cfg); [exact Hpushed|].
  cbn [disk set_names].
  destruct (FS.mvFile _ _ _ _) as [[d d']|e]; exact Hpushed.
Qed.

(** The turn of an entry that claims a name, when it ends without an
    uncaught error, leaves the name in a list: in the names kept for a keep,
    in the names kept or in the names deleted for a delete. *)
Lemma exec_entry_claims (rid : Z) (key : string) (e : entry) (name : string)
    (st st' : state) (r : result_entry) :
  Update.exec_entry E cfg uid assetName rid (key, e) st = (st', OK r) ->
  claims (disk st) rid key e name ->
  (action e = Action.keep -> In name (imageNamesToKeep st'))
  /\ (In name (imageNamesToKeep st') \/ In name (imageNamesToDelete st')).
Proof.
  intros Hexec Hclaims. revert Hexec.
  unfold Update.exec_entry. cbn [fst snd]. unfold bindM at 1. unfold lift.
  destruct (Update.entry_checks e) as [[]|err]; [|discriminate].
  unfold bindM.
  destruct (read_attachment_map_disk cfg uid rid key st) as [Hd Hvalid].
  destruct Hclaims as [(Ha & Hatt & ->)|(Ha & v & Hv & Hn)].
  - destruct (Update.read_attachment_map cfg uid rid key st) as [st1 [[cur has]|err]];
      cbn [fst snd] in *; [|discriminate].
    rewrite Ha. intros Hexec.
    destruct (attachment e) as [a|] eqn:Hatt'; [|congruence].
    pose proof (keep_case_claims rid key e a cur has st1 Hatt') as H.
    rewrite Hexec in H. cbn [fst] in H.
    assert (Hin : In (Update.img_new_name rid e) (imageNamesToKeep st')).
    { apply H. intros ->. now apply Hvalid. }
    split; [intros _; exact Hin | left; exact Hin].
  - destruct (read_attachment_map_readable cfg uid rid key st
                (valid_state_record_readable _ _ _ _ Hv))
      as (cur & has & st1 & Hr & _ & Hval & Hinval).
    rewrite Hr. cbn [fst snd]. rewrite Ha. intros Hexec.
    destruct has; [|exfalso; exact (Hinval eq_refl v Hv)].
    assert (cur = v).
    { destruct (Hval eq_refl) as [Hc _]. destruct Hv as [Hv _]. congruence. }
    subst v. split; [intros Hkeep; discriminate Hkeep|].
    pose proof (delete_case_claims e cur name st1 Hn) as H.
    rewrite Hexec in H. exact H.
Qed.

Lemma exec_map_names (m : list emap) :
  forall acc st,
    (forall n, In n (imageNamesToKeep st) ->
               In n (imageNamesToKeep (fst (Update.exec_map E cfg uid assetName m acc st))))
    /\ (forall n, In n (imageNamesToDelete st) ->
                  In n (imageNamesToDelete
                          (fst (Update.exec_map E cfg uid assetName m acc st)))).
Proof.
  induction m as [|em m IH]; intros acc st; cbn [Update.exec_map].
  - cbn [ret fst]. auto.
  - unfold bindM at 1 2. unfold lift. rewrite check_number_ok.
    unfold bindM at 1 2.
    destruct (exec_entries_names (emap_id em) (emap_entries em) [] st) as [Hk Hd].
    destruct (Update.exec_entries E cfg uid assetName (emap_id em) (emap_entries em) [] st)
      as [st1 [r|e]]; cbn [fst] in *.
    + destruct (IH (acc ++ [(emap_id em, r)])%list st1) as [Hk' Hd']. split; auto.
    + split; assumption.
Qed.

(** The loops, cut at a place they reach. *)
Lemma exec_entries_app (rid : Z) (pre rest : list (string * entry)) :
  forall acc st st1 acc1,
    Update.exec_entries E cfg uid assetName rid pre acc st = (st1, OK acc1) ->
    Update.exec_entries E cfg uid assetName rid (pre ++ rest) acc st
    = Update.exec_entries E cfg uid assetName rid rest acc1 st1.
Proof.
  induction pre as [|kv pre IH]; intros acc st st1 acc1; cbn [app Update.exec_entries].
  - cbn [ret]. intros H. injection H as <- <-. reflexivity.
  - unfold bindM at 1 2.
    destruct (Update.exec_entry E cfg uid assetName rid kv st) as [s [r|e]];
      [|discriminate].
    apply IH.
Qed.

Lemma exec_map_app (m1 rest : list emap) :
  forall acc st sA outA,
    Update.exec_map E cfg uid assetName m1 acc st = (sA, OK outA) ->
    Update.exec_map E cfg uid assetName (m1 ++ rest) acc st
    = Update.exec_map E cfg uid assetName rest outA sA.
Proof.
  induction m1 as [|em m1 IH]; intros acc st sA outA; cbn [app Update.exec_map].
  - cbn [ret]. intros H. injection H as <- <-. reflexivity.
  - unfold bindM at 1 3. unfold lift. rewrite check_number_ok.
    unfold bindM at 1 2.
    destruct (Update.exec_entries E cfg uid assetName (emap_id em) (emap_entries em) [] st)
      as [s [r|e]]; [|discriminate].
    apply IH.
Qed.

(** An entry that has had its turn in the loop over the fields of a record
    has left the name it claims in a list. *)
Lemma exec_entries_claimed (rid : Z) (key' : string) (e' : entry) (name : string)
    (pre : list (string * entry)) :
  forall acc st st1 acc1,
    Update.exec_entries E cfg uid assetName rid pre acc st = (st1, OK acc1) ->
    In (key', e') pre ->
    claims (disk st) rid key' e' name ->
    (action e' = Action.keep -> In name (imageNamesToKeep st1))
    /\ (In name (imageNamesToKeep st1) \/ In name (imageNamesToDelete st1)).
Proof.
  induction pre as [|kv pre IH]; intros acc st st1 acc1; cbn [Update.exec_entries].
  - intros _ [].
  - unfold bindM at 1.
    pose proof (exec_entry_attachmentsMap E cfg uid assetName rid kv st) as Hmap.
    destruct (Update.exec_entry E cfg uid assetName rid kv st) as [s [r|e]] eqn:Hkv;
      [|discriminate].
    cbn [fst] in Hmap. intros Hrest [Heq|Hin] Hclaims.
    + subst kv.
      destruct (exec_entry_claims rid key' e' name st s r Hkv Hclaims) as [Hk Hany].
      destruct (exec_entries_names rid pre (set_prop (fst (key', e')) r acc) s)
        as [Gk Gd].
      rewrite Hrest in Gk, Gd. cbn [fst] in Gk, Gd.
      split; [auto|]. destruct Hany; auto.
    + apply (IH _ s st1 acc1 Hrest Hin).
      exact (claims_ext (disk st) (disk s) rid key' e' name Hmap Hclaims).
Qed.

(** And so has an entry of a record that is done. *)
Lemma exec_map_claimed (em : emap) (key' : string) (e' : entry) (name : string)
    (m1 : list emap) :
  forall acc st sA outA,
    Update.exec_map E cfg uid assetName m1 acc st = (sA, OK outA) ->
    In em m1 -> In (key', e') (emap_entries em) ->
    claims (disk st) (emap_id em) key' e' name ->
    (action e' = Action.keep -> In name (imageNamesToKeep sA))
    /\ (In name (imageNamesToKeep sA) \/ In name (imageNamesToDelete sA)).
Proof.
  induction m1 as [|em1 m1 IH]; intros acc st sA outA; cbn [Update.exec_map].
  - intros _ [].
  - unfold bindM at 1. unfold lift. rewrite check_number_ok. unfold bindM at 1.
    pose proof (exec_entries_attachmentsMap E cfg uid assetName (emap_id em1)
                  (emap_entries em1) [] st) as Hmap.
    destruct (Update.exec_entries E cfg uid assetName (emap_id em1) (emap_entries em1) [] st)
      as [s [r|e]] eqn:Hem; [|discriminate].
    cbn [fst] in Hmap. intros Hrest [Heq|Hin] Hentry Hclaims.
    + subst em1.
      destruct (exec_entries_claimed (emap_id em) key' e' name (emap_entries em)
                  [] st s r Hem Hentry Hclaims) as [Hk Hany].
      destruct (exec_map_names m1 (acc ++ [(emap_id em, r)])%list s) as [Gk Gd].
      rewrite Hrest in Gk, Gd. cbn [fst] in Gk, Gd.
      split; [auto|]. destruct Hany; auto.
    + apply (IH _ s sA outA Hrest Hin Hentry).
      exact (claims_ext (disk st) (disk s) (emap_id em) key' e' name Hmap Hclaims).
Qed.

(** C5. In the run over the action map of an asset, an entry whose name an
    earlier entry has claimed ends as an error of its own. The loops have
    reached the entry without an uncaught error: the records [m1] and the
    entries [pre] of its record are done. An earlier entry, of this record
    or of a record before, has claimed the name: it is a keep with that
    target name, or a delete whose valid state record has that image name.
    The entry is a keep with the same target name after a keep, or a delete
    whose valid state record has the same image name after a keep or a
    delete. Then the name is in the list that the turn of the earlier entry
    has left it in, and the entry ends with status error and the message of
    the collision; the message is counted in the errors, the disk is as it
    was (the first file is not overwritten, moved or removed), the name
    lists do not take the name a second time, and the run is not ended: the
    loops go on with the next entry of the record and then with the next
    records. *)
Theorem duplicate_name_is_entry_error
    (m1 m2 : list emap) (rid : Z) (pre post : list (string * entry))
    (key : string) (e : entry) (rid' : Z) (key' : string) (e' : entry)
    (name : string) (st0 sA st1 : state)
    (outA : list (Z * list (string * result_entry)))
    (acc1 : list (string * result_entry)) :
  Update.exec_map E cfg uid assetName m1 [] st0 = (sA, OK outA) ->
  Update.exec_entries E cfg uid assetName rid pre [] sA = (st1, OK acc1) ->
  earlier m1 rid pre rid' key' e' ->
  claims (disk st0) rid' key' e' name ->
  claims (disk st0) rid key e name ->
  (action e = Action.keep -> action e' = Action.keep) ->
  Update.entry_checks e = OK tt ->
  state_file_readable (disk st0) rid key ->
  exists st2 r,
    Update.exec_entry E cfg uid assetName rid (key, e) st1 = (st2, OK r)
    /\ (action e' = Action.keep -> In name (imageNamesToKeep st1))
    /\ (In name (imageNamesToKeep st1) \/ In name (imageNamesToDelete st1))
    /\ r_status_ok r = false
    /\ r_error r = Some (collision_message st1 e name)
    /\ disk st2 = disk st1
    /\ errors st2 = (errors st1 ++ ["an error occurs while proccessing image - error: "
                                    +:+ collision_message st1 e name])%list
    /\ imageNamesToKeep st2 = imageNamesToKeep st1
    /\ imageNamesToDelete st2 = imageNamesToDelete st1
    /\ Update.exec_map E cfg uid assetName
         (m1 ++ {| emap_id := rid; emap_entries := pre ++ (key, e) :: post |} :: m2)
         [] st0
       = bindM (Update.exec_entries E cfg uid assetName rid post (set_prop key r acc1))
           (fun _result =>
              Update.exec_map E cfg uid assetName m2 (outA ++ [(rid, _result)])%list)
           st2.
Proof.
  intros Hm1 Hpre Hearlier Hclaims' Hclaims Horder Hchecks Hread.
  pose proof (exec_map_attachmentsMap E cfg uid assetName m1 [] st0) as HmapA.
  rewrite Hm1 in HmapA. cbn [fst] in HmapA.
  pose proof (exec_entries_attachmentsMap E cfg uid assetName rid pre [] sA) as Hmap1.
  rewrite Hpre in Hmap1. cbn [fst] in Hmap1.
  assert (Hmap : attachmentsMap (disk st1) = attachmentsMap (disk st0)) by congruence.
  (* the name is in a list *)
  assert (Hlist : (action e' = Action.keep -> In name (imageNamesToKeep st1))
                  /\ (In name (imageNamesToKeep st1) \/ In name (imageNamesToDelete st1))).
  { destruct Hearlier as [[-> Hin]|(em & Hem & <- & Hin)].
    - apply (exec_entries_claimed rid key' e' name pre [] sA st1 acc1 Hpre Hin).
      exact (claims_ext (disk st0) (disk sA) rid key' e' name HmapA Hclaims').
    - destruct (exec_map_claimed em key' e' name m1 [] st0 sA outA Hm1 Hem Hin Hclaims')
        as [Hk Hany].
      destruct (exec_entries_names rid pre [] sA) as [Gk Gd].
      rewrite Hpre in Gk, Gd. cbn [fst] in Gk, Gd.
      split; [auto|]. destruct Hany; auto. }
  destruct Hlist as [Hkeep Hany].
  (* the entry collides *)
  assert (Hcol : collides st1 rid key e name).
  { destruct Hclaims as [(Ha & Hatt & Hn)|(Ha & v & Hv & Hn)].
    - left. repeat split; auto.
    - right. split; [exact Ha|]. split; [|exact Hany].
      exists v. split; [|exact Hn].
      exact (valid_state_record_ext (disk st0) (disk st1) rid key v Hmap Hv). }
  destruct (collision_is_entry_error E cfg uid assetName rid key e name st1 Hchecks
              (state_file_readable_ext (disk st0) (disk st1) rid key Hmap Hread) Hcol)
    as (st2 & r & Hexec & Hstatus & Herror & Hdisk & Herrors & Hk2 & Hd2 & Hnext).
  exists st2, r. split; [exact Hexec|]. split; [exact Hkeep|]. split; [exact Hany|].
  split; [exact Hstatus|]. split; [exact Herror|]. split; [exact Hdisk|].
  split; [exact Herrors|]. split; [exact Hk2|]. split; [exact Hd2|].
  rewrite (exec_map_app m1 _ [] st0 sA outA Hm1). cbn [Update.exec_map].
  unfold bindM at 1. unfold lift. rewrite check_number_ok. cbn [emap_id emap_entries].
  unfold bindM.
  rewrite (exec_entries_app rid pre ((key, e) :: post) [] sA st1 acc1 Hpre).
  rewrite (Hnext post acc1). reflexivity.
Qed.

End Collisions.

(** C5 on the record whose fields share their pictures, in the loop over
    its fields from the start of the run: the keep of [photo_copy] after the
    keep of [photo_a] (the same target name), the delete of [photo_b] after
    that keep (its state record has the name), and the delete of [photo_e]
    after the delete of [photo_d] (the state records have the same name). *)
Lemma duplicate_name_is_entry_error_witness :
  (exists st2 r,
      Update.exec_entry example_env (example_configs false) "aeUTa3g2VzbPP5SGoTx8Rp"
        "survey" 1721 ("photo_copy", entry_keep_copy)
        (shared_state [("photo_a", entry_keep)]) = (st2, OK r)
      /\ r_status_ok r = false
      /\ r_error r = Some "in action 'keep': image name is duplicated: 1721_photo.jpg"
      /\ disk st2 = disk (shared_state [("photo_a", entry_keep)]))
  /\ (exists st2 r,
         Update.exec_entry example_env (example_configs false) "aeUTa3g2VzbPP5SGoTx8Rp"
           "survey" 1721 ("photo_b", entry_delete)
           (shared_state [("photo_a", entry_keep); ("photo_copy", entry_keep_copy)])
         = (st2, OK r)
         /\ r_status_ok r = false
         /\ r_error r
            = Some "in action 'delete': image name is duplicated in to-keep list: 1721_photo.jpg"
         /\ disk st2
            = disk (shared_state [("photo_a", entry_keep);
                                  ("photo_copy", entry_keep_copy)]))
  /\ (exists st2 r,
         Update.exec_entry example_env (example_configs false) "aeUTa3g2VzbPP5SGoTx8Rp"
           "survey" 1721 ("photo_e", entry_delete)
           (shared_state [("photo_a", entry_keep); ("photo_copy", entry_keep_copy);
                          ("photo_b", entry_delete); ("photo_d", entry_delete)])
         = (st2, OK r)
         /\ r_status_ok r = false
         /\ r_error r
            = Some "in action 'delete': image name is duplicated in to-delete list: 1721_old.jpg"
         /\ disk st2
            = disk (shared_state [("photo_a", entry_keep);
                                  ("photo_copy", entry_keep_copy);
                                  ("photo_b", entry_delete); ("photo_d", entry_delete)])).
Proof.
  split; [|split].
  - destruct (duplicate_name_is_entry_error example_env (example_configs false)
                "aeUTa3g2VzbPP5SGoTx8Rp" "survey" [] [] 1721
                [("photo_a", entry_keep)]
                [("photo_b", entry_delete); ("photo_d", entry_delete);
                 ("photo_e", entry_delete)]
                "photo_copy" entry_keep_copy 1721 "photo_a" entry_keep "1721_photo.jpg"
                (Executor.init world_shared) (Executor.init world_shared)
                (shared_state [("photo_a", entry_keep)]) []
                (shared_results [("photo_a", entry_keep)]))
      as (st2 & r & H1 & _ & _ & H2 & H3 & H4 & _).
    + reflexivity.
    + vm_compute. reflexivity.
    + left. split; [reflexivity|]. left. reflexivity.
    + left. split; [reflexivity|]. split; [discriminate | reflexivity].
    + left. split; [reflexivity|]. split; [discriminate | reflexivity].
    + intros _. reflexivity.
    + reflexivity.
    + exact I.
    + exists st2, r. split; [exact H1|]. split; [exact H2|]. split; [exact H3 | exact H4].
  - destruct (duplicate_name_is_entry_error example_env (example_configs false)
                "aeUTa3g2VzbPP5SGoTx8Rp" "survey" [] [] 1721
                [("photo_a", entry_keep); ("photo_copy", entry_keep_copy)]
                [("photo_d", entry_delete); ("photo_e", entry_delete)]
                "photo_b" entry_delete 1721 "photo_a" entry_keep "1721_photo.jpg"
                (Executor.init world_shared) (Executor.init world_shared)
                (shared_state [("photo_a", entry_keep); ("photo_copy", entry_keep_copy)])
                []
                (shared_results [("photo_a", entry_keep); ("photo_copy", entry_keep_copy)]))
      as (st2 & r & H1 & _ & _ & H2 & H3 & H4 & _).
    + reflexivity.
    + vm_compute. reflexivity.
    + left. split; [reflexivity|]. left. reflexivity.
    + left. split; [reflexivity|]. split; [discriminate | reflexivity].
    + right. split; [reflexivity|]. exists record_2395.
      split; [split; reflexivity | reflexivity].
    + discriminate.
    + reflexivity.
    + vm_compute. split; reflexivity.
    + exists st2, r. split; [exact H1|]. split; [exact H2|]. split; [exact H3 | exact H4].
  - destruct (duplicate_name_is_entry_error example_env (example_configs false)
                "aeUTa3g2VzbPP5SGoTx8Rp" "survey" [] [] 1721
                [("photo_a", entry_keep); ("photo_copy", entry_keep_copy);
                 ("photo_b", entry_delete); ("photo_d", entry_delete)]
                []
                "photo_e" entry_delete 1721 "photo_d" entry_delete "1721_old.jpg"
                (Executor.init world_shared) (Executor.init world_shared)
                (shared_state [("photo_a", entry_keep); ("photo_copy", entry_keep_copy);
                               ("photo_b", entry_delete); ("photo_d", entry_delete)])
                []
                (shared_results [("photo_a", entry_keep); ("photo_copy", entry_keep_copy);
                                 ("photo_b", entry_delete); ("photo_d", entry_delete)]))
      as (st2 & r & H1 & _ & _ & H2 & H3 & H4 & _).
    + reflexivity.
    + vm_compute. reflexivity.
    + left. split; [reflexivity|]. right. right. right. left. reflexivity.
    + right. split; [reflexivity|]. exists record_old.
      split; [split; reflexivity | reflexivity].
    + right. split; [reflexivity|]. exists record_old.
      split; [split; reflexivity | reflexivity].
    + discriminate.
    + reflexivity.
    + vm_compute. split; reflexivity.
    + exists st2, r. split; [exact H1|]. split; [exact H2|]. split; [exact H3 | exact H4].
Defined.

(** The whole run over the asset of that record, from the sweep on: the map
    is the one the builder makes, the sweeper leaves the picture, and of the
    five entries the second, the third and the fifth end on their collision;
    the loop runs to its end. *)
Example shared_pictures_run :
  (exists ma, Builder.buildActionMap [asset_shared] = OK [ma] /\ map ma = map_shared)
  /\ exists imc st,
       Update.update_asset example_env (example_configs false) "aeUTa3g2VzbPP5SGoTx8Rp"
         "survey" ImageCleaner.new map_shared world_shared
       = OK (imc,
             (st,
              OK [(1721,
                   [("photo_a",
                     {| r_entry := entry_keep; r_status_ok := false; r_op := "saveImage";
                        r_action_detail := None;
                        r_error := Some "expected string in @arg: 10,42" |});
                    ("photo_copy",
                     {| r_entry := entry_keep_copy; r_status_ok := false;
                        r_op := "saveImage"; r_action_detail := None;
                        r_error :=
                          Some "in action 'keep': image name is duplicated: 1721_photo.jpg" |});
                    ("photo_b",
                     {| r_entry := entry_delete; r_status_ok := false;
                        r_op := "deleteImage"; r_action_detail := None;
                        r_error :=
                          Some "in action 'delete': image name is duplicated in to-keep list: 1721_photo.jpg" |});
                    ("photo_d",
                     {| r_entry := entry_delete; r_status_ok := true;
                        r_op := "deleteImage";
                        r_action_detail := Some "image does not exists";
                        r_error := None |});
                    ("photo_e",
                     {| r_entry := entry_delete; r_status_ok := false;
                        r_op := "deleteImage"; r_action_detail := None;
                        r_error :=
                          Some "in action 'delete': image name is duplicated in to-delete list: 1721_old.jpg" |})])]))
       /\ imageNamesToKeep st = ["1721_photo.jpg"]
       /\ imageNamesToKeepDuplicated st = ["1721_photo.jpg"]
       /\ imageNamesToDelete st = ["1721_old.jpg"]
       /\ imageNamesToDeleteDuplicated st = ["1721_photo.jpg"; "1721_old.jpg"]
       /\ images (disk st) = images world_shared
       /\ requests (disk st) = 0%nat.
Proof.
  split.
  - eexists. split; [vm_compute; reflexivity | reflexivity].
  - eexists _, _. split; [vm_compute; reflexivity|].
    split; [reflexivity|]. split; [reflexivity|]. split; [reflexivity|].
    split; [reflexivity|]. split; reflexivity.
Qed.
